(* ===== verification/_CoqProject ===== *)
-Q . S2P
Prelude.v
GoStrings.v
GoFloat.v
GoNet.v
GoRunes.v
Config.v
RateLimit.v
LimiterRace.v
Queue.v
Mailboxes.v
Abuse.v
Bounce.v
AbuseSignals.v
SendGate.v
Identity.v
Signing.v
ConnLimiter.v
Spf.v
Base64.v
GoUrl.v
Nostr.v
Encryption.v
Envelope.v
Emails.v
MailOps.v
EmailStore.v
Mime.v
Delivery.v
Complaints.v
DkimVerify.v
Session.v
Inbound.v
EndToEnd.v
Blobseal.v
Blossom.v
SendService.v
InboundStore.v
Nip05.v
Http.v
Prog.v
SessionStore.v
RedisMarks.v
Auth.v
ClientAuth.v
AuthHistory.v
DkimKeys.v
Domains.v
Usage.v
EmailApi.v
Contacts.v
Migrate.v
Dsn.v
CloistrMe.v
Settings.v
Routes.v
