(* ===== verification/Prelude.v ===== *)
(** * Cloistr Email: a verification library

    Cloistr Email is a mail server in Go whose users are Nostr keys.  This
    library models its logic as executable definitions, translated from the
    source one function at a time, and proves what each part promises.  Paths
    below are relative to src/internal/, those in cmd/ to src/.

    ** The program

    A request of a signed-in user reaches [Service.Send] (email/service.go).
    The identity service decides which address the user may send as, the send
    gate asks for the account's tier, its send state and its rate limits, the
    checks of the encryption mode run, and the transport manager builds the
    message and delivers it by SMTP, directly to the recipients' exchangers or
    through a relay.  A copy goes to the database and attachments to Blossom
    servers, sealed.  Inbound mail arrives in SMTP sessions, passes connection
    limits, SPF, DKIM, the detection of complaints and bounces, and is parsed
    and stored once per recipient (of these steps main leaves out connection
    limits, SPF and DKIM, which are modelled as parts of the session all the same).  Bounces and complaints feed the abuse
    ladder, which holds or suspends accounts and parks their queued mail.
    Users prove their key by a signed challenge and hold a session token.

    ** Files

    Every file models one component and requires the files it calls.

    - [Prelude]: errors with wrapping, results and their bind notation, 64-bit
      integers, the clock, sums, shared tactics and hint databases.
    - [GoStrings], [GoRunes], [GoFloat], [GoNet], [GoUrl], [Base64], [Nostr]:
      what the program uses of strings, ranging over UTF-8, float64, net and
      netip, net/url, encoding/base64 and Nostr events.
    - [Config] (config/, cmd/email/main.go): the environment, and the jobs that
      are started.  [Routes] (cmd/email/main.go): the route table, served with
      the middleware of [ClientAuth] and [Domains]; the label of a path.
    - [RateLimit] (ratelimit/): fixed windows over a counter store;
      [LimiterRace]: sends that are limited at once.  [SendGate]
      (email/sendgate.go) composes it with tiers and the account's state.
    - [Queue] (transport/queue.go): the outbound queue as a table, its workers
      and their interleavings.  [Mailboxes] (storage/postgres.go): send state.
      [AbuseSignals], [Abuse] (abuse/): signals, rungs, marks, the detector;
      [RedisMarks] (abuse/marks.go): the ladder over the shared store of marks.
      [Bounce] (transport/bounce.go): classification and attribution.
    - [Identity] (identity/, storage/address_store.go): ownership of addresses;
      [CloistrMe] (identity/cloistr_me_client.go) asks the registrar.
      [Nip05] (encryption/nip05.go, nip05_guard.go): keys of foreign addresses,
      with the guard against requests to internal hosts.
    - [Http], [Prog]: replies and their errors; handlers as programs whose calls
      to Redis and to the database interleave and may fail.  [SessionStore],
      [Auth], [ClientAuth] (storage/redis.go, auth/nip46.go,
      api/auth_clientside.go, api/handler.go, api/nostrconnect_handler.go):
      challenges, sessions, remote signers; [AuthHistory]: their histories.
    - [Encryption], [Envelope] (encryption/): modes, signers, the shapes of
      ciphertexts.  [Signing] (email/signing.go, email/verify.go,
      signing/signer.go): canonical form, signatures and their verification.
    - [Mime], [Delivery] (transport/smtp.go, mx.go, dkim.go, transport.go):
      the bytes of a message and the dialogs that deliver it.
    - [DkimKeys], [Domains] (transport/dkim.go, dkim_keygen.go, domains/,
      api/internal_domains.go): signing keys, and the served domains on several
      replicas with the internal API.
    - [ConnLimiter], [Spf], [DkimVerify], [Complaints], [Session], [Inbound]
      (transport/ratelimit.go, spf.go, dkim_verify.go, fbl.go, inbound.go,
      email/inbound.go): the way in.
    - [Emails], [EmailStore], [MailOps] (storage/postgres.go, email/service.go,
      email/drafts.go): the stored mail; a specification of it as a map of
      visible messages, which uses nothing of the table's definitions, and the
      refinement; the operations of its owner.  [EmailApi]
      (api/email_handler.go, drafts_handler.go): their endpoints.
    - [Blobseal], [Blossom], [SendService], [InboundStore] (blobseal/, blossom/,
      email/service.go, email/inbound_attachments.go): attachments at rest, Send
      as a whole, and the attachments of what arrives.
    - [Contacts], [Settings] (api/handler.go, storage/postgres.go): the address
      book; keys, the preferred mode and relays.
    - [Usage] (usage/reconciler.go), [Migrate] (storage/migrate.go), [Dsn]
      (storage/postgres.go): the storage quota, schema migrations, and what of a
      connection string may be logged.
    - [EndToEnd]: what one server sends is what another receives.

    ** What is proved

    - Limits: no more messages than the limits allow are admitted one by one
      within a window, and at once at most one heaviest send more for each
      further worker, which does happen; a denied send consumes nothing; a
      blocked address stays blocked.
    - The queue: nothing is lost, held mail waits for its release, attempts are
      bounded, under all interleavings of workers; with one worker a failing
      message bounces exactly once.
    - The ladder: marks and the gate agree after every step; a suspend is
      lifted by an operator only, as long as its mark can be read, and a hold
      exactly when it is ripe; the store
      that replicas share refines the one of a single process.
    - Identity and sessions: one sends as an address one owns; a session needs
      a signature by its key over a challenge that is used once; lookups never
      connect to an internal host; a private route runs with the session of the
      token presented, the internal API with the secret.
    - Secrecy: client mode sends, stores and uploads ciphertext only, for
      recipients whose keys the server itself resolved; server mode never falls
      back to plaintext; Bcc is not disclosed; no text of a message breaks out of
      its header line, keys of the request apart; the credentials of a
      connection string that can be split stay out of the log.
    - Domains: a replica signs only with keys whose records the DNS showed.
    - Stored data: the tables refine a map of messages, pages make up the
      listing, nobody touches the mail or the contacts of
      others; every migration runs once, completely or not at all; a pass of the
      reconciler corrects the quota.
    - Round trips: signatures verify, sealed and uploaded attachments come
      back, of sent and of received mail, sent text is received, accepted mail
      is delivered to the accepted recipients and to nobody else.
    - Errors of the program: theorems named after what goes wrong, such as
      [late_reload_undoes_deactivation] in [Domains] or
      [remote_plaintext_under_zero_key] in [Auth], exhibit a run that does it.

    ** How it is modelled

    State is explicit.  A handler is a function from the state, the readings of
    the clock, the randomness and the faults of its calls to the new state and
    the result; where requests interleave it is a program of [Prog].  Tables are
    lists of rows in which a statement selects and updates as its SQL says, maps
    are [gmap]s.  What runs concurrently is a step relation or a sequence of
    operations in any order.  Integers that can overflow are wrapped at 64 bits;
    float64 is computed in binary64.

    Fuel appears in three places: the nesting of multipart bodies in [Inbound],
    where the length of the message suffices and is proved to; the levels of
    SPF includes, which the code itself bounds; and a send served alone in
    [LimiterRace], where enough fuel is shown to exist.

    Parameters stand for code outside src/: the database engine's faults, DNS,
    TCP and TLS, SHA-256, Schnorr signatures, NIP-44, the AEAD, the DKIM
    library, go-smtp, mux, JSON and the parsers of net/mail and mime.  Laws
    about them are named hypotheses or classes, each with an instance in a
    witness.  Where Go walks a map in random order the order is a parameter.

    ** Not modelled

    Logging and the Prometheus collectors; the start and the shutdown of the
    process; opening connections to PostgreSQL and Redis; the Lua script of the
    counter store, which the Redis server runs (the limiter is proved over any
    store with its laws); the relay client, a wrapper of another repository; the
    NIP-05 table and the audit log, which nothing uses; the web interface and
    static data.  Strings are bytes: Unicode case folding is ASCII only.
    Timeouts are faults of the call they interrupt. *)

From stdpp Require Export base list gmap strings pretty.
From Stdlib Require Export ZArith Lia Ascii.

#[global] Open Scope Z_scope.
#[global] Arguments String.append !_ _ / : simpl nomatch.

(** * Tactics and hint databases *)

Create HintDb email discriminated.
Create Rewrite HintDb email.

(** Split a decision that the program takes and rewrite with both branches. *)
Ltac go_match :=
  repeat (case_match; simplify_eq/=; try done).

(** Turn the boolean comparisons of a hypothesis into propositions. *)
Ltac reflect_bools :=
  repeat match goal with
  | H : _ && _ = true |- _ => apply andb_true_iff in H as [? ?]
  | H : _ || _ = false |- _ => apply orb_false_iff in H as [? ?]
  | H : negb _ = true |- _ => apply negb_true_iff in H
  | H : negb _ = false |- _ => apply negb_false_iff in H
  | H : (_ <? _) = true |- _ => apply Z.ltb_lt in H
  | H : (_ <? _) = false |- _ => apply Z.ltb_ge in H
  | H : (_ <=? _) = true |- _ => apply Z.leb_le in H
  | H : (_ <=? _) = false |- _ => apply Z.leb_gt in H
  | H : (_ =? _) = true |- _ => apply Z.eqb_eq in H
  | H : (_ =? _) = false |- _ => apply Z.eqb_neq in H
  | H : String.eqb _ _ = true |- _ => apply String.eqb_eq in H
  | H : String.eqb _ _ = false |- _ => apply String.eqb_neq in H
  end.

(** * Errors and results

    An [error] is a sentinel ([errors.New]) or a sentinel wrapped with context
    ([fmt.Errorf] with %w); [errors_is] is [errors.Is]. *)

Inductive error : Type :=
| Sentinel (msg : string)
| Wrapped (ctx : string) (cause : error).

#[export] Instance error_eq_dec : EqDecision error.
Proof. solve_decision. Defined.

Fixpoint errors_is (e target : error) : bool :=
  bool_decide (e = target) ||
  match e with
  | Sentinel _ => false
  | Wrapped _ c => errors_is c target
  end.

Inductive res (A : Type) : Type :=
| Ok (a : A)
| Err (e : error).
Arguments Ok {A} a.
Arguments Err {A} e.

Definition res_bind {A B} (r : res A) (k : A -> res B) : res B :=
  match r with
  | Ok a => k a
  | Err e => Err e
  end.

(** [wrap ctx r]: the [if err != nil { return fmt.Errorf("ctx: %w", err) }] idiom. *)
Definition wrap {A} (ctx : string) (r : res A) : res A :=
  match r with
  | Ok a => Ok a
  | Err e => Err (Wrapped ctx e)
  end.

Declare Scope go_scope.
Delimit Scope go_scope with go.
Notation "'let!' x ':=' r 'in' k" := (res_bind r (fun x => k))
  (at level 10, x pattern, r at level 100, k at level 200) : go_scope.
#[global] Open Scope go_scope.

Definition is_ok {A} (r : res A) : bool :=
  match r with Ok _ => true | Err _ => false end.

(** * Machine integers: Go's [int] and [int64] are 64-bit two's complement. *)

Definition i64_min : Z := -2 ^ 63.
Definition i64_max : Z := 2 ^ 63 - 1.
Definition wrap64 (z : Z) : Z := (z + 2 ^ 63) mod 2 ^ 64 - 2 ^ 63.
Definition in_i64 (z : Z) : Prop := i64_min <= z <= i64_max.

Lemma wrap64_id z : in_i64 z -> wrap64 z = z.
Proof. unfold in_i64, i64_min, i64_max, wrap64; intros; rewrite Z.mod_small; lia. Qed.

Lemma wrap64_range z : in_i64 (wrap64 z).
Proof.
  unfold in_i64, i64_min, i64_max, wrap64.
  pose proof (Z.mod_pos_bound (z + 2 ^ 63) (2 ^ 64)); lia.
Qed.

(** * Time

    A [time.Time] is the number of nanoseconds since Go's zero time (1 January
    of year 1, UTC); a [time.Duration] is a number of nanoseconds. *)

Definition nanosecond : Z := 1.
Definition second : Z := 1000000000.
Definition minute : Z := 60 * second.
Definition hour : Z := 60 * minute.
Definition day : Z := 24 * hour.

(** [t.Sub u] saturates at the range of a Duration. *)
Definition time_sub (t u : Z) : Z := Z.max i64_min (Z.min i64_max (t - u)).

(** [t.Truncate d] rounds down to a multiple of [d] since the zero time; a
    duration that is not positive leaves [t] unchanged. *)
Definition truncate (t d : Z) : Z := if d <=? 0 then t else t - t mod d.

(** [t.Unix()]: seconds since 1970. *)
Definition unix (t : Z) : Z := t / second - 62135596800.

Lemma time_sub_exact t u : in_i64 (t - u) -> time_sub t u = t - u.
Proof. unfold time_sub, in_i64, i64_min, i64_max; lia. Qed.

Lemma truncate_bounds t d : 0 < d -> truncate t d <= t < truncate t d + d.
Proof.
  unfold truncate; intros Hd; destruct (Z.leb_spec d 0); [lia|].
  pose proof (Z.mod_pos_bound t d Hd); lia.
Qed.

#[export] Hint Resolve wrap64_range : email.
#[export] Hint Rewrite @wrap64_id using (unfold in_i64, i64_min, i64_max in *; lia) : email.

(** ** Sums *)

Definition Zsum (l : list Z) : Z := fold_right Z.add 0 l.

Lemma Zsum_app a b : Zsum (a ++ b) = Zsum a + Zsum b.
Proof. induction a as [|x a IH]; simpl; [done|]. rewrite IH. lia. Qed.

(** Replacing one of the summands. *)
Lemma Zsum_insert {A} (f : A -> Z) (l : list A) i x y :
  l !! i = Some x -> Zsum (map f (<[i := y]> l)) = Zsum (map f l) - f x + f y.
Proof.
  revert i. induction l as [|z l IH]; intros [|i] Hi; simplify_eq/=; [lia|]. rewrite (IH _ Hi). lia.
Qed.

Lemma Zsum_le {A} (f g : A -> Z) (l : list A) : (forall x, x ∈ l -> f x <= g x) -> Zsum (map f l) <= Zsum (map g l).
Proof.
  induction l as [|z l IH]; intros Hl; simpl; [done|]. pose proof (Hl z ltac:(by left)).
  assert (Zsum (map f l) <= Zsum (map g l)) by (apply IH; intros x Hx; apply Hl; by right). lia.
Qed.
