(* ===== verification/GoStrings.v ===== *)
(** * The part of Go's [strings] package the program uses

    A Go string is a byte string: [string] of the Standard Library.  Case
    mapping and the white-space class are those of the ASCII range; on bytes
    above 127, where Go decodes UTF-8 first, [to_lower] is the identity. *)

From S2P Require Import Prelude.

(** ** Character classes *)

Definition char_code (c : ascii) : nat := nat_of_ascii c.
Definition between (lo hi : ascii) (c : ascii) : bool :=
  (char_code lo <=? char_code c)%nat && (char_code c <=? char_code hi)%nat.
Definition is_upper : ascii -> bool := between "A" "Z".
Definition is_lower : ascii -> bool := between "a" "z".
Definition is_digit : ascii -> bool := between "0" "9".
Definition is_letter (c : ascii) : bool := is_upper c || is_lower c.
(** \t \n \v \f \r and the space. *)
Definition is_space (c : ascii) : bool :=
  between "009" "013" c || Ascii.eqb c " ".

Definition lower_char (c : ascii) : ascii :=
  if is_upper c then ascii_of_nat (char_code c + 32) else c.

Definition CR : ascii := "013".
Definition LF : ascii := "010".

(** ** Case *)

Fixpoint to_lower (s : string) : string :=
  match s with
  | "" => ""
  | String c t => String (lower_char c) (to_lower t)
  end.

(** [strings.EqualFold] on ASCII. *)
Definition equal_fold (a b : string) : bool := String.eqb (to_lower a) (to_lower b).

(** ** Searching *)

Definition has_prefix (s p : string) : bool := String.prefix p s.

Fixpoint contains (s sub : string) : bool :=
  has_prefix s sub ||
  match s with
  | "" => false
  | String _ t => contains t sub
  end.

Fixpoint has_suffix (s suf : string) : bool :=
  String.eqb s suf ||
  match s with
  | "" => false
  | String _ t => has_suffix t suf
  end.

(** Does any of the [subs] occur in [s]? (the keyword-table loops) *)
Definition contains_any (s : string) (subs : list string) : bool :=
  existsb (contains s) subs.

Fixpoint forall_chars (p : ascii -> bool) (s : string) : bool :=
  match s with
  | "" => true
  | String c t => p c && forall_chars p t
  end.

Definition has_char (c : ascii) (s : string) : bool :=
  negb (forall_chars (fun d => negb (Ascii.eqb c d)) s).

Definition str_len (s : string) : Z := Z.of_nat (String.length s).

(** [strings.Cut]: around the first [c]. *)
Fixpoint cut (c : ascii) (s : string) : option (string * string) :=
  match s with
  | "" => None
  | String d t =>
      if Ascii.eqb c d then Some ("", t)
      else match cut c t with
           | Some (a, b) => Some (String d a, b)
           | None => None
           end
  end.

(** Around the last [c] ([strings.LastIndex] and the two slices). *)
Fixpoint cut_last (c : ascii) (s : string) : option (string * string) :=
  match s with
  | "" => None
  | String d t =>
      match cut_last c t with
      | Some (a, b) => Some (String d a, b)
      | None => if Ascii.eqb c d then Some ("", t) else None
      end
  end.

(** [strings.Split] with a one-byte separator. *)
Fixpoint split (c : ascii) (s : string) : list string :=
  match s with
  | "" => [""]
  | String d t =>
      if Ascii.eqb c d then "" :: split c t
      else match split c t with
           | [] => [String d ""]
           | w :: ws => String d w :: ws
           end
  end.

(** [strings.Join]. *)
Fixpoint join (sep : string) (ws : list string) : string :=
  match ws with
  | [] => ""
  | [w] => w
  | w :: rest => w +:+ sep +:+ join sep rest
  end.

(** ** Trimming and fields *)

Fixpoint trim_left (p : ascii -> bool) (s : string) : string :=
  match s with
  | "" => ""
  | String c t => if p c then trim_left p t else s
  end.

Fixpoint trim_right (p : ascii -> bool) (s : string) : string :=
  match s with
  | "" => ""
  | String c t =>
      match trim_right p t with
      | "" => if p c then "" else String c ""
      | t' => String c t'
      end
  end.

Definition trim_space (s : string) : string := trim_right is_space (trim_left is_space s).

(** [strings.Fields]; [cur] is the field being read, reversed order avoided by
    appending at its end. *)
Fixpoint fields_go (cur : string) (s : string) : list string :=
  match s with
  | "" => if String.eqb cur "" then [] else [cur]
  | String c t =>
      if is_space c
      then (if String.eqb cur "" then [] else [cur]) ++ fields_go "" t
      else fields_go (cur +:+ String c "") t
  end.
Definition fields (s : string) : list string := fields_go "" s.

(** ** Replacement

    [strings.ReplaceAll] for a non-empty [old]; [skip] counts the bytes of a
    match that are still to be dropped. *)
Fixpoint replace_go (old new : string) (skip : nat) (s : string) : string :=
  match s with
  | "" => ""
  | String c t =>
      match skip with
      | S k => replace_go old new k t
      | O => if has_prefix s old
             then new +:+ replace_go old new (String.length old - 1) t
             else String c (replace_go old new 0 t)
      end
  end.
Definition replace_all (s old new : string) : string := replace_go old new 0 s.

(** ** Slices *)

(** [s[:n]] and [s[n:]] (for [n] within the string). *)
Definition take_str (n : nat) (s : string) : string := String.substring 0 n s.
(** What [io.LimitReader(r, n)] lets through. *)
Definition limit_str (n : Z) (s : string) : string :=
  if str_len s <=? n then s else take_str (Z.to_nat n) s.
Fixpoint drop_str (n : nat) (s : string) : string :=
  match n, s with
  | O, _ => s
  | S _, "" => ""
  | S k, String _ t => drop_str k t
  end.

(** ** Hexadecimal ([encoding/hex]) *)

Definition hex_digit (n : nat) : ascii := ascii_of_nat (if (n <? 10)%nat then 48 + n else 87 + n).
Fixpoint hex_encode (s : string) : string :=
  match s with
  | "" => ""
  | String c t =>
      String (hex_digit (char_code c / 16)) (String (hex_digit (char_code c mod 16)) (hex_encode t))
  end.

Definition is_hex (c : ascii) : bool := is_digit c || between "a" "f" (lower_char c).
(** [hex.DecodeString] succeeds. *)
Definition hex_decodes (s : string) : bool := (str_len s mod 2 =? 0) && forall_chars is_hex s.

(** * Lemmas *)

Lemma app_nil_r_str (s : string) : (s +:+ "" = s)%string.
Proof. induction s as [|x s IH]; simpl; [done|]. by rewrite IH. Qed.

Lemma app_assoc_str (a b c : string) : (a +:+ b) +:+ c = a +:+ (b +:+ c).
Proof. induction a as [|x a IH]; simpl; [done|]. by rewrite IH. Qed.

Lemma app_inv_head_str (a b c : string) : a +:+ b = a +:+ c -> b = c.
Proof. induction a; simpl; intros; [done|]; simplify_eq; auto. Qed.

Lemma forall_chars_app p a b :
  forall_chars p (a +:+ b) = forall_chars p a && forall_chars p b.
Proof. induction a; simpl; [done|]. by rewrite IHa, andb_assoc. Qed.

Lemma forall_chars_impl (p q : ascii -> bool) s :
  (forall c, p c = true -> q c = true) -> forall_chars p s = true -> forall_chars q s = true.
Proof. induction s; simpl; intros; reflect_bools; [done|]. rewrite H, IHs; auto. Qed.

Definition no_char (c : ascii) (s : string) : bool := forall_chars (fun d => negb (Ascii.eqb c d)) s.

Lemma no_char_cons c d s : no_char c (String d s) = negb (Ascii.eqb c d) && no_char c s.
Proof. done. Qed.

Lemma no_char_app c a b : no_char c (a +:+ b) = no_char c a && no_char c b.
Proof. apply forall_chars_app. Qed.

Lemma length_app_str (a b : string) : String.length (a +:+ b) = (String.length a + String.length b)%nat.
Proof. induction a as [|x a IH]; simpl; [done|]. by rewrite IH. Qed.

(** A separator splits a string uniquely when the tail is free of it. *)
Lemma sep_inj (c : ascii) (s1 s2 t1 t2 : string) :
  no_char c t1 = true -> no_char c t2 = true ->
  s1 +:+ String c t1 = s2 +:+ String c t2 -> s1 = s2 /\ t1 = t2.
Proof.
  intros H1 H2. revert s2.
  induction s1 as [|d s1 IH]; intros [|d2 s2] Heq; simpl in *; simplify_eq; try done.
  - exfalso. unfold no_char in H1. rewrite forall_chars_app in H1. simpl in H1.
    rewrite Ascii.eqb_refl in H1. simpl in H1. reflect_bools. done.
  - exfalso. unfold no_char in H2. rewrite forall_chars_app in H2. simpl in H2.
    rewrite Ascii.eqb_refl in H2. simpl in H2. reflect_bools. done.
  - destruct (IH s2) as [-> ->]; done.
Qed.

Lemma sep_inj_l (c : ascii) (s1 s2 t1 t2 : string) :
  no_char c s1 = true -> no_char c s2 = true ->
  s1 +:+ String c t1 = s2 +:+ String c t2 -> s1 = s2 /\ t1 = t2.
Proof.
  intros H1 H2. revert s2 H2.
  induction s1 as [|d s1 IH]; intros [|d2 s2] H2 Heq; simpl in *; simplify_eq; try done;
    try (unfold no_char in *; simpl in *; by rewrite Ascii.eqb_refl in *).
  unfold no_char in *; simpl in *; reflect_bools.
  destruct (IH ltac:(done) s2) as [-> ->]; done.
Qed.

Lemma has_prefix_cons c d s p :
  has_prefix (String c s) (String d p) = Ascii.eqb d c && has_prefix s p.
Proof.
  unfold has_prefix. cbn [String.prefix]. destruct (ascii_dec d c) as [->|Hn].
  - by rewrite Ascii.eqb_refl.
  - by rewrite (proj2 (Ascii.eqb_neq d c) Hn).
Qed.

Lemma has_prefix_nil s : has_prefix s "" = true.
Proof. by destruct s. Qed.

Lemma has_prefix_spec s p : has_prefix s p = true <-> exists t, s = p +:+ t.
Proof.
  revert s. induction p as [|d p IH]; intros s.
  { rewrite has_prefix_nil. split; [by exists s|done]. }
  destruct s as [|c s]; [split; [done|by intros [t ?]]|].
  rewrite has_prefix_cons, andb_true_iff, Ascii.eqb_eq, IH. simpl. split.
  - intros (-> & t & ->). by exists t.
  - intros (t & [= -> ->]). eauto.
Qed.

Lemma lower_char_idemp c : lower_char (lower_char c) = lower_char c.
Proof. destruct c as [[] [] [] [] [] [] [] []]; reflexivity. Qed.

Lemma to_lower_idemp s : to_lower (to_lower s) = to_lower s.
Proof. induction s; simpl; [done|]. by rewrite lower_char_idemp, IHs. Qed.

Lemma to_lower_app a b : to_lower (a +:+ b) = to_lower a +:+ to_lower b.
Proof. induction a as [|x a IH]; simpl; [done|]. by rewrite IH. Qed.

Lemma to_lower_length s : String.length (to_lower s) = String.length s.
Proof. induction s as [|x s IH]; simpl; [done|]. by rewrite IH. Qed.

Lemma equal_fold_refl s : equal_fold s s = true.
Proof. apply String.eqb_refl. Qed.

Lemma equal_fold_spec a b : equal_fold a b = true <-> to_lower a = to_lower b.
Proof. apply String.eqb_eq. Qed.

Lemma equal_fold_to_lower s : equal_fold (to_lower s) s = true.
Proof. apply equal_fold_spec, to_lower_idemp. Qed.

(** ** Numbers ([strconv]) *)

Fixpoint decimal (acc : Z) (s : string) : option Z :=
  match s with
  | "" => Some acc
  | String c t => if is_digit c then decimal (10 * acc + Z.of_nat (char_code c - 48)) t else None
  end.

(** [strconv.Atoi]: the value, clamped to 64 bits, and whether there was no
    error; without digits the value is zero. *)
Definition atoi (s : string) : Z * bool :=
  let '(neg, digits) := match s with
                        | String "-" t => (true, t)
                        | String "+" t => (false, t)
                        | _ => (false, s)
                        end in
  match digits with
  | "" => (0, false)
  | _ =>
      match decimal 0 digits with
      | None => (0, false)
      | Some n =>
          let n := if neg then - n else n in
          if n <? -2 ^ 63 then (-2 ^ 63, false) else if 2 ^ 63 - 1 <? n then (2 ^ 63 - 1, false) else (n, true)
      end
  end.

(** Decimal numbers contain only digits and a sign. *)
Definition digit_or_sign (c : ascii) : bool := is_digit c || Ascii.eqb c "-".

Lemma pretty_N_char_digit n : is_digit (pretty_N_char n) = true.
Proof. unfold pretty_N_char. by repeat case_match. Qed.

Lemma pretty_N_go_chars p n s :
  (forall m, p (pretty_N_char m) = true) -> forall_chars p s = true ->
  forall_chars p (pretty_N_go n s) = true.
Proof.
  intros Hp. revert s. induction (N.lt_wf_0 n) as [n _ IH]; intros s Hs.
  destruct (decide (n = 0)%N) as [->|Hn]; [by rewrite pretty_N_go_0|].
  rewrite pretty_N_go_step by lia. apply IH; [apply N.div_lt; lia|].
  simpl. by rewrite Hp, Hs.
Qed.

Lemma pretty_N_digits (n : N) : forall_chars is_digit (pretty n) = true.
Proof.
  unfold pretty, pretty_N. case_decide; [done|].
  apply pretty_N_go_chars; [apply pretty_N_char_digit|done].
Qed.

Lemma pretty_Z_chars (z : Z) : forall_chars digit_or_sign (pretty z) = true.
Proof.
  assert (forall n : N, forall_chars digit_or_sign (pretty n) = true) as HN.
  { intros n. eapply forall_chars_impl, pretty_N_digits.
    intros c Hc. unfold digit_or_sign. by rewrite Hc. }
  destruct z; [done| |]; unfold pretty, pretty_Z; [apply HN|].
  simpl. apply HN.
Qed.

Lemma pretty_Z_no_colon (z : Z) : no_char ":" (pretty z) = true.
Proof.
  eapply forall_chars_impl, pretty_Z_chars.
  intros c Hc. destruct (Ascii.eqb_spec ":" c) as [<-|]; done.
Qed.

(** Nothing to trim. *)
Definition free_of (p : ascii -> bool) (s : string) : bool := forall_chars (fun c => negb (p c)) s.

Lemma trim_left_free p s : free_of p s = true -> trim_left p s = s.
Proof. destruct s as [|c s]; [done|]. unfold free_of. simpl. intros H. reflect_bools. by rewrite H. Qed.

Lemma trim_right_free p s : free_of p s = true -> trim_right p s = s.
Proof.
  induction s as [|c s IH]; [done|]. unfold free_of. simpl. intros H. reflect_bools.
  rewrite IH by done. destruct s; [by rewrite H|done].
Qed.

Lemma trim_space_free s : free_of is_space s = true -> trim_space s = s.
Proof. intros H. unfold trim_space. by rewrite trim_left_free, trim_right_free. Qed.

Lemma hex_not_space c : is_hex (lower_char c) = true -> is_space c = false.
Proof. destruct c as [[] [] [] [] [] [] [] []]; vm_compute; done. Qed.

(** A hexadecimal text, whatever its case, has no blanks. *)
Lemma hex_trim v : hex_decodes (to_lower v) = true -> trim_space v = v.
Proof.
  unfold hex_decodes. intros [_ Hh]%andb_true_iff. apply trim_space_free. unfold free_of.
  induction v as [|c v IH]; [done|]. simpl in *. reflect_bools. by rewrite hex_not_space, IH.
Qed.

Lemma hex_lower c : is_hex c = true -> is_hex (lower_char c) = true.
Proof. destruct c as [[] [] [] [] [] [] [] []]; vm_compute; done. Qed.

Lemma hex_decodes_lower v : hex_decodes v = true -> hex_decodes (to_lower v) = true.
Proof.
  unfold hex_decodes, str_len. rewrite to_lower_length. intros [-> Hh]%andb_true_iff. simpl.
  induction v as [|c v IH]; [done|]. simpl in *. reflect_bools. by rewrite hex_lower, IH.
Qed.

#[export] Hint Resolve equal_fold_refl equal_fold_to_lower pretty_Z_no_colon : email.
#[export] Hint Rewrite app_nil_r_str app_assoc_str to_lower_idemp : email.

Lemma cut_last_app c a b : no_char c b = true -> cut_last c (a +:+ String c b) = Some (a, b).
Proof.
  intros Hb. assert (cut_last c b = None) as Hn.
  { induction b as [|d b IH]; [done|]. unfold no_char in Hb. simpl in Hb. reflect_bools.
    simpl. rewrite IH by done. by rewrite H. }
  induction a as [|d a IH]; simpl; [by rewrite Hn, Ascii.eqb_refl|by rewrite IH].
Qed.

Lemma cut_app c a b : no_char c a = true -> cut c (a +:+ String c b) = Some (a, b).
Proof.
  induction a as [|d a IH]; intros Ha; simpl; [by rewrite Ascii.eqb_refl|].
  unfold no_char in Ha. simpl in Ha. reflect_bools. by rewrite H, IH.
Qed.

Lemma split_app_sep c w rest :
  no_char c w = true -> split c (w +:+ String c rest) = w :: split c rest.
Proof.
  induction w as [|d w IH]; simpl; [by rewrite Ascii.eqb_refl|].
  rewrite no_char_cons. intros H; reflect_bools.
  destruct (Ascii.eqb c d); [done|]. by rewrite IH.
Qed.

Lemma split_single c w : no_char c w = true -> split c w = [w].
Proof.
  induction w as [|d w IH]; simpl; [done|].
  rewrite no_char_cons. intros H; reflect_bools.
  destruct (Ascii.eqb c d); [done|]. by rewrite IH.
Qed.

Lemma join_cons sep w ws : ws <> [] -> join sep (w :: ws) = w +:+ sep +:+ join sep ws.
Proof. by destruct ws. Qed.

Lemma split_join c ws :
  ws <> [] -> Forall (fun w => no_char c w = true) ws -> split c (join (String c "") ws) = ws.
Proof.
  intros Hne Hf. induction Hf as [|w ws Hw Hf IH]; [done|].
  destruct ws as [|w' ws]; [by apply split_single|].
  rewrite join_cons by done. change (String c "" +:+ ?x) with (String c x).
  by rewrite split_app_sep, IH.
Qed.
