(* ===== verification/GoFloat.v ===== *)
(** * Go's float64

    IEEE 754 binary64 through the Standard Library's [SpecFloat] (round to
    nearest, ties to even), and the [%.nf] verb of package fmt. *)

From S2P Require Import Prelude.
From Stdlib Require Import SpecFloat.
#[local] Open Scope Z_scope.

Abbreviation float64 := spec_float.

(** [float64(z)]. *)
Definition of_int (z : Z) : float64 := binary_normalize 53 1024 z 0 false.
Definition fdiv : float64 -> float64 -> float64 := SFdiv 53 1024.
Definition fmul : float64 -> float64 -> float64 := SFmul 53 1024.
Definition f_ge (x y : float64) : bool := SFleb y x.
Definition f_pos (x : float64) : bool := SFltb (S754_zero false) x.

(** The literal [p/q]: the double nearest to it, which the correctly rounded
    quotient is. *)
Definition lit (p q : Z) : float64 := fdiv (of_int p) (of_int q).

(** Division rounding half to even, for [0 <= n] and [0 < d]. *)
Definition div_half_even (n d : Z) : Z :=
  let q := n / d in
  match 2 * (n mod d) ?= d with
  | Lt => q
  | Gt => q + 1
  | Eq => if Z.even q then q else q + 1
  end.

Fixpoint pad_zeros (n : nat) (s : string) : string :=
  match n with
  | O => s
  | S k => if (String.length s <? n)%nat then String "0" (pad_zeros k s) else s
  end.

(** [fmt.Sprintf("%.<digits>f", x)]. *)
Definition format_fixed (digits : Z) (x : float64) : string :=
  match x with
  | S754_nan => "NaN"
  | S754_infinity false => "+Inf"
  | S754_infinity true => "-Inf"
  | S754_zero s =>
      (if s then "-" else "") +:+ "0." +:+ pad_zeros (Z.to_nat digits) ""
  | S754_finite s m e =>
      let n := Zpos m * 10 ^ digits in
      let r := if 0 <=? e then n * 2 ^ e else div_half_even n (2 ^ (- e)) in
      (if s then "-" else "") +:+ pretty (r / 10 ^ digits) +:+ "." +:+
        pad_zeros (Z.to_nat digits) (pretty (r mod 10 ^ digits))
  end.

Example format_fixed_examples :
  format_fixed 1 (fmul (lit 7 20) (of_int 100)) = "35.0" /\
  format_fixed 2 (fmul (lit 1 1000) (of_int 100)) = "0.10" /\
  format_fixed 1 (lit 1 4) = "0.2" /\ format_fixed 1 (of_int 0) = "0.0".
Proof. vm_compute. done. Qed.

(** The literals of the program and the quotients they are compared with are
    the same doubles: 7 of 20 reaches the threshold 0.35. *)
Example threshold_reached : f_ge (fdiv (of_int 7) (of_int 20)) (lit 35 100) = true.
Proof. reflexivity. Qed.

(** ** Comparison is a total preorder on the rates the program computes *)

Definition is_nan (x : float64) : bool := match x with S754_nan => true | _ => false end.

Lemma f_ge_refl x : is_nan x = false -> f_ge x x = true.
Proof.
  unfold f_ge, SFleb. destruct x as [s|s| |s m e]; try done; intros _; simpl.
  - by destruct s.
  - rewrite Z.compare_refl, Pos.compare_refl. by destruct s.
Qed.
