(* ===== verification/GoNet.v ===== *)
(** * The part of Go's package net the program uses: addresses and networks

    An address is kept as [net.IP.To4] normalizes it: the IPv4-mapped IPv6
    addresses are IPv4.  [parse_ip] accepts what [net.ParseIP] accepts (no zone). *)

From S2P Require Import Prelude GoStrings.

Inductive ip := V4 (z : Z) | V6 (z : Z).
#[export] Instance ip_eq_dec : EqDecision ip.
Proof. solve_decision. Defined.

Definition digit_value (c : ascii) : Z := Z.of_nat (char_code c) - 48.

Fixpoint decimal_go (acc : Z) (s : string) : option Z :=
  match s with
  | "" => Some acc
  | String c t => if is_digit c then decimal_go (10 * acc + digit_value c) t else None
  end.
(** A non-empty run of digits. *)
Definition decimal (s : string) : option Z := if String.eqb s "" then None else decimal_go 0 s.

Definition octet (s : string) : option Z :=
  n ← decimal s;
  if (255 <? n) || (has_prefix s "0" && (1 <? str_len s)) then None else Some n.

Definition parse_v4 (s : string) : option Z :=
  match map octet (split "." s) with
  | [Some a; Some b; Some c; Some d] => Some (((a * 256 + b) * 256 + c) * 256 + d)
  | _ => None
  end.

Definition hex_value (c : ascii) : option Z :=
  if is_digit c then Some (digit_value c)
  else if between "a" "f" (lower_char c) then Some (Z.of_nat (char_code (lower_char c)) - 87)
  else None.

Fixpoint hex_go (acc : Z) (s : string) : option Z :=
  match s with
  | "" => Some acc
  | String c t => d ← hex_value c; hex_go (16 * acc + d) t
  end.
(** One to four hexadecimal digits. *)
Definition hex_group (s : string) : option Z :=
  if String.eqb s "" || (4 <? str_len s) then None else hex_go 0 s.

(** The 16-bit groups of one side of a "::"; the last field of the address may
    be a dotted IPv4 address. *)
Fixpoint groups (allow_v4 : bool) (fs : list string) : option (list Z) :=
  match fs with
  | [] => Some []
  | [f] =>
      match hex_group f with
      | Some g => Some [g]
      | None => if allow_v4 then n ← parse_v4 f; Some [n / 65536; n mod 65536] else None
      end
  | f :: fs => g ← hex_group f; gs ← groups allow_v4 fs; Some (g :: gs)
  end.

Definition side (allow_v4 : bool) (s : string) : option (list Z) :=
  if String.eqb s "" then Some [] else groups allow_v4 (split ":" s).

(** Around the first "::". *)
Fixpoint cut_ellipsis (s : string) : option (string * string) :=
  match s with
  | String ":" (String ":" t) => Some ("", t)
  | String c t => match cut_ellipsis t with Some (a, b) => Some (String c a, b) | None => None end
  | "" => None
  end.

Definition of_groups (gs : list Z) : Z := fold_left (fun acc g => acc * 65536 + g) gs 0.

Definition parse_v6 (s : string) : option Z :=
  match cut_ellipsis s with
  | Some (l, r) =>
      gl ← side false l; gr ← side true r;
      let n := (length gl + length gr)%nat in
      if (n <? 8)%nat then Some (of_groups (gl ++ repeat 0 (8 - n) ++ gr)) else None
  | None =>
      gs ← groups true (split ":" s);
      if (length gs =? 8)%nat then Some (of_groups gs) else None
  end.

(** [To4] of a 16-byte address. *)
Definition to4 (z : Z) : ip := if Z.shiftr z 32 =? 65535 then V4 (Z.land z (Z.ones 32)) else V6 z.

(** The first of '.', ':' and '%' decides the family. *)
Fixpoint address_kind (s : string) : option ascii :=
  match s with
  | "" => None
  | String c t => if Ascii.eqb c "." || Ascii.eqb c ":" || Ascii.eqb c "%" then Some c else address_kind t
  end.

Definition parse_ip (s : string) : option ip :=
  match address_kind s with
  | Some "."%char => V4 <$> parse_v4 s
  | Some ":"%char => to4 <$> parse_v6 s
  | _ => None
  end.

(** [net.IPNet]: the masked address and the prefix length of its own family. *)
Record ip_net := IPNet { net_ip : ip; net_bits : Z }.

Definition mask_to (width bits z : Z) : Z := Z.shiftl (Z.shiftr z (width - bits)) (width - bits).

Definition prefix_length (s : string) (width : Z) : option Z :=
  n ← decimal s; if width <? n then None else Some n.

(** [net.ParseCIDR]; a masked address in the mapped range is IPv4, as
    [IPNet.Contains] reads it. *)
Definition parse_cidr (s : string) : option ip_net :=
  match cut "/" s with
  | None => None
  | Some (addr, m) =>
      match address_kind addr with
      | Some "."%char => z ← parse_v4 addr; n ← prefix_length m 32; Some (IPNet (V4 (mask_to 32 n z)) n)
      | Some ":"%char =>
          z ← parse_v6 addr; n ← prefix_length m 128;
          Some (match to4 (mask_to 128 n z) with
                | V4 w => IPNet (V4 w) (n - 96)
                | V6 w => IPNet (V6 w) n
                end)
      | _ => None
      end
  end.

(** [IPNet.Contains]. *)
Definition net_contains (n : ip_net) (a : ip) : bool :=
  match net_ip n, a with
  | V4 w, V4 z => w =? mask_to 32 (net_bits n) z
  | V6 w, V6 z => w =? mask_to 128 (net_bits n) z
  | _, _ => false
  end.

Example parse_ip_examples :
  parse_ip "192.0.2.1" = Some (V4 3221225985) /\ parse_ip "::ffff:192.0.2.1" = Some (V4 3221225985) /\
  parse_ip "2001:db8::1" = Some (V6 42540766411282592856903984951653826561) /\
  parse_ip "::1" = Some (V6 1) /\ parse_ip "::" = Some (V6 0) /\
  parse_ip "256.1.1.1" = None /\ parse_ip "1.2.3" = None /\ parse_ip "01.2.3.4" = None /\
  parse_ip ":::1" = None /\ parse_ip "1::2::3" = None /\ parse_ip "::1]" = None /\
  parse_ip "1:2:3:4:5:6:7:8:9" = None /\ parse_ip "fe80::1%eth0" = None.
Proof. vm_compute. repeat split. Qed.

Example parse_cidr_examples :
  (n ← parse_cidr "192.0.2.0/24"; a ← parse_ip "192.0.2.77"; Some (net_contains n a)) = Some true /\
  (n ← parse_cidr "192.0.2.0/24"; a ← parse_ip "192.0.3.1"; Some (net_contains n a)) = Some false /\
  (n ← parse_cidr "2001:db8::/32"; a ← parse_ip "2001:db8:1::9"; Some (net_contains n a)) = Some true /\
  parse_cidr "192.0.2.0/33" = None.
Proof. vm_compute. repeat split. Qed.
