(* ===== verification/GoRunes.v ===== *)
(** * Ranging over a string

    [for _, c := range s] decodes UTF-8; [string(c)] encodes it again.  A byte
    that begins no character becomes U+FFFD.  [runes] is the list of the pieces
    [string(c)]. *)

From S2P Require Import Prelude GoStrings.

Definition byte_in (lo hi : nat) (c : ascii) : bool := Nat.leb lo (char_code c) && Nat.leb (char_code c) hi.
Definition continuation (c : ascii) : bool := byte_in 128 191 c.
Definition two_bytes (a b : ascii) : bool := byte_in 194 223 a && continuation b.
Definition three_bytes (a b c : ascii) : bool :=
  byte_in 224 239 a && continuation c &&
  byte_in (if Nat.eqb (char_code a) 224 then 160 else 128) (if Nat.eqb (char_code a) 237 then 159 else 191) b.
Definition four_bytes (a b c d : ascii) : bool :=
  byte_in 240 244 a && continuation c && continuation d &&
  byte_in (if Nat.eqb (char_code a) 240 then 144 else 128) (if Nat.eqb (char_code a) 244 then 143 else 191) b.

Definition replacement : string := String "239" (String "191" (String "189" "")).

Fixpoint runes (s : string) : list string :=
  match s with
  | "" => []
  | String a t =>
      if Nat.ltb (char_code a) 128 then String a "" :: runes t
      else match t with
           | String b t1 =>
               if two_bytes a b then String a (String b "") :: runes t1
               else match t1 with
                    | String c t2 =>
                        if three_bytes a b c then String a (String b (String c "")) :: runes t2
                        else match t2 with
                             | String d t3 =>
                                 if four_bytes a b c d then String a (String b (String c (String d ""))) :: runes t3
                                 else replacement :: runes t
                             | "" => replacement :: runes t
                             end
                    | "" => replacement :: runes t
                    end
           | "" => [replacement]
           end
  end.

Definition is_rune (c : ascii) (r : string) : bool := String.eqb r (String c "").

(** What [runes] gives is read back as one rune, whatever follows. *)
Definition whole (r : string) : Prop := forall t, runes (r +:+ t) = r :: runes t.

Lemma byte_in_spec lo hi c : byte_in lo hi c = true <-> (lo <= char_code c <= hi)%nat.
Proof. unfold byte_in. rewrite andb_true_iff, !Nat.leb_le. lia. Qed.

Lemma whole_ascii a : (char_code a < 128)%nat -> whole (String a "").
Proof. intros Ha t. simpl. by rewrite (proj2 (Nat.ltb_lt _ _) Ha). Qed.

(** A leading byte is not ASCII, and leads characters of one length only. *)
Lemma not_ascii a lo hi : byte_in lo hi a = true -> (128 <= lo)%nat -> Nat.ltb (char_code a) 128 = false.
Proof. intros Ha%byte_in_spec Hl. apply Nat.ltb_ge. lia. Qed.
Lemma leads_not a lo hi b : byte_in lo hi a = true -> (223 < lo)%nat -> two_bytes a b = false.
Proof. intros Ha%byte_in_spec Hl. unfold two_bytes. destruct (byte_in 194 223 a) eqn:E; [apply byte_in_spec in E; lia|done]. Qed.

Lemma whole_two a b : two_bytes a b = true -> whole (String a (String b "")).
Proof.
  intros H2 t. pose proof H2 as [Ha _]%andb_true_iff. simpl. rewrite (not_ascii _ _ _ Ha) by lia. by rewrite H2.
Qed.

Lemma whole_three a b c : three_bytes a b c = true -> whole (String a (String b (String c ""))).
Proof.
  intros H3 t. pose proof H3 as [[Ha _]%andb_true_iff _]%andb_true_iff. simpl.
  rewrite (not_ascii _ _ _ Ha), (leads_not _ _ _ b Ha) by lia. by rewrite H3.
Qed.

Lemma whole_four a b c d : four_bytes a b c d = true -> whole (String a (String b (String c (String d "")))).
Proof.
  intros H4 t. pose proof H4 as [[[Ha _]%andb_true_iff _]%andb_true_iff _]%andb_true_iff. simpl.
  rewrite (not_ascii _ _ _ Ha), (leads_not _ _ _ b Ha) by lia.
  assert (three_bytes a b c = false) as ->.
  { unfold three_bytes. apply byte_in_spec in Ha. destruct (byte_in 224 239 a) eqn:E; [apply byte_in_spec in E; lia|done]. }
  by rewrite H4.
Qed.

Lemma whole_replacement : whole replacement.
Proof. by intros t. Qed.

Lemma runes_whole s : Forall whole (runes s).
Proof.
  assert (forall n s, (String.length s <= n)%nat -> Forall whole (runes s)) as Hn; [|by eapply Hn].
  intros n. induction n as [|n IH]; intros [|a t] Hl; simpl in Hl; try constructor; try lia. cbn [runes].
  destruct (Nat.ltb_spec (char_code a) 128) as [Ha|_]; [constructor; [by apply whole_ascii|by apply IH; lia]|].
  assert (forall u, u = t -> Forall whole (replacement :: runes u)) as Hbad.
  { intros u ->. constructor; [apply whole_replacement|apply IH; lia]. }
  destruct t as [|b t]; [by apply (Hbad "")|]. simpl in Hl.
  destruct (two_bytes a b) eqn:E2; [constructor; [by apply whole_two|apply IH; lia]|].
  destruct t as [|c t]; [by apply Hbad|]. simpl in Hl.
  destruct (three_bytes a b c) eqn:E3; [constructor; [by apply whole_three|apply IH; lia]|].
  destruct t as [|d t]; [by apply Hbad|]. simpl in Hl.
  destruct (four_bytes a b c d) eqn:E4; [constructor; [by apply whole_four|apply IH; lia]|]. by apply Hbad.
Qed.

Definition concat_str (l : list string) : string := foldr String.append "" l.

Lemma concat_str_app a b : concat_str (a ++ b) = concat_str a +:+ concat_str b.
Proof. induction a as [|x a IH]; simpl; [done|]. by rewrite IH, app_assoc_str. Qed.

Lemma runes_concat rs t : Forall whole rs -> runes (concat_str rs +:+ t) = rs ++ runes t.
Proof. induction 1 as [|r rs Hr _ IH]; simpl; [done|]. rewrite app_assoc_str, Hr. by rewrite IH. Qed.

(** ASCII text is its bytes. *)
Lemma runes_ascii s : forall_chars (fun c => Nat.ltb (char_code c) 128) s = true -> concat_str (runes s) = s.
Proof. induction s as [|a s IH]; simpl; [done|]. intros [-> Hs]%andb_true_iff. simpl. by rewrite IH. Qed.

(** What encoding/json makes of a string: each byte that is no part of valid
    UTF-8 becomes U+FFFD. *)
Definition valid_utf8 (s : string) : string := concat_str (runes s).

Lemma valid_utf8_idemp s : valid_utf8 (valid_utf8 s) = valid_utf8 s.
Proof.
  unfold valid_utf8. f_equal. rewrite <- (app_nil_r_str (concat_str (runes s))).
  rewrite runes_concat by apply runes_whole. apply app_nil_r.
Qed.
