(* ===== verification/Config.v ===== *)
(** * Configuration: internal/config/config.go, and its use in cmd/email/main.go

    The environment is a function that gives the empty string for what is unset,
    as os.Getenv does.  A missing required variable panics: [None].
    time.ParseDuration is a parameter. *)

From S2P Require Import Prelude GoStrings GoRunes.
#[local] Open Scope Z_scope.

Record configuration := Configuration {
  listen_addr : string; metrics_addr : string; database_url : string; redis_url : string;
  smtp_host : string; smtp_port : Z; smtp_username : string; smtp_password : string;
  smtp_delivery_mode : string; smtp_local_domains : list string;
  smtp_inbound_enabled : bool; smtp_inbound_addr : string; smtp_inbound_domain : string;
  smtp_inbound_domains : list string; smtp_inbound_tls_cert : string; smtp_inbound_tls_key : string;
  dkim_domain : string; dkim_selector : string; dkim_private_key : string;
  cfg_blossom_servers : list string; blossom_redundancy : Z; attachment_kek : string; blossom_signing_key : string;
  nsecbunker_relay_url : string; identity_service_url : string; cloistr_me_url : string; cloistr_me_secret : string;
  platform_mode : string; internal_api_secret : string;
  abuse_detection_enabled : bool; abuse_scan_interval : Z; abuse_auto_suspend : bool; usage_reconcile_interval : Z;
  signer_url : string; nostrconnect_relay : string; log_level : string; environment : string }.

Section config.
Context (parse_duration : string -> option Z).

Section env.
Context (env : string -> string).

Definition get_env (key dflt : string) : string := if String.eqb (env key) "" then dflt else env key.

Definition get_env_required (key : string) : option string := if String.eqb (env key) "" then None else Some (env key).

Definition get_env_int (key : string) (dflt : Z) : Z :=
  if String.eqb (env key) "" then dflt else match atoi (env key) with (n, true) => n | (_, false) => dflt end.

(** [strconv.ParseBool]. *)
Definition parse_bool (s : string) : option bool :=
  if bool_decide (s ∈ ["1"; "t"; "T"; "TRUE"; "true"; "True"]) then Some true
  else if bool_decide (s ∈ ["0"; "f"; "F"; "FALSE"; "false"; "False"]) then Some false
  else None.

Definition get_env_bool (key : string) (dflt : bool) : bool :=
  if String.eqb (env key) "" then dflt else default dflt (parse_bool (env key)).

Definition get_env_duration (key : string) (dflt : Z) : Z :=
  if String.eqb (env key) "" then dflt
  else match parse_duration (env key) with Some d => if 0 <=? d then d else dflt | None => dflt end.

Fixpoint split_runes (sep : ascii) (current : string) (rs : list string) : list string :=
  match rs with
  | [] => if String.eqb current "" then [] else [current]
  | r :: rs => if is_rune sep r then current :: split_runes sep "" rs else split_runes sep (current +:+ r) rs
  end.
Definition split_string (s : string) (sep : ascii) : list string := split_runes sep "" (runes s).

Definition get_env_list (key : string) (dflt : list string) : list string :=
  if String.eqb (env key) "" then dflt
  else List.filter (fun item => negb (String.eqb item "")) (map trim_space (split_string (env key) ",")).

Definition load : option configuration :=
  database ← get_env_required "DATABASE_URL";
  redis ← get_env_required "REDIS_URL";
  bunker ← get_env_required "NSECBUNKER_RELAY_URL";
  me ← get_env_required "CLOISTR_ME_URL";
  signer ← get_env_required "MAIL_SIGNER_URL";
  relay ← get_env_required "MAIL_NOSTRCONNECT_RELAY";
  Some {|
    listen_addr := get_env "LISTEN_ADDR" "0.0.0.0:8080"; metrics_addr := get_env "METRICS_ADDR" "0.0.0.0:9090";
    database_url := database; redis_url := redis;
    smtp_host := get_env "SMTP_HOST" "localhost"; smtp_port := get_env_int "SMTP_PORT" 587;
    smtp_username := get_env "SMTP_USERNAME" ""; smtp_password := get_env "SMTP_PASSWORD" "";
    smtp_delivery_mode := get_env "SMTP_DELIVERY_MODE" "relay"; smtp_local_domains := get_env_list "SMTP_LOCAL_DOMAINS" [];
    smtp_inbound_enabled := get_env_bool "SMTP_INBOUND_ENABLED" false; smtp_inbound_addr := get_env "SMTP_INBOUND_ADDR" ":25";
    smtp_inbound_domain := get_env "SMTP_INBOUND_DOMAIN" "localhost"; smtp_inbound_domains := get_env_list "SMTP_INBOUND_DOMAINS" [];
    smtp_inbound_tls_cert := get_env "SMTP_INBOUND_TLS_CERT" ""; smtp_inbound_tls_key := get_env "SMTP_INBOUND_TLS_KEY" "";
    dkim_domain := get_env "DKIM_DOMAIN" ""; dkim_selector := get_env "DKIM_SELECTOR" "mail";
    dkim_private_key := get_env "DKIM_PRIVATE_KEY" "";
    cfg_blossom_servers := get_env_list "BLOSSOM_SERVERS" []; blossom_redundancy := get_env_int "BLOSSOM_REDUNDANCY" 2;
    attachment_kek := get_env "ATTACHMENT_KEK" ""; blossom_signing_key := get_env "MAIL_BLOSSOM_SIGNING_KEY" "";
    nsecbunker_relay_url := bunker; identity_service_url := get_env "IDENTITY_SERVICE_URL" "http://localhost:3000";
    cloistr_me_url := me; cloistr_me_secret := get_env "CLOISTR_ME_SECRET" "";
    platform_mode := get_env "CLOISTR_MODE" "standalone"; internal_api_secret := get_env "INTERNAL_API_SECRET" "";
    abuse_detection_enabled := get_env_bool "ABUSE_DETECTION_ENABLED" true;
    abuse_scan_interval := get_env_duration "ABUSE_SCAN_INTERVAL" (15 * minute);
    abuse_auto_suspend := get_env_bool "ABUSE_AUTO_SUSPEND" false;
    usage_reconcile_interval := get_env_duration "USAGE_RECONCILE_INTERVAL" (6 * hour);
    signer_url := signer; nostrconnect_relay := relay;
    log_level := get_env "LOG_LEVEL" "info"; environment := get_env "ENVIRONMENT" "development" |}.

End env.

(** ** What main starts *)

(** The interval of a job that is started. *)
Definition detector_interval (c : configuration) : option Z :=
  if abuse_detection_enabled c && (0 <? abuse_scan_interval c) then Some (abuse_scan_interval c) else None.

(** [platform]: whether there is a platform client and it is in platform mode. *)
Definition reconciler_interval (platform : option bool) (c : configuration) : option Z :=
  match platform with
  | None | Some false => None
  | Some true => if usage_reconcile_interval c <=? 0 then None else Some (usage_reconcile_interval c)
  end.

(** * Properties *)

Definition required_variables : list string :=
  ["DATABASE_URL"; "REDIS_URL"; "NSECBUNKER_RELAY_URL"; "CLOISTR_ME_URL"; "MAIL_SIGNER_URL"; "MAIL_NOSTRCONNECT_RELAY"].

Lemma required_spec env key :
  get_env_required env key = if decide (env key = "") then None else Some (env key).
Proof. unfold get_env_required. by destruct (String.eqb_spec (env key) ""), (decide (env key = "")). Qed.

Lemma duration_not_negative env key dflt : 0 <= dflt -> 0 <= get_env_duration env key dflt.
Proof.
  unfold get_env_duration. intros Hd. destruct (String.eqb _ _); [done|]. destruct (parse_duration _) as [d|]; [|done].
  by destruct (Z.leb_spec 0 d).
Qed.

(** The service starts exactly when it is told where to go.  Loading fails if
    and only if one of the six addresses that have no default is unset; what is
    loaded then holds those six as they are, and no interval is negative,
    whatever the other variables say. *)
Theorem loads_iff_required_are_set env :
  match load env with
  | Some c =>
      Forall (fun key => env key <> "") required_variables /\
      [database_url c; redis_url c; nsecbunker_relay_url c; cloistr_me_url c; signer_url c; nostrconnect_relay c] =
        map env required_variables /\
      0 <= abuse_scan_interval c /\ 0 <= usage_reconcile_interval c
  | None => Exists (fun key => env key = "") required_variables
  end.
Proof.
  unfold load. rewrite !required_spec. unfold required_variables.
  repeat match goal with |- context [decide (env ?k = "")] => destruct (decide (env k = "")); cbn [mbind option_bind];
    [solve [repeat (first [apply Exists_cons_hd; done | apply Exists_cons_tl])]|] end.
  split; [by repeat constructor|]. split; [done|].
  split; apply duration_not_negative; vm_compute; discriminate.
Qed.

(** A job that is started has an interval to tick with. *)
Theorem started_jobs_can_tick env c platform d
    (Hload : load env = Some c) (Hjob : detector_interval c = Some d \/ reconciler_interval platform c = Some d) :
  0 < d /\ (detector_interval c = None -> abuse_detection_enabled c = false \/ abuse_scan_interval c = 0).
Proof.
  assert (0 <= abuse_scan_interval c) as Ha.
  { revert Hload. unfold load. rewrite !required_spec.
    repeat match goal with |- context [decide (env ?k = "")] => destruct (decide (env k = "")); cbn [mbind option_bind]; [done|] end.
    intros [= <-]. apply duration_not_negative. vm_compute. discriminate. }
  unfold detector_interval, reconciler_interval in *. split.
  - destruct Hjob as [Hj|Hj].
    + destruct (abuse_detection_enabled c); [|done]. destruct (Z.ltb_spec 0 (abuse_scan_interval c)); simplify_eq/=; lia.
    + destruct platform as [[]|]; try done. destruct (Z.leb_spec (usage_reconcile_interval c) 0); simplify_eq; lia.
  - destruct (abuse_detection_enabled c); [|by left]. destruct (Z.ltb_spec 0 (abuse_scan_interval c)); [done|]. right. lia.
Qed.

(** ** Lists *)

(** Text whose characters are whole. *)
Definition text (s : string) : Prop := concat_str (runes s) = s.

Lemma split_runes_app sep current rs rest : Forall (fun r => is_rune sep r = false) rs ->
  split_runes sep current (rs ++ rest) = split_runes sep (current +:+ concat_str rs) rest.
Proof.
  intros Hrs. revert current. induction Hrs as [|r rs Hr _ IH]; intros current; simpl; [by rewrite app_nil_r_str|].
  by rewrite Hr, IH, app_assoc_str.
Qed.

Lemma no_sep_runes sep rs : no_char sep (concat_str rs) = true -> Forall (fun r => is_rune sep r = false) rs.
Proof.
  unfold no_char. induction rs as [|r rs IH]; simpl; [by constructor|]. rewrite forall_chars_app. intros [Hr Hrs]%andb_true_iff.
  constructor; [|by apply IH]. unfold is_rune. destruct (String.eqb_spec r (String sep "")) as [->|]; [|done].
  simpl in Hr. by rewrite Ascii.eqb_refl in Hr.
Qed.

Lemma runes_text s t : text s -> runes (s +:+ t) = runes s ++ runes t.
Proof. unfold text. intros Hs. rewrite <- Hs at 1. apply runes_concat, runes_whole. Qed.

Lemma split_join_text items : items <> [] ->
  Forall (fun i => text i /\ no_char "," i = true /\ i <> "") items -> split_string (join "," items) "," = items.
Proof.
  intros Hne Hi. unfold split_string. induction Hi as [|i items (Ht & Hc & Hi) Hrest IH]; [done|].
  assert (Forall (fun r => is_rune "," r = false) (runes i)) as Hno by (apply no_sep_runes; by rewrite Ht).
  destruct items as [|j items].
  - cbn [join]. rewrite <- (app_nil_r (runes i)), split_runes_app, Ht by done. simpl. by destruct (String.eqb_spec i "").
  - rewrite join_cons by done. rewrite (runes_text i) by done. rewrite split_runes_app, Ht by done.
    change (runes ("," +:+ join "," (j :: items))) with ("," :: runes (join "," (j :: items))). cbn [split_runes].
    change (is_rune "," ",") with true. cbv iota. f_equal. by apply IH.
Qed.

(** A list comes back.  Items of text that hold no comma and no blank at either
    end, set joined by commas and spaced in any way, are read as the same list
    in the same order. *)
Theorem list_is_read_back env key dflt items
    (Hne : items <> [])
    (Hitems : Forall (fun i => text i /\ no_char "," i = true /\ i <> "") items)
    (Henv : env key = join "," items) :
  get_env_list env key dflt = List.filter (fun i => negb (String.eqb i "")) (map trim_space items) /\
  (Forall (fun i => trim_space i = i) items -> get_env_list env key dflt = items).
Proof.
  assert (get_env_list env key dflt = List.filter (fun i => negb (String.eqb i "")) (map trim_space items)) as Hl.
  { unfold get_env_list. rewrite Henv, split_join_text by done. destruct (String.eqb_spec (join "," items) "") as [E|]; [|done].
    destruct items as [|i items]; [done|]. apply Forall_inv in Hitems as (_ & _ & Hi). destruct items as [|j items]; simpl in E; [done|].
    by destruct i. }
  split; [done|]. rewrite Hl. intros Htrim. clear -Hitems Htrim.
  induction Htrim as [|i items Hi _ IH]; [done|]. apply Forall_cons in Hitems as [(_ & _ & Hn) Hitems]. simpl. rewrite Hi.
  destruct (String.eqb_spec i ""); [done|]. simpl. by rewrite IH.
Qed.

End config.

(** ** Witnesses *)

Definition no_durations (s : string) : option Z := None.
Definition sample_env (key : string) : string :=
  if bool_decide (key ∈ required_variables) then "somewhere"
  else if String.eqb key "BLOSSOM_SERVERS" then "https://a.example, https://b.example" else "".
Definition sample_config : configuration :=
  match load no_durations sample_env with
  | Some c => c
  | None => Configuration "" "" "" "" "" 0 "" "" "" [] false "" "" [] "" "" "" "" "" [] 0 "" "" "" "" "" "" "" "" false 0 false 0 "" "" "" ""
  end.

Lemma started_jobs_can_tick_witness :
  detector_interval sample_config = Some (15 * minute) /\ 0 < 15 * minute /\
  (detector_interval sample_config = None -> abuse_detection_enabled sample_config = false \/ abuse_scan_interval sample_config = 0).
Proof.
  split; [vm_compute; reflexivity|].
  apply (started_jobs_can_tick no_durations sample_env sample_config None (15 * minute)).
  - vm_compute. reflexivity.
  - left. vm_compute. reflexivity.
Defined.

Lemma list_is_read_back_witness :
  get_env_list sample_env "BLOSSOM_SERVERS" [] = ["https://a.example"; "https://b.example"].
Proof.
  refine (proj1 (list_is_read_back sample_env "BLOSSOM_SERVERS" [] ["https://a.example"; " https://b.example"] _ _ _)).
  - discriminate.
  - repeat constructor; discriminate.
  - vm_compute. reflexivity.
Defined.
