(* ===== verification/RateLimit.v ===== *)
(** * Outbound rate limiter: internal/ratelimit

    The limit sets of limits.go, the [Store] interface of ratelimit.go as a
    class with the laws [Limiter.Allow] relies on, the in-memory and the
    prefixing stores of store.go and discover.go as its instances, and [allow]
    itself. *)

From S2P Require Import Prelude GoStrings.

(** ** Limits (limits.go) *)

Record window := Window { w_max : Z; w_period : Z }.
Definition no_window : window := Window 0 0.

Definition enabled (w : window) : bool := 0 <? w_max w.

Record account_limits := AccountLimits {
  acct_msg_per_min : window;
  acct_msg_per_hour : window;
  acct_msg_per_day : window;
  recip_per_msg : Z;
  recip_per_day : window;
  max_message_bytes : Z }.

Record domain_limits := DomainLimits {
  dom_msg_per_min : window;
  recip_per_hour : window;
  new_account_days : Z;
  new_account_recip_per_day : window }.

Record limits := Limits { account : account_limits; domain : domain_limits }.

Definition default_limits : limits := {|
  account := {|
    acct_msg_per_min := Window 5 minute;
    acct_msg_per_hour := Window 100 hour;
    acct_msg_per_day := Window 500 day;
    recip_per_msg := 50;
    recip_per_day := Window 1000 day;
    max_message_bytes := 25 * 1024 * 1024 |};
  domain := {|
    dom_msg_per_min := Window 300 minute;
    recip_per_hour := Window 5000 hour;
    new_account_days := 7;
    new_account_recip_per_day := Window 200 day |} |}.

Definition elevated (l : limits) : limits := {|
  account := {|
    acct_msg_per_min := no_window;
    acct_msg_per_hour := no_window;
    acct_msg_per_day := no_window;
    recip_per_msg := 0;
    recip_per_day := no_window;
    max_message_bytes := max_message_bytes (account l) |};
  domain := domain l |}.

Definition throttled (l : limits) : limits := {|
  account := {|
    acct_msg_per_min := Window 1 minute;
    acct_msg_per_hour := Window 10 hour;
    acct_msg_per_day := Window 50 day;
    recip_per_msg := 5;
    recip_per_day := Window 50 day;
    max_message_bytes := max_message_bytes (account l) |};
  domain := domain l |}.

Definition new_account_account_limits (base : account_limits) : account_limits := {|
  acct_msg_per_min := acct_msg_per_min base;
  acct_msg_per_hour := acct_msg_per_hour base;
  acct_msg_per_day := acct_msg_per_day base;
  recip_per_msg := recip_per_msg base;
  recip_per_day := Window 20 day;
  max_message_bytes := max_message_bytes base |}.

(** ** Decisions and sends (ratelimit.go) *)

Inductive reason :=
| ReasonNone | ReasonAcctMsgMin | ReasonAcctMsgHour | ReasonAcctMsgDay
| ReasonRecipPerMsg | ReasonAcctRecipDay | ReasonMessageTooLarge
| ReasonDomainMsgMin | ReasonDomainRecipHour | ReasonNewAcctRecipDay.

Definition reason_string (r : reason) : string :=
  match r with
  | ReasonNone => ""
  | ReasonAcctMsgMin => "account_messages_per_minute"
  | ReasonAcctMsgHour => "account_messages_per_hour"
  | ReasonAcctMsgDay => "account_messages_per_day"
  | ReasonRecipPerMsg => "recipients_per_message"
  | ReasonAcctRecipDay => "account_recipients_per_day"
  | ReasonMessageTooLarge => "message_too_large"
  | ReasonDomainMsgMin => "domain_messages_per_minute"
  | ReasonDomainRecipHour => "domain_recipients_per_hour"
  | ReasonNewAcctRecipDay => "new_account_recipients_per_day"
  end.

Record decision := Decision { allowed : bool; why : reason; retry_after : Z }.
Definition allow_it : decision := Decision true ReasonNone 0.
Definition deny_it (r : reason) (after : Z) : decision := Decision false r after.

Record send := Send { pubkey : string; recipients : Z; bytes : Z; new_account : bool }.

(** ** The counter store

    One operation of the store happens at one instant [now], the reading of the
    store's clock. [peek_all] only reads. *)

Class CounterStore (S : Type) := {
  incr_by : Z -> string -> Z -> Z -> S -> S * res Z;
  peek_all : Z -> list string -> S -> res (gmap string Z) }.

(** What the limiter relies on: [counter] is the live total at a key, a read
    reports it (a missing key being 0), an increment adds to its own key only. *)
Class CounterStoreLaws (S : Type) `{CounterStore S} := {
  counter : Z -> S -> string -> Z;
  peek_all_counter : forall now ks st m k,
    peek_all now ks st = Ok m -> k ∈ ks -> default 0 (m !! k) = counter now st k;
  incr_by_counter : forall now k n ttl st st' v k',
    0 <= ttl -> incr_by now k n ttl st = (st', Ok v) ->
    counter now st' k' = if decide (k = k') then wrap64 (counter now st k + n)
                         else counter now st k' }.

(** *** MemoryStore (store.go) *)

Record mem_entry := MemEntry { val : Z; expires_at : Z }.
Record memory_store := MemoryStore { entries : gmap string mem_entry }.

Definition new_memory_store : memory_store := MemoryStore ∅.

(** The entry an increment starts from: the live one, or a fresh one. *)
Definition live_entry (now ttl : Z) (found : option mem_entry) : mem_entry :=
  match found with
  | Some e => if expires_at e <? now then MemEntry 0 (now + ttl) else e
  | None => MemEntry 0 (now + ttl)
  end.

Definition mem_incr_by (now : Z) (k : string) (n ttl : Z) (s : memory_store) : memory_store * res Z :=
  let e := live_entry now ttl (entries s !! k) in
  let e := MemEntry (wrap64 (val e + n)) (expires_at e) in
  (MemoryStore (<[k := e]> (entries s)), Ok (val e)).

(** The loop body of [MemoryStore.PeekAll]. *)
Definition mem_peek_step (now : Z) (s : memory_store) (out : gmap string Z) (k : string)
    : gmap string Z :=
  match entries s !! k with
  | Some e => if expires_at e <? now then out else <[k := val e]> out
  | None => out
  end.

Definition mem_peek_all (now : Z) (ks : list string) (s : memory_store) : res (gmap string Z) :=
  Ok (foldl (mem_peek_step now s) ∅ ks).

#[export] Instance memory_counter_store : CounterStore memory_store := {
  incr_by := mem_incr_by;
  peek_all := mem_peek_all }.

(** *** prefixStore (discover.go) *)

Record prefix_store (S : Type) := PrefixStore { inner : S }.
Arguments PrefixStore {S} inner.
Arguments inner {S} _.

Section PrefixStore.
Context {S : Type} `{CounterStore S} (prefix : string).

Definition prefix_incr_by (now : Z) (k : string) (n ttl : Z) (p : prefix_store S)
    : prefix_store S * res Z :=
  let '(st', r) := incr_by now (prefix +:+ k) n ttl (inner p) in (PrefixStore st', r).

Definition prefix_peek_all (now : Z) (ks : list string) (p : prefix_store S)
    : res (gmap string Z) :=
  match peek_all now (map (fun k => prefix +:+ k) ks) (inner p) with
  | Err e => Err e
  | Ok got =>
      Ok (foldl (fun out k => <[k := default 0 (got !! (prefix +:+ k))]> out) ∅ ks)
  end.

Definition prefix_counter_store : CounterStore (prefix_store S) := {|
  incr_by := prefix_incr_by;
  peek_all := prefix_peek_all |}.
End PrefixStore.

(** ** The limiter *)

Definition window_key (scope id name : string) (w : window) (now : Z) : string :=
  "rl:" +:+ scope +:+ ":" +:+ id +:+ ":" +:+ name +:+ ":" +:+ pretty (unix (truncate now (w_period w))).

Definition reset_after (w : window) (now : Z) : Z :=
  w_period w - time_sub now (truncate now (w_period w)).

Record check := Check { ckey : string; cwindow : window; add : Z; creason : reason }.

Definition checks (l : limits) (s : send) (now : Z) : list check :=
  let acct := account l in
  let dom := domain l in
  let recips := if recipients s <? 1 then 1 else recipients s in
  [ Check (window_key "acct" (pubkey s) "msgmin" (acct_msg_per_min acct) now)
      (acct_msg_per_min acct) 1 ReasonAcctMsgMin;
    Check (window_key "acct" (pubkey s) "msghour" (acct_msg_per_hour acct) now)
      (acct_msg_per_hour acct) 1 ReasonAcctMsgHour;
    Check (window_key "acct" (pubkey s) "msgday" (acct_msg_per_day acct) now)
      (acct_msg_per_day acct) 1 ReasonAcctMsgDay;
    Check (window_key "acct" (pubkey s) "recipday" (recip_per_day acct) now)
      (recip_per_day acct) recips ReasonAcctRecipDay;
    Check (window_key "domain" "_" "msgmin" (dom_msg_per_min dom) now)
      (dom_msg_per_min dom) 1 ReasonDomainMsgMin;
    Check (window_key "domain" "_" "reciphour" (recip_per_hour dom) now)
      (recip_per_hour dom) recips ReasonDomainRecipHour ] ++
  if new_account s
  then [ Check (window_key "domain" "_new" "recipday" (new_account_recip_per_day dom) now)
           (new_account_recip_per_day dom) recips ReasonNewAcctRecipDay ]
  else [].

Definition active_checks (l : limits) (s : send) (now : Z) : list check :=
  List.filter (fun c => enabled (cwindow c)) (checks l s now).

(** The check of the evaluation loop: would this send exceed the window? *)
Definition exceeds (current : gmap string Z) (c : check) : bool :=
  w_max (cwindow c) <? wrap64 (default 0 (current !! ckey c) + add c).

Section Allow.
Context {S : Type} `{CounterStore S}.

Fixpoint consume (now : Z) (cs : list check) (st : S) : S * res decision :=
  match cs with
  | [] => (st, Ok allow_it)
  | c :: cs =>
      match incr_by now (ckey c) (add c) (w_period (cwindow c)) st with
      | (st', Err e) => (st', Err (Wrapped ("ratelimit incr " +:+ reason_string (creason c)) e))
      | (st', Ok _) => consume now cs st'
      end
  end.

(** The windows of a send, once the size checks have passed. *)
Definition allow_windows (l : limits) (now : Z) (s : send) (st : S) : S * res decision :=
  match active_checks l s now with
  | [] => (st, Ok allow_it)
  | active =>
      match peek_all now (map ckey active) st with
      | Err e => (st, Err (Wrapped "ratelimit peek" e))
      | Ok current =>
          match List.find (exceeds current) active with
          | Some c => (st, Ok (deny_it (creason c) (reset_after (cwindow c) now)))
          | None => consume now active st
          end
      end
  end.

Definition allow (l : limits) (now : Z) (s : send) (st : S) : S * res decision :=
  let acct := account l in
  if (0 <? recip_per_msg acct) && (recip_per_msg acct <? recipients s)
  then (st, Ok (deny_it ReasonRecipPerMsg 0))
  else if (0 <? max_message_bytes acct) && (max_message_bytes acct <? bytes s)
  then (st, Ok (deny_it ReasonMessageTooLarge 0))
  else allow_windows l now s st.
End Allow.

(** *** The discovery limiter (discover.go) *)

Definition discover_per_minute : Z := 30.
Definition discover_per_hour : Z := 300.
Definition discover_per_day : Z := 2000.

Definition discover_limits (per_min per_hour per_day : Z) : limits := {|
  account := {|
    acct_msg_per_min := Window per_min minute;
    acct_msg_per_hour := Window per_hour hour;
    acct_msg_per_day := Window per_day day;
    recip_per_msg := 0;
    recip_per_day := no_window;
    max_message_bytes := 0 |};
  domain := {|
    dom_msg_per_min := no_window;
    recip_per_hour := no_window;
    new_account_days := 0;
    new_account_recip_per_day := no_window |} |}.

Definition discover_allow {S} `{CounterStore S} (per_min per_hour per_day : Z)
    (now : Z) (s : send) (st : prefix_store S) : prefix_store S * res decision :=
  @allow _ (prefix_counter_store "discover:")
    (discover_limits per_min per_hour per_day) now s st.

(** *** The value parser of RedisStore.PeekAll (store.go)

    A reply that is not a plain decimal number counts as 0. *)
Fixpoint redis_count_go (n : Z) (str : string) : Z :=
  match str with
  | "" => n
  | String c t =>
      if is_digit c
      then redis_count_go (wrap64 (n * 10 + Z.of_nat (char_code c - char_code "0"))) t
      else 0
  end.
Definition redis_count (str : string) : Z := redis_count_go 0 str.

(** * Lemmas *)

(** ** The stores satisfy the interface *)

Definition mem_counter (now : Z) (s : memory_store) (k : string) : Z :=
  match entries s !! k with
  | Some e => if expires_at e <? now then 0 else val e
  | None => 0
  end.

Lemma mem_peek_fold now s ks (acc : gmap string Z) k :
  default 0 (foldl (mem_peek_step now s) acc ks !! k) =
  if decide (k ∈ ks) then
    match entries s !! k with
    | Some e => if expires_at e <? now then default 0 (acc !! k) else val e
    | None => default 0 (acc !! k)
    end
  else default 0 (acc !! k).
Proof.
  revert acc. induction ks as [|k0 ks IH]; intros acc; cbn [foldl].
  { destruct (decide (k ∈ [])); [set_solver|done]. }
  rewrite IH. clear IH. destruct (decide (k = k0)) as [->|Hne].
  - destruct (decide (k0 ∈ k0 :: ks)) as [_|]; [|set_solver]. unfold mem_peek_step.
    destruct (entries s !! k0) as [e|]; [destruct (expires_at e <? now)|];
      case_decide; by rewrite ?lookup_insert_eq.
  - assert (mem_peek_step now s acc k0 !! k = acc !! k) as ->.
    { unfold mem_peek_step. repeat case_match; by rewrite ?lookup_insert_ne. }
    assert (k ∈ k0 :: ks <-> k ∈ ks) as Hiff by (rewrite elem_of_cons; naive_solver).
    by rewrite (decide_ext _ _ _ _ Hiff).
Qed.

#[export] Instance memory_store_laws : CounterStoreLaws memory_store.
Proof.
  refine {| counter := mem_counter |}.
  - intros now ks st m k Hp Hk. simpl in Hp. unfold mem_peek_all in Hp. simplify_eq.
    rewrite mem_peek_fold, decide_True by done. unfold mem_counter.
    repeat case_match; by rewrite ?lookup_empty.
  - intros now k n ttl st st' v k' Httl Hi. simpl in Hi. unfold mem_incr_by in Hi. simplify_eq.
    unfold mem_counter, live_entry; simpl. rewrite lookup_insert.
    destruct (decide (k = k')) as [->|]; [|done].
    destruct (entries st !! k') as [e|]; simpl;
      [destruct (Z.ltb_spec (expires_at e) now); simpl|]; case_match; reflect_bools; try done; lia.
Defined.

Section PrefixLaws.
Context {S : Type} `{CounterStoreLaws S} (prefix : string).

Lemma prefix_peek_fold (got : gmap string Z) ks (acc : gmap string Z) k :
  (foldl (fun out k => <[k := default 0 (got !! (prefix +:+ k))]> out) acc ks : gmap string Z) !! k =
  if decide (k ∈ ks) then Some (default 0 (got !! (prefix +:+ k))) else acc !! k.
Proof.
  revert acc. induction ks as [|k0 ks IH]; intros acc; cbn [foldl].
  { destruct (decide (k ∈ [])); [set_solver|done]. }
  rewrite IH. destruct (decide (k ∈ ks)) as [Hk|Hk].
  - by rewrite decide_True by (by apply list_elem_of_further).
  - destruct (decide (k = k0)) as [->|Hne].
    + by rewrite decide_True, lookup_insert_eq by apply list_elem_of_here.
    + by rewrite decide_False, lookup_insert_ne by (rewrite ?elem_of_cons; naive_solver).
Qed.

Definition prefix_store_laws : @CounterStoreLaws _ (prefix_counter_store (S := S) prefix).
Proof.
  refine (@Build_CounterStoreLaws _ (prefix_counter_store (S := S) prefix)
    (fun now p k => counter now (inner p) (prefix +:+ k)) _ _).
  - intros now ks st m k Hp Hk. simpl in Hp. unfold prefix_peek_all in Hp.
    destruct (peek_all _ _ _) as [got|] eqn:Hg; simplify_eq.
    rewrite prefix_peek_fold, decide_True by done. simpl.
    eapply peek_all_counter; [done|]. apply list_elem_of_fmap. eauto.
  - intros now k n ttl [st] st' v k' Httl Hi. simpl in *. unfold prefix_incr_by in Hi. simpl in Hi.
    destruct (incr_by _ _ _ _ _) as [st1 r] eqn:Hr. simplify_eq. simpl.
    erewrite incr_by_counter by done.
    apply decide_ext. split; [apply app_inv_head_str|by intros ->].
Defined.
End PrefixLaws.

(** ** Keys identify one counter *)

Lemma window_key_inj scope1 scope2 id1 id2 name1 name2 w1 w2 now1 now2 :
  no_char ":" scope1 = true -> no_char ":" scope2 = true ->
  no_char ":" name1 = true -> no_char ":" name2 = true ->
  window_key scope1 id1 name1 w1 now1 = window_key scope2 id2 name2 w2 now2 ->
  scope1 = scope2 /\ id1 = id2 /\ name1 = name2 /\
  unix (truncate now1 (w_period w1)) = unix (truncate now2 (w_period w2)).
Proof.
  intros Hs1 Hs2 Hn1 Hn2. unfold window_key.
  set (b1 := unix _). set (b2 := unix _). intros Heq.
  apply app_inv_head_str in Heq.
  apply sep_inj_l in Heq as [-> Heq]; [|done..].
  assert (forall id name (b : Z), id +:+ ":" +:+ name +:+ ":" +:+ pretty b =
    (id +:+ String ":" name) +:+ String ":" (pretty b)) as Hshape.
  { intros. by rewrite app_assoc_str. }
  rewrite !Hshape in Heq.
  apply sep_inj in Heq as [Heq Hb]; [|apply pretty_Z_no_colon..].
  apply sep_inj in Heq as [-> ->]; [|done..].
  by apply (inj pretty) in Hb.
Qed.

Lemma window_key_differ scope1 scope2 id1 id2 name1 name2 w1 w2 now1 now2 :
  forallb (no_char ":") [scope1; scope2; name1; name2] = true ->
  scope1 <> scope2 \/ id1 <> id2 \/ name1 <> name2 ->
  window_key scope1 id1 name1 w1 now1 <> window_key scope2 id2 name2 w2 now2.
Proof.
  simpl; intros Hc Hne Heq; reflect_bools.
  apply window_key_inj in Heq as (? & ? & ? & ?); naive_solver.
Qed.

(** Two window keys with different scopes or names. *)
Ltac keys_differ :=
  apply window_key_differ; [reflexivity|];
  first [left; discriminate | right; right; discriminate | right; left; discriminate].

Lemma checks_NoDup l s now : NoDup (map ckey (checks l s now)).
Proof.
  unfold checks. destruct (new_account s); cbn [map app ckey];
    repeat first
      [ apply NoDup_nil_2
      | apply NoDup_cons_2
      | apply not_elem_of_nil
      | apply not_elem_of_cons; split; [keys_differ|] ].
Qed.

(** ** What [allow] does *)

(** The check of [cs] that uses key [k]. *)
Definition check_at (k : string) (cs : list check) : option check :=
  List.find (fun c => bool_decide (ckey c = k)) cs.

Lemma check_at_None k cs : check_at k cs = None <-> k ∉ map ckey cs.
Proof.
  induction cs as [|c cs IH]; simpl; [set_solver|].
  rewrite not_elem_of_cons. unfold check_at in *; simpl.
  case_bool_decide; naive_solver.
Qed.

Lemma check_at_Some k cs c :
  NoDup (map ckey cs) -> c ∈ cs -> ckey c = k -> check_at k cs = Some c.
Proof.
  intros Hnd Hin <-. unfold check_at. induction cs as [|c0 cs IH]; [set_solver|].
  apply NoDup_cons in Hnd as [Hni Hnd]. simpl. case_bool_decide as Heq.
  - apply elem_of_cons in Hin as [->|Hin]; [done|].
    exfalso. apply Hni. rewrite Heq. by apply list_elem_of_fmap_2.
  - apply IH; [done|]. by apply elem_of_cons in Hin as [->|Hin].
Qed.

Lemma active_in_checks l s now c : c ∈ active_checks l s now -> c ∈ checks l s now /\ enabled (cwindow c) = true.
Proof. unfold active_checks. rewrite !list_elem_of_In, List.filter_In. done. Qed.

Lemma active_checks_NoDup l s now : NoDup (map ckey (active_checks l s now)).
Proof.
  pose proof (checks_NoDup l s now) as Hnd. unfold active_checks.
  induction (checks l s now) as [|c cs IH]; [done|]. simpl in *.
  apply NoDup_cons in Hnd as [Hni Hnd]. destruct (enabled _); [|auto].
  simpl. apply NoDup_cons; split; [|auto].
  rewrite list_elem_of_fmap. intros (c' & Heq & Hin). apply Hni.
  rewrite Heq. apply list_elem_of_fmap_2.
  apply list_elem_of_In, List.filter_In in Hin as [Hin _]. by apply list_elem_of_In.
Qed.

Lemma consume_decision {S} `{CounterStore S} now cs (st st' : S) d :
  consume now cs st = (st', Ok d) -> d = allow_it.
Proof.
  revert st. induction cs as [|c cs IH]; intros st Hc; simpl in Hc; [congruence|].
  destruct (incr_by _ _ _ _ _) as [st1 [v|e]]; [eauto|congruence].
Qed.

(** Case analysis of [allow]: a refusal names the check that failed and leaves
    the store alone; otherwise every active check passed and is consumed. *)
Inductive allow_outcome {S} `{CounterStore S} (l : limits) (now : Z) (s : send) (st : S)
    : S * res decision -> Prop :=
| OutRecipPerMsg :
    0 < recip_per_msg (account l) -> recip_per_msg (account l) < recipients s ->
    allow_outcome l now s st (st, Ok (deny_it ReasonRecipPerMsg 0))
| OutTooLarge :
    0 < max_message_bytes (account l) -> max_message_bytes (account l) < bytes s ->
    allow_outcome l now s st (st, Ok (deny_it ReasonMessageTooLarge 0))
| OutPeekFailed e :
    peek_all now (map ckey (active_checks l s now)) st = Err e ->
    allow_outcome l now s st (st, Err (Wrapped "ratelimit peek" e))
| OutWindow current c :
    peek_all now (map ckey (active_checks l s now)) st = Ok current ->
    c ∈ active_checks l s now -> exceeds current c = true ->
    allow_outcome l now s st (st, Ok (deny_it (creason c) (reset_after (cwindow c) now)))
| OutConsume :
    (active_checks l s now <> [] -> exists current,
      peek_all now (map ckey (active_checks l s now)) st = Ok current /\
      forall c, c ∈ active_checks l s now -> exceeds current c = false) ->
    (0 < recip_per_msg (account l) -> recipients s <= recip_per_msg (account l)) ->
    (0 < max_message_bytes (account l) -> bytes s <= max_message_bytes (account l)) ->
    allow_outcome l now s st (consume now (active_checks l s now) st).

Lemma allow_cases {S} `{CounterStore S} l now s (st : S) :
  allow_outcome l now s st (allow l now s st).
Proof.
  unfold allow.
  destruct (_ && _) eqn:E1; [reflect_bools; by apply OutRecipPerMsg|].
  destruct ((0 <? max_message_bytes _) && _) eqn:E2; [reflect_bools; by apply OutTooLarge|].
  apply andb_false_iff in E1. apply andb_false_iff in E2. rewrite !Z.ltb_ge in E1, E2.
  unfold allow_windows.
  destruct (active_checks l s now) as [|c0 cs] eqn:Ea.
  { replace (st, Ok allow_it) with (consume now (active_checks l s now) st) by by rewrite Ea.
    apply OutConsume; [done|lia|lia]. }
  rewrite <-Ea. destruct (peek_all now _ st) as [current|e] eqn:Ep; [|by apply OutPeekFailed].
  destruct (List.find _ _) as [c|] eqn:Ef.
  - apply List.find_some in Ef as [Hin Hex]. eapply OutWindow; [done| |done]. by apply list_elem_of_In.
  - apply OutConsume; [|lia|lia]. intros _. exists current. split; [done|].
    intros c Hc. eapply List.find_none; [done|]. by apply list_elem_of_In.
Qed.

(** ** The in-memory store never fails, and counts what it is given *)

Lemma mem_consume_entry now cs st k :
  NoDup (map ckey cs) ->
  entries (consume now cs st).1 !! k =
    match check_at k cs with
    | Some c =>
        let e := live_entry now (w_period (cwindow c)) (entries st !! k) in
        Some (MemEntry (wrap64 (val e + add c)) (expires_at e))
    | None => entries st !! k
    end.
Proof.
  revert st. induction cs as [|c cs IH]; intros st Hnd; [done|].
  apply NoDup_cons in Hnd as [Hni Hnd]. cbn [consume]. simpl. unfold mem_incr_by.
  rewrite (IH _ Hnd). simpl. unfold check_at; simpl. fold (check_at k cs).
  case_bool_decide as Heq.
  - subst k. rewrite (proj2 (check_at_None _ _) Hni), lookup_insert_eq. done.
  - by rewrite lookup_insert_ne.
Qed.

Lemma mem_consume_ok now cs st : (consume now cs st : memory_store * _).2 = Ok allow_it.
Proof. revert st. induction cs as [|c cs IH]; intros st; [done|]. apply IH. Qed.

(** ** Fixed windows: what one account can get accepted in one window *)

(** The four windows kept per account. *)
Inductive account_window := MsgMinute | MsgHour | MsgDay | RecipDay.

Definition window_of (k : account_window) (l : limits) : window :=
  match k with
  | MsgMinute => acct_msg_per_min (account l)
  | MsgHour => acct_msg_per_hour (account l)
  | MsgDay => acct_msg_per_day (account l)
  | RecipDay => recip_per_day (account l)
  end.

Definition window_name (k : account_window) : string :=
  match k with
  | MsgMinute => "msgmin" | MsgHour => "msghour" | MsgDay => "msgday" | RecipDay => "recipday"
  end.

(** What a send weighs in a window: a message, or its recipients (at least 1). *)
Definition weight (k : account_window) (s : send) : Z :=
  match k with
  | RecipDay => Z.max 1 (recipients s)
  | _ => 1
  end.

Definition account_key (k : account_window) (l : limits) (pk : string) (now : Z) : string :=
  window_key "acct" pk (window_name k) (window_of k l) now.

(** The total weight accepted from [pk] over a trace of timed sends. *)
Fixpoint accepted (l : limits) (k : account_window) (pk : string)
    (trace : list (Z * send)) (st : memory_store) : Z :=
  match trace with
  | [] => 0
  | (now, s) :: rest =>
      let '(st', r) := allow l now s st in
      (match r with
       | Ok d => if allowed d && String.eqb (pubkey s) pk then weight k s else 0
       | Err _ => 0
       end) + accepted l k pk rest st'
  end.

Lemma weight_check k l s now :
  enabled (window_of k l) = true ->
  exists c, c ∈ active_checks l s now /\ ckey c = account_key k l (pubkey s) now /\
    cwindow c = window_of k l /\ add c = weight k s.
Proof.
  intros Hen.
  assert (exists c, In c (checks l s now) /\ ckey c = account_key k l (pubkey s) now /\
    cwindow c = window_of k l /\ add c = weight k s) as (c & Hin & Hk & Hw & Ha).
  { unfold checks. destruct k; eexists; simpl;
      [split; [left; reflexivity|] | split; [right; left; reflexivity|]
      | split; [right; right; left; reflexivity|]
      | split; [right; right; right; left; reflexivity|]]; repeat split.
    simpl. destruct (Z.ltb_spec (recipients s) 1); lia. }
  exists c. split; [|done]. unfold active_checks.
  apply list_elem_of_In, List.filter_In. split; [done|]. by rewrite Hw.
Qed.

Lemma account_key_differ k1 k2 l1 l2 pk1 pk2 now1 now2 :
  pk1 <> pk2 -> account_key k1 l1 pk1 now1 <> account_key k2 l2 pk2 now2.
Proof.
  intros Hne. apply window_key_differ; [by destruct k1, k2|]. by right; left.
Qed.

Lemma other_account_key k l s now c pk t :
  pubkey s <> pk -> c ∈ checks l s now -> ckey c <> account_key k l pk t.
Proof.
  intros Hne Hin. unfold checks in Hin.
  assert (forall sc id nm w, sc = "domain" \/ (sc = "acct" /\ id <> pk) ->
    forallb (no_char ":") [sc; nm] = true -> window_key sc id nm w now <> account_key k l pk t) as Hdiff.
  { intros sc id nm w Hsc Hnc. apply window_key_differ.
    - simpl in *. reflect_bools. rewrite H, H0. by destruct k.
    - naive_solver discriminate. }
  apply elem_of_app in Hin as [Hin|Hin].
  - repeat (apply elem_of_cons in Hin as [->|Hin];
      [cbn [ckey]; apply Hdiff; [naive_solver|reflexivity]|]). by apply elem_of_nil in Hin.
  - destruct (new_account s); [|by apply elem_of_nil in Hin].
    apply list_elem_of_singleton in Hin as ->. apply Hdiff; [by left|reflexivity].
Qed.

(** The entry of an account window inside the bucket that starts at [b]: [n] has
    been counted, and it does not expire before the bucket ends. *)
Definition counted (b period n : Z) (found : option mem_entry) : Prop :=
  match found with
  | None => n = 0
  | Some e => val e = n /\ b + period <= expires_at e
  end.

Lemma counted_live b period n now found :
  0 < period -> truncate now period = b -> counted b period n found ->
  val (live_entry now period found) = n /\ b + period <= expires_at (live_entry now period found) /\
  (match found with Some e => if expires_at e <? now then 0 else val e | None => 0 end) = n.
Proof.
  intros Hp Hb Hc. pose proof (truncate_bounds now period Hp).
  destruct found as [e|]; simpl in *; [|subst; lia].
  destruct Hc as [<- He]. destruct (Z.ltb_spec (expires_at e) now); [lia|done].
Qed.

(** One send of a trace inside the bucket preserves [counted]. *)
Lemma counted_allow l k pk b now s st n :
  let w := window_of k l in
  enabled w = true -> 0 < w_period w -> w_max w < 2 ^ 62 -> recipients s <= 2 ^ 62 ->
  truncate now (w_period w) = b -> 0 <= n <= w_max w ->
  counted b (w_period w) n (entries st !! account_key k l pk now) ->
  let '(st', r) := allow l now s st in
  let n' := n + match r with
                | Ok d => if allowed d && String.eqb (pubkey s) pk then weight k s else 0
                | Err _ => 0 end in
  n <= n' <= w_max w /\ counted b (w_period w) n' (entries st' !! account_key k l pk now).
Proof.
  intros w Hen Hp Hm Hr Hb Hn Hc. subst w.
  assert (0 < weight k s <= 2 ^ 62) as Hw by (destruct k; simpl; lia).
  destruct (allow l now s st) as [st' r] eqn:Ea.
  pose proof (allow_cases l now s st) as Hcase. rewrite Ea in Hcase.
  inversion Hcase as [| | | |Hpass Hrp Hmb Heq]; subst; simpl; rewrite ?Z.add_0_r; try (by split; [lia|]).
  pose proof (mem_consume_ok now (active_checks l s now) st) as Hok.
  pose proof (mem_consume_entry now (active_checks l s now) st (account_key k l pk now)
    (active_checks_NoDup l s now)) as Hent.
  rewrite Heq in Hok, Hent. simpl in Hok, Hent. subst r. simpl.
  destruct (String.eqb_spec (pubkey s) pk) as [<-|Hne].
  - destruct (weight_check k l s now Hen) as (c & Hin & Hk & Hcw & Hadd).
    rewrite (check_at_Some _ _ c (active_checks_NoDup l s now) Hin Hk) in Hent.
    rewrite Hcw, Hadd in Hent.
    destruct (counted_live _ _ n now _ Hp eq_refl Hc) as (Hv & He & Hcnt).
    destruct Hpass as (current & Hpeek & Hall).
    { intros Hnil. rewrite Hnil in Hin. by apply elem_of_nil in Hin. }
    specialize (Hall c Hin). unfold exceeds in Hall. rewrite Hcw, Hadd, Hk in Hall.
    erewrite (peek_all_counter (S := memory_store)) in Hall;
      [|done|rewrite <-Hk; by apply list_elem_of_fmap_2].
    simpl in Hall. unfold mem_counter in Hall. rewrite Hcnt in Hall.
    apply Z.ltb_ge in Hall. rewrite wrap64_id in Hall by (unfold in_i64, i64_min, i64_max; lia).
    split; [lia|]. rewrite Hent. simpl. rewrite Hv.
    rewrite wrap64_id by (unfold in_i64, i64_min, i64_max; lia). split; [done|]. exact He.
  - rewrite Z.add_0_r. split; [lia|].
    rewrite (proj2 (check_at_None _ _)) in Hent; [by rewrite Hent|].
    rewrite list_elem_of_fmap. intros (c & Hk & Hin). symmetry in Hk.
    revert Hk. apply other_account_key with (s := s) (now := now); [done|].
    by apply active_in_checks in Hin as [? _].
Qed.

Lemma account_key_bucket k l pk now1 now2 :
  truncate now1 (w_period (window_of k l)) = truncate now2 (w_period (window_of k l)) ->
  account_key k l pk now1 = account_key k l pk now2.
Proof. unfold account_key, window_key. by intros ->. Qed.

Lemma accepted_bound l k pk b trace st n :
  enabled (window_of k l) = true -> 0 < w_period (window_of k l) -> w_max (window_of k l) < 2 ^ 62 ->
  Forall (fun '(now, s) => truncate now (w_period (window_of k l)) = b /\ recipients s <= 2 ^ 62) trace ->
  0 <= n <= w_max (window_of k l) ->
  (forall now, truncate now (w_period (window_of k l)) = b ->
     counted b (w_period (window_of k l)) n (entries st !! account_key k l pk now)) ->
  n + accepted l k pk trace st <= w_max (window_of k l).
Proof.
  intros Hen Hp Hm. revert st n. induction trace as [|[now s] trace IH]; intros st n Htr Hn Hc.
  { simpl. lia. }
  apply Forall_cons in Htr as [[Hb Hr] Htr]. cbn [accepted].
  pose proof (counted_allow l k pk b now s st n Hen Hp Hm Hr Hb Hn (Hc now Hb)) as Hstep.
  destruct (allow l now s st) as [st' r]. cbv zeta in Hstep. destruct Hstep as [Hn' Hc'].
  rewrite Z.add_assoc. apply IH; [done|lia|].
  intros now' Hb'. rewrite (account_key_bucket k l pk now' now) by congruence. done.
Qed.

(** * Properties *)

(** A refused send consumes no quota: whatever the counter store, when
    [Limiter.Allow] answers "not allowed" the store is exactly as it was. *)
Theorem denied_send_consumes_nothing {S} `{CounterStore S} l now s (st st' : S) d :
  allow l now s st = (st', Ok d) -> allowed d = false -> st' = st.
Proof.
  intros Ha Hd. pose proof (allow_cases l now s st) as Hcase. rewrite Ha in Hcase.
  inversion Hcase as [| | | |Hpass _ _ Heq]; subst; try done.
  apply consume_decision in Heq as ->. done.
Qed.

Lemma denied_send_consumes_nothing_witness :
  exists st', allow default_limits hour (Send "alice" 51 10 false) new_memory_store
                = (st', Ok (deny_it ReasonRecipPerMsg 0)) /\ st' = new_memory_store.
Proof.
  eexists. split; [vm_compute; reflexivity|].
  apply (denied_send_consumes_nothing default_limits hour (Send "alice" 51 10 false)
    new_memory_store _ (deny_it ReasonRecipPerMsg 0)); vm_compute; reflexivity.
Defined.

(** An accepted send fitted every enabled window and is counted exactly in
    those: over any store that keeps the [CounterStore] laws, each active window
    grows by the send's weight and no other counter moves. *)
Theorem allowed_send_is_counted {S} `{CounterStoreLaws S} l now s (st st' : S) d :
  Forall (fun c => 0 <= w_period (cwindow c)) (active_checks l s now) ->
  allow l now s st = (st', Ok d) -> allowed d = true ->
  (forall c, c ∈ active_checks l s now ->
     wrap64 (counter now st (ckey c) + add c) <= w_max (cwindow c) /\
     counter now st' (ckey c) = wrap64 (counter now st (ckey c) + add c)) /\
  (forall k, k ∉ map ckey (active_checks l s now) -> counter now st' k = counter now st k).
Proof.
  intros Hper Ha Hd. pose proof (allow_cases l now s st) as Hcase. rewrite Ha in Hcase.
  inversion Hcase as [| | | |Hpass _ _ Heq]; subst; try done.
  assert (forall cs (st0 st1 : S) k, NoDup (map ckey cs) ->
    Forall (fun c => 0 <= w_period (cwindow c)) cs -> consume now cs st0 = (st1, Ok d) ->
    counter now st1 k = match check_at k cs with
                        | Some c => wrap64 (counter now st0 k + add c)
                        | None => counter now st0 k end) as Hcons.
  { clear. induction cs as [|c cs IH]; intros st0 st1 k Hnd Hper Hc; cbn [consume] in Hc; [by simplify_eq|].
    apply NoDup_cons in Hnd as [Hni Hnd]. apply Forall_cons in Hper as [Hp0 Hper].
    destruct (incr_by _ _ _ _ _) as [st2 [v|e]] eqn:Hi; [|done].
    rewrite (IH _ _ _ Hnd Hper Hc). pose proof (incr_by_counter _ _ _ _ _ _ _ k Hp0 Hi) as ->.
    unfold check_at at 2; simpl. fold (check_at k cs). case_decide as Hk.
    - subst k. rewrite (proj2 (check_at_None _ _) Hni). by rewrite bool_decide_eq_true_2.
    - by rewrite bool_decide_eq_false_2. }
  split.
  - intros c Hc. destruct Hpass as (current & Hpeek & Hall).
    { intros Hnil. rewrite Hnil in Hc. by apply elem_of_nil in Hc. }
    specialize (Hall c Hc). unfold exceeds in Hall.
    erewrite peek_all_counter in Hall; [|done|by apply list_elem_of_fmap_2].
    split; [by apply Z.ltb_ge in Hall|].
    rewrite (Hcons _ _ _ (ckey c) (active_checks_NoDup l s now) Hper Heq).
    by rewrite (check_at_Some _ _ c (active_checks_NoDup l s now) Hc eq_refl).
  - intros k Hk. rewrite (Hcons _ _ _ k (active_checks_NoDup l s now) Hper Heq).
    by rewrite (proj2 (check_at_None _ _) Hk).
Qed.

Lemma allowed_send_is_counted_witness :
  let s := Send "alice" 3 10 false in
  exists st', allow default_limits hour s new_memory_store = (st', Ok allow_it) /\
    (forall c, c ∈ active_checks default_limits s hour ->
       wrap64 (counter hour new_memory_store (ckey c) + add c) <= w_max (cwindow c) /\
       counter hour st' (ckey c) = wrap64 (counter hour new_memory_store (ckey c) + add c)) /\
    (forall k, k ∉ map ckey (active_checks default_limits s hour) ->
       counter hour st' k = counter hour new_memory_store k).
Proof.
  intros s. eexists. split; [vm_compute; reflexivity|].
  eapply (allowed_send_is_counted default_limits hour s new_memory_store _ allow_it).
  - repeat constructor; vm_compute; discriminate.
  - vm_compute; reflexivity.
  - reflexivity.
Defined.

(** C4. The fixed-window guarantee.  With the in-memory store, whatever sends
    (of this and of other accounts) arrive in whatever order within one window,
    the messages (or recipients) accepted from an account never exceed the
    window's maximum. *)
Theorem fixed_window_cap l k pk b trace :
  enabled (window_of k l) = true -> 0 < w_period (window_of k l) -> w_max (window_of k l) < 2 ^ 62 ->
  Forall (fun '(now, s) => truncate now (w_period (window_of k l)) = b /\ recipients s <= 2 ^ 62) trace ->
  accepted l k pk trace new_memory_store <= w_max (window_of k l).
Proof.
  intros Hen Hp Hm Htr. change (accepted l k pk trace new_memory_store)
    with (0 + accepted l k pk trace new_memory_store).
  apply accepted_bound with (b := b); try done.
  unfold enabled in Hen. apply Z.ltb_lt in Hen. lia.
Qed.

Lemma fixed_window_cap_witness :
  let trace := repeat (hour, Send "alice" 1 10 false) 7 in
  accepted default_limits MsgMinute "alice" trace new_memory_store = 5 /\
  accepted default_limits MsgMinute "alice" trace new_memory_store <= 5.
Proof.
  intros trace. split; [vm_compute; reflexivity|].
  refine (fixed_window_cap default_limits MsgMinute "alice" hour trace _ _ _ _);
    [vm_compute; reflexivity..|].
  repeat (apply Forall_cons; split; [vm_compute; split; congruence|]). apply Forall_nil_2.
Defined.

(** Accounts are isolated: no two accounts ever share an account counter,
    whatever their pubkeys, windows and times. *)
Theorem account_counters_isolated k1 k2 l1 l2 s1 s2 now1 now2 :
  pubkey s1 <> pubkey s2 ->
  account_key k1 l1 (pubkey s1) now1 <> account_key k2 l2 (pubkey s2) now2.
Proof. apply account_key_differ. Qed.

Lemma account_counters_isolated_witness :
  account_key MsgMinute default_limits "alice:msghour" hour
    <> account_key MsgHour default_limits "alice" hour.
Proof.
  apply (account_counters_isolated MsgMinute MsgHour default_limits default_limits
    (Send "alice:msghour" 1 0 false) (Send "alice" 1 0 false)); simpl; discriminate.
Defined.

(** A refusal's RetryAfter is positive, at most one period, and waiting it
    out lands exactly at the start of the next window. *)
Theorem retry_after_next_window w now :
  0 < w_period w -> w_period w <= i64_max ->
  0 < reset_after w now <= w_period w /\
  now + reset_after w now = truncate now (w_period w) + w_period w /\
  truncate (now + reset_after w now) (w_period w) = now + reset_after w now.
Proof.
  intros Hp Hm. pose proof (truncate_bounds now (w_period w) Hp) as Hb. unfold reset_after.
  rewrite time_sub_exact by (unfold in_i64, i64_min, i64_max in *; lia).
  split; [lia|]. split; [lia|].
  replace (now + _) with (truncate now (w_period w) + w_period w) by lia.
  unfold truncate at 1 2. destruct (Z.leb_spec (w_period w) 0); [lia|].
  replace (now - now mod w_period w + w_period w) with ((now / w_period w + 1) * w_period w).
  - rewrite Z.mod_mul by lia. unfold truncate. destruct (Z.leb_spec (w_period w) 0); [lia|].
    pose proof (Z.div_mod now (w_period w) ltac:(lia)). lia.
  - pose proof (Z.div_mod now (w_period w) ltac:(lia)). lia.
Qed.

Lemma retry_after_next_window_witness :
  let w := Window 5 minute in
  0 < reset_after w (hour + 20 * second) <= minute /\
  hour + 20 * second + reset_after w (hour + 20 * second)
    = truncate (hour + 20 * second) minute + minute /\
  truncate (hour + 20 * second + reset_after w (hour + 20 * second)) minute
    = hour + 20 * second + reset_after w (hour + 20 * second).
Proof. intros w. apply (retry_after_next_window w); vm_compute; congruence. Defined.
