(* ===== verification/LimiterRace.v ===== *)
(** * Sends that are limited at once: internal/ratelimit/ratelimit.go

    [Limiter.Allow] reads all counters in one call to the store and counts the
    send in later calls, one per window.  Several sends, of one replica or of
    many, interleave between these calls.  Here a send goes through [Allow] in
    the steps between two calls, each with its own reading of the clock, and
    several workers serve their sends in turns. *)

From S2P Require Import Prelude GoStrings RateLimit.
#[local] Open Scope Z_scope.

(** A send that has arrived, whose windows are chosen, that has passed the
    check with windows still to count it in, and that has its answer. *)
Inductive phase :=
| Arrived (s : send)
| Peeking (s : send) (at_ : Z) (active : list RateLimit.check)
| Consuming (s : send) (rest : list RateLimit.check)
| Answered (s : send) (r : res decision).

Record worker := Worker { wk_phase : option phase; wk_later : list send; wk_done : list (send * res decision) }.

Section steps.
Context {S : Type} `{CounterStore S} (l : limits).

Definition size_refusal (s : send) : option decision :=
  if (0 <? recip_per_msg (account l)) && (recip_per_msg (account l) <? recipients s) then Some (deny_it ReasonRecipPerMsg 0)
  else if (0 <? max_message_bytes (account l)) && (max_message_bytes (account l) <? bytes s)
  then Some (deny_it ReasonMessageTooLarge 0)
  else None.

Definition allow_step (now : Z) (p : phase) (st : S) : S * phase :=
  match p with
  | Arrived s =>
      (st, match size_refusal s with
           | Some d => Answered s (Ok d)
           | None => match active_checks l s now with
                     | [] => Answered s (Ok allow_it)
                     | active => Peeking s now active
                     end
           end)
  | Peeking s at_ active =>
      (st, match peek_all now (map ckey active) st with
           | Err e => Answered s (Err (Wrapped "ratelimit peek" e))
           | Ok current =>
               match List.find (exceeds current) active with
               | Some c => Answered s (Ok (deny_it (creason c) (reset_after (cwindow c) at_)))
               | None => Consuming s active
               end
           end)
  | Consuming s [] => (st, Answered s (Ok allow_it))
  | Consuming s (c :: rest) =>
      match incr_by now (ckey c) (add c) (w_period (cwindow c)) st with
      | (st, Err e) => (st, Answered s (Err (Wrapped ("ratelimit incr " +:+ reason_string (creason c)) e)))
      | (st, Ok _) => (st, Consuming s rest)
      end
  | Answered s r => (st, p)
  end.

Definition worker_turn (now : Z) (w : worker) (st : S) : S * worker :=
  match wk_phase w with
  | None => (st, match wk_later w with
                 | [] => w
                 | s :: later => Worker (Some (Arrived s)) later (wk_done w)
                 end)
  | Some (Answered s r) => (st, Worker None (wk_later w) (wk_done w ++ [(s, r)]))
  | Some p => let '(st, p) := allow_step now p st in (st, Worker (Some p) (wk_later w) (wk_done w))
  end.

(** The turns: whose it is, and the time. *)
Fixpoint serve_turns (turns : list (Z * nat)) (ws : list worker) (st : S) : list worker * S :=
  match turns with
  | [] => (ws, st)
  | (now, i) :: turns =>
      match ws !! i with
      | None => serve_turns turns ws st
      | Some w => let '(st, w) := worker_turn now w st in serve_turns turns (<[i := w]> ws) st
      end
  end.

(** One send by itself, at one instant. *)
Fixpoint alone (fuel : nat) (now : Z) (p : phase) (st : S) : S * phase :=
  match fuel with O => (st, p) | Datatypes.S fuel => let '(st, p) := allow_step now p st in alone fuel now p st end.

End steps.

(** What a worker let through of an account, in one of its windows. *)
Definition passed (k : account_window) (pk : string) (s : send) : Z := if String.eqb (pubkey s) pk then weight k s else 0.
Definition phase_passed (k : account_window) (pk : string) (p : phase) : Z :=
  match p with
  | Consuming s _ => passed k pk s
  | Answered s (Ok d) => if allowed d then passed k pk s else 0
  | _ => 0
  end.
Definition let_through (k : account_window) (pk : string) (w : worker) : Z :=
  match wk_phase w with Some p => phase_passed k pk p | None => 0 end +
  Zsum (map (fun x => phase_passed k pk (Answered x.1 x.2)) (wk_done w)).

(** * Properties *)

Section alone.
Context {S : Type} `{CounterStore S} (l : limits).

Lemma alone_consumes now s cs (st : S) : exists fuel,
  alone l fuel now (Consuming s cs) st = let '(st', r) := consume now cs st in (st', Answered s r).
Proof.
  revert st. induction cs as [|c cs IH]; intros st; [by exists 1%nat|]. cbn [consume].
  destruct (incr_by now (ckey c) (add c) (w_period (cwindow c)) st) as [st1 [v|e]] eqn:E.
  - destruct (IH st1) as [n Hn]. exists (Datatypes.S n). cbn [alone allow_step]. by rewrite E.
  - exists 1%nat. cbn [alone allow_step]. by rewrite E.
Qed.

(** Without others in between, the steps are [Allow].  A send served alone
    reaches the answer of [allow] and leaves the store as [allow] does. *)
Theorem alone_is_allow now s (st : S) : exists fuel,
  alone l fuel now (Arrived s) st = let '(st', r) := allow l now s st in (st', Answered s r).
Proof.
  unfold allow. destruct (size_refusal l s) as [d|] eqn:E.
  { exists 1%nat. cbn [alone allow_step]. rewrite E. unfold size_refusal in E. destruct (_ && _); [by simplify_eq|].
    destruct (_ && _); by simplify_eq. }
  assert (forall fuel, alone l (Datatypes.S fuel) now (Arrived s) st =
    alone l fuel now (match active_checks l s now with [] => Answered s (Ok allow_it) | a => Peeking s now a end) st) as Hs
    by (intros; cbn [alone allow_step]; by rewrite E).
  unfold size_refusal in E. destruct (_ && _); [done|]. destruct (_ && _); [done|]. unfold allow_windows.
  destruct (active_checks l s now) as [|c0 cs]; [exists 1%nat; by rewrite Hs|].
  destruct (peek_all now (map ckey (c0 :: cs)) st) as [current|e] eqn:Ep.
  - destruct (List.find (exceeds current) (c0 :: cs)) as [c|] eqn:Ef.
    + exists 2%nat. rewrite Hs. cbn [alone allow_step]. by rewrite Ep, Ef.
    + destruct (alone_consumes now s (c0 :: cs) st) as [n Hn]. exists (2 + n)%nat. cbn [Nat.add]. rewrite Hs.
      cbn [alone allow_step]. by rewrite Ep, Ef.
  - exists 2%nat. rewrite Hs. cbn [alone allow_step]. by rewrite Ep.
Qed.

End alone.

(** ** What can pass at once *)

Section bound.
Context (l : limits) (k : account_window) (pk : string) (b most : Z).
Abbreviation w := (window_of k l).
Context (Hen : enabled w = true) (Hperiod : 0 < w_period w).

(** The counter of the account's window in the bucket. *)
Definition bucket_key : string := account_key k l pk b.
Definition in_bucket (now : Z) : Prop := truncate now (w_period w) = b.

Context (Hbucket : in_bucket b).

Lemma key_in_bucket now : in_bucket now -> account_key k l pk now = bucket_key.
Proof. intros Hn. apply account_key_bucket. unfold in_bucket in *. congruence. Qed.

(** What a send that has passed has still to count. *)
Definition owing (cs : list RateLimit.check) : Z := match check_at bucket_key cs with Some c => add c | None => 0 end.
Definition phase_owing (p : phase) : Z := match p with Consuming _ cs => owing cs | _ => 0 end.
Definition worker_owing (x : worker) : Z := match wk_phase x with Some p => phase_owing p | None => 0 end.

Definition phase_ok (p : phase) : Prop :=
  match p with
  | Arrived s | Answered s _ => weight k s <= most
  | Peeking s t cs => weight k s <= most /\ in_bucket t /\ cs = active_checks l s t
  | Consuming s cs => weight k s <= most /\ exists t done, in_bucket t /\ active_checks l s t = done ++ cs
  end.
Definition worker_ok (x : worker) : Prop :=
  match wk_phase x with Some p => phase_ok p | None => True end /\ Forall (fun s => weight k s <= most) (wk_later x).

(** The check of a send against the counter, if it is this account's. *)
Lemma bucket_check s t : in_bucket t ->
  match check_at bucket_key (active_checks l s t) with
  | Some c => pubkey s = pk /\ add c = weight k s /\ cwindow c = w
  | None => pubkey s <> pk
  end.
Proof.
  intros Ht. rewrite <- (key_in_bucket t Ht). pose proof (active_checks_NoDup l s t) as Hnd.
  destruct (String.eqb_spec (pubkey s) pk) as [<-|Hne].
  - destruct (weight_check k l s t Hen) as (c & Hin & Hk & Hw & Ha). by rewrite (check_at_Some _ _ c Hnd Hin Hk).
  - rewrite (proj2 (check_at_None _ _)); [done|]. rewrite list_elem_of_fmap. intros (c & Hk & Hin). symmetry in Hk. revert Hk.
    apply other_account_key with (s := s) (now := t); [done|]. by apply active_in_checks in Hin as [? _].
Qed.

Lemma weight_pos s : 0 < weight k s.
Proof. destruct k; simpl; lia. Qed.

(** A send that has just passed owes what it weighs. *)
Lemma owing_fresh s t : in_bucket t -> owing (active_checks l s t) = passed k pk s.
Proof.
  intros Ht. pose proof (bucket_check s t Ht) as Hc. unfold owing, passed. destruct (check_at _ _) as [c|].
  - destruct Hc as (-> & -> & _). by rewrite String.eqb_refl.
  - by rewrite (proj2 (String.eqb_neq _ _) Hc).
Qed.

Lemma check_at_app key done cs : NoDup (map ckey (done ++ cs)) ->
  forall c, check_at key cs = Some c -> check_at key (done ++ cs) = Some c.
Proof.
  intros Hnd c Hc. unfold check_at in Hc. apply find_some in Hc as [Hin Hk%bool_decide_eq_true].
  apply (check_at_Some key (done ++ cs) c Hnd); [|done]. apply elem_of_app. right. by apply list_elem_of_In.
Qed.

Lemma owing_bounds p : phase_ok p -> 0 <= phase_owing p <= Z.max 0 most.
Proof.
  destruct p as [s|s t cs|s cs|s r]; simpl; try lia. intros (Hw & t & prefix & Ht & E).
  unfold owing. destruct (check_at bucket_key cs) as [c|] eqn:Ec; [|lia].
  pose proof (active_checks_NoDup l s t) as Hnd. rewrite E in Hnd. apply (check_at_app _ _ _ Hnd) in Ec. rewrite <- E in Ec.
  pose proof (bucket_check s t Ht) as Hc. rewrite Ec in Hc. destruct Hc as (_ & -> & _). pose proof (weight_pos s). lia.
Qed.

Definition counts (n : Z) (st : memory_store) : Prop := counted b (w_period w) n (entries st !! bucket_key).

(** What the step of a send does to the counter [n] and to what is owed. *)
Record step_effect (p : phase) (n : Z) (p' : phase) (st' : memory_store) : Prop := StepEffect {
  se_ok : phase_ok p';
  se_counts : exists n', n <= n' /\ counts n' st' /\
    phase_passed k pk p' - phase_passed k pk p = (n' + phase_owing p') - (n + phase_owing p) /\
    (n' + phase_owing p' <= n + phase_owing p \/ phase_owing p = 0 /\ n' + phase_owing p' <= w_max w) }.

Lemma same_count p p' n st : phase_ok p' -> counts n st -> phase_owing p' = phase_owing p ->
  phase_passed k pk p' = phase_passed k pk p -> step_effect p n p' st.
Proof. intros Hok Hc Ho Hp. split; [done|]. exists n. split_and!; try done; lia. Qed.

Context (Hmost : most <= 2 ^ 62).

Lemma peek_effect now s t cs n st : in_bucket now -> phase_ok (Peeking s t cs) -> counts n st -> 0 <= n < 2 ^ 62 ->
  let '(st', p') := allow_step l now (Peeking s t cs) st in step_effect (Peeking s t cs) n p' st'.
Proof.
  intros Hnow (Hw & Ht & ->) Hc Hn. cbn [allow_step]. destruct (peek_all now _ st) as [current|e] eqn:Ep; [|by apply same_count].
  destruct (List.find (exceeds current) (active_checks l s t)) as [c|] eqn:Ef; [by apply same_count|].
  split; [split; [done|]; by exists t, []|]. exists n. cbn [phase_passed phase_owing]. rewrite (owing_fresh s t Ht).
  split; [done|]. split; [done|]. split; [lia|]. unfold passed.
  destruct (String.eqb_spec (pubkey s) pk) as [Hpk|Hpk]; [right|left; lia]. split; [done|].
  pose proof (bucket_check s t Ht) as Hb. destruct (check_at bucket_key (active_checks l s t)) as [c|] eqn:Ec; [|done].
  destruct Hb as (_ & Ha & Hcw). unfold check_at in Ec. apply find_some in Ec as [Hin Hk%bool_decide_eq_true].
  pose proof (find_none _ _ Ef c Hin) as Hex. unfold exceeds in Hex. apply Z.ltb_ge in Hex. rewrite Hcw, Ha in Hex.
  erewrite (peek_all_counter (S := memory_store)) in Hex; [|done|by apply list_elem_of_fmap_2, list_elem_of_In].
  simpl in Hex. unfold mem_counter in Hex. rewrite Hk in Hex.
  destruct (counted_live _ _ n now _ Hperiod Hnow Hc) as (_ & _ & Hcnt). rewrite Hcnt in Hex.
  pose proof (weight_pos s). rewrite wrap64_id in Hex by (unfold in_i64, i64_min, i64_max; lia). done.
Qed.

Lemma owing_cons c cs : NoDup (map ckey (c :: cs)) ->
  owing (c :: cs) = (if bool_decide (ckey c = bucket_key) then add c else owing cs) /\
  (ckey c = bucket_key -> owing cs = 0).
Proof.
  intros [Hni Hnd]%NoDup_cons. unfold owing, check_at at 1. simpl. fold (check_at bucket_key cs). split.
  - by case_bool_decide.
  - intros E. by rewrite (proj2 (check_at_None _ _)) by by rewrite <- E.
Qed.

Lemma consume_effect now s cs n st : in_bucket now -> phase_ok (Consuming s cs) -> counts n st -> 0 <= n < 2 ^ 62 ->
  let '(st', p') := allow_step l now (Consuming s cs) st in step_effect (Consuming s cs) n p' st'.
Proof.
  intros Hnow (Hw & t & prefix & Ht & E) Hc Hn. destruct cs as [|c cs]; cbn [allow_step]; [by apply same_count|].
  pose proof (active_checks_NoDup l s t) as Hnd. rewrite E in Hnd.
  assert (NoDup (map ckey (c :: cs))) as Hnd' by (rewrite map_app in Hnd; by apply NoDup_app in Hnd as (_ & _ & ?)).
  destruct (owing_cons c cs Hnd') as [Ho Hz]. cbn [incr_by memory_counter_store]. unfold mem_incr_by. cbn [fst snd].
  split; [split; [done|]; exists t, (prefix ++ [c]); by rewrite <- app_assoc|].
  case_bool_decide as Hk.
  - assert (add c = weight k s /\ cwindow c = w) as [Ha Hcw].
    { pose proof (bucket_check s t Ht) as Hb. rewrite E in Hb.
      rewrite (check_at_Some bucket_key _ c Hnd) in Hb; [by destruct Hb|apply elem_of_app; right; left|done]. }
    destruct (counted_live _ _ n now _ Hperiod Hnow Hc) as (Hv & He & _). pose proof (weight_pos s). rewrite Ha in Ho.
    exists (n + weight k s). cbn [phase_passed phase_owing]. rewrite Ho, (Hz Hk). split; [lia|]. split; [|split; [lia|left; lia]].
    unfold counts. cbn [entries]. rewrite Hk, lookup_insert_eq, Hcw, Ha. cbn [counted val expires_at].
    rewrite Hv, wrap64_id by (unfold in_i64, i64_min, i64_max; lia). done.
  - exists n. cbn [phase_passed phase_owing]. rewrite Ho. split; [lia|]. split; [|split; [lia|left; lia]].
    unfold counts. cbn [entries]. by rewrite lookup_insert_ne.
Qed.

Lemma step_effects now p n st : in_bucket now -> phase_ok p -> counts n st -> 0 <= n < 2 ^ 62 ->
  let '(st', p') := allow_step l now p st in step_effect p n p' st'.
Proof.
  intros Hnow Hok Hc Hn. destruct p as [s|s t cs|s cs|s r].
  - cbn [allow_step]. destruct (size_refusal l s) as [d|] eqn:E.
    + apply same_count; try done. simpl. unfold size_refusal in E. destruct (_ && _); [by simplify_eq|]. destruct (_ && _); by simplify_eq.
    + destruct (weight_check k l s now Hen) as (c & Hin & _). destruct (active_checks l s now) as [|c0 cs] eqn:Ea; [by apply elem_of_nil in Hin|].
      by apply same_count.
  - by apply peek_effect.
  - by apply consume_effect.
  - by apply same_count.
Qed.

(** One worker's turn, at the level of the worker. *)
Lemma turn_effects now x n st : in_bucket now -> worker_ok x -> counts n st -> 0 <= n < 2 ^ 62 ->
  let '(st', y) := worker_turn l now x st in
  worker_ok y /\ exists n', n <= n' /\ counts n' st' /\
    let_through k pk y - let_through k pk x = (n' + worker_owing y) - (n + worker_owing x) /\
    (n' + worker_owing y <= n + worker_owing x \/ worker_owing x = 0 /\ n' + worker_owing y <= w_max w).
Proof.
  intros Hnow [Hp Hl] Hc Hn. destruct x as [[p|] later served]; unfold worker_turn, let_through, worker_owing, worker_ok in *;
    cbn [wk_phase wk_later wk_done] in *.
  - pose proof (step_effects now p n st Hnow Hp Hc Hn) as Hs. destruct p as [s|s t cs|s cs|s r]; [..|
      cbn [wk_phase wk_later wk_done]; split; [done|]; exists n; rewrite map_app, Zsum_app; cbn [map Zsum fold_right fst snd phase_owing]; split_and!; try done; lia].
    all: destruct (allow_step l now _ st) as [st' p']; destruct Hs as [Hok (n' & Hle & Hc' & Heq & Hb)]; cbn [wk_phase wk_later wk_done];
      split; [done|]; exists n'; split_and!; try done; lia.
  - destruct later as [|s later]; (split; [by apply Forall_cons in Hl || done|]); exists n; cbn [wk_phase wk_done phase_owing phase_passed]; split_and!; try done; lia.
Qed.

Definition all_through (ws : list worker) : Z := Zsum (map (let_through k pk) ws).
Definition all_owing (ws : list worker) : Z := Zsum (map worker_owing ws).

Lemma others_owe ws i x : 0 <= most -> Forall worker_ok ws -> ws !! i = Some x ->
  all_owing ws - worker_owing x <= (Z.of_nat (length ws) - 1) * most.
Proof.
  intros Hm Hok Hi. unfold all_owing.
  assert (forall zs, Forall worker_ok zs -> Zsum (map worker_owing zs) <= Z.of_nat (length zs) * most) as Hall.
  { induction 1 as [|z zs [Hz _] _ IH]; simpl; [lia|].
    assert (worker_owing z <= most). { unfold worker_owing. destruct (wk_phase z) as [p|]; [|lia]. pose proof (owing_bounds p Hz). lia. } lia. }
  rewrite <- (take_drop_middle ws i x Hi) in *. revert Hok. generalize (take i ws) (drop (S i) ws). intros l1 l2 Hok.
  apply Forall_app in Hok as [H1 [_ H2]%Forall_cons].
  rewrite map_app, Zsum_app, length_app. simpl. pose proof (Hall l1 H1). pose proof (Hall l2 H2). lia.
Qed.

(** What holds between the turns. *)
Definition within_limit (ws : list worker) (st : memory_store) : Prop :=
  Forall worker_ok ws /\ exists n, 0 <= n /\ counts n st /\ all_through ws = n + all_owing ws /\
    n + all_owing ws <= w_max w + (Z.of_nat (length ws) - 1) * most.

Lemma owing_nonneg ws : Forall worker_ok ws -> 0 <= all_owing ws.
Proof.
  unfold all_owing. induction 1 as [|z zs [Hz _] _ IH]; simpl; [lia|].
  assert (0 <= worker_owing z). { unfold worker_owing. destruct (wk_phase z) as [p|]; [|lia]. pose proof (owing_bounds p Hz). lia. } lia.
Qed.

Lemma serve_within_limit turns ws st : 0 <= most -> w_max w + (Z.of_nat (length ws) - 1) * most < 2 ^ 62 ->
  Forall (fun t => in_bucket t.1) turns -> within_limit ws st ->
  let '(ws', st') := serve_turns l turns ws st in length ws' = length ws /\ within_limit ws' st'.
Proof.
  intros Hm. revert ws st. induction turns as [|[now i] turns IH]; intros ws st Hcap Ht Hinv; [done|].
  apply Forall_cons in Ht as [Hnow Ht]. cbn [serve_turns]. destruct (ws !! i) as [x|] eqn:Hi; [|by apply IH].
  destruct Hinv as (Hok & n & Hn & Hc & Heq & Hb). pose proof (owing_nonneg ws Hok). cbn [fst] in Hnow.
  pose proof (turn_effects now x n st Hnow ltac:(by eapply Forall_lookup_1) Hc ltac:(lia)) as He.
  destruct (worker_turn l now x st) as [st1 y]. destruct He as (Hy & n' & Hle & Hc' & Hd & Hcase).
  pose proof (length_insert ws i y) as Hlen. rewrite <- Hlen in Hcap |- *. apply IH; [done|done|].
  pose proof (others_owe ws i x Hm Hok Hi). split; [by apply Forall_insert|]. exists n'. rewrite Hlen.
  unfold all_through, all_owing in *. rewrite !(Zsum_insert _ _ _ x y Hi). split_and!; [lia|done|lia|]. destruct Hcase as [?|[? ?]]; lia.
Qed.

End bound.

(** Workers with their sends before them. *)
Definition idle (sends : list (list send)) : list worker := map (fun s => Worker None s []) sends.

(** C5. How far sends at once can go over a limit.  Let any number of workers serve
    their sends in turns, however their calls to the store interleave, with all
    turns in one window of the account and no send heavier than [most]: what
    they let through for the account is at most the window's maximum and one
    heaviest send for each further worker.  With one worker it is the maximum. *)
Theorem concurrent_overshoot_bounded l k pk b most sends turns
    (Hen : enabled (window_of k l) = true) (Hperiod : 0 < w_period (window_of k l))
    (Hb : truncate b (w_period (window_of k l)) = b)
    (Hweights : Forall (Forall (fun s => weight k s <= most)) sends)
    (Hmost : 0 <= most <= 2 ^ 62)
    (Hcap : w_max (window_of k l) + (Z.of_nat (length sends) - 1) * most < 2 ^ 62)
    (Hmax : sends <> [])
    (Hturns : Forall (fun t => truncate t.1 (w_period (window_of k l)) = b) turns) :
  all_through k pk (serve_turns l turns (idle sends) new_memory_store).1 <=
  w_max (window_of k l) + (Z.of_nat (length sends) - 1) * most.
Proof.
  assert (forall (f : worker -> Z), (forall s, f (Worker None s []) = 0) -> Zsum (map f (idle sends)) = 0) as Hzero.
  { intros f Hf. clear -Hf. unfold idle. induction sends as [|s sends IH]; simpl; [done|]. by rewrite Hf, IH. }
  assert (length (idle sends) = length sends) as Hlen by apply length_map.
  assert (within_limit l k pk b most (idle sends) new_memory_store) as Hstart.
  { split; [apply Forall_map; eapply Forall_impl; [exact Hweights|]; by intros s Hs; split|].
    exists 0. split; [done|]. split; [done|]. unfold all_through, all_owing. rewrite !Hzero, Hlen by done.
    split; [done|]. unfold enabled in Hen. apply Z.ltb_lt in Hen. destruct sends; [done|]. simpl length. nia. }
  pose proof (serve_within_limit l k pk b most Hen Hperiod Hb (proj2 Hmost) turns (idle sends) new_memory_store (proj1 Hmost)
    ltac:(by rewrite Hlen) Hturns Hstart) as Hs.
  destruct (serve_turns l turns (idle sends) new_memory_store) as [ws st]. destruct Hs as [Hl (Hok & n & Hn & _ & Heq & Hbound)].
  rewrite Hl, Hlen in Hbound. simpl. lia.
Qed.

Definition sample_send : send := Send "alice" 1 10 false.
(** Four sends one after another; then two that read before either counts. *)
Definition race_sends : list (list send) := [repeat sample_send 5; [sample_send]].
Definition tight_turns : list (Z * nat) :=
  map (fun i => (hour, i)) (repeat 0%nat 47 ++ repeat 1%nat 3 ++ repeat 0%nat 8 ++ repeat 1%nat 8).

(** C36. The limiter is not safe for concurrent use.  Two workers that serve six
    sends of one account within one minute let all six through, although the
    default limit is five: two sends both read a count of four before either is
    counted. *)
Theorem concurrent_sends_exceed_the_limit :
  let ws := (serve_turns default_limits tight_turns (idle race_sends) new_memory_store).1 in
  Forall (fun w => Forall (fun x => x.2 = Ok allow_it) (wk_done w)) ws /\
  all_through MsgMinute "alice" ws = 6 /\ w_max (window_of MsgMinute default_limits) = 5 /\
  Forall (fun t => truncate t.1 minute = truncate hour minute) tight_turns.
Proof.
  assert ((serve_turns default_limits tight_turns (idle race_sends) new_memory_store).1 =
    [Worker None [] (repeat (sample_send, Ok allow_it) 5); Worker None [] [(sample_send, Ok allow_it)]]) as -> by (vm_compute; reflexivity).
  cbv zeta. split; [repeat constructor|]. split; [reflexivity|]. split; [reflexivity|].
  unfold tight_turns. apply Forall_map, Forall_true. done.
Qed.

Lemma concurrent_overshoot_bounded_witness :
  all_through MsgMinute "alice" (serve_turns default_limits tight_turns (idle race_sends) new_memory_store).1 <= 5 + (2 - 1) * 1.
Proof.
  apply (concurrent_overshoot_bounded default_limits MsgMinute "alice" hour 1 race_sends tight_turns).
  - reflexivity.
  - reflexivity.
  - reflexivity.
  - repeat constructor; vm_compute; discriminate.
  - split; vm_compute; discriminate.
  - reflexivity.
  - discriminate.
  - unfold tight_turns. apply Forall_map, Forall_true. intros i. reflexivity.
Defined.
