(* ===== verification/Queue.v ===== *)
(** * The durable outbound queue: internal/transport/queue.go

    The [outbound_queue] table is the list of its rows; each method that runs an
    SQL statement is the function from the table to the table that the statement
    computes.  [now] is both the database's NOW() and the process' time.Now().
    JSON columns are kept decoded, and a NULL last_error is the empty string, as
    every reader of the row makes it. *)

From S2P Require Import Prelude GoStrings.
From stdpp Require Import sorting.
#[local] Open Scope Z_scope.

(** ** Messages and their status *)

Inductive queue_status :=
| StatusPending | StatusProcessing | StatusSent | StatusFailed | StatusRetry | StatusHeld.

#[export] Instance queue_status_eq_dec : EqDecision queue_status.
Proof. solve_decision. Defined.

Definition metadata_sender_pubkey : string := "sender_pubkey".

Record queued_message := QueuedMessage {
  id : string;
  message_id : string;
  from : string;
  to : list string;
  raw_message : string;
  status : queue_status;
  attempts : Z;
  max_attempts : Z;
  last_attempt : option Z;
  next_attempt : Z;
  last_error : string;
  created_at : Z;
  metadata : gmap string string }.

Abbreviation table := (list queued_message).

Record queue_config := QueueConfig {
  cfg_max_attempts : Z;
  retry_delays : list Z;
  process_batch : Z;
  poll_interval : Z }.

Definition default_queue_config : queue_config := {|
  cfg_max_attempts := 5;
  retry_delays := [1 * minute; 5 * minute; 15 * minute; 1 * hour; 4 * hour];
  process_batch := 10;
  poll_interval := 30 * second |}.

Definition with_status (s : queue_status) (r : queued_message) : queued_message := {|
  id := id r; message_id := message_id r; from := from r; to := to r;
  raw_message := raw_message r; status := s; attempts := attempts r;
  max_attempts := max_attempts r; last_attempt := last_attempt r;
  next_attempt := next_attempt r; last_error := last_error r;
  created_at := created_at r; metadata := metadata r |}.

(** [UPDATE outbound_queue SET ... WHERE p]: the new table and RowsAffected. *)
Definition update_where (p : queued_message -> bool) (f : queued_message -> queued_message)
    (t : table) : table := map (fun r => if p r then f r else r) t.
Definition rows_affected (p : queued_message -> bool) (t : table) : Z :=
  Z.of_nat (length (List.filter p t)).

Definition has_id (i : string) (r : queued_message) : bool := String.eqb (id r) i.
Definition find_id (i : string) (t : table) : option queued_message := List.find (has_id i) t.

(** ** Enqueue

    [gen] is the generated queue id.  The id column is the primary key, so the
    insert fails on a duplicate. *)
Definition enqueue (cfg : queue_config) (gen : string) (now : Z) (msg : queued_message)
    (t : table) : table * res string :=
  let i := if String.eqb (id msg) "" then gen else id msg in
  let row := {|
    id := i; message_id := message_id msg; from := from msg; to := to msg;
    raw_message := raw_message msg; status := StatusPending; attempts := attempts msg;
    max_attempts := if max_attempts msg =? 0 then cfg_max_attempts cfg else max_attempts msg;
    last_attempt := None; next_attempt := now; last_error := ""; created_at := now;
    metadata := metadata msg |} in
  match find_id i t with
  | Some _ => (t, Err (Wrapped "failed to enqueue message" (Sentinel "duplicate key")))
  | None => (t ++ [row], Ok i)
  end.

(** ** Dequeue *)

Definition waiting (r : queued_message) : bool :=
  match status r with StatusPending | StatusRetry => true | _ => false end.

Definition eligible (now : Z) (r : queued_message) : bool :=
  waiting r && (next_attempt r <=? now).

Definition earlier (a b : queued_message) : Prop := next_attempt a <= next_attempt b.
#[export] Instance earlier_dec : RelDecision earlier.
Proof. intros a b. unfold earlier. apply _. Defined.

Definition take_for_delivery (now : Z) (r : queued_message) : queued_message := {|
  id := id r; message_id := message_id r; from := from r; to := to r;
  raw_message := raw_message r; status := StatusProcessing; attempts := attempts r;
  max_attempts := max_attempts r; last_attempt := Some now;
  next_attempt := next_attempt r; last_error := last_error r;
  created_at := created_at r; metadata := metadata r |}.

Definition batch_size (cfg : queue_config) (limit : Z) : nat :=
  Z.to_nat (if limit <=? 0 then process_batch cfg else limit).

(** The sub-select: the earliest eligible rows, at most a batch of them (rows
    with equal next_attempt come in table order, which SQL leaves open). *)
Definition selected (cfg : queue_config) (now limit : Z) (t : table) : list queued_message :=
  take (batch_size cfg limit) (merge_sort earlier (List.filter (eligible now) t)).

Definition dequeue (cfg : queue_config) (now limit : Z) (t : table) : table * list queued_message :=
  let sel := selected cfg now limit t in
  (update_where (fun r => bool_decide (id r ∈ map id sel)) (take_for_delivery now) t,
   map (take_for_delivery now) sel).

(** ** Outcome of a delivery attempt *)

Definition sent_row (r : queued_message) : queued_message := {|
  id := id r; message_id := message_id r; from := from r; to := to r;
  raw_message := raw_message r; status := StatusSent; attempts := attempts r + 1;
  max_attempts := max_attempts r; last_attempt := last_attempt r;
  next_attempt := next_attempt r; last_error := last_error r;
  created_at := created_at r; metadata := metadata r |}.

Definition mark_sent (i : string) (t : table) : table := update_where (has_id i) sent_row t.

Definition get_retry_delay (cfg : queue_config) (attempt : Z) : Z :=
  if (attempt <=? 0) || bool_decide (retry_delays cfg = []) then 1 * minute
  else
    let n := Z.of_nat (length (retry_delays cfg)) in
    let idx := attempt - 1 in
    let idx := if n <=? idx then n - 1 else idx in
    nth (Z.to_nat idx) (retry_delays cfg) 0.

Definition failed_row (cfg : queue_config) (now : Z) (err : string) (r : queued_message)
    : queued_message :=
  let n := attempts r + 1 in
  let permanent := max_attempts r <=? n in
  {| id := id r; message_id := message_id r; from := from r; to := to r;
     raw_message := raw_message r;
     status := if permanent then StatusFailed else StatusRetry;
     attempts := n; max_attempts := max_attempts r; last_attempt := last_attempt r;
     next_attempt := if permanent then now else now + get_retry_delay cfg n;
     last_error := err; created_at := created_at r; metadata := metadata r |}.

(** The QueuedMessage the permanent-failure callback receives: the fields the
    code sets; the others, the status among them, have Go's zero value. *)
Record failure_report := FailureReport {
  fr_id : string; fr_message_id : string; fr_from : string; fr_to : list string;
  fr_attempts : Z; fr_last_error : string; fr_metadata : gmap string string }.

Definition bounce_message (err : string) (r : queued_message) : failure_report := {|
  fr_id := id r; fr_message_id := message_id r; fr_from := from r; fr_to := to r;
  fr_attempts := attempts r + 1; fr_last_error := err; fr_metadata := metadata r |}.

(** [MarkFailed]: the new table and, on a permanent failure, the message handed
    to the callback. *)
Definition mark_failed (cfg : queue_config) (now : Z) (i err : string) (t : table)
    : table * res (option failure_report) :=
  match find_id i t with
  | None => (t, Err (Wrapped "failed to get message attempts" (Sentinel "sql: no rows in result set")))
  | Some r =>
      (update_where (has_id i) (failed_row cfg now err) t,
       Ok (if max_attempts r <=? attempts r + 1 then Some (bounce_message err r) else None))
  end.

(** ** Lookup, purge and statistics *)

Definition get_message (i : string) (t : table) : option queued_message := find_id i t.

Definition purgeable (cutoff : Z) (r : queued_message) : bool :=
  match status r with StatusSent | StatusFailed => created_at r <? cutoff | _ => false end.

Definition purge_old (now older_than : Z) (t : table) : table * Z :=
  (List.filter (fun r => negb (purgeable (now - older_than) r)) t,
   rows_affected (purgeable (now - older_than)) t).

Record queue_stats := QueueStats {
  n_pending : Z; n_processing : Z; n_retry : Z; n_sent : Z; n_failed : Z }.

Definition count_status (s : queue_status) (t : table) : Z :=
  rows_affected (fun r => bool_decide (status r = s)) t.

Definition stats (t : table) : queue_stats := {|
  n_pending := count_status StatusPending t;
  n_processing := count_status StatusProcessing t;
  n_retry := count_status StatusRetry t;
  n_sent := count_status StatusSent t;
  n_failed := count_status StatusFailed t |}.

(** ** Hold and release (the abuse ladder's hooks) *)

Definition sent_by (pk : string) (r : queued_message) : bool :=
  bool_decide (metadata r !! metadata_sender_pubkey = Some pk).

Definition parkable (pk : string) (r : queued_message) : bool := sent_by pk r && waiting r.

Definition hold_for_sender (pk : string) (t : table) : table * Z :=
  (update_where (parkable pk) (with_status StatusHeld) t, rows_affected (parkable pk) t).

Definition parked (pk : string) (r : queued_message) : bool :=
  sent_by pk r && bool_decide (status r = StatusHeld).

Definition unpark (now : Z) (r : queued_message) : queued_message := {|
  id := id r; message_id := message_id r; from := from r; to := to r;
  raw_message := raw_message r; status := StatusPending; attempts := attempts r;
  max_attempts := max_attempts r; last_attempt := last_attempt r;
  next_attempt := now; last_error := last_error r;
  created_at := created_at r; metadata := metadata r |}.

Definition release_for_sender (now : Z) (pk : string) (t : table) : table * Z :=
  (update_where (parked pk) (unpark now) t, rows_affected (parked pk) t).

(** ** The worker

    One tick of [StartWorker]: dequeue a batch, attempt each delivery, record
    its outcome.  [deliver] is the transport's answer for a message: [None] for
    success, the error and the time it was returned otherwise; the messages
    handed to the permanent-failure callback are collected in order. *)
Fixpoint settle (cfg : queue_config) (deliver : queued_message -> option (string * Z))
    (ms : list queued_message) (t : table) : table * list failure_report :=
  match ms with
  | [] => (t, [])
  | m :: ms =>
      match deliver m with
      | Some (err, now) =>
          let '(t', r) := mark_failed cfg now (id m) err t in
          let '(t'', bs) := settle cfg deliver ms t' in
          (t'', match r with Ok (Some b) => b :: bs | _ => bs end)
      | None => settle cfg deliver ms (mark_sent (id m) t)
      end
  end.

Definition worker_tick (cfg : queue_config) (now batch : Z)
    (deliver : queued_message -> option (string * Z)) (t : table)
    : table * list failure_report :=
  let '(t', ms) := dequeue cfg now batch t in settle cfg deliver ms t'.

(** ** The queue and its workers as a transition system

    A state is the table and the identifiers of the messages that some worker
    has dequeued and not yet settled.  Each label is one SQL statement (or, for
    [MarkFailed], the read and the update the owning worker makes), and any
    number of workers interleave; a worker settles only what it dequeued. *)

Record queue_state := QueueState { rows : table; in_flight : list string }.

Inductive queue_op :=
| OpEnqueue (gen : string) (now : Z) (msg : queued_message)
| OpDequeue (now limit : Z)
| OpMarkSent (i : string)
| OpMarkFailed (now : Z) (i err : string)
| OpPurge (now older_than : Z)
| OpHold (pk : string)
| OpRelease (now : Z) (pk : string).

Definition settled (i : string) (l : list string) : list string :=
  List.filter (fun j => negb (String.eqb i j)) l.

Definition queue_exec (cfg : queue_config) (op : queue_op) (s : queue_state) : queue_state :=
  match op with
  | OpEnqueue gen now msg => QueueState (enqueue cfg gen now msg (rows s)).1 (in_flight s)
  | OpDequeue now limit =>
      let '(t, ms) := dequeue cfg now limit (rows s) in
      QueueState t (map id ms ++ in_flight s)
  | OpMarkSent i => QueueState (mark_sent i (rows s)) (settled i (in_flight s))
  | OpMarkFailed now i err =>
      QueueState (mark_failed cfg now i err (rows s)).1 (settled i (in_flight s))
  | OpPurge now older_than => QueueState (purge_old now older_than (rows s)).1 (in_flight s)
  | OpHold pk => QueueState (hold_for_sender pk (rows s)).1 (in_flight s)
  | OpRelease now pk => QueueState (release_for_sender now pk (rows s)).1 (in_flight s)
  end.

(** When an operation is one the program performs. *)
Definition op_allowed (op : queue_op) (s : queue_state) : Prop :=
  match op with
  | OpEnqueue _ _ msg => attempts msg = 0 /\ 0 <= max_attempts msg
  | OpMarkSent i | OpMarkFailed _ i _ => i ∈ in_flight s
  | _ => True
  end.

Inductive queue_step (cfg : queue_config) : queue_state -> queue_op -> queue_state -> Prop :=
| QueueStep s op : op_allowed op s -> queue_step cfg s op (queue_exec cfg op s).

Inductive queue_trace (cfg : queue_config) : queue_state -> list queue_op -> queue_state -> Prop :=
| TraceNil s : queue_trace cfg s [] s
| TraceCons s op s' ops s'' :
    queue_step cfg s op s' -> queue_trace cfg s' ops s'' ->
    queue_trace cfg s (op :: ops) s''.

(** The executable reading of a trace. *)
Definition queue_run (cfg : queue_config) (s : queue_state) (ops : list queue_op) : queue_state :=
  foldl (fun s op => queue_exec cfg op s) s ops.

#[export] Instance op_allowed_dec op s : Decision (op_allowed op s).
Proof. destruct op; simpl; apply _. Defined.

Fixpoint run_allowed (cfg : queue_config) (s : queue_state) (ops : list queue_op) : bool :=
  match ops with
  | [] => true
  | op :: ops => bool_decide (op_allowed op s) && run_allowed cfg (queue_exec cfg op s) ops
  end.

Lemma queue_run_trace cfg s ops : run_allowed cfg s ops = true -> queue_trace cfg s ops (queue_run cfg s ops).
Proof.
  revert s. induction ops as [|op ops IH]; intros s; cbn [run_allowed]; [constructor|].
  intros [Ha%bool_decide_eq_true Hr]%andb_true_iff. econstructor; [by constructor|].
  by apply (IH (queue_exec cfg op s)).
Qed.

(** * Lemmas *)

Definition ids (t : table) : list string := map id t.

Definition is_done (r : queued_message) : bool :=
  match status r with StatusSent | StatusFailed => true | _ => false end.

Lemma rows_affected_filter p t : rows_affected p t = Z.of_nat (length (List.filter p t)).
Proof. done. Qed.

(** Every statement that updates a row keeps what the message is. *)
Record same_message (r r' : queued_message) : Prop := SameMessage {
  sm_id : id r' = id r;
  sm_message_id : message_id r' = message_id r;
  sm_from : from r' = from r;
  sm_to : to r' = to r;
  sm_raw : raw_message r' = raw_message r;
  sm_max : max_attempts r' = max_attempts r;
  sm_created : created_at r' = created_at r;
  sm_metadata : metadata r' = metadata r }.

#[export] Instance same_message_refl : Reflexive same_message.
Proof. by intros r. Qed.
#[export] Instance same_message_trans : Transitive same_message.
Proof. intros a b c [] []; constructor; congruence. Qed.

Definition row_update (f : queued_message -> queued_message) : Prop :=
  forall r, same_message r (f r).

Lemma row_update_status s : row_update (with_status s).
Proof. by intros r. Qed.
Lemma row_update_take now : row_update (take_for_delivery now).
Proof. by intros r. Qed.
Lemma row_update_sent : row_update sent_row.
Proof. by intros r. Qed.
Lemma row_update_failed cfg now err : row_update (failed_row cfg now err).
Proof. by intros r. Qed.
Lemma row_update_unpark now : row_update (unpark now).
Proof. by intros r. Qed.
#[export] Hint Resolve row_update_status row_update_take row_update_sent row_update_failed
  row_update_unpark : email.

Lemma ids_update_where p f t : row_update f -> ids (update_where p f t) = ids t.
Proof.
  intros Hf. unfold ids, update_where. rewrite map_map. apply map_ext. intros r.
  destruct (p r); [apply Hf|done].
Qed.

Lemma elem_update_where (p : queued_message -> bool) f (t : table) r :
  r ∈ t -> (if p r then f r else r : queued_message) ∈ update_where p f t.
Proof. unfold update_where. rewrite !list_elem_of_In. apply (in_map (fun r : queued_message => if p r then f r else r)). Qed.

Lemma elem_update_where_inv (p : queued_message -> bool) f (t : table) r' :
  r' ∈ update_where p f t -> exists r, r ∈ t /\ r' = if p r then f r else r.
Proof.
  unfold update_where. rewrite list_elem_of_In, in_map_iff.
  intros (r & <- & Hr). exists r. by rewrite list_elem_of_In.
Qed.

Lemma unique_row t r1 r2 :
  NoDup (ids t) -> r1 ∈ t -> r2 ∈ t -> id r1 = id r2 -> r1 = r2.
Proof.
  unfold ids. intros Hnd H1 H2 Heq.
  induction t as [|r t IH]; [by apply not_elem_of_nil in H1|].
  simpl in Hnd. apply NoDup_cons in Hnd as [Hni Hnd].
  apply elem_of_cons in H1 as [->|H1], H2 as [->|H2]; auto.
  - destruct Hni. rewrite Heq. by apply list_elem_of_fmap_2.
  - destruct Hni. rewrite <- Heq. by apply list_elem_of_fmap_2.
Qed.

Lemma has_id_true i r : has_id i r = true <-> id r = i.
Proof. apply String.eqb_eq. Qed.

Lemma find_id_some i t r : find_id i t = Some r -> r ∈ t /\ id r = i.
Proof. intros [Hin Hid]%find_some. rewrite list_elem_of_In. split; [done|by apply has_id_true]. Qed.

Lemma find_id_none i t : find_id i t = None -> i ∉ ids t.
Proof.
  intros Hn Hin. unfold ids in Hin. apply list_elem_of_fmap_1 in Hin as (r & -> & Hr).
  apply list_elem_of_In in Hr. pose proof (find_none _ _ Hn r Hr) as Hf.
  unfold has_id in Hf. by rewrite String.eqb_refl in Hf.
Qed.

Lemma find_id_unique i t r : NoDup (ids t) -> r ∈ t -> id r = i -> find_id i t = Some r.
Proof.
  intros Hnd Hr Hi. destruct (find_id i t) as [r'|] eqn:Hf.
  - apply find_id_some in Hf as [Hr' Hi']. f_equal. apply (unique_row t); congruence.
  - destruct (find_id_none _ _ Hf). subst i. by apply list_elem_of_fmap_2.
Qed.

Lemma elem_filter_bool {A} (p : A -> bool) l x :
  x ∈ List.filter p l <-> x ∈ l /\ p x = true.
Proof. rewrite !list_elem_of_In. apply filter_In. Qed.

Lemma sublist_filter_bool {A} (p : A -> bool) l : List.filter p l `sublist_of` l.
Proof. induction l as [|x l IH]; simpl; [done|]. destruct (p x); by constructor. Qed.

Lemma ids_filter_sublist p t : ids (List.filter p t) `sublist_of` ids t.
Proof. apply (fmap_sublist id), sublist_filter_bool. Qed.

(** ** Selection *)

#[export] Instance earlier_trans : Transitive earlier.
Proof. intros a b c. unfold earlier. lia. Qed.
#[export] Instance earlier_total : Total earlier.
Proof. intros a b. unfold earlier. lia. Qed.

Lemma selected_split cfg now limit t :
  exists rest, selected cfg now limit t ++ rest ≡ₚ List.filter (eligible now) t /\
    (forall r s, r ∈ selected cfg now limit t -> s ∈ rest -> earlier r s) /\
    (rest <> [] -> length (selected cfg now limit t) = batch_size cfg limit).
Proof.
  unfold selected. set (l := merge_sort earlier (List.filter (eligible now) t)).
  exists (drop (batch_size cfg limit) l). rewrite take_drop. split; [|split].
  - apply merge_sort_Permutation.
  - intros r s. apply StronglySorted_app_1_elem_of. rewrite take_drop.
    apply StronglySorted_merge_sort; apply _.
  - intros Hne. rewrite length_take. apply Nat.min_l.
    destruct (Nat.le_gt_cases (batch_size cfg limit) (length l)) as [|Hlt]; [done|].
    destruct Hne. apply drop_ge. lia.
Qed.

Lemma selected_elem cfg now limit t r :
  r ∈ selected cfg now limit t -> r ∈ t /\ eligible now r = true.
Proof.
  intros Hr. destruct (selected_split cfg now limit t) as (rest & Hp & _ & _).
  apply elem_filter_bool. rewrite <- Hp. apply elem_of_app. by left.
Qed.

Lemma selected_NoDup cfg now limit t :
  NoDup (ids t) -> NoDup (ids (selected cfg now limit t)).
Proof.
  intros Hnd. destruct (selected_split cfg now limit t) as (rest & Hp & _ & _).
  assert (NoDup (ids (selected cfg now limit t ++ rest))) as H.
  { unfold ids. rewrite Hp. eapply sublist_NoDup; [exact Hnd|apply ids_filter_sublist]. }
  unfold ids in *. rewrite map_app in H. by apply NoDup_app in H as [? _].
Qed.

Lemma dequeue_ids cfg now limit t : ids (dequeue cfg now limit t).1 = ids t.
Proof. apply ids_update_where, row_update_take. Qed.

Lemma dequeue_in_flight cfg now limit t :
  map id (dequeue cfg now limit t).2 = ids (selected cfg now limit t).
Proof. unfold dequeue, ids. simpl. rewrite map_map. by apply map_ext. Qed.

(** What a dequeue does to a row of the table. *)
Lemma dequeue_row cfg now limit t r' :
  NoDup (ids t) -> r' ∈ (dequeue cfg now limit t).1 ->
  exists r, r ∈ t /\
    ((r ∈ selected cfg now limit t /\ r' = take_for_delivery now r) \/
     ((id r ∉ ids (selected cfg now limit t)) /\ r' = r)).
Proof.
  intros Hnd (r & Hr & ->)%elem_update_where_inv. exists r. split; [done|].
  case_bool_decide as Hsel; [left|right; done]. split; [|done].
  unfold ids in Hsel. apply list_elem_of_fmap_1 in Hsel as (s & Hid & Hs).
  assert (r = s) as ->; [|done].
  apply (unique_row t); [done|done|by apply (selected_elem _ _ _ _ _ Hs)|done].
Qed.

(** ** Well-formed states *)

Definition attempts_ok (r : queued_message) : Prop :=
  0 <= attempts r /\
  if is_done r then attempts r <= max_attempts r else attempts r < max_attempts r.

Record queue_wf (s : queue_state) : Prop := QueueWf {
  wf_ids : NoDup (ids (rows s));
  wf_in_flight : NoDup (in_flight s);
  wf_processing : forall i, i ∈ in_flight s ->
    exists r, r ∈ rows s /\ id r = i /\ status r = StatusProcessing;
  wf_attempts : forall r, r ∈ rows s -> attempts_ok r }.

Lemma wf_in_flight_row s r :
  queue_wf s -> r ∈ rows s -> id r ∈ in_flight s -> status r = StatusProcessing.
Proof.
  intros Hwf Hr Hi. destruct (wf_processing s Hwf _ Hi) as (r' & Hr' & Hid & Hst).
  by rewrite <- (unique_row (rows s) r' r (wf_ids s Hwf) Hr' Hr Hid).
Qed.

Lemma settled_elem i j l : j ∈ settled i l <-> j ∈ l /\ i <> j.
Proof.
  unfold settled. rewrite elem_filter_bool, negb_true_iff. by rewrite String.eqb_neq.
Qed.

Lemma settled_NoDup i l : NoDup l -> NoDup (settled i l).
Proof. intros Hnd. eapply sublist_NoDup; [exact Hnd|apply sublist_filter_bool]. Qed.

(** An update that touches no row in flight, and keeps the budget of the rows
    it touches, preserves well-formedness. *)
Lemma wf_update s p f :
  row_update f ->
  (forall r, p r = true -> status r <> StatusProcessing) ->
  (forall r, p r = true -> attempts_ok r -> attempts_ok (f r)) ->
  queue_wf s -> queue_wf (QueueState (update_where p f (rows s)) (in_flight s)).
Proof.
  intros Hf Hp Ha [Hi Hnd Hpr Hat]. constructor; simpl.
  - by rewrite ids_update_where.
  - done.
  - intros i Hin. destruct (Hpr i Hin) as (r & Hr & Hid & Hst). exists r. split; [|done].
    pose proof (elem_update_where p f _ r Hr) as Hup.
    destruct (p r) eqn:Hpb; [by destruct (Hp r Hpb)|done].
  - intros r' (r & Hr & ->)%elem_update_where_inv.
    destruct (p r) eqn:Hpb; auto.
Qed.

(** Settling a message that is in flight: its row leaves the Processing state. *)
Lemma wf_settle s i f :
  row_update f ->
  (forall r, r ∈ rows s -> id r = i -> attempts_ok r -> attempts_ok (f r)) ->
  queue_wf s -> queue_wf (QueueState (update_where (has_id i) f (rows s)) (settled i (in_flight s))).
Proof.
  intros Hf Ha [Hi Hnd Hpr Hat]. constructor; simpl.
  - by rewrite ids_update_where.
  - by apply settled_NoDup.
  - intros j [Hin Hne]%settled_elem. destruct (Hpr j Hin) as (r & Hr & Hid & Hst).
    exists r. split; [|done]. pose proof (elem_update_where (has_id i) f _ r Hr) as Hup.
    destruct (has_id i r) eqn:Hb; [apply has_id_true in Hb; congruence|done].
  - intros r' (r & Hr & ->)%elem_update_where_inv.
    destruct (has_id i r) eqn:Hb; [apply has_id_true in Hb|]; auto.
Qed.

Lemma parkable_waiting pk r : parkable pk r = true -> waiting r = true.
Proof. unfold parkable. intros [_ ?]%andb_true_iff. done. Qed.

Lemma parked_held pk r : parked pk r = true -> status r = StatusHeld.
Proof. unfold parked. intros [_ ?%bool_decide_eq_true]%andb_true_iff. done. Qed.

Lemma waiting_status r :
  waiting r = true <-> status r = StatusPending \/ status r = StatusRetry.
Proof. unfold waiting. destruct (status r); intuition congruence. Qed.

Lemma eligible_waiting now r : eligible now r = true -> waiting r = true.
Proof. unfold eligible. by intros [? _]%andb_true_iff. Qed.

Lemma processing_attempts_ok r : attempts_ok r -> status r = StatusProcessing ->
  0 <= attempts r < max_attempts r.
Proof. unfold attempts_ok, is_done. intros [? H] Hs. rewrite Hs in H. lia. Qed.

Lemma wf_dequeue cfg now limit s :
  queue_wf s -> queue_wf (queue_exec cfg (OpDequeue now limit) s).
Proof.
  intros Hwf. pose proof Hwf as [Hi Hnd Hpr Hat]. unfold queue_exec.
  pose proof (dequeue_ids cfg now limit (rows s)) as Hids.
  pose proof (dequeue_in_flight cfg now limit (rows s)) as Hfl.
  pose proof (fun r' => dequeue_row cfg now limit (rows s) r' Hi) as Hrow.
  assert (forall r, r ∈ rows s ->
    (if bool_decide (id r ∈ ids (selected cfg now limit (rows s)))
     then take_for_delivery now r else r) ∈ (dequeue cfg now limit (rows s)).1) as Hfwd.
  { intros r Hr. exact (elem_update_where
      (fun r => bool_decide (id r ∈ ids (selected cfg now limit (rows s)))) _ _ r Hr). }
  destruct (dequeue cfg now limit (rows s)) as [t' ms]. simpl in *. constructor; simpl.
  - by rewrite Hids.
  - apply NoDup_app. rewrite Hfl. split; [by apply selected_NoDup|]. split; [|done].
    intros i (r & -> & Hr)%list_elem_of_fmap_1 Hin.
    destruct (selected_elem _ _ _ _ _ Hr) as [Hr' He%eligible_waiting%waiting_status].
    pose proof (wf_in_flight_row s r Hwf Hr' Hin). intuition congruence.
  - intros i Hin. apply elem_of_app in Hin as [Hin|Hin].
    + rewrite Hfl in Hin. pose proof Hin as (r & -> & Hr)%list_elem_of_fmap_1.
      destruct (selected_elem _ _ _ _ _ Hr) as [Hr' _].
      exists (take_for_delivery now r). split; [|done].
      pose proof (Hfwd r Hr') as Hup. by rewrite bool_decide_eq_true_2 in Hup.
    + destruct (Hpr i Hin) as (r & Hr & <- & Hst). pose proof (Hfwd r Hr) as Hup.
      case_bool_decide; eexists; (split; [exact Hup|done]).
  - intros r' Hr'. destruct (Hrow r' Hr') as (r & Hr & [[Hs ->]|[_ ->]]); [|auto].
    destruct (selected_elem _ _ _ _ _ Hs) as [_ He%eligible_waiting%waiting_status].
    pose proof (Hat r Hr) as Ha. unfold attempts_ok, is_done in *. simpl.
    destruct He as [He|He]; rewrite He in Ha; simpl in Ha; lia.
Qed.

Lemma enqueue_cases cfg gen now msg t :
  (enqueue cfg gen now msg t).1 = t \/
  exists row, (enqueue cfg gen now msg t).1 = t ++ [row] /\ (id row ∉ ids t) /\
    id row = (if String.eqb (id msg) "" then gen else id msg) /\
    status row = StatusPending /\ attempts row = attempts msg /\
    max_attempts row = (if max_attempts msg =? 0 then cfg_max_attempts cfg else max_attempts msg).
Proof.
  unfold enqueue. destruct (find_id _ t) eqn:Hf; [by left|right].
  eexists. split; [done|]. split; [|done]. by apply find_id_none.
Qed.

Lemma mark_failed_update cfg now i err t :
  (mark_failed cfg now i err t).1 = update_where (has_id i) (failed_row cfg now err) t.
Proof.
  unfold mark_failed. destruct (find_id i t) eqn:Hf; [done|]. simpl.
  pose proof (find_id_none _ _ Hf) as Hn. unfold update_where.
  rewrite <- (map_id t) at 1. apply map_ext_in. intros r Hr%list_elem_of_In.
  destruct (has_id i r) eqn:Hb; [|done]. apply has_id_true in Hb. subst i.
  destruct Hn. by apply list_elem_of_fmap_2.
Qed.

Section worker.
Context (cfg : queue_config) (Hmax : 1 <= cfg_max_attempts cfg).

Lemma wf_step s op s' : queue_wf s -> queue_step cfg s op s' -> queue_wf s'.
Proof.
  intros Hwf Hst. inversion Hst as [s0 op0 H]; subst; clear Hst.
  pose proof Hwf as [Hi Hnd Hpr Hat].
  destruct op as [gen now msg|now limit|i|now i err|now old|pk|now pk]; cbn [queue_exec op_allowed] in *.
  - destruct (enqueue_cases cfg gen now msg (rows s)) as [->|(row & -> & Hn & _ & Hst & Ha & Hm)].
    { by destruct s. }
    constructor; simpl.
    + unfold ids in *. rewrite map_app. apply NoDup_app.
      split; [done|]. split; [|apply NoDup_singleton].
      intros x Hx Hx'. simpl in Hx'. apply list_elem_of_singleton in Hx' as ->. done.
    + done.
    + intros i Hin. destruct (Hpr i Hin) as (r & Hr & ?). exists r. rewrite elem_of_app. auto.
    + intros r [Hr| ->%list_elem_of_singleton]%elem_of_app; [auto|].
      unfold attempts_ok, is_done. destruct H as [H1 H2]. rewrite Hst, Ha, Hm.
      destruct (Z.eqb_spec (max_attempts msg) 0); lia.
  - by apply wf_dequeue.
  - apply wf_settle; [auto with email| |done]. intros r Hr Hid Ha.
    pose proof (processing_attempts_ok r Ha) as Hb. simpl in H. subst i.
    pose proof (wf_in_flight_row s r Hwf Hr H) as Hst. specialize (Hb Hst).
    unfold attempts_ok, is_done. simpl. lia.
  - rewrite mark_failed_update. apply wf_settle; [auto with email| |done].
    intros r Hr Hid Ha. pose proof (processing_attempts_ok r Ha) as Hb. simpl in H. subst i.
    specialize (Hb (wf_in_flight_row s r Hwf Hr H)).
    unfold attempts_ok, is_done. simpl. destruct (Z.leb_spec (max_attempts r) (attempts r + 1)); lia.
  - constructor; simpl; [|done| |].
    + eapply sublist_NoDup; [exact Hi|apply ids_filter_sublist].
    + intros i Hin. destruct (Hpr i Hin) as (r & Hr & Hid & Hst). exists r. split; [|done].
      apply elem_filter_bool. split; [done|]. unfold purgeable. by rewrite Hst.
    + intros r [Hr _]%elem_filter_bool. auto.
  - apply wf_update; [auto with email| | |done]; intros r Hw%parkable_waiting%waiting_status.
    + intuition congruence.
    + unfold attempts_ok, is_done. simpl. by destruct Hw as [-> | ->].
  - apply wf_update; [auto with email| | |done]; intros r Hw%parked_held.
    + congruence.
    + unfold attempts_ok, is_done. simpl. by rewrite Hw.
Qed.

Lemma wf_trace s ops s' : queue_wf s -> queue_trace cfg s ops s' -> queue_wf s'.
Proof. intros Hwf Htr. induction Htr; eauto using wf_step. Qed.

End worker.

(** ** Rows through a step: held rows, and the messages themselves *)

Lemma update_where_untouched (p : queued_message -> bool) f (t : table) r :
  r ∈ t -> p r = false -> r ∈ update_where p f t.
Proof. intros Hr Hp. pose proof (elem_update_where p f t r Hr) as H. by rewrite Hp in H. Qed.

Lemma update_where_successor (p : queued_message -> bool) f (t : table) r :
  row_update f -> r ∈ t -> exists r', r' ∈ update_where p f t /\ same_message r r'.
Proof.
  intros Hf Hr. eexists. split; [apply (elem_update_where p f t r Hr)|].
  destruct (p r); [apply Hf|done].
Qed.

Lemma dequeue_untouched cfg now limit s r :
  r ∈ rows s -> eligible now r = false -> queue_wf s ->
  r ∈ (dequeue cfg now limit (rows s)).1.
Proof.
  intros Hr He Hwf. apply update_where_untouched; [done|].
  apply bool_decide_eq_false. intros (x & Hid & Hx)%list_elem_of_fmap_1.
  destruct (selected_elem _ _ _ _ _ Hx) as [Hx' Hex].
  rewrite (unique_row (rows s) r x (wf_ids s Hwf) Hr Hx' Hid) in He. congruence.
Qed.

Lemma exec_dequeue_rows cfg now limit s :
  rows (queue_exec cfg (OpDequeue now limit) s) = (dequeue cfg now limit (rows s)).1.
Proof. simpl. by destruct (dequeue cfg now limit (rows s)). Qed.

Lemma held_step cfg s op s' r :
  queue_wf s -> queue_step cfg s op s' -> r ∈ rows s -> status r = StatusHeld ->
  (forall now pk, op = OpRelease now pk -> sent_by pk r = false) -> r ∈ rows s'.
Proof.
  intros Hwf Hst Hr Hh Hop. inversion Hst as [s0 op0 H]; subst; clear Hst.
  assert (forall i, i ∈ in_flight s -> has_id i r = false) as Hfl.
  { intros i Hi. destruct (has_id i r) eqn:Hb; [|done]. apply has_id_true in Hb. subst i.
    pose proof (wf_in_flight_row s r Hwf Hr Hi). congruence. }
  destruct op as [gen now msg|now limit|i|now i err|now old|pk|now pk];
    [|rewrite exec_dequeue_rows|..]; cbn [queue_exec op_allowed rows] in *.
  - destruct (enqueue_cases cfg gen now msg (rows s)) as [->|(row & -> & _)]; [done|].
    apply elem_of_app. by left.
  - apply dequeue_untouched; [done| |done].
    unfold eligible, waiting. by rewrite Hh.
  - by apply update_where_untouched, Hfl.
  - rewrite mark_failed_update. by apply update_where_untouched, Hfl.
  - apply elem_filter_bool. split; [done|]. unfold purgeable. by rewrite Hh.
  - apply update_where_untouched; [done|]. unfold parkable, waiting. rewrite Hh. apply andb_false_r.
  - apply update_where_untouched; [done|]. unfold parked. by rewrite (Hop now pk eq_refl).
Qed.

Lemma message_step cfg s op s' r :
  queue_step cfg s op s' -> r ∈ rows s ->
  (exists r', r' ∈ rows s' /\ same_message r r') \/
  (exists now old, op = OpPurge now old /\ is_done r = true /\ created_at r < now - old).
Proof.
  intros Hst Hr. inversion Hst as [s0 op0 H]; subst; clear Hst.
  destruct op as [gen now msg|now limit|i|now i err|now old|pk|now pk].
  - left. exists r. split; [|done]. cbn [queue_exec rows].
    destruct (enqueue_cases cfg gen now msg (rows s)) as [->|(row & -> & _)]; [done|].
    apply elem_of_app. by left.
  - left. rewrite exec_dequeue_rows. apply update_where_successor; auto with email.
  - left. apply update_where_successor; auto with email.
  - left. cbn [queue_exec rows]. rewrite mark_failed_update.
    apply update_where_successor; auto with email.
  - destruct (purgeable (now - old) r) eqn:Hp.
    + right. exists now, old. unfold purgeable, is_done in *.
      destruct (status r); try done; reflect_bools; auto.
    + left. exists r. split; [|done]. apply elem_filter_bool. by rewrite Hp.
  - left. apply update_where_successor; auto with email.
  - left. apply update_where_successor; auto with email.
Qed.

(** ** Counting deliveries *)

Definition is_in (i : string) (l : list string) : Z := if decide (i ∈ l) then 1 else 0.

(** How many times a run hands message [i] to a worker. *)
Fixpoint deliveries (cfg : queue_config) (i : string) (s : queue_state) (ops : list queue_op) : Z :=
  match ops with
  | [] => 0
  | op :: ops =>
      match op with
      | OpDequeue now limit => is_in i (map id (dequeue cfg now limit (rows s)).2)
      | _ => 0
      end + deliveries cfg i (queue_exec cfg op s) ops
  end.

(** Deliveries a row may still get: none once it is done. *)
Definition row_budget (s : queue_state) (r : queued_message) : Z :=
  if is_done r then 0 else max_attempts r - attempts r - is_in (id r) (in_flight s).

Definition reuses (i : string) (op : queue_op) : Prop :=
  match op with
  | OpEnqueue gen _ msg => (if String.eqb (id msg) "" then gen else id msg) = i
  | _ => False
  end.

Lemma row_budget_nonneg s r : queue_wf s -> r ∈ rows s -> 0 <= row_budget s r.
Proof.
  intros Hwf Hr. pose proof (wf_attempts s Hwf r Hr) as [? Ha]. unfold row_budget, is_in.
  destruct (is_done r); [lia|]. case_decide; lia.
Qed.

Lemma is_in_app_r i l1 l2 : i ∉ l1 -> is_in i (l1 ++ l2) = is_in i l2.
Proof.
  intros Hn. unfold is_in. repeat case_decide; try done; rewrite elem_of_app in *; tauto.
Qed.

Lemma is_in_settled i j l : i <> j -> is_in j (settled i l) = is_in j l.
Proof. intros Hn. unfold is_in. repeat case_decide; try done; rewrite settled_elem in *; tauto. Qed.

Lemma is_in_settled_same i l : is_in i (settled i l) = 0.
Proof. unfold is_in. case_decide as Hd; [|done]. rewrite settled_elem in Hd. tauto. Qed.

Lemma is_in_true i l : i ∈ l -> is_in i l = 1.
Proof. intros. unfold is_in. by rewrite decide_True. Qed.

Lemma is_in_false i l : i ∉ l -> is_in i l = 0.
Proof. intros. unfold is_in. by rewrite decide_False. Qed.

Lemma is_in_nonneg i l : 0 <= is_in i l.
Proof. unfold is_in. case_decide; lia. Qed.

Definition handed (cfg : queue_config) (i : string) (s : queue_state) (op : queue_op) : Z :=
  match op with
  | OpDequeue now limit => is_in i (map id (dequeue cfg now limit (rows s)).2)
  | _ => 0
  end.

Lemma dequeue_budget cfg now limit s r' :
  queue_wf s -> r' ∈ (dequeue cfg now limit (rows s)).1 ->
  exists r, r ∈ rows s /\ id r = id r' /\
    handed cfg (id r') s (OpDequeue now limit) +
      row_budget (queue_exec cfg (OpDequeue now limit) s) r' <= row_budget s r.
Proof.
  intros Hwf Hr'. destruct (dequeue_row _ _ _ _ _ (wf_ids s Hwf) Hr') as (r & Hr & Hcase).
  exists r. split; [done|].
  pose proof (dequeue_in_flight cfg now limit (rows s)) as Hfl.
  cbn [queue_exec handed]. destruct (dequeue cfg now limit (rows s)) as [t ms].
  simpl in *. rewrite Hfl. unfold row_budget. simpl.
  destruct Hcase as [[Hs ->]|[Hn ->]]; (split; [done|]); simpl.
  - assert (id r ∈ ids (selected cfg now limit (rows s))) as Hin by (by apply list_elem_of_fmap_2).
    destruct (selected_elem _ _ _ _ _ Hs) as [_ Hw%eligible_waiting%waiting_status].
    assert (id r ∉ in_flight s) as Hnf.
    { intros Hf. pose proof (wf_in_flight_row s r Hwf Hr Hf). intuition congruence. }
    rewrite (is_in_true _ _ Hin), (is_in_false _ _ Hnf).
    rewrite (is_in_true (id r)) by (apply elem_of_app; by left).
    unfold is_done. simpl. destruct Hw as [-> | ->]; lia.
  - rewrite (is_in_false _ _ Hn), is_in_app_r by done. lia.
Qed.

Lemma settle_budget s i f r' :
  queue_wf s -> i ∈ in_flight s -> row_update f ->
  (forall r, is_done (f r) = false -> attempts (f r) = attempts r + 1) ->
  r' ∈ update_where (has_id i) f (rows s) ->
  exists r, r ∈ rows s /\ id r = id r' /\
    row_budget (QueueState (update_where (has_id i) f (rows s)) (settled i (in_flight s))) r'
      <= row_budget s r.
Proof.
  intros Hwf Hi Hf Ha (r & Hr & ->)%elem_update_where_inv. exists r. split; [done|].
  pose proof (row_budget_nonneg s r Hwf Hr) as Hpos.
  destruct (has_id i r) eqn:Hb.
  - apply has_id_true in Hb. destruct (Hf r) as [Hid _ _ _ _ Hm _ _]. split; [done|].
    unfold row_budget in *. simpl. rewrite Hid, Hm, Hb in *. rewrite is_in_settled_same.
    subst i. rewrite (is_in_true _ _ Hi) in *.
    pose proof (wf_in_flight_row s r Hwf Hr Hi) as Hst.
    unfold is_done in Hpos |- * at 2. rewrite Hst in *.
    destruct (is_done (f r)) eqn:Hd; [lia|]. rewrite (Ha r Hd). lia.
  - split; [done|]. unfold row_budget. simpl. rewrite is_in_settled; [lia|].
    intros ->. unfold has_id in Hb. by rewrite String.eqb_refl in Hb.
Qed.

Lemma step_budget cfg s op s' r' :
  queue_wf s -> queue_step cfg s op s' -> r' ∈ rows s' -> ~ reuses (id r') op ->
  exists r, r ∈ rows s /\ id r = id r' /\
    handed cfg (id r') s op + row_budget s' r' <= row_budget s r.
Proof.
  intros Hwf Hst Hr' Hu. inversion Hst as [s0 op0 H]; subst; clear Hst.
  destruct op as [gen now msg|now limit|i|now i err|now old|pk|now pk];
    [|by apply dequeue_budget; [|rewrite exec_dequeue_rows in Hr']|..];
    cbn [queue_exec op_allowed rows handed reuses] in *.
  - exists r'. destruct (enqueue_cases cfg gen now msg (rows s)) as [Heq|(row & Heq & _ & Hid & _)];
      rewrite Heq in Hr' |- *; [done|].
    apply elem_of_app in Hr' as [Hr'| ->%list_elem_of_singleton]; done.
  - by apply settle_budget; [| |auto with email| |].
  - rewrite mark_failed_update in *. apply settle_budget; auto with email.
  - exists r'. by apply elem_filter_bool in Hr' as [Hr' _].
  - apply elem_update_where_inv in Hr' as (r & Hr & ->). exists r. split; [done|].
    destruct (parkable pk r) eqn:Hp; [|done]. split; [done|].
    apply parkable_waiting, waiting_status in Hp.
    unfold row_budget, is_done. simpl. destruct Hp as [-> | ->]; lia.
  - apply elem_update_where_inv in Hr' as (r & Hr & ->). exists r. split; [done|].
    destruct (parked pk r) eqn:Hp; [|done]. split; [done|]. apply parked_held in Hp.
    unfold row_budget, is_done. simpl. rewrite Hp. lia.
Qed.

Lemma step_no_row cfg s op s' i :
  queue_wf s -> queue_step cfg s op s' -> i ∉ ids (rows s) -> ~ reuses i op ->
  (i ∉ ids (rows s')) /\ handed cfg i s op = 0.
Proof.
  intros Hwf Hst Hn Hu. split.
  - intros (r' & -> & Hr')%list_elem_of_fmap_1.
    destruct (step_budget cfg s op s' r' Hwf Hst Hr' Hu) as (r & Hr & Hid & _).
    destruct Hn. rewrite <- Hid. by apply list_elem_of_fmap_2.
  - destruct op; try done. unfold handed. rewrite dequeue_in_flight. apply is_in_false.
    intros (r & -> & Hr)%list_elem_of_fmap_1.
    destruct Hn. by apply list_elem_of_fmap_2, (selected_elem _ _ _ _ _ Hr).
Qed.

Lemma step_row_lost cfg s op s' r :
  queue_wf s -> queue_step cfg s op s' -> r ∈ rows s -> id r ∉ ids (rows s') ->
  handed cfg (id r) s op = 0.
Proof.
  intros Hwf Hst Hr Hn. destruct (message_step cfg s op s' r Hst Hr) as [(r' & Hr' & Hsm)|].
  - destruct Hn. rewrite <- (sm_id _ _ Hsm). by apply list_elem_of_fmap_2.
  - destruct H as (now & old & -> & _). done.
Qed.

Lemma deliveries_cons cfg i s op ops :
  deliveries cfg i s (op :: ops) = handed cfg i s op + deliveries cfg i (queue_exec cfg op s) ops.
Proof. done. Qed.

Lemma no_row_no_delivery cfg i s ops s' :
  1 <= cfg_max_attempts cfg -> queue_wf s -> queue_trace cfg s ops s' ->
  i ∉ ids (rows s) -> Forall (fun op => ~ reuses i op) ops -> deliveries cfg i s ops = 0.
Proof.
  intros Hmax Hwf Htr. induction Htr as [s|s op s1 ops s' Hst Htr IH]; intros Hn Hu; [done|].
  apply Forall_cons in Hu as [Hu1 Hu2]. rewrite deliveries_cons.
  destruct (step_no_row cfg s op s1 i Hwf Hst Hn Hu1) as [Hn1 ->].
  pose proof (wf_step cfg Hmax s op s1 Hwf Hst) as Hwf1.
  inversion Hst; subst. rewrite IH; auto.
Qed.

(** ** A worker tick, row by row *)

(** What settling [ms] makes of a row. *)
Definition outcome (cfg : queue_config) (deliver : queued_message -> option (string * Z))
    (ms : list queued_message) (r : queued_message) : queued_message :=
  match find_id (id r) ms with
  | None => r
  | Some m => match deliver m with
              | None => sent_row r
              | Some (err, now) => failed_row cfg now err r
              end
  end.

Definition reports_for (i : string) (bs : list failure_report) : list failure_report :=
  List.filter (fun b => String.eqb (fr_id b) i) bs.

Definition bounce_of (deliver : queued_message -> option (string * Z))
    (ms : list queued_message) (r : queued_message) : list failure_report :=
  match find_id (id r) ms with
  | None => []
  | Some m => match deliver m with
              | None => []
              | Some (err, _) =>
                  if max_attempts r <=? attempts r + 1 then [bounce_message err r] else []
              end
  end.

Lemma mark_failed_bounces cfg now i err t r :
  NoDup (ids t) -> r ∈ t -> id r = i ->
  (mark_failed cfg now i err t).2 =
    Ok (if max_attempts r <=? attempts r + 1 then Some (bounce_message err r) else None).
Proof. intros Hnd Hr Hi. unfold mark_failed. by rewrite (find_id_unique i t r). Qed.

Lemma has_id_other i j : i <> j -> forall r, id r = j -> has_id i r = false.
Proof. intros Hn r <-. unfold has_id. apply String.eqb_neq. congruence. Qed.

Lemma find_id_cons_other (m : queued_message) ms i : id m <> i -> find_id i (m :: ms) = find_id i ms.
Proof. intros Hn. unfold find_id. simpl. by rewrite (has_id_other i (id m)). Qed.

Lemma find_id_cons_same (m : queued_message) ms : find_id (id m) (m :: ms) = Some m.
Proof. unfold find_id. simpl. unfold has_id. by rewrite String.eqb_refl. Qed.

Lemma find_id_absent i ms : i ∉ map id ms -> find_id i ms = None.
Proof.
  intros Hn. destruct (find_id i ms) as [m|] eqn:Hf; [|done].
  apply find_id_some in Hf as [Hm <-]. destruct Hn. by apply list_elem_of_fmap_2.
Qed.

Lemma outcome_cons cfg deliver m ms r :
  NoDup (map id (m :: ms)) ->
  outcome cfg deliver (m :: ms) r =
    outcome cfg deliver ms (if has_id (id m) r
                            then match deliver m with
                                 | None => sent_row r
                                 | Some (err, now) => failed_row cfg now err r
                                 end
                            else r).
Proof.
  simpl. intros [Hn _]%NoDup_cons. unfold outcome.
  destruct (has_id (id m) r) eqn:Hb.
  - apply has_id_true in Hb. rewrite Hb, find_id_cons_same.
    destruct (deliver m) as [[err now]|]; simpl; by rewrite Hb, find_id_absent.
  - rewrite find_id_cons_other; [done|]. intros Heq. unfold has_id in Hb.
    by rewrite Heq, String.eqb_refl in Hb.
Qed.

Lemma settle_row cfg deliver ms t r :
  NoDup (map id ms) -> (forall m, m ∈ ms -> id m ∈ ids t) -> NoDup (ids t) -> r ∈ t ->
  outcome cfg deliver ms r ∈ (settle cfg deliver ms t).1 /\
  reports_for (id r) (settle cfg deliver ms t).2 = bounce_of deliver ms r.
Proof.
  revert t r. induction ms as [|m ms IH]; intros t r Hms Hin Hnd Hr; [done|].
  rewrite outcome_cons by done. simpl in Hms. apply NoDup_cons in Hms as [Hn Hms].
  set (f := match deliver m with None => sent_row | Some (err, now) => failed_row cfg now err end).
  assert (row_update f) as Hf by (unfold f; destruct (deliver m) as [[]|]; auto with email).
  set (t1 := update_where (has_id (id m)) f t).
  assert (ids t1 = ids t) as Ht1 by (by apply ids_update_where).
  set (r1 := if has_id (id m) r then f r else r).
  assert (r1 ∈ t1) as Hr1 by (by apply (elem_update_where (has_id (id m)) f t r)).
  assert (id r1 = id r) as Hid1 by (unfold r1; destruct (has_id (id m) r); [apply Hf|done]).
  destruct (IH t1 r1 Hms ltac:(intros m' Hm'; rewrite Ht1; apply Hin; by constructor)
              ltac:(by rewrite Ht1) Hr1) as [Hout Hbs].
  assert (bounce_of deliver ms r1 = if has_id (id m) r then [] else bounce_of deliver ms r) as Hb1.
  { unfold bounce_of. rewrite Hid1. destruct (has_id (id m) r) eqn:Hb; [|by unfold r1].
    apply has_id_true in Hb. by rewrite Hb, find_id_absent. }
  rewrite Hid1, Hb1 in Hbs.
  assert (find_id (id r) (m :: ms) = if has_id (id m) r then Some m else find_id (id r) ms) as Hfind.
  { destruct (has_id (id m) r) eqn:Hb.
    - apply has_id_true in Hb. by rewrite Hb, find_id_cons_same.
    - apply find_id_cons_other. intros Heq. unfold has_id in Hb.
      by rewrite Heq, String.eqb_refl in Hb. }
  unfold bounce_of. rewrite Hfind. simpl.
  destruct (deliver m) as [[err now]|] eqn:Hd.
  - pose proof (mark_failed_update cfg now (id m) err t) as Hup. fold f t1 in Hup.
    assert (exists rm, rm ∈ t /\ id rm = id m) as (rm & Hrm & Hidm).
    { destruct (list_elem_of_fmap_1 id t (id m) (Hin m ltac:(by constructor))) as (rm & ? & ?).
      by exists rm. }
    pose proof (mark_failed_bounces cfg now (id m) err t rm Hnd Hrm Hidm) as Hres.
    destruct (mark_failed cfg now (id m) err t) as [t2 res]. simpl in Hup, Hres. subst t2 res.
    destruct (settle cfg deliver ms t1) as [t3 bs]. simpl in *.
    split; [unfold r1 in Hout; by destruct (has_id (id m) r)|].
    assert (String.eqb (fr_id (bounce_message err rm)) (id r) = has_id (id m) r) as Hbr.
    { unfold has_id. simpl. rewrite Hidm. apply String.eqb_sym. }
    unfold reports_for in *. simpl in Hbr.
    destruct (has_id (id m) r) eqn:Hb.
    + apply has_id_true in Hb. assert (rm = r) as -> by (apply (unique_row t); congruence).
      rewrite Hd. destruct (_ <=? _); simpl; rewrite ?Hbr, Hbs; done.
    + destruct (_ <=? _); simpl; rewrite ?Hbr, Hbs; done.
  - fold (mark_sent (id m) t) in t1. unfold f in t1.
    split; [unfold r1 in Hout; by destruct (has_id (id m) r)|].
    change (mark_sent (id m) t) with t1. rewrite Hbs. destruct (has_id (id m) r); [by rewrite Hd|done].
Qed.

(** The row [i] is in the batch of a tick. *)
Definition picked (cfg : queue_config) (now batch : Z) (i : string) (t : table) : bool :=
  bool_decide (i ∈ ids (selected cfg now batch t)).

Lemma picked_eligible cfg now batch t r :
  NoDup (ids t) -> r ∈ t -> picked cfg now batch (id r) t = true -> eligible now r = true.
Proof.
  intros Hnd Hr (x & Hid & Hx)%bool_decide_eq_true%list_elem_of_fmap_1.
  apply selected_elem in Hx as [Hx He]. by rewrite (unique_row t r x Hnd Hr Hx Hid).
Qed.

(** A due row is in the batch when the due rows fit. *)
Lemma due_picked cfg now batch t r :
  r ∈ t -> eligible now r = true -> (length (List.filter (eligible now) t) <= batch_size cfg batch)%nat ->
  picked cfg now batch (id r) t = true.
Proof.
  intros Hr He Hlen. apply bool_decide_eq_true, list_elem_of_fmap_2.
  destruct (selected_split cfg now batch t) as (rest & Hp & _ & Hfull).
  assert (rest = []) as ->.
  { destruct rest as [|x rest]; [done|]. specialize (Hfull ltac:(done)).
    apply Permutation_length in Hp. rewrite length_app in Hp. simpl in Hp. lia. }
  rewrite app_nil_r in Hp. rewrite Hp. by apply elem_filter_bool.
Qed.

(** What a tick makes of a row. *)
Definition ticked (cfg : queue_config) (now : Z) (deliver : queued_message -> option (string * Z))
    (r : queued_message) : queued_message :=
  match deliver (take_for_delivery now r) with
  | None => sent_row (take_for_delivery now r)
  | Some (err, at_) => failed_row cfg at_ err (take_for_delivery now r)
  end.

Definition tick_bounce (now : Z) (deliver : queued_message -> option (string * Z))
    (r : queued_message) : list failure_report :=
  match deliver (take_for_delivery now r) with
  | None => []
  | Some (err, _) => if max_attempts r <=? attempts r + 1 then [bounce_message err r] else []
  end.

Lemma tick_row cfg now batch deliver t r :
  NoDup (ids t) -> r ∈ t ->
  let b := picked cfg now batch (id r) t in
  (if b then ticked cfg now deliver r else r) ∈ (worker_tick cfg now batch deliver t).1 /\
  reports_for (id r) (worker_tick cfg now batch deliver t).2 = (if b then tick_bounce now deliver r else []).
Proof.
  intros Hnd Hr b. unfold worker_tick.
  set (sel := selected cfg now batch t).
  set (p := fun r => bool_decide (id r ∈ map id sel)).
  assert (p r = b) as Hp by done.
  set (r1 := if b then take_for_delivery now r else r).
  assert (id r1 = id r) as Hid1 by (unfold r1; by destruct b).
  assert (r1 ∈ (dequeue cfg now batch t).1) as Hr1.
  { pose proof (elem_update_where p (take_for_delivery now) t r Hr) as H. by rewrite Hp in H. }
  pose proof (dequeue_ids cfg now batch t) as Hids.
  pose proof (dequeue_in_flight cfg now batch t) as Hfl. fold sel in Hfl.
  assert (find_id (id r) (dequeue cfg now batch t).2 =
          if b then Some (take_for_delivery now r) else None) as Hfind.
  { unfold p in Hp. destruct b.
    - apply bool_decide_eq_true, list_elem_of_fmap_1 in Hp as (x & Hid & Hx).
      assert (r = x) as <- by (apply (unique_row t); [done..|by apply (selected_elem _ _ _ _ _ Hx)|done]).
      apply find_id_unique; [|unfold dequeue; simpl; by apply list_elem_of_fmap_2|done].
      unfold ids at 1. rewrite Hfl. by apply selected_NoDup.
    - apply find_id_absent. rewrite Hfl. by apply bool_decide_eq_false in Hp. }
  destruct (dequeue cfg now batch t) as [t1 ms]. cbn [fst snd] in *.
  destruct (settle_row cfg deliver ms t1 r1) as [Hout Hbs]; [| | |done|].
  - rewrite Hfl. by apply selected_NoDup.
  - intros m Hm. rewrite Hids. assert (id m ∈ map id ms) as Hin by (by apply list_elem_of_fmap_2).
    rewrite Hfl in Hin. apply list_elem_of_fmap_1 in Hin as (x & -> & Hx).
    apply list_elem_of_fmap_2. by apply selected_elem in Hx as [? _].
  - by rewrite Hids.
  - unfold outcome, bounce_of in *. rewrite Hid1, Hfind in *.
    unfold ticked, tick_bounce, r1 in *. by destruct b.
Qed.

Lemma settle_ids cfg deliver ms t : ids (settle cfg deliver ms t).1 = ids t.
Proof.
  revert t. induction ms as [|m ms IH]; intros t; [done|]. simpl.
  destruct (deliver m) as [[err now]|].
  - pose proof (mark_failed_update cfg now (id m) err t) as Hup.
    destruct (mark_failed cfg now (id m) err t) as [t1 res]. simpl in Hup. subst t1.
    specialize (IH (update_where (has_id (id m)) (failed_row cfg now err) t)).
    destruct (settle cfg deliver ms _) as [t2 bs]. simpl in *. rewrite IH.
    by apply ids_update_where.
  - rewrite IH. by apply ids_update_where.
Qed.

Lemma tick_ids cfg now batch deliver t : ids (worker_tick cfg now batch deliver t).1 = ids t.
Proof.
  unfold worker_tick. pose proof (dequeue_ids cfg now batch t) as H.
  destruct (dequeue cfg now batch t) as [t1 ms]. by rewrite settle_ids.
Qed.

(** Consecutive ticks of one worker. *)
Fixpoint ticks (cfg : queue_config) (batch : Z) (deliver : queued_message -> option (string * Z))
    (times : list Z) (t : table) : table * list failure_report :=
  match times with
  | [] => (t, [])
  | now :: times =>
      let '(t1, b1) := worker_tick cfg now batch deliver t in
      let '(t2, b2) := ticks cfg batch deliver times t1 in (t2, b1 ++ b2)
  end.

(** How many of the ticks had the row [i] in their batch. *)
Fixpoint picks (cfg : queue_config) (batch : Z) (deliver : queued_message -> option (string * Z))
    (i : string) (times : list Z) (t : table) : Z :=
  match times with
  | [] => 0
  | now :: times =>
      (if picked cfg now batch i t then 1 else 0) +
      picks cfg batch deliver i times (worker_tick cfg now batch deliver t).1
  end.

(** At every tick the row [i] is due, if it still waits, and no more rows are
    due than a batch holds. *)
Fixpoint always_due (cfg : queue_config) (batch : Z)
    (deliver : queued_message -> option (string * Z)) (i : string) (times : list Z) (t : table)
    : Prop :=
  match times with
  | [] => True
  | now :: times =>
      Forall (fun r => id r = i -> waiting r = true -> next_attempt r <= now) t /\
      (length (List.filter (eligible now) t) <= batch_size cfg batch)%nat /\
      always_due cfg batch deliver i times (worker_tick cfg now batch deliver t).1
  end.

#[export] Instance always_due_dec cfg batch deliver i times t :
  Decision (always_due cfg batch deliver i times t).
Proof. revert t. induction times; intros t; simpl; apply _. Defined.

Lemma reports_app i b1 b2 : reports_for i (b1 ++ b2) = reports_for i b1 ++ reports_for i b2.
Proof. apply List.filter_app. Qed.

(** A row that no longer waits is left alone. *)
Lemma ticks_idle cfg batch deliver times t r :
  NoDup (ids t) -> r ∈ t -> waiting r = false ->
  r ∈ (ticks cfg batch deliver times t).1 /\ picks cfg batch deliver (id r) times t = 0 /\
  reports_for (id r) (ticks cfg batch deliver times t).2 = [].
Proof.
  intros Hnd Hr Hw. revert t Hnd Hr. induction times as [|now times IH]; intros t Hnd Hr; [done|]. simpl.
  destruct (tick_row cfg now batch deliver t r Hnd Hr) as [Hr1 Hb1].
  pose proof (picked_eligible cfg now batch t r Hnd Hr) as Hp. unfold eligible in Hp. rewrite Hw in Hp.
  destruct (picked cfg now batch (id r) t); [by discriminate Hp|].
  pose proof (tick_ids cfg now batch deliver t) as Hids.
  destruct (worker_tick cfg now batch deliver t) as [t1 b1]. cbn [fst snd] in *.
  destruct (IH t1) as (Hin & Hz & Hb); [by rewrite Hids|done|].
  destruct (ticks cfg batch deliver times t1) as [t2 b2]. cbn [fst snd] in *.
  split; [done|]. split; [lia|]. by rewrite reports_app, Hb1, Hb.
Qed.

(** What the ticks make of a waiting row whose every delivery fails. *)
Definition after_failures (cfg : queue_config) (batch : Z) (deliver : queued_message -> option (string * Z))
    (times : list Z) (t : table) (r : queued_message) : Prop :=
  exists r', r' ∈ (ticks cfg batch deliver times t).1 /\ same_message r r' /\
    let n := attempts r + picks cfg batch deliver (id r) times t in
    attempts r' = n /\ n <= max_attempts r /\
    (n < max_attempts r -> waiting r' = true /\ reports_for (id r) (ticks cfg batch deliver times t).2 = []) /\
    (n = max_attempts r -> status r' = StatusFailed /\
       exists b, reports_for (id r) (ticks cfg batch deliver times t).2 = [b] /\
         fr_to b = to r /\ fr_from b = from r /\ fr_metadata b = metadata r /\ fr_attempts b = max_attempts r).

Lemma failing_row cfg batch deliver times t r :
  NoDup (ids t) -> r ∈ t -> waiting r = true -> attempts r < max_attempts r ->
  (forall m, id m = id r -> deliver m <> None) -> after_failures cfg batch deliver times t r.
Proof.
  revert t r. induction times as [|now times IH]; intros t r Hnd Hr Hw Hlt Hfail; unfold after_failures; simpl.
  { exists r. rewrite Z.add_0_r. split; [done|]. split; [done|]. repeat split; done || lia. }
  destruct (tick_row cfg now batch deliver t r Hnd Hr) as [Hr1 Hb1].
  pose proof (tick_ids cfg now batch deliver t) as Hids.
  destruct (picked cfg now batch (id r) t) eqn:Hp; unfold ticked, tick_bounce in *.
  2: { destruct (worker_tick cfg now batch deliver t) as [t1 b1]. cbn [fst snd] in *.
       destruct (IH t1 r) as (r' & Hr' & Hsm & Ha & Hle & Hmore & Hend); [by rewrite Hids|done..|].
       destruct (ticks cfg batch deliver times t1) as [t2 b2]. cbn [fst snd] in *.
       exists r'. rewrite reports_app, Hb1. done. }
  destruct (deliver (take_for_delivery now r)) as [[err at_]|] eqn:Hd; [|by destruct (Hfail (take_for_delivery now r) eq_refl Hd)].
  destruct (worker_tick cfg now batch deliver t) as [t1 b1]. cbn [fst snd] in *.
  set (r1 := failed_row cfg at_ err (take_for_delivery now r)) in *.
  assert (same_message r r1) as Hsm1 by done.
  destruct (Z.leb_spec (max_attempts r) (attempts r + 1)) as [Hle|Hle].
  - destruct (ticks_idle cfg batch deliver times t1 r1) as (Hin & Hz & Hb);
      [by rewrite Hids|done|unfold waiting, r1; simpl; by rewrite (proj2 (Z.leb_le _ _) Hle)|].
    change (id r1) with (id r) in *.
    destruct (ticks cfg batch deliver times t1) as [t2 b2]. cbn [fst snd] in *.
    exists r1. rewrite Hz, reports_app, Hb1, Hb. split; [done|]. split; [done|].
    split; [simpl; lia|]. split; [lia|]. split; [lia|]. intros _.
    unfold r1. simpl. rewrite (proj2 (Z.leb_le _ _) Hle). split; [done|]. eexists. split; [done|].
    simpl. repeat split; lia.
  - destruct (IH t1 r1) as (r' & Hr' & Hsm & Ha & Hle' & Hmore & Hend);
      [by rewrite Hids|done|unfold waiting, r1; simpl; by rewrite (proj2 (Z.leb_gt _ _) Hle)|simpl; lia|exact Hfail|].
    change (id r1) with (id r) in *. change (max_attempts r1) with (max_attempts r) in *.
    change (attempts r1) with (attempts r + 1) in *.
    destruct (ticks cfg batch deliver times t1) as [t2 b2]. cbn [fst snd] in *.
    exists r'. rewrite reports_app, Hb1. rewrite Z.add_assoc. split; [done|]. split; [by transitivity r1|].
    repeat split; [lia|lia|apply Hmore; lia|apply Hmore; lia|apply Hend; lia|apply Hend; lia].
Qed.

(** While the row waits and is due and the due rows fit, each tick picks it. *)
Lemma due_picks cfg batch deliver times t r :
  NoDup (ids t) -> r ∈ t -> waiting r = true -> attempts r < max_attempts r ->
  (forall m, id m = id r -> deliver m <> None) -> always_due cfg batch deliver (id r) times t ->
  Z.min (Z.of_nat (length times)) (max_attempts r - attempts r) <= picks cfg batch deliver (id r) times t.
Proof.
  revert t r. induction times as [|now times IH]; intros t r Hnd Hr Hw Hlt Hfail Hdue; [simpl; lia|].
  destruct Hdue as (Hdue & Hfit & Hrest). cbn [picks].
  destruct (tick_row cfg now batch deliver t r Hnd Hr) as [Hr1 _].
  pose proof (tick_ids cfg now batch deliver t) as Hids.
  rewrite Forall_forall in Hdue. specialize (Hdue r Hr eq_refl Hw).
  assert (eligible now r = true) as He by (unfold eligible; rewrite Hw; by apply Z.leb_le).
  rewrite (due_picked cfg now batch t r Hr He Hfit) in *. unfold ticked in Hr1.
  destruct (deliver (take_for_delivery now r)) as [[err at_]|] eqn:Hd; [|by destruct (Hfail (take_for_delivery now r) eq_refl Hd)].
  destruct (worker_tick cfg now batch deliver t) as [t1 b1]. cbn [fst snd] in *.
  set (r1 := failed_row cfg at_ err (take_for_delivery now r)) in *.
  change (length (now :: times)) with (S (length times)).
  destruct (Z.leb_spec (max_attempts r) (attempts r + 1)) as [Hle|Hle].
  - destruct (ticks_idle cfg batch deliver times t1 r1) as (_ & Hz & _);
      [by rewrite Hids|done|unfold waiting, r1; simpl; by rewrite (proj2 (Z.leb_le _ _) Hle)|].
    change (id r1) with (id r) in Hz. lia.
  - specialize (IH t1 r1). change (id r1) with (id r) in *. change (max_attempts r1) with (max_attempts r) in *.
    change (attempts r1) with (attempts r + 1) in *.
    assert (waiting r1 = true) as Hw1 by (unfold waiting, r1; simpl; by rewrite (proj2 (Z.leb_gt _ _) Hle)).
    specialize (IH ltac:(by rewrite Hids) Hr1 Hw1 ltac:(lia) Hfail Hrest). lia.
Qed.

(** * Properties *)

(** A dequeue hands out distinct messages, each one a due pending or retry
    row now marked Processing with this attempt's time, at most a batch of
    them and the most overdue first: a due row is left behind only when the
    batch is full of rows due no later.  All other rows are untouched. *)
Theorem dequeue_takes_the_most_overdue cfg now limit t t' ms :
  NoDup (ids t) -> dequeue cfg now limit t = (t', ms) ->
  NoDup (map id ms) /\
  (length ms <= batch_size cfg limit)%nat /\
  (forall m, m ∈ ms -> m ∈ t' /\ exists r, r ∈ t /\ eligible now r = true /\ m = take_for_delivery now r) /\
  (forall r, r ∈ t -> id r ∉ map id ms -> r ∈ t' /\
     (eligible now r = true -> length ms = batch_size cfg limit /\
        forall m, m ∈ ms -> next_attempt m <= next_attempt r)).
Proof.
  intros Hnd Hdq. pose proof (dequeue_in_flight cfg now limit t) as Hfl.
  rewrite Hdq in Hfl. simpl in Hfl. rewrite Hfl.
  destruct (selected_split cfg now limit t) as (rest & Hp & Hord & Hfull).
  assert (ms = map (take_for_delivery now) (selected cfg now limit t)) as -> by (by inversion Hdq).
  assert (t' = (dequeue cfg now limit t).1) as -> by (by rewrite Hdq).
  rewrite length_map. split; [by apply selected_NoDup|]. split; [|split].
  - unfold selected. rewrite length_take. lia.
  - intros m (r & -> & Hr)%list_elem_of_fmap_1.
    destruct (selected_elem _ _ _ _ _ Hr) as [Hr' He]. split; [|by exists r].
    pose proof (elem_update_where (fun r => bool_decide (id r ∈ ids (selected cfg now limit t)))
      (take_for_delivery now) t r Hr') as Hup. simpl in Hup.
    rewrite bool_decide_eq_true_2 in Hup by (by apply list_elem_of_fmap_2). done.
  - intros r Hr Hn. split.
    { apply update_where_untouched; [done|]. by apply bool_decide_eq_false. }
    intros He. assert (r ∈ rest) as Hrest.
    { assert (r ∈ selected cfg now limit t ++ rest) as Hin by (rewrite Hp; by apply elem_filter_bool).
      apply elem_of_app in Hin as [Hin|]; [|done]. destruct Hn. by apply list_elem_of_fmap_2. }
    split; [apply Hfull; by intros ->; apply not_elem_of_nil in Hrest|].
    intros m (s & -> & Hs)%list_elem_of_fmap_1. by apply (Hord s r).
Qed.

(** C6. Whatever any number of workers do, a message that nobody is delivering
    is handed to a worker at most as many times as it has attempts left, as
    long as its identifier is not enqueued again. *)
Theorem delivery_attempts_bounded cfg s ops s' r :
  1 <= cfg_max_attempts cfg -> queue_wf s -> queue_trace cfg s ops s' ->
  r ∈ rows s -> Forall (fun op => ~ reuses (id r) op) ops ->
  deliveries cfg (id r) s ops <= row_budget s r.
Proof.
  intros Hmax Hwf Htr. revert r.
  induction Htr as [s|s op s1 ops s' Hst Htr IH]; intros r Hr Hu.
  { apply (row_budget_nonneg s r Hwf Hr). }
  apply Forall_cons in Hu as [Hu1 Hu2]. rewrite deliveries_cons.
  pose proof (wf_step cfg Hmax s op s1 Hwf Hst) as Hwf1.
  assert (s1 = queue_exec cfg op s) as Hs1 by (by inversion Hst). rewrite <- Hs1.
  destruct (decide (id r ∈ ids (rows s1))) as [Hin|Hn].
  - apply list_elem_of_fmap_1 in Hin as (r1 & Hid & Hr1). rewrite Hid in *.
    destruct (step_budget cfg s op s1 r1 Hwf Hst Hr1 Hu1) as (r0 & Hr0 & Hid0 & Hle).
    rewrite <- (unique_row (rows s) r0 r (wf_ids s Hwf) Hr0 Hr ltac:(congruence)).
    specialize (IH Hwf1 r1 Hr1 Hu2). lia.
  - rewrite (step_row_lost cfg s op s1 r Hwf Hst Hr Hn).
    rewrite (no_row_no_delivery cfg (id r) s1 ops s') by done.
    pose proof (row_budget_nonneg s r Hwf Hr). lia.
Qed.

(** C1. Once a sender's message is held it stays exactly as it is, and so
    undelivered, through everything that queue and workers do until that
    sender is released. *)
Theorem held_until_released cfg s ops s' r pk :
  1 <= cfg_max_attempts cfg -> queue_wf s -> queue_trace cfg s ops s' ->
  r ∈ rows s -> status r = StatusHeld -> metadata r !! metadata_sender_pubkey = Some pk ->
  Forall (fun op => forall now, op <> OpRelease now pk) ops ->
  r ∈ rows s' /\ deliveries cfg (id r) s ops = 0.
Proof.
  intros Hmax Hwf Htr Hr Hh Hpk Hops. induction Htr as [s|s op s1 ops s' Hst Htr IH]; [done|].
  apply Forall_cons in Hops as [Hop Hops].
  assert (r ∈ rows s1) as Hr1.
  { apply (held_step cfg s op s1 r Hwf Hst Hr Hh). intros now pk' ->.
    unfold sent_by. apply bool_decide_eq_false. intros Heq. rewrite Hpk in Heq.
    simplify_eq. by destruct (Hop now). }
  destruct (IH (wf_step cfg Hmax s op s1 Hwf Hst) Hr1 Hops) as [Hr' Hd]. split; [done|].
  assert (s1 = queue_exec cfg op s) as Hs1 by (by inversion Hst).
  rewrite deliveries_cons, <- Hs1, Hd. rewrite Z.add_0_r.
  destruct op; try done. unfold handed. rewrite dequeue_in_flight. apply is_in_false.
  intros (x & Hid & Hx)%list_elem_of_fmap_1. destruct (selected_elem _ _ _ _ _ Hx) as [Hx' He].
  rewrite (unique_row (rows s) x r (wf_ids s Hwf) Hx' Hr ltac:(congruence)) in He.
  unfold eligible, waiting in He. by rewrite Hh in He.
Qed.

(** C7. No message leaves the queue except by a purge of a delivered or
    permanently failed message older than the purge's age; until then its
    content, recipients and sender stay what was enqueued. *)
Theorem no_message_lost cfg s ops s' r :
  queue_trace cfg s ops s' -> r ∈ rows s ->
  (exists r', r' ∈ rows s' /\ same_message r r') \/
  (exists ops1 now old ops2 s1 r1, ops = ops1 ++ OpPurge now old :: ops2 /\
     queue_trace cfg s ops1 s1 /\ r1 ∈ rows s1 /\ same_message r r1 /\
     is_done r1 = true /\ created_at r < now - old).
Proof.
  intros Htr. revert r. induction Htr as [s|s op s1 ops s' Hst Htr IH]; intros r Hr.
  { left. by exists r. }
  destruct (message_step cfg s op s1 r Hst Hr) as [(r1 & Hr1 & Hsm)|(now & old & -> & Hd & Hc)].
  - destruct (IH r1 Hr1) as [(r' & Hr' & Hsm')|
      (ops1 & now & old & ops2 & s2 & r2 & -> & Htr2 & Hr2 & Hsm2 & Hd & Hc)].
    + left. exists r'. split; [done|]. by transitivity r1.
    + right. exists (op :: ops1), now, old, ops2, s2, r2. split; [done|].
      split; [by econstructor|]. split; [done|]. split; [by transitivity r1|].
      split; [done|]. by rewrite <- (sm_created _ _ Hsm).
  - right. exists [], now, old, ops, s, r. repeat split; try done. constructor.
Qed.

(** Releasing a sender that was held returns each of its parked messages
    to the pending pool, due at once and with its attempts kept, and leaves
    every other row alone; it reports as many messages as the hold parked plus
    those held before. *)
Theorem hold_then_release pk now t :
  let held := hold_for_sender pk t in
  let released := release_for_sender now pk held.1 in
  released.1 = map (fun r => if parkable pk r || parked pk r then unpark now r else r) t /\
  released.2 = held.2 + rows_affected (parked pk) t.
Proof.
  assert (forall r, parked pk (if parkable pk r then with_status StatusHeld r else r) =
                    parkable pk r || parked pk r) as Hp.
  { intros r. unfold parked, parkable. destruct (sent_by pk r) eqn:Hs; simpl.
    - destruct (waiting r) eqn:Hw; simpl; [|by rewrite Hs].
      unfold sent_by in *. simpl. by rewrite Hs.
    - by rewrite Hs. }
  simpl. split.
  - unfold update_where. rewrite map_map. apply map_ext. intros r. rewrite Hp.
    destruct (parkable pk r); [done|]. by destruct (parked pk r).
  - unfold rows_affected, update_where. induction t as [|r t IH]; [done|].
    simpl. rewrite Hp. destruct (parkable pk r) eqn:Hk; simpl.
    + assert (parked pk r = false) as ->; [|simpl; lia].
      unfold parkable, parked, waiting in *. destruct (status r); try done; rewrite andb_comm in Hk; try done.
      all: by rewrite bool_decide_eq_false_2, andb_false_r.
    + destruct (parked pk r); simpl; lia.
Qed.

(** The hold does not reach a message that a worker is delivering: when
    that delivery fails the message goes back to the retry schedule, and is
    due again after the back-off although its sender is still held. *)
Theorem in_flight_mail_escapes_hold cfg pk now err t r :
  NoDup (ids t) -> r ∈ t -> sent_by pk r = true -> status r = StatusProcessing ->
  attempts r + 1 < max_attempts r ->
  let t1 := (hold_for_sender pk t).1 in
  let t2 := (mark_failed cfg now (id r) err t1).1 in
  exists r2, r2 ∈ t2 /\ same_message r r2 /\ status r2 = StatusRetry /\
    eligible (now + get_retry_delay cfg (attempts r + 1)) r2 = true.
Proof.
  intros Hnd Hr Hs Hst Ha. simpl. exists (failed_row cfg now err r).
  rewrite mark_failed_update.
  assert (r ∈ update_where (parkable pk) (with_status StatusHeld) t) as Hr1.
  { apply update_where_untouched; [done|]. unfold parkable, waiting. rewrite Hst. apply andb_false_r. }
  pose proof (elem_update_where (has_id (id r)) (failed_row cfg now err) _ r Hr1) as Hup.
  unfold has_id in Hup at 1. rewrite String.eqb_refl in Hup.
  assert ((max_attempts r <=? attempts r + 1) = false) as Hle by (apply Z.leb_gt; lia).
  split; [done|]. split; [apply row_update_failed|].
  unfold eligible, waiting. simpl. rewrite Hle. split; [done|]. apply Z.leb_refl.
Qed.


(** * The theorems at concrete queues *)

Definition sample_row (i : string) (s : queue_status) (n due : Z) : queued_message := {|
  id := i; message_id := "<m@cloistr.xyz>"; from := "alice@cloistr.xyz";
  to := ["bob@example.com"]; raw_message := "raw"; status := s; attempts := n;
  max_attempts := 5; last_attempt := None; next_attempt := due; last_error := "";
  created_at := 0; metadata := {[ metadata_sender_pubkey := "pk" ]} |}.

Definition sample_table : table :=
  [sample_row "q1" StatusPending 0 10; sample_row "q2" StatusRetry 2 5;
   sample_row "q3" StatusHeld 0 0; sample_row "q4" StatusSent 1 0].

Definition sample_state : queue_state := QueueState sample_table [].

Lemma sample_ids : NoDup (ids sample_table).
Proof. refine (proj1 (bool_decide_eq_true _) _). vm_compute. reflexivity. Qed.

Lemma sample_wf : queue_wf sample_state.
Proof.
  constructor; simpl.
  - apply sample_ids.
  - constructor.
  - by intros i Hi%not_elem_of_nil.
  - intros r Hr. unfold sample_table in Hr.
    repeat (apply elem_of_cons in Hr as [->|Hr]; [by vm_compute|]). by apply not_elem_of_nil in Hr.
Qed.

Lemma dequeue_takes_the_most_overdue_witness :
  let '(t', ms) := dequeue default_queue_config 20 1 sample_table in
  map id ms = ["q2"] /\ NoDup (map id ms).
Proof.
  split; [reflexivity|].
  exact (proj1 (dequeue_takes_the_most_overdue default_queue_config 20 1 sample_table _ _
    sample_ids eq_refl)).
Defined.

Definition retry_script : list queue_op :=
  [OpDequeue 20 10; OpMarkFailed 30 "q2" "451 later"; OpMarkSent "q1"; OpHold "pk";
   OpDequeue (2 * hour) 10].

Lemma retry_script_trace :
  queue_trace default_queue_config sample_state retry_script
    (queue_run default_queue_config sample_state retry_script).
Proof. apply queue_run_trace. vm_compute. reflexivity. Qed.

Lemma delivery_attempts_bounded_witness :
  deliveries default_queue_config "q2" sample_state retry_script = 1 /\
  deliveries default_queue_config "q2" sample_state retry_script <= 3.
Proof.
  split; [reflexivity|].
  apply (delivery_attempts_bounded default_queue_config sample_state retry_script _
    (sample_row "q2" StatusRetry 2 5) ltac:(done) sample_wf retry_script_trace).
  - apply elem_of_cons. right. apply elem_of_cons. by left.
  - repeat constructor; simpl; tauto.
Defined.

Lemma held_until_released_witness :
  deliveries default_queue_config "q3" sample_state retry_script = 0.
Proof.
  apply (held_until_released default_queue_config sample_state retry_script _
    (sample_row "q3" StatusHeld 0 0) "pk" ltac:(done) sample_wf retry_script_trace).
  - do 2 (apply elem_of_cons; right). apply elem_of_cons. by left.
  - reflexivity.
  - reflexivity.
  - repeat constructor; done.
Defined.

Lemma no_message_lost_witness :
  (exists r', r' ∈ rows (queue_run default_queue_config sample_state retry_script)
              /\ same_message (sample_row "q1" StatusPending 0 10) r') \/
  (exists ops1 now old ops2 s1 r1, retry_script = ops1 ++ OpPurge now old :: ops2 /\
     queue_trace default_queue_config sample_state ops1 s1 /\ r1 ∈ rows s1 /\
     same_message (sample_row "q1" StatusPending 0 10) r1 /\
     is_done r1 = true /\ created_at (sample_row "q1" StatusPending 0 10) < now - old).
Proof.
  apply (no_message_lost default_queue_config sample_state retry_script _
    (sample_row "q1" StatusPending 0 10) retry_script_trace).
  apply elem_of_cons. by left.
Defined.

Definition processing_table : table := [sample_row "q5" StatusProcessing 0 0].

Lemma in_flight_mail_escapes_hold_witness :
  exists r2, r2 ∈ (mark_failed default_queue_config 7 "q5" "451"
                     (hold_for_sender "pk" processing_table).1).1 /\
    same_message (sample_row "q5" StatusProcessing 0 0) r2 /\ status r2 = StatusRetry /\
    eligible (7 + minute) r2 = true.
Proof.
  apply (in_flight_mail_escapes_hold default_queue_config "pk" 7 "451" processing_table
    (sample_row "q5" StatusProcessing 0 0)).
  - apply NoDup_singleton.
  - by apply list_elem_of_singleton.
  - reflexivity.
  - reflexivity.
  - simpl; lia.
Defined.

Definition dead_domain (m : queued_message) : option (string * Z) := Some ("550 no", 0).

