(* ===== verification/Mailboxes.v ===== *)
(** * Mailbox send state: internal/storage/postgres.go, "Mailbox Operations"

    The [mailboxes] table is a map from the primary key, the pubkey, to its row;
    [users] is the creation time in the shared [public.users] table.  Every
    statement may instead fail: [fault] is the driver's error for this call. *)

From S2P Require Import Prelude.

Record mailbox := Mailbox {
  mb_display_name : option string;
  mb_send_enabled : bool;
  mb_send_elevated : bool;
  mb_send_suspended_at : option Z;
  mb_created_at : Z;
  mb_updated_at : Z;
  mb_deleted_at : option Z }.

Abbreviation mailbox_table := (gmap string mailbox).

Record send_state := SendState {
  ss_enabled : bool;
  ss_elevated : bool;
  ss_suspended_at : option Z }.

(** The column defaults of configs/schema.sql. *)
Definition fresh_mailbox (now : Z) : mailbox := {|
  mb_display_name := None; mb_send_enabled := true; mb_send_elevated := false;
  mb_send_suspended_at := None; mb_created_at := now; mb_updated_at := now;
  mb_deleted_at := None |}.

(** [WHERE pubkey = $1 AND deleted_at IS NULL]. *)
Definition live_mailbox (t : mailbox_table) (pk : string) : option mailbox :=
  match t !! pk with
  | Some m => match mb_deleted_at m with None => Some m | Some _ => None end
  | None => None
  end.

Definition get_mailbox_by_pubkey (fault : option error) (pk : string) (t : mailbox_table)
    : res (option mailbox) :=
  match fault with
  | Some e => Err (Wrapped "failed to get mailbox by pubkey" e)
  | None => Ok (live_mailbox t pk)
  end.

Definition get_mailbox_send_state (fault : option error) (pk : string) (t : mailbox_table)
    : res send_state :=
  match fault with
  | Some e => Err (Wrapped "failed to get mailbox send state" e)
  | None =>
      match live_mailbox t pk with
      | None => Ok (SendState true false None)
      | Some m => Ok (SendState (mb_send_enabled m) (mb_send_elevated m) (mb_send_suspended_at m))
      end
  end.

Definition with_send_enabled (now : Z) (b : bool) (at_ : option Z) (m : mailbox) : mailbox := {|
  mb_display_name := mb_display_name m; mb_send_enabled := b;
  mb_send_elevated := mb_send_elevated m; mb_send_suspended_at := at_;
  mb_created_at := mb_created_at m; mb_updated_at := now; mb_deleted_at := mb_deleted_at m |}.

(** An UPDATE: no row, no effect. *)
Definition set_mailbox_send_enabled (fault : option error) (now : Z) (pk : string) (b : bool)
    (at_ : option Z) (t : mailbox_table) : mailbox_table * res unit :=
  match fault with
  | Some e => (t, Err (Wrapped "failed to set mailbox send state" e))
  | None => (alter (with_send_enabled now b at_) pk t, Ok tt)
  end.

Definition get_account_created_at (fault : option error) (pk : string) (users : gmap string Z)
    : res (option Z) :=
  match fault with
  | Some e => Err (Wrapped "failed to get account created_at" e)
  | None => Ok (users !! pk)
  end.

Definition touch_mailbox (now : Z) (m : mailbox) : mailbox := {|
  mb_display_name := mb_display_name m; mb_send_enabled := mb_send_enabled m;
  mb_send_elevated := mb_send_elevated m; mb_send_suspended_at := mb_send_suspended_at m;
  mb_created_at := mb_created_at m; mb_updated_at := now; mb_deleted_at := mb_deleted_at m |}.

Definition ensure_mailbox (fault : option error) (now : Z) (pk : string) (t : mailbox_table)
    : mailbox_table * res mailbox :=
  match fault with
  | Some e => (t, Err (Wrapped "failed to ensure mailbox" e))
  | None =>
      let m := match t !! pk with Some m => touch_mailbox now m | None => fresh_mailbox now end in
      (<[pk := m]> t, Ok m)
  end.

(** * Lemmas *)

(** The gate's answer for an account, faults aside. *)
Definition may_send (t : mailbox_table) (pk : string) : bool :=
  match live_mailbox t pk with Some m => mb_send_enabled m | None => true end.

Lemma get_mailbox_send_state_enabled pk t st :
  get_mailbox_send_state None pk t = Ok st -> ss_enabled st = may_send t pk.
Proof. unfold get_mailbox_send_state, may_send. intros. by destruct (live_mailbox t pk); simplify_eq. Qed.

Lemma live_set_enabled now pk b at_ t pk' :
  live_mailbox (alter (with_send_enabled now b at_) pk t) pk' =
    if decide (pk = pk') then with_send_enabled now b at_ <$> live_mailbox t pk' else live_mailbox t pk'.
Proof.
  unfold live_mailbox. rewrite lookup_alter. case_decide; [subst|done].
  destruct (t !! pk') as [m|]; simpl; [|done]. by destruct (mb_deleted_at m).
Qed.

Lemma may_send_set_other now pk b at_ t pk' :
  pk <> pk' -> may_send (alter (with_send_enabled now b at_) pk t) pk' = may_send t pk'.
Proof. intros Hn. unfold may_send. by rewrite live_set_enabled, decide_False. Qed.

Lemma may_send_set now pk b at_ t m :
  live_mailbox t pk = Some m -> may_send (alter (with_send_enabled now b at_) pk t) pk = b.
Proof. intros Hm. unfold may_send. by rewrite live_set_enabled, decide_True, Hm. Qed.

(** A mailbox that the statement does not reach keeps answering "enabled". *)
Lemma may_send_set_missing now pk b at_ t :
  live_mailbox t pk = None -> may_send (alter (with_send_enabled now b at_) pk t) pk = true.
Proof. intros Hm. unfold may_send. by rewrite live_set_enabled, decide_True, Hm. Qed.

Lemma ensure_mailbox_live now pk t t' m pk' :
  ensure_mailbox None now pk t = (t', Ok m) ->
  may_send t' pk' = may_send t pk' /\ (t !! pk = None -> live_mailbox t' pk = Some (fresh_mailbox now)).
Proof.
  unfold ensure_mailbox. intros [= <- <-]. split.
  - unfold may_send, live_mailbox. destruct (decide (pk = pk')) as [<-|Hn].
    + rewrite lookup_insert_eq. by destruct (t !! pk) as [m0|]; [simpl; destruct (mb_deleted_at m0)|].
    + by rewrite lookup_insert_ne.
  - intros Hn. rewrite Hn. unfold live_mailbox. by rewrite lookup_insert_eq.
Qed.

#[export] Hint Rewrite may_send_set_other using congruence : email.
