(* ===== verification/Abuse.v ===== *)
(** * The abuse ladder: internal/abuse (ladder.go, ladder_apply.go, marks.go)

    Signals are judged by [evaluate]; [apply] moves an account along the rungs.
    What the ladder calls (the mark store, the mailbox send gate, the outbound
    queue) is the interface [LadderStores]; [world] implements it with the
    in-process mark store, the mailbox table and the outbound queue. *)

From S2P Require Import Prelude GoStrings GoFloat Queue Mailboxes.
#[local] Open Scope Z_scope.

(** ** Rungs and signals (ladder.go)

    A Rung is a Go int: a stored mark can hold any. *)

Definition RungNone : Z := 0.
Definition RungWarn : Z := 1.
Definition RungThrottle : Z := 2.
Definition RungHold : Z := 3.
Definition RungSuspend : Z := 4.

Definition rung_string (r : Z) : string :=
  if r =? RungNone then "none"
  else if r =? RungWarn then "warn"
  else if r =? RungThrottle then "throttle"
  else if r =? RungHold then "hold"
  else if r =? RungSuspend then "suspend"
  else "rung(" +:+ pretty r +:+ ")".

Record signals := Signals {
  s_pubkey : string;
  messages_sent : Z;
  recipients_sent : Z;
  hard_bounces : Z;
  soft_bounces : Z;
  recipients_last_hour : Z;
  complaints : Z }.

Definition hard_bounce_rate (s : signals) : float64 :=
  if messages_sent s <=? 0 then of_int 0
  else fdiv (of_int (hard_bounces s)) (of_int (messages_sent s)).

Definition complaint_rate (s : signals) : float64 :=
  if recipients_sent s <=? 0 then of_int 0
  else fdiv (of_int (complaints s)) (of_int (recipients_sent s)).

Record thresholds := Thresholds {
  t_window : Z;
  min_messages : Z;
  warn_hard_bounce_rate : float64;
  throttle_hard_bounce_rate : float64;
  hold_hard_bounce_rate : float64;
  suspend_hard_bounce_rate : float64;
  warn_complaint_rate : float64;
  throttle_complaint_rate : float64;
  hold_complaint_rate : float64;
  min_recipients_for_complaint_rate : Z;
  velocity_recipients_per_hour : Z;
  allow_auto_suspend : bool }.

Definition default_thresholds : thresholds := {|
  t_window := 24 * hour;
  min_messages := 20;
  warn_hard_bounce_rate := lit 5 100;
  throttle_hard_bounce_rate := lit 15 100;
  hold_hard_bounce_rate := lit 35 100;
  suspend_hard_bounce_rate := lit 60 100;
  velocity_recipients_per_hour := 500;
  allow_auto_suspend := false;
  warn_complaint_rate := lit 1 1000;
  throttle_complaint_rate := lit 3 1000;
  hold_complaint_rate := lit 5 1000;
  min_recipients_for_complaint_rate := 200 |}.

(** ** Evaluation *)

(** [threshold > 0 && rate >= threshold]. *)
Definition reaches (rate threshold : float64) : bool := f_pos threshold && f_ge rate threshold.

Definition bounce_reason (s : signals) (threshold : float64) : string :=
  "hard bounce rate " +:+ format_fixed 1 (fmul (hard_bounce_rate s) (of_int 100)) +:+ "% (" +:+
  pretty (hard_bounces s) +:+ "/" +:+ pretty (messages_sent s) +:+ ") exceeds " +:+
  format_fixed 1 (fmul threshold (of_int 100)) +:+ "%".

Definition evaluate_bounce_rate (t : thresholds) (s : signals) : Z * string :=
  if messages_sent s <? min_messages t then (RungNone, "")
  else
    let rate := hard_bounce_rate s in
    if reaches rate (suspend_hard_bounce_rate t)
    then (RungSuspend, bounce_reason s (suspend_hard_bounce_rate t))
    else if reaches rate (hold_hard_bounce_rate t)
    then (RungHold, bounce_reason s (hold_hard_bounce_rate t))
    else if reaches rate (throttle_hard_bounce_rate t)
    then (RungThrottle, bounce_reason s (throttle_hard_bounce_rate t))
    else if reaches rate (warn_hard_bounce_rate t)
    then (RungWarn, bounce_reason s (warn_hard_bounce_rate t))
    else (RungNone, "").

Definition complaint_reason (s : signals) (threshold : float64) : string :=
  "spam complaint rate " +:+ format_fixed 2 (fmul (complaint_rate s) (of_int 100)) +:+ "% (" +:+
  pretty (complaints s) +:+ "/" +:+ pretty (recipients_sent s) +:+ ") exceeds " +:+
  format_fixed 2 (fmul threshold (of_int 100)) +:+ "%".

Definition evaluate_complaint_rate (t : thresholds) (s : signals) : Z * string :=
  if recipients_sent s <? min_recipients_for_complaint_rate t then (RungNone, "")
  else
    let rate := complaint_rate s in
    if reaches rate (hold_complaint_rate t)
    then (RungHold, complaint_reason s (hold_complaint_rate t))
    else if reaches rate (throttle_complaint_rate t)
    then (RungThrottle, complaint_reason s (throttle_complaint_rate t))
    else if reaches rate (warn_complaint_rate t)
    then (RungWarn, complaint_reason s (warn_complaint_rate t))
    else (RungNone, "").

Definition velocity_tripped (t : thresholds) (s : signals) : bool :=
  (0 <? velocity_recipients_per_hour t) &&
  (velocity_recipients_per_hour t <? recipients_last_hour s).

Definition evaluate (t : thresholds) (s : signals) : Z * string :=
  if velocity_tripped t s
  then (RungHold, "velocity " +:+ pretty (recipients_last_hour s) +:+ " recipients/hour exceeds " +:+
                  pretty (velocity_recipients_per_hour t))
  else
    let b := evaluate_bounce_rate t s in
    let c := evaluate_complaint_rate t s in
    if b.1 <? c.1 then c else b.

(** ** Marks (marks.go) *)

Record mark := Mark { m_rung : Z; m_reason : string; m_at : Z }.

#[export] Instance mark_eq_dec : EqDecision mark.
Proof. solve_decision. Defined.

(** [expires_at] is [None] for Go's zero time: no expiry. *)
Record memory_mark := MemoryMark { mm_mark : mark; mm_expires_at : option Z }.
Abbreviation mark_table := (gmap string memory_mark).

Definition mark_get (now : Z) (pk : string) (t : mark_table) : option mark :=
  match t !! pk with
  | None => None
  | Some e =>
      match mm_expires_at e with
      | Some x => if x <? now then None else Some (mm_mark e)
      | None => Some (mm_mark e)
      end
  end.

Definition mark_set (now : Z) (pk : string) (m : mark) (ttl : Z) (t : mark_table) : mark_table :=
  <[pk := MemoryMark m (if 0 <? ttl then Some (now + ttl) else None)]> t.

Definition mark_clear (pk : string) (t : mark_table) : mark_table := delete pk t.

(** [Throttled], of either store: the caller's error on a failed read. *)
Definition throttled_mark (r : res (option mark)) : res bool :=
  match r with
  | Err e => Err e
  | Ok None => Ok false
  | Ok (Some m) => Ok (RungThrottle <=? m_rung m)
  end.

(** ** The stores the ladder drives (ladder_apply.go, the interfaces) *)

Class LadderStores (W : Type) := {
  get_mark : Z -> string -> W -> res (option mark);
  set_mark : Z -> string -> mark -> Z -> W -> W * res unit;
  clear_mark : string -> W -> W * res unit;
  set_send_enabled : Z -> string -> bool -> option Z -> W -> W * res unit;
  park_queue : string -> W -> W * res Z;
  unpark_queue : Z -> string -> W -> W * res Z }.

Record ladder_config := LadderConfig {
  lc_thresholds : thresholds;
  throttle_ttl : Z;
  warn_ttl : Z;
  auto_release_hold : bool;
  min_hold_duration : Z;
  has_queue : bool }.

Definition default_ladder_config : ladder_config := {|
  lc_thresholds := default_thresholds;
  throttle_ttl := 6 * hour;
  warn_ttl := 24 * hour;
  auto_release_hold := true;
  min_hold_duration := 1 * hour;
  has_queue := true |}.

Definition rung_ttl (cfg : ladder_config) (r : Z) : Z :=
  if r =? RungWarn then warn_ttl cfg
  else if r =? RungThrottle then throttle_ttl cfg
  else 0.

Section ladder.
Context {W : Type} `{LadderStores W} (cfg : ladder_config).

(** [release]: the error, if any, of re-opening the gate. *)
Definition release (now : Z) (pk : string) (w : W) : W * option error :=
  match set_send_enabled now pk true None w with
  | (w, Err e) => (w, Some (Wrapped "release send state" e))
  | (w, Ok _) =>
      if has_queue cfg then ((unpark_queue now pk w).1, None) else (w, None)
  end.

Definition renew (now : Z) (pk : string) (current : mark) (reason : string) (w : W)
    : W * option error :=
  let renewed := if String.eqb reason "" then current
                 else Mark (m_rung current) reason (m_at current) in
  match set_mark now pk renewed (rung_ttl cfg (m_rung current)) w with
  | (w, Err e) => (w, Some (Wrapped "renew abuse mark" e))
  | (w, Ok _) => (w, None)
  end.

(** The enforcement part of [escalate]. *)
Definition enforce (now : Z) (pk : string) (rung : Z) (w : W) : W * option error :=
  if (rung =? RungHold) || (rung =? RungSuspend)
  then match set_send_enabled now pk false (Some now) w with
       | (w, Err e) => (w, Some (Wrapped "hold send state" e))
       | (w, Ok _) => if has_queue cfg then ((park_queue pk w).1, None) else (w, None)
       end
  else (w, None).

Definition escalate (now : Z) (pk : string) (rung : Z) (reason : string) (w : W)
    : W * option error :=
  match enforce now pk rung w with
  | (w, Some e) => (w, Some e)
  | (w, None) =>
      match set_mark now pk (Mark rung reason now) (rung_ttl cfg rung) w with
      | (w, Err e) => (w, Some (Wrapped "record abuse mark" e))
      | (w, Ok _) => (w, None)
      end
  end.

Definition remark (now : Z) (pk : string) (current : mark) (warranted : Z) (w : W)
    : W * (Z * option error) :=
  if warranted =? RungNone
  then match clear_mark pk w with
       | (w, Err e) => (w, (m_rung current, Some (Wrapped "clear abuse mark" e)))
       | (w, Ok _) => (w, (RungNone, None))
       end
  else match set_mark now pk (Mark warranted (m_reason current) now) (rung_ttl cfg warranted) w with
       | (w, Err e) => (w, (m_rung current, Some (Wrapped "record abuse mark" e)))
       | (w, Ok _) => (w, (warranted, None))
       end.

Definition deescalate (now : Z) (pk : string) (current : mark) (warranted : Z) (w : W)
    : W * (Z * option error) :=
  if RungSuspend <=? m_rung current then (w, (m_rung current, None))
  else if RungHold <=? m_rung current
  then
    if negb (auto_release_hold cfg) then (w, (m_rung current, None))
    else if time_sub now (m_at current) <? min_hold_duration cfg
    then (w, (m_rung current, None))
    else match release now pk w with
         | (w, Some e) => (w, (m_rung current, Some e))
         | (w, None) => remark now pk current warranted w
         end
  else remark now pk current warranted w.

(** The policy clamp of [Apply]. *)
Definition clamp (warranted : Z) : Z :=
  if (warranted =? RungSuspend) && negb (allow_auto_suspend (lc_thresholds cfg))
  then RungHold else warranted.

Definition apply (now : Z) (pk : string) (warranted : Z) (reason : string) (w : W)
    : W * (Z * option error) :=
  let current := match get_mark now pk w with Ok m => m | Err _ => None end in
  let applied := clamp warranted in
  match current with
  | Some c =>
      if applied <? m_rung c then deescalate now pk c applied w
      else if applied =? RungNone then (w, (RungNone, None))
      else if applied =? m_rung c
      then let '(w, e) := renew now pk c reason w in (w, (applied, e))
      else let '(w, e) := escalate now pk applied reason w in (w, (applied, e))
  | None =>
      if applied =? RungNone then (w, (RungNone, None))
      else let '(w, e) := escalate now pk applied reason w in (w, (applied, e))
  end.

Definition release_manual (now : Z) (pk : string) (w : W) : W * option error :=
  match release now pk w with
  | (w, Some e) => (w, Some e)
  | (w, None) =>
      match clear_mark pk w with
      | (w, Err e) => (w, Some (Wrapped "clear abuse mark" e))
      | (w, Ok _) => (w, None)
      end
  end.

(** ** The detector (detector.go): one pass over the collected signals *)

Record scan_result := ScanResult { evaluated : Z; actioned : Z; by_rung : gmap Z Z }.

Definition count_rung (r : Z) (m : gmap Z Z) : gmap Z Z :=
  <[r := default 0 (m !! r) + 1]> m.

Definition scan_account (now : Z) (s : signals) (acc : W * scan_result) : W * scan_result :=
  if String.eqb (s_pubkey s) "" then acc
  else
    let '(w, r) := acc in
    let '(rung, reason) := evaluate (lc_thresholds cfg) s in
    let '(w, (applied, err)) := apply now (s_pubkey s) rung reason w in
    let r := ScanResult (evaluated r + 1) (actioned r) (by_rung r) in
    match err with
    | Some _ => (w, r)
    | None =>
        if RungNone <? applied
        then (w, ScanResult (evaluated r) (actioned r + 1) (count_rung applied (by_rung r)))
        else (w, r)
    end.

Definition scan (now : Z) (collected : res (list signals)) (w : W) : W * (scan_result * option error) :=
  match collected with
  | Err e => (w, (ScanResult 0 0 ∅, Some e))
  | Ok ss =>
      let '(w, r) := fold_left (fun acc s => scan_account now s acc) ss (w, ScanResult 0 0 ∅) in
      (w, (r, None))
  end.

End ladder.

(** ** The stores of a single node *)

Record world := World {
  w_marks : mark_table;
  w_mailboxes : mailbox_table;
  w_queue : list queued_message }.

#[export] Instance world_stores : LadderStores world := {
  get_mark now pk w := Ok (mark_get now pk (w_marks w));
  set_mark now pk m ttl w :=
    (World (mark_set now pk m ttl (w_marks w)) (w_mailboxes w) (w_queue w), Ok tt);
  clear_mark pk w := (World (mark_clear pk (w_marks w)) (w_mailboxes w) (w_queue w), Ok tt);
  set_send_enabled now pk b at_ w :=
    let '(t, r) := set_mailbox_send_enabled None now pk b at_ (w_mailboxes w) in
    (World (w_marks w) t (w_queue w), r);
  park_queue pk w :=
    let '(q, n) := hold_for_sender pk (w_queue w) in
    (World (w_marks w) (w_mailboxes w) q, Ok n);
  unpark_queue now pk w :=
    let '(q, n) := release_for_sender now pk (w_queue w) in
    (World (w_marks w) (w_mailboxes w) q, Ok n) }.

(** Stores some of whose calls fail, without effect, with a driver error. *)
Inductive store_call := CGet | CSet | CClear | CGate | CPark | CUnpark.
#[export] Instance store_call_eq_dec : EqDecision store_call.
Proof. solve_decision. Defined.

Record flaky (W : Type) := Flaky { f_inner : W; f_fails : store_call -> bool }.
Arguments Flaky {W}.
Arguments f_inner {W}.
Arguments f_fails {W}.

Definition down : error := Sentinel "connection refused".

Definition flaky_call {W A} (c : store_call) (op : W -> W * res A) (w : flaky W) : flaky W * res A :=
  if f_fails w c then (w, Err down)
  else let '(i, r) := op (f_inner w) in (Flaky i (f_fails w), r).

#[export] Instance flaky_stores {W} `{LadderStores W} : LadderStores (flaky W) := {
  get_mark now pk w := if f_fails w CGet then Err down else get_mark now pk (f_inner w);
  set_mark now pk m ttl := flaky_call CSet (set_mark now pk m ttl);
  clear_mark pk := flaky_call CClear (clear_mark pk);
  set_send_enabled now pk b at_ := flaky_call CGate (set_send_enabled now pk b at_);
  park_queue pk := flaky_call CPark (park_queue pk);
  unpark_queue now pk := flaky_call CUnpark (unpark_queue now pk) }.

(** A run of the ladder: what scans and operators make it do. *)
Inductive ladder_op :=
| LApply (now : Z) (pk : string) (warranted : Z) (reason : string)
| LRelease (now : Z) (pk : string).

Definition ladder_step (cfg : ladder_config) (w : world) (op : ladder_op) : world :=
  match op with
  | LApply now pk warranted reason => (apply cfg now pk warranted reason w).1
  | LRelease now pk => (release_manual cfg now pk w).1
  end.

Definition ladder_run (cfg : ladder_config) (w : world) (ops : list ladder_op) : world :=
  fold_left (ladder_step cfg) ops w.

(** A run during which any call to the stores may fail: each operation comes
    with the calls that fail while it runs. *)
Abbreviation faulty_op := (ladder_op * (store_call -> bool))%type.

Definition faulty_step (cfg : ladder_config) (w : world) (op : faulty_op) : world :=
  match op.1 with
  | LApply now pk warranted reason => f_inner (apply cfg now pk warranted reason (Flaky w op.2)).1
  | LRelease now pk => f_inner (release_manual cfg now pk (Flaky w op.2)).1
  end.

Definition faulty_run (cfg : ladder_config) (w : world) (ops : list faulty_op) : world :=
  fold_left (faulty_step cfg) ops w.

Definition no_fault (_ : store_call) : bool := false.

Definition valid_rung (r : Z) : Prop := RungNone <= r <= RungSuspend.

Definition op_valid (op : ladder_op) : Prop :=
  match op with LApply _ _ r _ => valid_rung r | LRelease _ _ => True end.

(** * Lemmas *)

#[local] Ltac rungs :=
  unfold valid_rung in *; unfold RungNone, RungWarn, RungThrottle, RungHold, RungSuspend in *.

Lemma bounce_rung_valid t s : valid_rung (evaluate_bounce_rate t s).1.
Proof. unfold evaluate_bounce_rate. rungs. repeat case_match; simpl; lia. Qed.

Lemma complaint_rung_le_hold t s : RungNone <= (evaluate_complaint_rate t s).1 <= RungHold.
Proof. unfold evaluate_complaint_rate. rungs. repeat case_match; simpl; lia. Qed.

Lemma bounce_rung_none t s :
  (evaluate_bounce_rate t s).1 = RungNone <-> (evaluate_bounce_rate t s).2 = "".
Proof. unfold evaluate_bounce_rate. rungs. repeat case_match; simpl; split; done. Qed.

Lemma bounce_suspend t s :
  (evaluate_bounce_rate t s).1 = RungSuspend -> min_messages t <= messages_sent s /\
    reaches (hard_bounce_rate s) (suspend_hard_bounce_rate t) = true.
Proof.
  unfold evaluate_bounce_rate. destruct (Z.ltb_spec (messages_sent s) (min_messages t)); [done|].
  cbv zeta. destruct (reaches _ (suspend_hard_bounce_rate t)); [done|].
  by repeat case_match.
Qed.

Lemma complaint_rung_none t s :
  (evaluate_complaint_rate t s).1 = RungNone <-> (evaluate_complaint_rate t s).2 = "".
Proof. unfold evaluate_complaint_rate. rungs. repeat case_match; simpl; split; done. Qed.

Lemma evaluate_valid t s : valid_rung (evaluate t s).1.
Proof.
  unfold evaluate. pose proof (bounce_rung_valid t s). pose proof (complaint_rung_le_hold t s).
  destruct (velocity_tripped t s); [by rungs|]. cbv zeta.
  destruct (_ <? _); [rungs; lia|done].
Qed.

Lemma clamp_valid cfg r : valid_rung r -> valid_rung (clamp cfg r).
Proof. unfold clamp. intros. case_match; [by rungs|done]. Qed.

Lemma clamp_no_suspend cfg r :
  valid_rung r -> allow_auto_suspend (lc_thresholds cfg) = false -> clamp cfg r <= RungHold.
Proof.
  unfold clamp. intros Hr ->. rungs. destruct (Z.eqb_spec r 4); simpl; lia.
Qed.

Lemma rung_ttl_hold cfg r : RungHold <= r -> rung_ttl cfg r = 0.
Proof. unfold rung_ttl. rungs. intros.
  destruct (Z.eqb_spec r 1); [lia|]. destruct (Z.eqb_spec r 2); [lia|done]. Qed.

#[export] Hint Resolve bounce_rung_valid evaluate_valid clamp_valid : email.

(** ** The ladder on the stores of a single node *)

(** The mark recorded for an account, expired or not. *)
Definition mark_entry (pk : string) (w : world) : option memory_mark := w_marks w !! pk.

Definition held_mark (pk : string) (w : world) : bool :=
  match mark_entry pk w with Some e => RungHold <=? m_rung (mm_mark e) | None => false end.

Definition gate_open (pk : string) (w : world) : bool := may_send (w_mailboxes w) pk.

(** What a ladder operation may do to the account's part of the state: leave
    it alone, change the mark below hold, close the gate with a hold mark,
    refresh a mark at its rung, or open the gate with a lower mark. *)
Inductive account_effect (pk : string) (w w' : world) : Prop :=
| Kept :
    mark_entry pk w' = mark_entry pk w -> w_mailboxes w' = w_mailboxes w -> account_effect pk w w'
| Closed now e :
    mark_entry pk w' = Some e -> RungHold <= m_rung (mm_mark e) -> mm_expires_at e = None ->
    w_mailboxes w' = alter (with_send_enabled now false (Some now)) pk (w_mailboxes w) ->
    account_effect pk w w'
| Lowered :
    held_mark pk w = false -> held_mark pk w' = false ->
    w_mailboxes w' = w_mailboxes w -> account_effect pk w w'
| Refreshed e e' :
    mark_entry pk w = Some e -> mark_entry pk w' = Some e' ->
    RungHold <= m_rung (mm_mark e) ->
    m_rung (mm_mark e') = m_rung (mm_mark e) -> m_at (mm_mark e') = m_at (mm_mark e) ->
    mm_expires_at e' = None ->
    w_mailboxes w' = w_mailboxes w -> account_effect pk w w'
| Opened now :
    held_mark pk w' = false ->
    w_mailboxes w' = alter (with_send_enabled now true None) pk (w_mailboxes w) ->
    account_effect pk w w'.

Definition hold_marks_last (pk : string) (w : world) : Prop :=
  forall e, mark_entry pk w = Some e -> RungHold <= m_rung (mm_mark e) -> mm_expires_at e = None.

Lemma mark_get_entry now pk w m :
  mark_get now pk (w_marks w) = Some m ->
  exists e, mark_entry pk w = Some e /\ mm_mark e = m.
Proof.
  unfold mark_get, mark_entry. destruct (w_marks w !! pk) as [e|]; [|done]. intros Hg. exists e.
  split; [done|]. destruct (mm_expires_at e); [destruct (_ <? _)|]; by simplify_eq.
Qed.

Lemma mark_get_none now pk w :
  hold_marks_last pk w -> mark_get now pk (w_marks w) = None -> held_mark pk w = false.
Proof.
  unfold hold_marks_last, mark_get, held_mark, mark_entry.
  destruct (w_marks w !! pk) as [e|]; [|done]. intros Hl Hg.
  destruct (Z.leb_spec RungHold (m_rung (mm_mark e))) as [Hle|]; [|done].
  by rewrite (Hl e eq_refl Hle) in Hg.
Qed.

Lemma held_mark_get now pk w e :
  hold_marks_last pk w -> mark_entry pk w = Some e -> RungHold <= m_rung (mm_mark e) ->
  mark_get now pk (w_marks w) = Some (mm_mark e).
Proof.
  unfold mark_get, mark_entry. intros Hl He Hr. rewrite He. by rewrite (Hl e).
Qed.

Lemma world_release cfg now pk (w : world) :
  exists q, release cfg now pk w =
    (World (w_marks w) (alter (with_send_enabled now true None) pk (w_mailboxes w)) q, None).
Proof. unfold release. simpl. destruct (has_queue cfg); simpl; eauto. Qed.

Lemma world_enforce_hold cfg now pk rung (w : world) :
  RungHold <= rung <= RungSuspend ->
  exists q, enforce cfg now pk rung w =
    (World (w_marks w) (alter (with_send_enabled now false (Some now)) pk (w_mailboxes w)) q, None).
Proof.
  intros Hr. unfold enforce.
  assert ((rung =? RungHold) || (rung =? RungSuspend) = true) as ->.
  { rungs. apply orb_true_iff. rewrite !Z.eqb_eq. lia. }
  simpl. destruct (has_queue cfg); simpl; eauto.
Qed.

Lemma world_enforce_low cfg now pk rung (w : world) :
  rung < RungHold -> enforce cfg now pk rung w = (w, None).
Proof.
  intros Hr. unfold enforce. rungs.
  destruct (Z.eqb_spec rung 3), (Z.eqb_spec rung 4); simpl; lia || done.
Qed.

Lemma escalate_effect cfg now pk rung reason (w : world) :
  valid_rung rung -> (rung < RungHold -> held_mark pk w = false) ->
  account_effect pk w (escalate cfg now pk rung reason w).1 /\
  (escalate cfg now pk rung reason w).2 = None.
Proof.
  intros Hr Hlow. unfold escalate.
  destruct (Z.lt_ge_cases rung RungHold) as [Hlt|Hge].
  - rewrite world_enforce_low by done. simpl. split; [|done].
    apply Lowered; [auto| |done]. unfold held_mark, mark_entry. simpl. unfold mark_set.
    rewrite lookup_insert_eq. simpl. by apply Z.leb_gt.
  - destruct (world_enforce_hold cfg now pk rung w) as [q ->]; [rungs; lia|]. simpl.
    split; [|done]. eapply Closed; [apply lookup_insert_eq|..]; simpl.
    + done.
    + by rewrite rung_ttl_hold.
    + done.
Qed.

Lemma remark_effect cfg now pk c r (w : world) :
  r < RungHold ->
  held_mark pk (remark cfg now pk c r w).1 = false /\
  w_mailboxes (remark cfg now pk c r w).1 = w_mailboxes w /\
  (remark cfg now pk c r w).2 = (r, None).
Proof.
  intros Hr. unfold remark, held_mark, mark_entry.
  destruct (Z.eqb_spec r RungNone) as [->|]; simpl.
  - unfold mark_clear. by rewrite lookup_delete_eq.
  - unfold mark_set. rewrite lookup_insert_eq. simpl. split; [by apply Z.leb_gt|done].
Qed.

Lemma deescalate_effect cfg now pk e r (w : world) :
  mark_entry pk w = Some e -> r < m_rung (mm_mark e) -> valid_rung r ->
  account_effect pk w (deescalate cfg now pk (mm_mark e) r w).1.
Proof.
  intros He Hlt Hr. unfold deescalate.
  destruct (Z.leb_spec RungSuspend (m_rung (mm_mark e))); [by apply Kept|].
  destruct (Z.leb_spec RungHold (m_rung (mm_mark e))) as [Hh|Hh].
  - destruct (auto_release_hold cfg); simpl; [|by apply Kept].
    destruct (time_sub now (m_at (mm_mark e)) <? min_hold_duration cfg); [by apply Kept|].
    destruct (world_release cfg now pk w) as [q ->].
    destruct (remark_effect cfg now pk (mm_mark e) r
      (World (w_marks w) (alter (with_send_enabled now true None) pk (w_mailboxes w)) q))
      as (Hm & Hmb & _); [rungs; lia|].
    by apply (Opened _ _ _ now).
  - destruct (remark_effect cfg now pk (mm_mark e) r w) as (Hm & Hmb & _); [rungs; lia|].
    apply Lowered; [|done|done]. unfold held_mark. rewrite He. by apply Z.leb_gt.
Qed.

Lemma renew_effect cfg now pk e reason (w : world) :
  mark_entry pk w = Some e ->
  account_effect pk w (renew cfg now pk (mm_mark e) reason w).1 /\
  (renew cfg now pk (mm_mark e) reason w).2 = None.
Proof.
  intros He. unfold renew. simpl. split; [|done].
  set (m' := if String.eqb reason "" then _ else _).
  assert (m_rung m' = m_rung (mm_mark e) /\ m_at m' = m_at (mm_mark e)) as [Hrung Hat]
    by (unfold m'; by destruct (String.eqb reason "")).
  destruct (Z.lt_ge_cases (m_rung (mm_mark e)) RungHold) as [Hlt|Hge].
  - apply Lowered; [| |done]; unfold held_mark.
    + rewrite He. by apply Z.leb_gt.
    + unfold mark_entry. simpl. unfold mark_set. rewrite lookup_insert_eq. simpl. rewrite Hrung. by apply Z.leb_gt.
  - eapply Refreshed; [exact He|unfold mark_entry; simpl; apply lookup_insert_eq|..]; simpl; try done.
    by rewrite rung_ttl_hold.
Qed.

Lemma apply_effect cfg now pk r reason (w : world) :
  valid_rung r -> hold_marks_last pk w ->
  account_effect pk w (apply cfg now pk r reason w).1.
Proof.
  intros Hr Hl. apply (clamp_valid cfg) in Hr. unfold apply.
  change (get_mark now pk w) with (Ok (mark_get now pk (w_marks w))). cbv iota beta.
  destruct (mark_get now pk (w_marks w)) as [c|] eqn:Hg.
  - destruct (mark_get_entry _ _ _ _ Hg) as (e & He & <-).
    destruct (Z.ltb_spec (clamp cfg r) (m_rung (mm_mark e))); [by apply deescalate_effect|].
    destruct (Z.eqb_spec (clamp cfg r) RungNone); [by apply Kept|].
    destruct (Z.eqb_spec (clamp cfg r) (m_rung (mm_mark e))) as [Heq|Hne].
    + pose proof (renew_effect cfg now pk e reason w He) as [Hr' _].
      by destruct (renew cfg now pk (mm_mark e) reason w).
    + pose proof (escalate_effect cfg now pk (clamp cfg r) reason w Hr) as [Hr' _].
      * intros Hlt. unfold held_mark. rewrite He. apply Z.leb_gt. lia.
      * by destruct (escalate cfg now pk (clamp cfg r) reason w).
  - destruct (Z.eqb_spec (clamp cfg r) RungNone); [by apply Kept|].
    pose proof (escalate_effect cfg now pk (clamp cfg r) reason w Hr) as [Hr' _].
    + intros _. by apply (mark_get_none now).
    + by destruct (escalate cfg now pk (clamp cfg r) reason w).
Qed.

Lemma release_manual_effect cfg now pk (w : world) :
  account_effect pk w (release_manual cfg now pk w).1 /\ (release_manual cfg now pk w).2 = None.
Proof.
  unfold release_manual. destruct (world_release cfg now pk w) as [q ->]. simpl. split; [|done].
  apply (Opened _ _ _ now); [|done]. unfold held_mark, mark_entry. simpl. unfold mark_clear.
  by rewrite lookup_delete_eq.
Qed.

(** ** Frame: an operation on one account leaves the others alone *)

Definition same_elsewhere (pk : string) (w w' : world) : Prop :=
  forall pk', pk <> pk' ->
    w_marks w' !! pk' = w_marks w !! pk' /\ w_mailboxes w' !! pk' = w_mailboxes w !! pk'.

#[export] Instance same_elsewhere_refl pk : Reflexive (same_elsewhere pk).
Proof. by intros w. Qed.
#[export] Instance same_elsewhere_trans pk : Transitive (same_elsewhere pk).
Proof.
  intros a b c H1 H2 pk' Hn. destruct (H1 pk' Hn) as [? ?], (H2 pk' Hn) as [? ?].
  split; congruence.
Qed.

Lemma set_mark_frame now pk m ttl (w : world) : same_elsewhere pk w (set_mark now pk m ttl w).1.
Proof. intros pk' Hn. simpl. unfold mark_set. by rewrite lookup_insert_ne. Qed.
Lemma clear_mark_frame pk (w : world) : same_elsewhere pk w (clear_mark pk w).1.
Proof. intros pk' Hn. simpl. unfold mark_clear. by rewrite lookup_delete_ne. Qed.
Lemma gate_frame now pk b at_ q (w : world) :
  same_elsewhere pk w (World (w_marks w) (alter (with_send_enabled now b at_) pk (w_mailboxes w)) q).
Proof. intros pk' Hn. simpl. by rewrite lookup_alter_ne. Qed.

Lemma remark_frame cfg now pk c r (w : world) : same_elsewhere pk w (remark cfg now pk c r w).1.
Proof.
  unfold remark. destruct (r =? RungNone).
  - exact (clear_mark_frame pk w).
  - exact (set_mark_frame now pk (Mark r (m_reason c) now) (rung_ttl cfg r) w).
Qed.

Lemma deescalate_frame cfg now pk c r (w : world) : same_elsewhere pk w (deescalate cfg now pk c r w).1.
Proof.
  unfold deescalate. destruct (RungSuspend <=? m_rung c); [done|].
  destruct (RungHold <=? m_rung c); [|apply remark_frame].
  destruct (negb _); [done|]. destruct (_ <? _); [done|].
  destruct (world_release cfg now pk w) as [q ->].
  etransitivity; [apply (gate_frame now pk true None q)|apply remark_frame].
Qed.

Lemma escalate_frame cfg now pk r reason (w : world) :
  same_elsewhere pk w (escalate cfg now pk r reason w).1.
Proof.
  unfold escalate, enforce. destruct (_ || _).
  - simpl. destruct (has_queue cfg); intros pk' Hn; simpl; unfold mark_set;
      by rewrite lookup_insert_ne, lookup_alter_ne.
  - exact (set_mark_frame now pk _ _ w).
Qed.

Lemma apply_frame cfg now pk r reason (w : world) :
  same_elsewhere pk w (apply cfg now pk r reason w).1.
Proof.
  unfold apply. change (get_mark now pk w) with (Ok (mark_get now pk (w_marks w))). cbv iota beta.
  pose proof (escalate_frame cfg now pk (clamp cfg r) reason w) as He.
  destruct (mark_get now pk (w_marks w)) as [c|].
  - destruct (_ <? _); [apply deescalate_frame|]. destruct (_ =? RungNone); [done|].
    destruct (_ =? m_rung c); [exact (set_mark_frame now pk _ _ w)|].
    by destruct (escalate cfg now pk (clamp cfg r) reason w).
  - destruct (_ =? RungNone); [done|]. by destruct (escalate cfg now pk (clamp cfg r) reason w).
Qed.

Lemma release_manual_frame cfg now pk (w : world) :
  same_elsewhere pk w (release_manual cfg now pk w).1.
Proof.
  unfold release_manual. destruct (world_release cfg now pk w) as [q ->]. simpl.
  etransitivity; [apply (gate_frame now pk true None q)|]. apply (clear_mark_frame pk).
Qed.

Definition op_account (op : ladder_op) : string :=
  match op with LApply _ pk _ _ => pk | LRelease _ pk => pk end.

Lemma ladder_step_frame cfg op (w : world) : same_elsewhere (op_account op) w (ladder_step cfg w op).
Proof. destruct op; [apply apply_frame|apply release_manual_frame]. Qed.

Lemma live_mailbox_frame pk pk' w w' :
  same_elsewhere pk w w' -> pk <> pk' ->
  live_mailbox (w_mailboxes w') pk' = live_mailbox (w_mailboxes w) pk' /\
  mark_entry pk' w' = mark_entry pk' w.
Proof.
  intros Hs Hn. destruct (Hs pk' Hn) as [Hm Hb]. unfold live_mailbox, mark_entry. by rewrite Hm, Hb.
Qed.

(** ** Marks and gate agree *)

(** The account has a mailbox, its gate is shut exactly when its mark says hold
    or worse, and such a mark has no expiry. *)
Definition coherent (w : world) (pk : string) : Prop :=
  (exists m, live_mailbox (w_mailboxes w) pk = Some m /\ mb_send_enabled m = negb (held_mark pk w)) /\
  hold_marks_last pk w.

Lemma hold_marks_last_unheld pk w : held_mark pk w = false -> hold_marks_last pk w.
Proof.
  unfold held_mark, hold_marks_last. intros Hh e He Hle. rewrite He in Hh.
  apply Z.leb_gt in Hh. lia.
Qed.

Lemma effect_coherent pk w w' : coherent w pk -> account_effect pk w w' -> coherent w' pk.
Proof.
  intros [(m & Hm & Hb) Hl] Heff.
  destruct Heff as [Hk Hmb|now e He Hr Hx Hmb|H1 H2 Hmb|e e' He He' Hr Hr' Ha Hx Hmb|now Hn Hmb];
    unfold coherent; rewrite Hmb, ?live_set_enabled, ?decide_True, Hm by done; simpl.
  - unfold held_mark, hold_marks_last in *. rewrite Hk. eauto.
  - assert (held_mark pk w' = true) as -> by (unfold held_mark; rewrite He; by apply Z.leb_le).
    split; [by eexists|]. intros e0 He0. by simplify_eq.
  - rewrite H2, <- H1. split; [eauto|by apply hold_marks_last_unheld].
  - assert (held_mark pk w' = held_mark pk w) as ->
      by (unfold held_mark; by rewrite He, He', Hr').
    split; [eauto|]. intros e0 He0. by simplify_eq.
  - rewrite Hn. split; [by eexists|by apply hold_marks_last_unheld].
Qed.

Lemma frame_coherent pk pk' w w' :
  same_elsewhere pk w w' -> pk <> pk' -> coherent w pk' -> coherent w' pk'.
Proof.
  intros Hs Hn [(m & Hm & Hb) Hl]. destruct (live_mailbox_frame pk pk' w w' Hs Hn) as [H1 H2].
  unfold coherent, held_mark, hold_marks_last in *. rewrite H1, H2. eauto.
Qed.

Lemma step_coherent cfg op w pk :
  op_valid op -> coherent w pk -> coherent (ladder_step cfg w op) pk.
Proof.
  intros Hv Hc. destruct (decide (op_account op = pk)) as [<-|Hn].
  - apply (effect_coherent _ w); [done|]. destruct op; simpl in *.
    + apply apply_effect; [done|apply Hc].
    + apply release_manual_effect.
  - eapply frame_coherent; [apply ladder_step_frame|done|done].
Qed.

Lemma coherent_gate w pk : coherent w pk -> gate_open pk w = negb (held_mark pk w).
Proof. intros [(m & Hm & Hb) _]. unfold gate_open, may_send. by rewrite Hm. Qed.

(** ** The queue under the ladder *)

Lemma park_other pk r : sent_by pk r = false -> parkable pk r = false /\ parked pk r = false.
Proof. unfold parkable, parked. by intros ->. Qed.

Lemma run_coherent cfg ops w pk :
  coherent w pk -> Forall op_valid ops -> coherent (ladder_run cfg w ops) pk.
Proof.
  intros Hc Hops. revert w Hc. induction Hops as [|op ops Hop _ IH]; intros w Hc; [done|].
  simpl. by apply IH, step_coherent.
Qed.

Lemma hold_lifted_iff cfg now pk r reason w e :
  coherent w pk -> valid_rung r -> mark_entry pk w = Some e -> RungHold <= m_rung (mm_mark e) ->
  (gate_open pk (apply cfg now pk r reason w).1 = true <->
     m_rung (mm_mark e) = RungHold /\ auto_release_hold cfg = true /\
     min_hold_duration cfg <= time_sub now (m_at (mm_mark e)) /\ clamp cfg r < RungHold).
Proof.
  intros Hc Hr He Hh. pose proof (step_coherent cfg (LApply now pk r reason) w pk Hr Hc) as Hc'.
  simpl in Hc'. rewrite (coherent_gate _ pk Hc'), negb_true_iff. clear Hc'.
  pose proof (clamp_valid cfg r Hr) as Hcl. unfold apply.
  change (get_mark now pk w) with (Ok (mark_get now pk (w_marks w))). cbv iota beta.
  assert (mark_get now pk (w_marks w) = Some (mm_mark e)) as ->.
  { by apply held_mark_get; [apply Hc|..]. }
  assert (held_mark pk w = true) as Hheld by (unfold held_mark; rewrite He; by apply Z.leb_le).
  destruct (Z.ltb_spec (clamp cfg r) (m_rung (mm_mark e))).
  - unfold deescalate. destruct (Z.leb_spec RungSuspend (m_rung (mm_mark e))).
    { simpl. rewrite Hheld. split; [done|]. rungs; lia. }
    destruct (Z.leb_spec RungHold (m_rung (mm_mark e))); [|lia].
    destruct (auto_release_hold cfg); simpl; [|rewrite Hheld; split; [done|by intros (_ & ? & _)]].
    destruct (Z.ltb_spec (time_sub now (m_at (mm_mark e))) (min_hold_duration cfg)); simpl.
    { rewrite Hheld. split; [done|]. lia. }
    destruct (world_release cfg now pk w) as [q ->].
    destruct (remark_effect cfg now pk (mm_mark e) (clamp cfg r)
      (World (w_marks w) (alter (with_send_enabled now true None) pk (w_mailboxes w)) q))
      as (Hm & _); [rungs; lia|].
    rewrite Hm. split; [|done]. intros _. rungs; lia.
  - destruct (Z.eqb_spec (clamp cfg r) RungNone); [rungs; lia|].
    assert (~ (clamp cfg r < RungHold)) as Hno by lia.
    destruct (Z.eqb_spec (clamp cfg r) (m_rung (mm_mark e))) as [Heq|Hne].
    + destruct (renew_effect cfg now pk e reason w He) as [Heff _].
      destruct (renew cfg now pk (mm_mark e) reason w) as [w' x] eqn:Hw. simpl in *.
      assert (held_mark pk w' = true) as ->; [|split; [done|tauto]].
      unfold renew in Hw. simpl in Hw. simplify_eq. unfold held_mark, mark_entry, mark_set. simpl.
      rewrite lookup_insert_eq. simpl. apply Z.leb_le. by destruct (String.eqb reason "").
    + unfold escalate. destruct (world_enforce_hold cfg now pk (clamp cfg r) w) as [q ->]; [rungs; lia|].
      simpl. unfold held_mark, mark_entry, mark_set. simpl. rewrite lookup_insert_eq. simpl.
      assert ((RungHold <=? clamp cfg r) = true) as -> by (apply Z.leb_le; lia). split; [done|tauto].
Qed.

(** ** Runs in which calls fail *)

(** What every store call on behalf of an account keeps, an operation of the
    ladder on that account keeps, whatever the calls answer. *)
Section kept.
Context {W : Type} `{LadderStores W} (pk : string) (R : relation W) `{!PreOrder R}.
Hypothesis set_mark_kept : forall now m ttl w, R w (set_mark now pk m ttl w).1.
Hypothesis clear_mark_kept : forall w, R w (clear_mark pk w).1.
Hypothesis set_send_enabled_kept : forall now b at_ w, R w (set_send_enabled now pk b at_ w).1.
Hypothesis park_queue_kept : forall w, R w (park_queue pk w).1.
Hypothesis unpark_queue_kept : forall now w, R w (unpark_queue now pk w).1.

Lemma release_kept cfg now w : R w (release cfg now pk w).1.
Proof.
  unfold release. pose proof (set_send_enabled_kept now true None w) as Hg.
  destruct (set_send_enabled now pk true None w) as [w1 [u|e]]; [|done].
  destruct (has_queue cfg); [|done]. simpl in *. by etransitivity.
Qed.

Lemma enforce_kept cfg now r w : R w (enforce cfg now pk r w).1.
Proof.
  unfold enforce. destruct (_ || _); [|done].
  pose proof (set_send_enabled_kept now false (Some now) w) as Hg.
  destruct (set_send_enabled now pk false (Some now) w) as [w1 [u|e]]; [|done].
  destruct (has_queue cfg); [|done]. simpl in *. by etransitivity.
Qed.

Lemma escalate_kept cfg now r reason w : R w (escalate cfg now pk r reason w).1.
Proof.
  unfold escalate. pose proof (enforce_kept cfg now r w) as He.
  destruct (enforce cfg now pk r w) as [w1 [e|]]; [done|].
  pose proof (set_mark_kept now (Mark r reason now) (rung_ttl cfg r) w1) as Hm.
  destruct (set_mark now pk (Mark r reason now) (rung_ttl cfg r) w1) as [w2 [u|e]]; simpl in *; by etransitivity.
Qed.

Lemma remark_kept cfg now c r w : R w (remark cfg now pk c r w).1.
Proof.
  unfold remark. destruct (_ =? RungNone).
  - pose proof (clear_mark_kept w) as Hm. by destruct (clear_mark pk w) as [w1 [u|e]].
  - pose proof (set_mark_kept now (Mark r (m_reason c) now) (rung_ttl cfg r) w) as Hm.
    by destruct (set_mark now pk (Mark r (m_reason c) now) (rung_ttl cfg r) w) as [w1 [u|e]].
Qed.

Lemma renew_kept cfg now c reason w : R w (renew cfg now pk c reason w).1.
Proof.
  unfold renew. set (m := if String.eqb reason "" then c else _).
  pose proof (set_mark_kept now m (rung_ttl cfg (m_rung c)) w) as Hm.
  by destruct (set_mark now pk m (rung_ttl cfg (m_rung c)) w) as [w1 [u|e]].
Qed.

Lemma deescalate_kept cfg now c r w : R w (deescalate cfg now pk c r w).1.
Proof.
  unfold deescalate. destruct (_ <=? _); [done|]. destruct (_ <=? _); [|apply remark_kept].
  destruct (negb _); [done|]. destruct (_ <? _); [done|].
  pose proof (release_kept cfg now w) as Hr. destruct (release cfg now pk w) as [w1 [e|]]; [done|].
  etransitivity; [exact Hr|apply remark_kept].
Qed.

Lemma apply_kept cfg now r reason w : R w (apply cfg now pk r reason w).1.
Proof.
  unfold apply. destruct (match get_mark now pk w with Ok m => m | Err _ => None end) as [c|].
  - destruct (_ <? _); [apply deescalate_kept|]. destruct (_ =? RungNone); [done|]. destruct (_ =? m_rung c).
    + pose proof (renew_kept cfg now c reason w) as Hr. by destruct (renew cfg now pk c reason w).
    + pose proof (escalate_kept cfg now (clamp cfg r) reason w) as Hr.
      by destruct (escalate cfg now pk (clamp cfg r) reason w).
  - destruct (_ =? RungNone); [done|].
    pose proof (escalate_kept cfg now (clamp cfg r) reason w) as Hr.
    by destruct (escalate cfg now pk (clamp cfg r) reason w).
Qed.

Lemma release_manual_kept cfg now w : R w (release_manual cfg now pk w).1.
Proof.
  unfold release_manual. pose proof (release_kept cfg now w) as Hr.
  destruct (release cfg now pk w) as [w1 [e|]]; [done|].
  pose proof (clear_mark_kept w1) as Hm. destruct (clear_mark pk w1) as [w2 [u|e]]; simpl in *; by etransitivity.
Qed.
End kept.

(** Other accounts' marks, mailboxes and queued mail. *)
Definition others_kept (pk : string) (w w' : world) : Prop :=
  same_elsewhere pk w w' /\ forall r, r ∈ w_queue w -> sent_by pk r = false -> r ∈ w_queue w'.

#[export] Instance others_kept_preorder pk : PreOrder (fun w w' : flaky world => others_kept pk (f_inner w) (f_inner w')).
Proof.
  split; [by intros w; split|]. intros a b c [H1 H1'] [H2 H2']. split; [by etransitivity|auto].
Qed.

Lemma flaky_call_kept {A} c (call : world -> world * res A) pk (w : flaky world) :
  (forall i, others_kept pk i (call i).1) ->
  others_kept pk (f_inner w) (f_inner (flaky_call c call w).1).
Proof.
  intros Hop. unfold flaky_call. destruct (f_fails w c); [by split|]. specialize (Hop (f_inner w)).
  by destruct (call (f_inner w)).
Qed.

Lemma faulty_step_others cfg (op : faulty_op) w : others_kept (op_account op.1) w (faulty_step cfg w op).
Proof.
  destruct op as [op fl]. unfold faulty_step. simpl.
  assert (forall now pk m ttl w, others_kept pk w (set_mark now pk m ttl w).1) as Hset
    by (intros; split; [apply set_mark_frame|done]).
  assert (forall pk w, others_kept pk w (clear_mark pk w).1) as Hclear
    by (intros; split; [apply clear_mark_frame|done]).
  assert (forall now pk b at_ w, others_kept pk w (set_send_enabled now pk b at_ w).1) as Hgate
    by (intros ? ? ? ? [ms mb q]; split; [apply (gate_frame _ _ _ _ q)|done]).
  assert (forall pk w, others_kept pk w (park_queue pk w).1) as Hpark.
  { intros pk' w'. split; [by intros ??|]. intros r Hr Hs. apply update_where_untouched; [done|].
    by apply park_other. }
  assert (forall now pk w, others_kept pk w (unpark_queue now pk w).1) as Hunpark.
  { intros now pk' w'. split; [by intros ??|]. intros r Hr Hs. apply update_where_untouched; [done|].
    by apply park_other. }
  destruct op as [now pk r reason|now pk]; simpl.
  - refine (apply_kept pk (fun w w' : flaky world => others_kept pk (f_inner w) (f_inner w'))
      _ _ _ _ _ cfg now r reason (Flaky w fl)); intros; by apply flaky_call_kept.
  - refine (release_manual_kept pk (fun w w' : flaky world => others_kept pk (f_inner w) (f_inner w'))
      _ _ _ cfg now (Flaky w fl)); intros; by apply flaky_call_kept.
Qed.

(** The account is suspended, for good, and shut. *)
Definition suspended (pk : string) (at_ : Z) (w : world) : Prop :=
  gate_open pk w = false /\
  exists e, mark_entry pk w = Some e /\ m_rung (mm_mark e) = RungSuspend /\ m_at (mm_mark e) = at_ /\
    hold_marks_last pk w.

Lemma faulty_apply_at_suspend cfg now pk r reason fl (w : world) at_ :
  suspended pk at_ w -> valid_rung r -> fl CGet = false ->
  let w' := f_inner (apply cfg now pk r reason (Flaky w fl)).1 in
  suspended pk at_ w' /\ w_queue w' = w_queue w.
Proof.
  intros Hsus Hr Hget. assert (Hsus' := Hsus). destruct Hsus' as [Hg (e & He & Hs & Ha & Hl)].
  apply (clamp_valid cfg) in Hr. unfold apply. simpl get_mark. rewrite Hget. cbv iota beta.
  rewrite (held_mark_get now pk w e) by (done || by rewrite Hs).
  rewrite Hs. destruct (Z.ltb_spec (clamp cfg r) RungSuspend).
  - unfold deescalate. by rewrite Hs.
  - assert (clamp cfg r = RungSuspend) as -> by (rungs; lia). simpl.
    unfold renew, set_mark. simpl. unfold flaky_call. simpl. destruct (fl CSet); simpl; [done|].
    split; [|done]. split; [done|]. set (m := if String.eqb reason "" then _ else _).
    assert (m_rung m = RungSuspend /\ m_at m = at_) as [Hm1 Hm2] by (unfold m; by destruct (String.eqb reason "")).
    eexists. split; [apply lookup_insert_eq|]. simpl. split; [done|]. split; [done|].
    intros e0 He0 _. unfold mark_entry in He0. simpl in He0. unfold mark_set in He0.
    rewrite lookup_insert_eq in He0. simplify_eq. simpl. by rewrite Hs.
Qed.

Lemma faulty_step_suspended cfg (op : faulty_op) w pk at_ :
  suspended pk at_ w -> op_valid op.1 -> (forall now, op.1 <> LRelease now pk) ->
  (op_account op.1 = pk -> op.2 CGet = false) ->
  suspended pk at_ (faulty_step cfg w op) /\
  (forall r, r ∈ w_queue w -> metadata r !! metadata_sender_pubkey = Some pk -> r ∈ w_queue (faulty_step cfg w op)).
Proof.
  intros Hsus Hv Hrel Hget. destruct (decide (op_account op.1 = pk)) as [Heq|Hn].
  - destruct op as [[now pk' r reason|now pk'] fl]; simpl in *; subst pk'; [|by destruct (Hrel now)].
    unfold faulty_step. simpl. specialize (Hget eq_refl).
    destruct (faulty_apply_at_suspend cfg now pk r reason fl w at_) as [? ->]; done.
  - destruct (faulty_step_others cfg op w) as [Hsame Hq]. split.
    + destruct (live_mailbox_frame _ pk _ _ Hsame Hn) as [Hbox Hmark].
      destruct Hsus as [Hg (e & He & Hs & Ha & Hl)]. unfold suspended, hold_marks_last in *.
      rewrite Hmark. split; [|by exists e]. unfold gate_open, may_send in *. by rewrite Hbox.
    + intros r Hr Hpk. apply Hq; [done|]. unfold sent_by. apply bool_decide_eq_false. congruence.
Qed.

Lemma faultless_apply cfg now pk r reason (w : world) :
  f_inner (apply cfg now pk r reason (Flaky w no_fault)).1 = (apply cfg now pk r reason w).1.
Proof.
  unfold apply. simpl get_mark. cbv iota beta.
  unfold deescalate, remark, release, renew, escalate, enforce. simpl. unfold flaky_call. simpl.
  repeat (case_match; simplify_eq/=; try done).
Qed.

(** ** Holds that are renewed *)

Definition renews (cfg : ladder_config) (pk : string) (op : ladder_op) : Prop :=
  match op with
  | LApply _ pk' r _ => pk' = pk -> clamp cfg r = RungHold
  | LRelease _ pk' => pk' <> pk
  end.

Lemma renewing_step cfg op w pk e :
  hold_marks_last pk w -> renews cfg pk op -> mark_entry pk w = Some e ->
  m_rung (mm_mark e) = RungHold ->
  exists e', mark_entry pk (ladder_step cfg w op) = Some e' /\
    m_rung (mm_mark e') = RungHold /\ m_at (mm_mark e') = m_at (mm_mark e).
Proof.
  intros Hl Hren He Hs. destruct (decide (op_account op = pk)) as [Heq|Hn].
  - destruct op as [now pk' r reason|now pk']; simpl in *; [|done]. subst pk'.
    specialize (Hren eq_refl). unfold apply.
    change (get_mark now pk w) with (Ok (mark_get now pk (w_marks w))). cbv iota beta.
    assert (mark_get now pk (w_marks w) = Some (mm_mark e)) as ->.
    { apply held_mark_get; [done|done|]. by rewrite Hs. }
    rewrite Hs, Hren. simpl. eexists. split; [apply lookup_insert_eq|]. simpl.
    by destruct (String.eqb reason "").
  - destruct (live_mailbox_frame _ pk _ _ (ladder_step_frame cfg op w) Hn) as [_ ->]. by exists e.
Qed.

(** * Properties *)

(** [Evaluate] lands an account on the highest rung any of its rates
    warrants, unless the velocity tripwire fires, which always means hold; an
    account with a reason is never left at none, and only a bounce rate over
    the volume floor can warrant a suspend. *)
Theorem evaluate_highest_signal t s :
  let '(rung, reason) := evaluate t s in
  rung = (if velocity_tripped t s then RungHold
          else Z.max (evaluate_bounce_rate t s).1 (evaluate_complaint_rate t s).1) /\
  valid_rung rung /\ (rung = RungNone <-> reason = "") /\
  (rung = RungSuspend -> min_messages t <= messages_sent s /\
     reaches (hard_bounce_rate s) (suspend_hard_bounce_rate t) = true).
Proof.
  pose proof (evaluate_valid t s) as Hv. unfold evaluate in *.
  pose proof (bounce_rung_valid t s) as Hb. pose proof (complaint_rung_le_hold t s) as Hc.
  pose proof (bounce_rung_none t s) as Hbn. pose proof (complaint_rung_none t s) as Hcn.
  pose proof (bounce_suspend t s) as Hsus.
  destruct (velocity_tripped t s); [done|]. cbv zeta in *.
  destruct (evaluate_bounce_rate t s) as [b rb], (evaluate_complaint_rate t s) as [c rc].
  simpl in *. destruct (Z.ltb_spec b c); (split; [rungs; lia|]); (split; [done|]); (split; [done|]).
  - rungs; lia.
  - done.
Qed.

(** C2. As long as every store call succeeds, an account with a live mailbox row
    (and mark and gate in agreement at the start) has its send gate shut exactly
    while its mark says hold or suspend, whatever sequence of scans and manual
    releases runs and however marks expire.  Without a mailbox row the gate is
    open whatever the mark ([hold_without_mailbox_is_inert]), and a failing call
    can part them ([failed_mark_write_reopens_gate]). *)
Theorem marks_and_gate_agree cfg ops w pk :
  coherent w pk -> Forall op_valid ops ->
  coherent (ladder_run cfg w ops) pk /\
  gate_open pk (ladder_run cfg w ops) = negb (held_mark pk (ladder_run cfg w ops)).
Proof.
  intros Hc Hops. pose proof (run_coherent cfg ops w pk Hc Hops) as H.
  split; [done|by apply coherent_gate].
Qed.

(** C9. No scan that can read the account's mark lifts a suspend: over any
    sequence of scans and of releases of other accounts, in which any call to
    the stores may fail except the read of this account's mark, the mark stays
    at suspend since the same time, the gate stays shut and the mail parked for
    the account stays parked, until an operator releases it.  (What a failed
    read does is [failed_read_lifts_suspend].) *)
Theorem suspend_lifted_only_by_operator cfg ops w pk e :
  coherent w pk -> Forall (fun op => op_valid op.1) ops ->
  Forall (fun op => forall now, op.1 <> LRelease now pk) ops ->
  Forall (fun op => op_account op.1 = pk -> op.2 CGet = false) ops ->
  mark_entry pk w = Some e -> m_rung (mm_mark e) = RungSuspend ->
  gate_open pk (faulty_run cfg w ops) = false /\
  (exists e', mark_entry pk (faulty_run cfg w ops) = Some e' /\
     m_rung (mm_mark e') = RungSuspend /\ m_at (mm_mark e') = m_at (mm_mark e)) /\
  (forall r, r ∈ w_queue w -> metadata r !! metadata_sender_pubkey = Some pk ->
     r ∈ w_queue (faulty_run cfg w ops)).
Proof.
  intros Hc Hv Hrel Hget He Hs.
  assert (suspended pk (m_at (mm_mark e)) w) as Hsus.
  { pose proof (proj2 Hc). split; [|by exists e].
    rewrite (coherent_gate w pk Hc). unfold held_mark. by rewrite He, Hs. }
  clear Hc He Hs. revert w Hsus. generalize (m_at (mm_mark e)). intros at_.
  induction ops as [|op ops IH]; intros w Hsus; simpl.
  - destruct Hsus as [Hg (e' & He' & Hs' & Ha' & _)]. split; [done|]. split; [by exists e'|done].
  - apply Forall_cons in Hv as [Hv1 Hv], Hrel as [Hr1 Hrel], Hget as [Hg1 Hget].
    destruct (faulty_step_suspended cfg op w pk at_ Hsus Hv1 Hr1 Hg1) as [Hsus' Hq].
    destruct (IH Hv Hrel Hget _ Hsus') as (? & ? & Hq'). split; [done|]. split; [done|].
    intros r Hr Hpk. apply Hq'; [by apply Hq|done].
Qed.

(** A suspend can end without an operator: a scan that cannot read the mark
    takes the account for unmarked and, when the signals still warrant a hold,
    records a hold over the suspend, which a calm scan after the minimum time
    then lifts. *)
Theorem failed_read_lifts_suspend cfg now1 now2 pk r1 r2 reason1 reason2 (w : world) e :
  coherent w pk -> mark_entry pk w = Some e -> m_rung (mm_mark e) = RungSuspend ->
  clamp cfg r1 = RungHold -> valid_rung r2 -> clamp cfg r2 < RungHold ->
  auto_release_hold cfg = true -> min_hold_duration cfg <= time_sub now2 now1 ->
  gate_open pk w = false /\
  gate_open pk (faulty_run cfg w
    [(LApply now1 pk r1 reason1, fun c => bool_decide (c = CGet)); (LApply now2 pk r2 reason2, no_fault)]) = true.
Proof.
  intros Hc He Hs Hr1 Hr2 Hcl Hauto Hmin. split.
  { rewrite (coherent_gate w pk Hc). unfold held_mark. by rewrite He, Hs. }
  unfold faulty_run. simpl fold_left. unfold faulty_step at 2. simpl fst. simpl snd.
  assert (exists q, f_inner (apply cfg now1 pk r1 reason1 (Flaky w (fun c => bool_decide (c = CGet)))).1 =
    World (mark_set now1 pk (Mark RungHold reason1 now1) 0 (w_marks w))
      (alter (with_send_enabled now1 false (Some now1)) pk (w_mailboxes w)) q) as [q ->].
  { unfold apply. simpl. rewrite Hr1. simpl. unfold escalate, enforce. simpl.
    destruct (has_queue cfg); simpl; eauto. }
  set (w1 := World _ _ _).
  assert (coherent w1 pk) as Hc1.
  { apply (effect_coherent pk w); [done|]. eapply (Closed _ _ _ now1); [apply lookup_insert_eq|..]; done. }
  unfold faulty_step. simpl. rewrite faultless_apply.
  apply (hold_lifted_iff cfg now2 pk r2 reason2 w1 (MemoryMark (Mark RungHold reason1 now1) None));
    [done|done|apply lookup_insert_eq|done|done].
Qed.

(** C21. A scan re-opens the gate of a held account exactly when the account is
    held and not suspended, automatic release is on, the hold has lasted the
    minimum time and the signals warrant less than a hold. *)
Theorem hold_lifted_exactly_when_ripe cfg now pk r reason w e :
  coherent w pk -> valid_rung r -> mark_entry pk w = Some e -> RungHold <= m_rung (mm_mark e) ->
  (gate_open pk (apply cfg now pk r reason w).1 = true <->
     m_rung (mm_mark e) = RungHold /\ auto_release_hold cfg = true /\
     min_hold_duration cfg <= time_sub now (m_at (mm_mark e)) /\ clamp cfg r < RungHold).
Proof. apply hold_lifted_iff. Qed.

(** Renewing a hold never postpones its release: after any number of scans
    that still warrant the hold, the first scan that no longer does, once the
    minimum time since the hold began is over, re-opens the gate. *)
Theorem renewals_do_not_extend_hold cfg ops w pk e now r reason :
  coherent w pk -> Forall op_valid ops -> Forall (renews cfg pk) ops ->
  mark_entry pk w = Some e -> m_rung (mm_mark e) = RungHold ->
  valid_rung r -> clamp cfg r < RungHold -> auto_release_hold cfg = true ->
  min_hold_duration cfg <= time_sub now (m_at (mm_mark e)) ->
  gate_open pk (ladder_run cfg w ops) = false /\
  gate_open pk (apply cfg now pk r reason (ladder_run cfg w ops)).1 = true.
Proof.
  intros Hc Hops Hren He Hs Hr Hcl Hauto Hmin.
  assert (exists e', mark_entry pk (ladder_run cfg w ops) = Some e' /\
     m_rung (mm_mark e') = RungHold /\ m_at (mm_mark e') = m_at (mm_mark e)) as (e' & He' & Hs' & Ha').
  { revert w e Hc He Hs Hmin. induction Hops as [|op ops Hop _ IH]; intros w e Hc He Hs Hmin.
    { by exists e. }
    apply Forall_cons in Hren as [Hr1 Hren].
    destruct (renewing_step cfg op w pk e (proj2 Hc) Hr1 He Hs) as (e1 & He1 & Hs1 & Ha1).
    destruct (IH Hren (ladder_step cfg w op) e1) as (e2 & ? & ? & ?); rewrite ?Ha1;
      auto using step_coherent. exists e2. split; [done|]. split; congruence. }
  pose proof (run_coherent cfg ops w pk Hc Hops) as Hc'.
  split.
  - rewrite (coherent_gate _ pk Hc'). unfold held_mark. by rewrite He', Hs'.
  - apply (hold_lifted_iff cfg now pk r reason _ e'); rewrite ?Hs', ?Ha'; done.
Qed.

(** ** Scans *)

Definition rung_total (m : gmap Z Z) : Z := map_fold (fun _ n acc => n + acc) 0 m.

Lemma rung_total_insert r n m :
  m !! r = None -> rung_total (<[r := n]> m) = n + rung_total m.
Proof.
  intros Hn. unfold rung_total. rewrite map_fold_insert_L; [done| |done]. intros; lia.
Qed.

Lemma rung_total_count r m : rung_total (count_rung r m) = rung_total m + 1.
Proof.
  unfold count_rung. destruct (m !! r) as [n|] eqn:Hm; simpl.
  - rewrite <- (insert_delete_id m r n Hm) at 2. rewrite <- (insert_delete_eq m).
    rewrite !rung_total_insert by apply lookup_delete_eq. lia.
  - rewrite rung_total_insert by done. lia.
Qed.

Definition named (s : signals) : bool := negb (String.eqb (s_pubkey s) "").

Lemma scan_account_counts {W} `{LadderStores W} cfg now s (acc : W * scan_result) :
  let r := (scan_account cfg now s acc).2 in
  evaluated r = evaluated acc.2 + (if named s then 1 else 0) /\
  rung_total (by_rung r) - rung_total (by_rung acc.2) = actioned r - actioned acc.2 /\
  0 <= actioned r - actioned acc.2 <= (if named s then 1 else 0).
Proof.
  unfold scan_account, named. destruct (String.eqb (s_pubkey s) ""); simpl; [lia|].
  destruct acc as [w r]. destruct (evaluate _ s) as [rung reason].
  destruct (apply cfg now (s_pubkey s) rung reason w) as [w' [applied [e|]]]; simpl; [lia|].
  destruct (RungNone <? applied); simpl; [|lia]. rewrite rung_total_count. lia.
Qed.

(** The marks a scan writes when suspends are not automatic. *)
Definition no_suspend (w : world) : Prop :=
  forall pk e, mark_entry pk w = Some e -> m_rung (mm_mark e) <= RungHold.

(** A mark an operation leaves is the old one, or has its rung, or the rung [r]. *)
Definition mark_origin (pk : string) (r : Z) (w w' : world) : Prop :=
  forall e, mark_entry pk w' = Some e ->
    m_rung (mm_mark e) = r \/
    exists e0, mark_entry pk w = Some e0 /\ m_rung (mm_mark e) = m_rung (mm_mark e0).

Lemma mark_origin_refl pk r w : mark_origin pk r w w.
Proof. intros e He. right. by exists e. Qed.

Lemma mark_origin_same pk r w w1 w' :
  w_marks w1 = w_marks w -> mark_origin pk r w1 w' -> mark_origin pk r w w'.
Proof. unfold mark_origin, mark_entry. by intros ->. Qed.

Lemma set_mark_origin now pk m ttl (w : world) :
  mark_origin pk (m_rung m) w (set_mark now pk m ttl w).1.
Proof.
  intros e He. left. unfold mark_entry in He. simpl in He. unfold mark_set in He.
  rewrite lookup_insert_eq in He. by simplify_eq.
Qed.

Lemma remark_origin cfg now pk c r (w : world) : mark_origin pk r w (remark cfg now pk c r w).1.
Proof.
  unfold remark. destruct (_ =? RungNone).
  - intros e He. unfold mark_entry in He. simpl in He. unfold mark_clear in He.
    by rewrite lookup_delete_eq in He.
  - exact (set_mark_origin now pk (Mark r (m_reason c) now) (rung_ttl cfg r) w).
Qed.

Lemma escalate_origin cfg now pk r reason (w : world) :
  mark_origin pk r w (escalate cfg now pk r reason w).1.
Proof.
  unfold escalate.
  assert (exists w1, enforce cfg now pk r w = (w1, None) /\ w_marks w1 = w_marks w) as (w1 & -> & Hw1).
  { unfold enforce. destruct (_ || _); [|by eexists].
    simpl. destruct (has_queue cfg); by eexists. }
  apply (mark_origin_same pk r w w1 _ Hw1).
  exact (set_mark_origin now pk (Mark r reason now) (rung_ttl cfg r) w1).
Qed.

Lemma deescalate_origin cfg now pk c r (w : world) :
  mark_origin pk r w (deescalate cfg now pk c r w).1.
Proof.
  unfold deescalate. destruct (_ <=? _); [apply mark_origin_refl|].
  destruct (_ <=? _); [|apply remark_origin]. destruct (negb _); [apply mark_origin_refl|].
  destruct (_ <? _); [apply mark_origin_refl|]. destruct (world_release cfg now pk w) as [q ->].
  eapply mark_origin_same; [|apply remark_origin]. done.
Qed.

Lemma apply_origin cfg now pk r reason (w : world) :
  mark_origin pk (clamp cfg r) w (apply cfg now pk r reason w).1.
Proof.
  unfold apply. change (get_mark now pk w) with (Ok (mark_get now pk (w_marks w))). cbv iota beta.
  pose proof (escalate_origin cfg now pk (clamp cfg r) reason w) as Hesc.
  destruct (mark_get now pk (w_marks w)) as [c|].
  - destruct (_ <? _); [apply deescalate_origin|]. destruct (_ =? RungNone); [apply mark_origin_refl|].
    destruct (Z.eqb_spec (clamp cfg r) (m_rung c)) as [->|_].
    + unfold renew. destruct (String.eqb reason "").
      * exact (set_mark_origin now pk c _ w).
      * exact (set_mark_origin now pk (Mark (m_rung c) reason (m_at c)) _ w).
    + by destruct (escalate cfg now pk (clamp cfg r) reason w).
  - destruct (_ =? RungNone); [apply mark_origin_refl|].
    by destruct (escalate cfg now pk (clamp cfg r) reason w).
Qed.

Lemma apply_no_suspend cfg now pk r reason (w : world) :
  valid_rung r -> allow_auto_suspend (lc_thresholds cfg) = false ->
  no_suspend w -> no_suspend (apply cfg now pk r reason w).1.
Proof.
  intros Hr Hoff Hn pk' e He. pose proof (clamp_no_suspend cfg r Hr Hoff) as Hcl.
  destruct (decide (pk = pk')) as [<-|Hne].
  - destruct (apply_origin cfg now pk r reason w e He) as [->|(e0 & He0 & ->)]; [done|].
    by apply (Hn pk).
  - destruct (live_mailbox_frame pk pk' _ _ (apply_frame cfg now pk r reason w) Hne) as [_ H].
    rewrite H in He. by apply (Hn pk').
Qed.

Lemma scan_account_no_suspend cfg now s (acc : world * scan_result) :
  allow_auto_suspend (lc_thresholds cfg) = false ->
  no_suspend acc.1 -> no_suspend (scan_account cfg now s acc).1.
Proof.
  intros Hoff Hn. unfold scan_account. destruct (String.eqb (s_pubkey s) ""); [done|].
  destruct acc as [w r]. pose proof (evaluate_valid (lc_thresholds cfg) s) as Hv.
  destruct (evaluate _ s) as [rung reason].
  pose proof (apply_no_suspend cfg now (s_pubkey s) rung reason w Hv Hoff Hn) as Hn'.
  destruct (apply cfg now (s_pubkey s) rung reason w) as [w' [applied [e|]]]; [done|].
  by destruct (_ <? _).
Qed.

(** With automatic suspension off, as it is by default, no scan ever leaves
    an account with a suspend mark it did not already have. *)
Theorem scans_never_suspend_by_default cfg now collected w :
  allow_auto_suspend (lc_thresholds cfg) = false ->
  no_suspend w -> no_suspend (scan cfg now collected w).1.
Proof.
  intros Hoff Hn. unfold scan. destruct collected as [ss|e]; [|done].
  assert (no_suspend (fold_left (fun acc s => scan_account cfg now s acc) ss (w, ScanResult 0 0 ∅)).1) as H.
  { generalize (ScanResult 0 0 ∅) as r. revert w Hn. induction ss as [|s ss IH]; intros w Hn r; [done|].
    simpl. pose proof (scan_account_no_suspend cfg now s (w, r) Hoff Hn) as Hs.
    destruct (scan_account cfg now s (w, r)) as [w' r']. by apply IH. }
  by destruct (fold_left _ ss _).
Qed.

(** A scan judges every account that has a name, whatever fails on the way,
    and its totals agree: the accounts it counts as actioned are those the
    per-rung counts add up to, never more than it judged. *)
Theorem scan_judges_every_account {W} `{LadderStores W} cfg now ss (w : W) :
  let r := (scan cfg now (Ok ss) w).2.1 in
  evaluated r = Z.of_nat (length (List.filter named ss)) /\
  actioned r = rung_total (by_rung r) /\ 0 <= actioned r <= evaluated r.
Proof.
  unfold scan.
  assert (forall acc, let r := (fold_left (fun acc s => scan_account cfg now s acc) ss acc).2 in
    evaluated r = evaluated acc.2 + Z.of_nat (length (List.filter named ss)) /\
    rung_total (by_rung r) - rung_total (by_rung acc.2) = actioned r - actioned acc.2 /\
    0 <= actioned r - actioned acc.2 <= Z.of_nat (length (List.filter named ss))) as Hfold.
  { induction ss as [|s ss IH]; intros acc; simpl; [lia|].
    pose proof (scan_account_counts cfg now s acc) as Hs. specialize (IH (scan_account cfg now s acc)).
    simpl in *. destruct (named s); simpl; lia. }
  specialize (Hfold (w, ScanResult 0 0 ∅)).
  destruct (fold_left _ ss _) as [w' r]. simpl in *.
  change (rung_total ∅) with 0 in Hfold. lia.
Qed.

(** ** Where mark and gate come apart *)

Definition fails_set (c : store_call) : bool := bool_decide (c = CSet).

Lemma flaky_release cfg now pk (w : world) :
  exists q, release cfg now pk (Flaky w fails_set) =
    (Flaky (World (w_marks w) (alter (with_send_enabled now true None) pk (w_mailboxes w)) q) fails_set,
     None).
Proof. unfold release. simpl. destruct (has_queue cfg); simpl; eauto. Qed.

(** When a hold is being lifted and the milder mark cannot be written, the
    gate is already open while the mark still says hold; every later scan that
    warrants a hold then only renews that mark, so the account keeps sending
    while the ladder reports it as held. *)
Theorem failed_mark_write_reopens_gate cfg now now2 pk r reason reason2 (w : world) e :
  coherent w pk -> mark_entry pk w = Some e -> m_rung (mm_mark e) = RungHold ->
  auto_release_hold cfg = true -> min_hold_duration cfg <= time_sub now (m_at (mm_mark e)) ->
  RungNone < clamp cfg r < RungHold ->
  let '(w1, a1) := apply cfg now pk r reason (Flaky w fails_set) in
  let '(w2, a2) := apply cfg now2 pk RungHold reason2 (f_inner w1) in
  a1 = (RungHold, Some (Wrapped "record abuse mark" down)) /\
  a2 = (RungHold, None) /\ gate_open pk w2 = true.
Proof.
  intros Hc He Hs Hauto Hmin Hr.
  pose proof (held_mark_get now pk w e (proj2 Hc) He ltac:(by rewrite Hs)) as Hg.
  destruct (flaky_release cfg now pk w) as [q Hrel].
  set (wo := World (w_marks w) (alter (with_send_enabled now true None) pk (w_mailboxes w)) q) in *.
  assert (apply cfg now pk r reason (Flaky w fails_set) =
    (Flaky wo fails_set, (RungHold, Some (Wrapped "record abuse mark" down)))) as ->.
  { unfold apply. change (get_mark now pk (Flaky w fails_set)) with (Ok (mark_get now pk (w_marks w))).
    cbv iota beta zeta. rewrite Hg, Hs. destruct (Z.ltb_spec (clamp cfg r) RungHold); [|lia].
    unfold deescalate. rewrite Hs, Hauto. cbn [negb].
    destruct (Z.ltb_spec (time_sub now (m_at (mm_mark e))) (min_hold_duration cfg)); [lia|].
    simpl. rewrite Hrel. unfold remark.
    destruct (Z.eqb_spec (clamp cfg r) RungNone); [rungs; lia|].
    simpl. by rewrite Hs. }
  assert (hold_marks_last pk wo /\ mark_entry pk wo = Some e) as [Hl Heo] by (split; [apply Hc|done]).
  destruct (renew_effect cfg now2 pk e reason2 wo Heo) as [_ Hren].
  assert (apply cfg now2 pk RungHold reason2 wo =
    ((renew cfg now2 pk (mm_mark e) reason2 wo).1, (RungHold, None))) as Hap.
  { unfold apply. change (get_mark now2 pk wo) with (Ok (mark_get now2 pk (w_marks wo))).
    cbv iota beta zeta. rewrite (held_mark_get now2 pk wo e Hl Heo) by (by rewrite Hs).
    rewrite Hs. simpl. by destruct (renew cfg now2 pk (mm_mark e) reason2 wo) as [w2 x]. }
  cbv beta iota. cbn [f_inner]. rewrite Hap. split; [done|]. split; [done|].
  unfold gate_open. simpl. destruct Hc as [(m & Hm & _) _]. by apply (may_send_set now pk true None _ m).
Qed.

(** A hold on an account that has no live mailbox row (none yet, or a
    deleted one) is recorded as a mark but shuts nothing: the send gate still
    answers that the account may send. *)
Theorem hold_without_mailbox_is_inert cfg now pk reason (w : world) :
  live_mailbox (w_mailboxes w) pk = None -> mark_entry pk w = None ->
  let w' := (apply cfg now pk RungHold reason w).1 in
  held_mark pk w' = true /\ gate_open pk w' = true.
Proof.
  intros Hmb Hm. unfold apply. change (get_mark now pk w) with (Ok (mark_get now pk (w_marks w))).
  unfold mark_entry in Hm. unfold mark_get. rewrite Hm. cbv iota beta zeta. simpl.
  unfold escalate. destruct (world_enforce_hold cfg now pk RungHold w) as [q Hen]; [by rungs|].
  change (clamp cfg RungHold) with RungHold. rewrite Hen. simpl. split.
  - unfold held_mark, mark_entry. simpl. unfold mark_set. by rewrite lookup_insert_eq.
  - unfold gate_open. simpl. by apply may_send_set_missing.
Qed.

(** * The theorems at a concrete account *)

Definition alice : string := "a11ce".
Definition sample_mark (r at_ : Z) : memory_mark := MemoryMark (Mark r "hard bounce rate" at_) None.
Definition sample_box (on : bool) : mailbox :=
  with_send_enabled 0 on (if on then None else Some 0) (fresh_mailbox 0).
Definition sample_world (r at_ : Z) : world :=
  World {[ alice := sample_mark r at_ ]} {[ alice := sample_box (r <? RungHold) ]}
        [with_status StatusHeld (sample_row "q1" StatusPending 0 0)].

Lemma sample_coherent r at_ : coherent (sample_world r at_) alice.
Proof.
  split.
  - exists (sample_box (r <? RungHold)). unfold live_mailbox, held_mark, mark_entry. simpl.
    rewrite !lookup_singleton_eq. simpl. split; [done|]. rewrite Z.leb_antisym. by rewrite negb_involutive.
  - intros e He _. unfold mark_entry in He. simpl in He. rewrite lookup_singleton_eq in He. by simplify_eq.
Qed.

Lemma sample_entry r at_ : mark_entry alice (sample_world r at_) = Some (sample_mark r at_).
Proof. unfold mark_entry. simpl. apply lookup_singleton_eq. Qed.

Definition noisy_day : list ladder_op :=
  [LApply hour alice RungHold "again"; LApply (2 * hour) "b0b" RungWarn "x"; LApply (3 * hour) alice RungSuspend ""].

Lemma noisy_day_valid : Forall op_valid noisy_day.
Proof. repeat constructor; simpl; rungs; lia. Qed.

Lemma marks_and_gate_agree_witness :
  gate_open alice (ladder_run default_ladder_config (sample_world RungWarn 0) noisy_day) = false /\
  gate_open alice (ladder_run default_ladder_config (sample_world RungWarn 0) noisy_day) =
    negb (held_mark alice (ladder_run default_ladder_config (sample_world RungWarn 0) noisy_day)).
Proof.
  split; [reflexivity|].
  exact (proj2 (marks_and_gate_agree default_ladder_config noisy_day (sample_world RungWarn 0) alice
    (sample_coherent RungWarn 0) noisy_day_valid)).
Defined.

Definition faulty_day : list faulty_op :=
  [(LApply hour alice RungHold "again", no_fault);
   (LApply (2 * hour) "b0b" RungWarn "x", fun _ => true);
   (LApply (3 * hour) alice RungNone "", fun c => bool_decide (c <> CGet))].

Lemma suspend_lifted_only_by_operator_witness :
  gate_open alice (faulty_run default_ladder_config (sample_world RungSuspend 0) faulty_day) = false.
Proof.
  apply (suspend_lifted_only_by_operator default_ladder_config faulty_day (sample_world RungSuspend 0) alice
    (sample_mark RungSuspend 0) (sample_coherent RungSuspend 0)).
  - repeat constructor; simpl; rungs; lia.
  - repeat constructor; done.
  - repeat constructor; done.
  - apply sample_entry.
  - reflexivity.
Defined.

Lemma failed_read_lifts_suspend_witness :
  gate_open alice (faulty_run default_ladder_config (sample_world RungSuspend 0)
    [(LApply hour alice RungHold "again", fun c => bool_decide (c = CGet));
     (LApply (3 * hour) alice RungNone "", no_fault)]) = true.
Proof.
  apply (failed_read_lifts_suspend default_ladder_config hour (3 * hour) alice RungHold RungNone "again" ""
    (sample_world RungSuspend 0) (sample_mark RungSuspend 0) (sample_coherent RungSuspend 0)).
  - apply sample_entry.
  - reflexivity.
  - reflexivity.
  - rungs; lia.
  - by vm_compute.
  - reflexivity.
  - by vm_compute.
Defined.

Lemma hold_lifted_exactly_when_ripe_witness :
  gate_open alice (apply default_ladder_config (2 * hour) alice RungNone "" (sample_world RungHold 0)).1 = true.
Proof.
  apply (hold_lifted_exactly_when_ripe default_ladder_config (2 * hour) alice RungNone "" (sample_world RungHold 0)
    (sample_mark RungHold 0) (sample_coherent RungHold 0)).
  - rungs; lia.
  - apply sample_entry.
  - reflexivity || done.
  - split; [reflexivity|]. split; [reflexivity|]. split; [by vm_compute|done].
Defined.

Lemma renewals_do_not_extend_hold_witness :
  gate_open alice (apply default_ladder_config (4 * hour) alice RungNone ""
    (ladder_run default_ladder_config (sample_world RungHold 0) noisy_day)).1 = true.
Proof.
  apply (renewals_do_not_extend_hold default_ladder_config noisy_day (sample_world RungHold 0) alice
    (sample_mark RungHold 0) (4 * hour) RungNone "" (sample_coherent RungHold 0) noisy_day_valid).
  - unfold noisy_day; repeat constructor; simpl; done.
  - apply sample_entry.
  - reflexivity.
  - rungs; lia.
  - reflexivity.
  - reflexivity.
  - by vm_compute.
Defined.

Definition spammer : signals := Signals alice 100 100 90 0 100 0.

Lemma scans_never_suspend_by_default_witness :
  evaluate default_thresholds spammer = (RungSuspend, "hard bounce rate 90.0% (90/100) exceeds 60.0%") /\
  no_suspend (scan default_ladder_config 7 (Ok [spammer]) (sample_world RungWarn 0)).1.
Proof.
  split; [vm_compute; reflexivity|].
  apply (scans_never_suspend_by_default default_ladder_config 7 (Ok [spammer]) (sample_world RungWarn 0)).
  - reflexivity.
  - intros pk e He. unfold mark_entry in He. simpl in He. apply lookup_singleton_Some in He as [_ <-]. by rungs.
Defined.

Lemma failed_mark_write_reopens_gate_witness :
  let '(w1, a1) := apply default_ladder_config (2 * hour) alice RungWarn "" (Flaky (sample_world RungHold 0) fails_set) in
  let '(w2, a2) := apply default_ladder_config (3 * hour) alice RungHold "worse" (f_inner w1) in
  a1 = (RungHold, Some (Wrapped "record abuse mark" down)) /\
  a2 = (RungHold, None) /\ gate_open alice w2 = true.
Proof.
  apply (failed_mark_write_reopens_gate default_ladder_config (2 * hour) (3 * hour) alice RungWarn "" "worse"
    (sample_world RungHold 0) (sample_mark RungHold 0) (sample_coherent RungHold 0)).
  - apply sample_entry.
  - reflexivity.
  - reflexivity.
  - by vm_compute.
  - by vm_compute.
Defined.

Lemma hold_without_mailbox_is_inert_witness :
  gate_open alice (apply default_ladder_config 0 alice RungHold "" (World ∅ ∅ [])).1 = true.
Proof.
  apply (hold_without_mailbox_is_inert default_ladder_config 0 alice "" (World ∅ ∅ [])); reflexivity.
Defined.
