(* ===== verification/Bounce.v ===== *)
(** * Bounces: internal/transport/bounce.go

    Classification of delivery failures and of inbound delivery-status reports,
    their attribution to the sending account, and the [email_bounces] table,
    the list of its rows.  [mail.ReadMessage] is a parameter of the inbound
    path; a message it returns is its header fields and its body. *)

From S2P Require Import Prelude GoStrings Queue.
#[local] Open Scope Z_scope.

Inductive bounce_type := BounceTypeHard | BounceTypeSoft | BounceTypeUnknown.
#[export] Instance bounce_type_eq_dec : EqDecision bounce_type.
Proof. solve_decision. Defined.

Record bounce_info := BounceInfo {
  b_type : bounce_type;
  original_recipient : string;
  original_message_id : string;
  b_reason : string;
  diagnostic_code : string;
  received_at : Z;
  sender_pubkey : string }.

(** A row; sender_pubkey is nullable. *)
Record bounce_row := BounceRow { br_info : bounce_info; br_sender : option string }.

Definition sender_attribution_window : Z := 7 * 24 * hour.

(** ** Outbound failures *)

Definition hard_indicators : list string :=
  ["user unknown"; "no such user"; "does not exist"; "mailbox not found"; "invalid recipient";
   "invalid address"; "550 5.1.1"; "550 5.1.2"; "551"; "553"; "554"; "address rejected";
   "recipient rejected"].
Definition soft_indicators : list string :=
  ["mailbox full"; "over quota"; "temporarily"; "try again"; "connection refused"; "timeout";
   "connection reset"; "no route to host"; "421"; "450"; "451"; "452"].

Definition classify_from_error (err : string) : bounce_type :=
  let lower := to_lower err in
  if contains_any lower hard_indicators then BounceTypeHard
  else if contains_any lower soft_indicators then BounceTypeSoft
  else BounceTypeUnknown.

(** The first three-digit code whose first digit is 4 or 5. *)
Fixpoint extract_smtp_code_from_error (s : string) : string :=
  match s with
  | String a ((String b (String c _)) as t) =>
      if between "4" "5" a && is_digit b && is_digit c
      then String a (String b (String c ""))
      else extract_smtp_code_from_error t
  | _ => ""
  end.

(** [storeBounce]: an empty sender is stored as NULL. *)
Definition store_bounce (info : bounce_info) (t : list bounce_row) : list bounce_row :=
  t ++ [BounceRow info (if String.eqb (sender_pubkey info) "" then None else Some (sender_pubkey info))].

(** The callback an outcome reaches: hard and soft bounces have one. *)
Definition notified (info : bounce_info) : bool :=
  match b_type info with BounceTypeUnknown => false | _ => true end.

(** [RecordOutboundFailure]: the rows added and the bounces notified. *)
Fixpoint record_outbound_failure (now : Z) (message_id sender : string) (recipients : list string)
    (err : string) (t : list bounce_row) : list bounce_row * list bounce_info :=
  match recipients with
  | [] => (t, [])
  | recipient :: rest =>
      let b := BounceInfo (classify_from_error err) recipient message_id err
                 (extract_smtp_code_from_error err) now sender in
      let '(t', ns) := record_outbound_failure now message_id sender rest err (store_bounce b t) in
      (t', if notified b then b :: ns else ns)
  end.

(** ** Attribution (QueueSenderResolver, attributeSender) *)

Definition queue_sender (r : queued_message) : option string :=
  metadata r !! metadata_sender_pubkey.

(** [ORDER BY created_at DESC LIMIT 1]. *)
Fixpoint latest (t : list queued_message) : option queued_message :=
  match t with
  | [] => None
  | r :: t =>
      match latest t with
      | None => Some r
      | Some r' => if created_at r <? created_at r' then Some r' else Some r
      end
  end.

Definition is_some {A} (o : option A) : bool := match o with Some _ => true | None => false end.

Definition by_message_id (message_id : string) (q : list queued_message) : option string :=
  r ← latest (List.filter (fun r => String.eqb (Queue.message_id r) message_id && is_some (queue_sender r)) q);
  queue_sender r.

Definition by_recipient (now : Z) (recipient : string) (q : list queued_message) : option string :=
  r ← latest (List.filter (fun r => bool_decide (recipient ∈ to r) && is_some (queue_sender r) &&
                                    (now - sender_attribution_window <? created_at r)) q);
  queue_sender r.

Definition queue_sender_resolver (now : Z) (message_id recipient : string)
    (q : list queued_message) : string :=
  let by_id :=
    if String.eqb message_id "" then None
    else match by_message_id message_id q with
         | Some pk => if String.eqb pk "" then None else Some pk
         | None => None
         end in
  match by_id with
  | Some pk => pk
  | None =>
      if String.eqb recipient "" then ""
      else default "" (by_recipient now recipient q)
  end.

Definition with_sender (pk : string) (b : bounce_info) : bounce_info :=
  BounceInfo (b_type b) (original_recipient b) (original_message_id b) (b_reason b)
    (diagnostic_code b) (received_at b) pk.

Definition attribute_sender (now : Z) (q : list queued_message) (b : bounce_info) : bounce_info :=
  if negb (String.eqb (sender_pubkey b) "") then b
  else with_sender (queue_sender_resolver now (original_message_id b) (original_recipient b) q) b.

(** ** Delivery-status reports *)

Record mail_message := MailMessage { header : list (string * string); body : string }.

(** [Header.Get]: the first value, field names compared without case. *)
Fixpoint header_get (h : list (string * string)) (name : string) : string :=
  match h with
  | [] => ""
  | (k, v) :: h => if equal_fold k name then v else header_get h name
  end.

(** [\s] of package regexp. *)
Definition re_space (c : ascii) : bool :=
  between "009" "010" c || between "012" "013" c || Ascii.eqb c " ".
Definition skip_space : string -> string := trim_left re_space.

Fixpoint strip_prefix_fold (p s : string) : option string :=
  match p, s with
  | "", _ => Some s
  | String a p, String b s =>
      if Ascii.eqb (lower_char a) (lower_char b) then strip_prefix_fold p s else None
  | _, "" => None
  end.

Definition line_of (s : string) : string :=
  match cut LF s with Some (l, _) => l | None => s end.

(** [^\s*Name\s*:\s*], matched at the start of a line. *)
Definition field_start (name s : string) : option string :=
  rest ← strip_prefix_fold name (skip_space s);
  match skip_space rest with
  | String ":" v => Some (skip_space v)
  | _ => None
  end.

(** Try [f] at the start of each line in turn. *)
Fixpoint scan_lines {A} (f : string -> option A) (at_start : bool) (s : string) : option A :=
  match (if at_start then f s else None) with
  | Some a => Some a
  | None =>
      match s with
      | "" => None
      | String c t => scan_lines f (Ascii.eqb c LF) t
      end
  end.

(** The submatch of [dsnFieldRe(name)], trimmed; "" also when it is missing. *)
Definition body_field (name body : string) : string :=
  default "" (scan_lines (fun s => v ← field_start name s;
                                   if String.eqb v "" then None else Some (trim_space (line_of v)))
                true body).

(** The submatch of [embeddedMessageIDRe]. *)
Definition embedded_message_id (body : string) : option string :=
  scan_lines (fun s => v ← field_start "Message-ID" s;
                       match v with
                       | String "<" rest =>
                           match cut ">" rest with
                           | Some (i, _) => if String.eqb i "" then None
                                            else Some ("<" +:+ i +:+ ">")
                           | None => None
                           end
                       | _ => None
                       end) true body.

Definition dsn_field (m : mail_message) (name : string) : string :=
  let v := trim_space (header_get (header m) name) in
  if negb (String.eqb v "") then v else body_field name (body m).

Definition strip_address_type (v : string) : string :=
  match cut ";" v with Some (_, rest) => trim_space rest | None => trim_space v end.

(** The first non-empty string of a list ("" when there is none): the chains of
    [if v != "" { return v }]. *)
Fixpoint first_nonempty (l : list string) : string :=
  match l with
  | [] => ""
  | s :: l => if String.eqb s "" then first_nonempty l else s
  end.

Definition extract_original_message_id (m : mail_message) : string :=
  first_nonempty
    [trim_space (header_get (header m) "X-Original-Message-ID");
     trim_space (header_get (header m) "In-Reply-To");
     match fields (header_get (header m) "References") with r :: _ => r | [] => "" end;
     default "" (embedded_message_id (body m))].

Definition extract_original_recipient (m : mail_message) : string :=
  let failed := header_get (header m) "X-Failed-Recipients" in
  if negb (String.eqb failed "") then trim_space failed
  else let orig := dsn_field m "Original-Recipient" in
  if negb (String.eqb orig "") then strip_address_type orig
  else let final := dsn_field m "Final-Recipient" in
  if negb (String.eqb final "") then strip_address_type final
  else "".

(** [diagnosticCodeParseRe]: a three-digit code, an optional d.d.d status, the
    reason. *)
Definition parse_enhanced (s : string) : string * string :=
  match s with
  | String a (String "." (String b (String "." (String c rest)))) =>
      if is_digit a && is_digit b && is_digit c
      then (String a (String "." (String b (String "." (String c "")))), rest)
      else ("", s)
  | _ => ("", s)
  end.

Definition parse_diagnostic (s : string) : option (string * string * string) :=
  match s with
  | String a (String b (String c ((String d _) as rest))) =>
      if is_digit a && is_digit b && is_digit c && re_space d
      then
        let '(enh, rest) := parse_enhanced (skip_space rest) in
        let reason := skip_space rest in
        if has_char LF reason then None
        else Some (String a (String b (String c "")), enh, reason)
      else None
  | _ => None
  end.

Definition diagnostic_of (diag : string) : string * string :=
  match cut ";" diag with
  | None => ("", "")
  | Some (_, v) =>
      let code := trim_space v in
      match parse_diagnostic code with
      | Some (c, enh, reason) => (if String.eqb enh "" then c else c +:+ " " +:+ enh, reason)
      | None => (code, "")
      end
  end.

Definition reason_from_subject (subject : string) : string :=
  let lower := to_lower subject in
  if contains lower "user unknown" || contains lower "does not exist" then "user unknown"
  else if contains lower "mailbox full" then "mailbox full"
  else if contains lower "spam" || contains lower "rejected" then "message rejected"
  else "".

Definition extract_diagnostic_info (m : mail_message) : string * string :=
  let diag := dsn_field m "Diagnostic-Code" in
  let '(code, reason) := if String.eqb diag "" then ("", "") else diagnostic_of diag in
  let status := header_get (header m) "Status" in
  let code := if negb (String.eqb status "") && String.eqb code "" then trim_space status else code in
  (code, if String.eqb reason "" then reason_from_subject (header_get (header m) "Subject") else reason).

Definition hard_bounce_keywords : list string :=
  ["user unknown"; "does not exist"; "no such user"; "invalid recipient"; "unknown user";
   "mailbox not found"; "address rejected"].
Definition soft_bounce_keywords : list string :=
  ["mailbox full"; "over quota"; "temporarily"; "try again"; "rate limit"; "too many";
   "connection timeout"].

Definition classify_bounce (code reason : string) : bounce_type :=
  if has_prefix code "5" then
    if (has_prefix code "5.2" || has_prefix code "5.7") &&
       (contains (to_lower reason) "full" || contains (to_lower reason) "quota")
    then BounceTypeSoft
    else BounceTypeHard
  else if has_prefix code "4" then BounceTypeSoft
  else
    let lower := to_lower reason in
    if contains_any lower hard_bounce_keywords then BounceTypeHard
    else if contains_any lower soft_bounce_keywords then BounceTypeSoft
    else BounceTypeUnknown.

Definition max_dsn_body_scan : nat := Z.to_nat (64 * 1024).

Definition bounce_subjects : list string :=
  ["delivery status notification"; "delivery failure"; "undeliverable"; "mail delivery failed";
   "returned mail"; "failure notice"; "non-delivery"].

Section inbound.
Context (read_message : string -> option mail_message).

Definition is_bounce (from data : string) : bool :=
  if String.eqb from "" || String.eqb from "<>" then true
  else match read_message data with
       | None => false
       | Some m =>
           let ct := header_get (header m) "Content-Type" in
           contains ct "multipart/report" || contains ct "message/delivery-status" ||
           contains_any (to_lower (header_get (header m) "Subject")) bounce_subjects
       end.

Definition parse_bounce (now : Z) (data : string) : option bounce_info :=
  m ← read_message data;
  let m := MailMessage (header m) (take_str max_dsn_body_scan (body m)) in
  let '(code, reason) := extract_diagnostic_info m in
  Some (BounceInfo (classify_bounce code reason) (extract_original_recipient m)
          (extract_original_message_id m) reason code now "").

(** [ProcessBounce]: the new row and the bounce its callback sees, if any. *)
Definition process_bounce (now : Z) (q : list queued_message) (data : string)
    (t : list bounce_row) : list bounce_row * option bounce_info :=
  let b := default (BounceInfo BounceTypeUnknown "" "" "failed to parse bounce" "" now "")
             (parse_bounce now data) in
  let b := attribute_sender now q b in
  (store_bounce b t, if notified b then Some b else None).

End inbound.

(** ** Queries over the table *)

Definition count_rows (p : bounce_row -> bool) (t : list bounce_row) : Z :=
  Z.of_nat (length (List.filter p t)).

Definition get_bounce_count (recipient : string) (since : Z) (t : list bounce_row) : Z :=
  count_rows (fun r => String.eqb (original_recipient (br_info r)) recipient &&
                       (since <? received_at (br_info r))) t.

Record sender_bounce_counts := SenderBounceCounts { sb_hard : Z; sb_soft : Z; sb_total : Z }.

Definition of_sender (pk : string) (since : Z) (r : bounce_row) : bool :=
  bool_decide (br_sender r = Some pk) && (since <? received_at (br_info r)).
Definition of_type (ty : bounce_type) (r : bounce_row) : bool := bool_decide (b_type (br_info r) = ty).

Definition sender_bounces (pk : string) (since : Z) (t : list bounce_row) : sender_bounce_counts :=
  if String.eqb pk "" then SenderBounceCounts 0 0 0
  else SenderBounceCounts
    (count_rows (fun r => of_sender pk since r && of_type BounceTypeHard r) t)
    (count_rows (fun r => of_sender pk since r && of_type BounceTypeSoft r) t)
    (count_rows (of_sender pk since) t).

Definition hard_bounce_window : Z := 30 * 24 * hour.

Definition is_hard_bounced (now : Z) (recipient : string) (t : list bounce_row) : bool :=
  0 <? count_rows (fun r => String.eqb (original_recipient (br_info r)) recipient &&
                            of_type BounceTypeHard r &&
                            (now - hard_bounce_window <? received_at (br_info r))) t.

(** * Lemmas *)

Example parse_diagnostic_example :
  diagnostic_of "smtp;550 5.1.1 User unknown" = ("550 5.1.1", "User unknown").
Proof. reflexivity. Qed.

Definition sample_dsn : string :=
  "Reporting-MTA: dns; mx.example.com" +:+ String LF (
  "Final-Recipient : rfc822; bob@example.com" +:+ String CR (String LF (
  "diagnostic-code: smtp; 552 5.2.2 mailbox full" +:+ String LF (
  "Message-Id: <m1@cloistr.xyz>")))).

Example dsn_body_examples :
  body_field "Final-Recipient" sample_dsn = "rfc822; bob@example.com" /\
  body_field "Diagnostic-Code" sample_dsn = "smtp; 552 5.2.2 mailbox full" /\
  embedded_message_id sample_dsn = Some "<m1@cloistr.xyz>".
Proof. vm_compute. done. Qed.

Lemma parse_diagnostic_code s c enh reason :
  parse_diagnostic s = Some (c, enh, reason) ->
  exists a b d, c = String a (String b (String d "")) /\ is_digit b = true.
Proof.
  unfold parse_diagnostic. destruct s as [|a [|b [|d [|e rest]]]]; try done.
  destruct (is_digit a && is_digit b && is_digit d && re_space e) eqn:Hd; [|done].
  destruct (parse_enhanced _) as [en r]. destruct (has_char LF _); [done|].
  intros [= <- <- <-]. reflect_bools. eauto.
Qed.

Lemma has_prefix_dot a b t : is_digit b = true ->
  has_prefix (String a (String b t)) "5.2" = false /\ has_prefix (String a (String b t)) "5.7" = false.
Proof.
  intros Hb. rewrite !has_prefix_cons.
  assert (Ascii.eqb "." b = false) as -> by (apply Ascii.eqb_neq; by intros <-).
  by rewrite !andb_false_l, !andb_false_r.
Qed.

Lemma latest_elem q r : latest q = Some r -> r ∈ q.
Proof.
  revert r. induction q as [|x q IH]; simpl; [done|]. intros r.
  destruct (latest q) as [r'|]; [destruct (_ <? _)|]; intros [= <-]; set_solver.
Qed.

Lemma latest_is_latest q r s : latest q = Some r -> s ∈ q -> created_at s <= created_at r.
Proof.
  revert r s. induction q as [|x q IH]; simpl; [done|]. intros r s Hr Hs.
  apply elem_of_cons in Hs as [->|Hs].
  - destruct (latest q) as [r'|]; [destruct (Z.ltb_spec (created_at x) (created_at r'))|]; simplify_eq; lia.
  - destruct (latest q) as [r'|] eqn:Hl.
    + specialize (IH r' s eq_refl Hs). destruct (Z.ltb_spec (created_at x) (created_at r')); simplify_eq; lia.
    + destruct q; [by apply not_elem_of_nil in Hs|]. simpl in Hl. repeat case_match; done.
Qed.

Definition outbound_bounce (now : Z) (message_id sender err recipient : string) : bounce_info :=
  BounceInfo (classify_from_error err) recipient message_id err (extract_smtp_code_from_error err) now sender.

Definition outbound_row (now : Z) (message_id sender err recipient : string) : bounce_row :=
  BounceRow (outbound_bounce now message_id sender err recipient)
    (if String.eqb sender "" then None else Some sender).

Lemma record_outbound_rows now mid sender rs err t :
  (record_outbound_failure now mid sender rs err t).1 = t ++ map (outbound_row now mid sender err) rs.
Proof.
  revert t. induction rs as [|r rs IH]; intros t; simpl; [by rewrite app_nil_r|].
  specialize (IH (store_bounce (outbound_bounce now mid sender err r) t)).
  unfold outbound_bounce in IH at 1.
  destruct (record_outbound_failure _ _ _ _ _ _) as [t' ns]. simpl in *. rewrite IH.
  unfold store_bounce. by rewrite <- app_assoc.
Qed.

Lemma record_outbound_notified now mid sender rs err t :
  (record_outbound_failure now mid sender rs err t).2 =
    if bool_decide (classify_from_error err = BounceTypeUnknown) then []
    else map (outbound_bounce now mid sender err) rs.
Proof.
  revert t. induction rs as [|r rs IH]; intros t; simpl; [by case_bool_decide|].
  specialize (IH (store_bounce (outbound_bounce now mid sender err r) t)).
  unfold outbound_bounce in IH at 1.
  destruct (record_outbound_failure _ _ _ _ _ _) as [t' ns]. simpl in *. rewrite IH.
  unfold notified, outbound_bounce. simpl. by destruct (classify_from_error err).
Qed.

Lemma count_rows_app p t1 t2 : count_rows p (t1 ++ t2) = count_rows p t1 + count_rows p t2.
Proof. unfold count_rows. rewrite List.filter_app, length_app. lia. Qed.

Lemma count_rows_nonneg p t : 0 <= count_rows p t.
Proof. unfold count_rows. lia. Qed.

Lemma count_rows_map {A} (f : A -> bounce_row) p l :
  count_rows p (map f l) = Z.of_nat (length (List.filter (fun x => p (f x)) l)).
Proof.
  unfold count_rows. induction l as [|x l IH]; simpl; [done|].
  destruct (p (f x)); simpl; lia.
Qed.

Lemma pos_add a b : 0 <= a -> 0 <= b -> (0 <? a + b) = (0 <? a) || (0 <? b).
Proof. intros. destruct (Z.ltb_spec 0 (a + b)), (Z.ltb_spec 0 a), (Z.ltb_spec 0 b); simpl; lia || done. Qed.

Lemma filter_pos {A} (p : A -> bool) l :
  (0 <? Z.of_nat (length (List.filter p l))) = existsb p l.
Proof. induction l as [|x l IH]; simpl; [done|]. by destruct (p x). Qed.

(** * Properties *)

(** A permanent delivery failure adds one row per recipient, in order, all
    of the same type and all attributed to the sender (NULL when there is
    none), and notifies one callback per row unless the type is unknown. *)
Theorem outbound_failure_recorded_per_recipient now mid sender rs err t :
  record_outbound_failure now mid sender rs err t =
    (t ++ map (outbound_row now mid sender err) rs,
     if bool_decide (classify_from_error err = BounceTypeUnknown) then []
     else map (outbound_bounce now mid sender err) rs).
Proof.
  rewrite <- record_outbound_notified with (t := t), <- record_outbound_rows.
  apply surjective_pairing.
Qed.

(** A recipient is suppressed as hard-bounced exactly when it was before or
    is one of the recipients of a hard failure less than thirty days old. *)
Theorem hard_failure_suppresses_recipient now now' mid sender rs err t x :
  is_hard_bounced now' x (record_outbound_failure now mid sender rs err t).1 =
    is_hard_bounced now' x t ||
    (bool_decide (classify_from_error err = BounceTypeHard) && bool_decide (x ∈ rs) &&
     (now' - hard_bounce_window <? now)).
Proof.
  unfold is_hard_bounced. rewrite record_outbound_rows, count_rows_app, count_rows_map.
  set (p := fun r => _). set (n := Z.of_nat _).
  rewrite pos_add; [|apply count_rows_nonneg|unfold n; lia].
  f_equal. unfold n. rewrite filter_pos. clear n. unfold p, of_type. simpl.
  induction rs as [|r rs IH]; [by rewrite andb_false_r|].
  cbn [existsb]. rewrite IH. clear IH. rewrite (String.eqb_sym r x).
  destruct (bool_decide (classify_from_error err = BounceTypeHard)); simpl; [|by rewrite !andb_false_r].
  destruct (now' - hard_bounce_window <? now); simpl; [|by rewrite !andb_false_r].
  rewrite !andb_true_r. destruct (String.eqb_spec x r) as [->|Hn]; simpl.
  - symmetry. apply bool_decide_eq_true. by constructor.
  - apply bool_decide_ext. rewrite elem_of_cons. tauto.
Qed.

(** A bounce is only ever attributed to the sender of a queued message that
    either carries the bounced Message-ID or was addressed to the bounced
    recipient inside the attribution window; failing both it stays
    unattributed. *)
Theorem attribution_sound now mid recipient q pk :
  queue_sender_resolver now mid recipient q = pk -> pk <> "" ->
  exists r, r ∈ q /\ queue_sender r = Some pk /\
    ((mid <> "" /\ Queue.message_id r = mid) \/
     (recipient ∈ to r /\ now - sender_attribution_window < created_at r)).
Proof.
  unfold queue_sender_resolver. intros Hres Hpk.
  destruct (if String.eqb mid "" then None else _) as [pk'|] eqn:Hid.
  - simplify_eq. destruct (String.eqb_spec mid "") as [|Hmid]; [done|].
    destruct (by_message_id mid q) as [pk'|] eqn:Hby; [|done].
    destruct (String.eqb pk' ""); simplify_eq. unfold by_message_id in Hby.
    apply bind_Some in Hby as (r & Hl%latest_elem & Hs).
    apply elem_filter_bool in Hl as [Hr Hp]. reflect_bools. eauto 8.
  - destruct (String.eqb recipient ""); [congruence|].
    destruct (by_recipient now recipient q) as [pk'|] eqn:Hby; simpl in Hres; [|congruence].
    subst pk'. apply bind_Some in Hby as (r & Hl%latest_elem & Hs).
    apply elem_filter_bool in Hl as [Hr Hp]. reflect_bools.
    exists r. split; [done|]. split; [done|]. right. split; [by eapply bool_decide_eq_true_1|done].
Qed.

(** Every report whose Diagnostic-Code has an SMTP code of the 5xx class
    classifies as a hard bounce, a full mailbox ("552 5.2.2 mailbox full")
    included: the exception for 5.2 and 5.7 statuses cannot apply to it,
    because the code starts with the three-digit reply, not with the status. *)
Theorem diagnostic_5xx_always_hard diag v c enh reason code reason' :
  cut ";" diag = Some v -> parse_diagnostic (trim_space v.2) = Some (c, enh, reason) ->
  has_prefix c "5" = true -> diagnostic_of diag = (code, reason') ->
  classify_bounce code reason' = BounceTypeHard.
Proof.
  intros Hcut Hp H5 Hd. unfold diagnostic_of in Hd. rewrite Hcut in Hd. destruct v as [v0 v1]. simpl in *.
  rewrite Hp in Hd. destruct (parse_diagnostic_code _ _ _ _ Hp) as (a & b & d & -> & Hb).
  assert (exists t, code = String a (String b t)) as [t ->].
  { destruct (String.eqb enh ""); simplify_eq; simpl; eauto. }
  unfold classify_bounce. destruct (has_prefix_dot a b t Hb) as [-> ->]. cbn [orb andb].
  assert (has_prefix (String a (String b t)) "5" = true) as ->; [|done].
  rewrite has_prefix_cons in *. by rewrite has_prefix_nil in *.
Qed.

(** * The theorems at concrete bounces *)

Lemma attribution_sound_witness :
  queue_sender_resolver 100 "" "bob@example.com" [sample_row "q1" StatusSent 1 0] = "pk" /\
  exists r, r ∈ [sample_row "q1" StatusSent 1 0] /\ queue_sender r = Some "pk" /\
    (("" <> "" /\ Queue.message_id r = "") \/
     ("bob@example.com" ∈ to r /\ 100 - sender_attribution_window < created_at r)).
Proof.
  split; [reflexivity|].
  apply (attribution_sound 100 "" "bob@example.com" [sample_row "q1" StatusSent 1 0] "pk"); [reflexivity|done].
Defined.

(** The same text is a soft bounce when the remote server gives it to us and a
    hard one when it comes back as a report. *)
Lemma diagnostic_5xx_always_hard_witness :
  classify_from_error "552 5.2.2 mailbox full" = BounceTypeSoft /\
  classify_bounce "552 5.2.2" "mailbox full" = BounceTypeHard.
Proof.
  split; [reflexivity|].
  apply (diagnostic_5xx_always_hard "smtp; 552 5.2.2 mailbox full" ("smtp", " 552 5.2.2 mailbox full")
    "552" "5.2.2" "mailbox full"); reflexivity.
Defined.
