(* ===== verification/AbuseSignals.v ===== *)
(** * Signals for the abuse ladder: internal/abuse/signals.go

    The aggregates over the outbound queue, the bounce log and the complaint
    log that [Detector.Scan] judges.  The bounce and complaint tables are
    optional in a deployment: [None] is a missing relation. *)

From S2P Require Import Prelude Queue Mailboxes Bounce Abuse.
#[local] Open Scope Z_scope.

Record complaint_row := ComplaintRow { c_sender : option string; c_received_at : Z }.

(** ** collectSends *)

Definition no_signals (pk : string) : signals := Signals pk 0 0 0 0 0 0.

Definition recipients_of (r : queued_message) : Z := Z.of_nat (length (to r)).

Definition add_send (hour_ago : Z) (r : queued_message) (s : signals) : signals :=
  Signals (s_pubkey s) (messages_sent s + 1) (recipients_sent s + recipients_of r)
    (hard_bounces s) (soft_bounces s)
    (recipients_last_hour s + if hour_ago <? created_at r then recipients_of r else 0)
    (complaints s).

Definition group_send (since hour_ago : Z) (r : queued_message) (m : gmap string signals)
    : gmap string signals :=
  match queue_sender r with
  | Some pk =>
      if since <? created_at r
      then <[pk := add_send hour_ago r (default (no_signals pk) (m !! pk))]> m
      else m
  | None => m
  end.

Definition collect_sends (since hour_ago : Z) (q : list queued_message) : gmap string signals :=
  foldr (group_send since hour_ago) ∅ q.

(** ** applyBounces and applyComplaints *)

Definition with_bounces (hard soft : Z) (s : signals) : signals :=
  Signals (s_pubkey s) (messages_sent s) (recipients_sent s) hard soft
    (recipients_last_hour s) (complaints s).

Definition apply_bounces (since : Z) (t : option (list bounce_row)) (m : gmap string signals)
    : gmap string signals :=
  match t with
  | None => m
  | Some t =>
      map_imap (fun pk s => Some (with_bounces
        (count_rows (fun r => of_sender pk since r && of_type BounceTypeHard r) t)
        (count_rows (fun r => of_sender pk since r && of_type BounceTypeSoft r) t) s)) m
  end.

Definition with_complaints (n : Z) (s : signals) : signals :=
  Signals (s_pubkey s) (messages_sent s) (recipients_sent s) (hard_bounces s) (soft_bounces s)
    (recipients_last_hour s) n.

Definition complaint_count (pk : string) (since : Z) (t : list complaint_row) : Z :=
  Z.of_nat (length (List.filter (fun r => bool_decide (c_sender r = Some pk) && (since <? c_received_at r)) t)).

Definition apply_complaints (since : Z) (t : option (list complaint_row)) (m : gmap string signals)
    : gmap string signals :=
  match t with
  | None => m
  | Some t => map_imap (fun pk s => Some (with_complaints (complaint_count pk since t) s)) m
  end.

Definition collect (now window : Z) (q : list queued_message) (bounces : option (list bounce_row))
    (complaints : option (list complaint_row)) : list signals :=
  let since := now - window in
  let m := collect_sends since (now - hour) q in
  map snd (map_to_list (apply_complaints since complaints (apply_bounces since bounces m))).

(** * Lemmas *)

Definition sent_in (pk : string) (since : Z) (r : queued_message) : bool :=
  bool_decide (queue_sender r = Some pk) && (since <? created_at r).

Definition total_recipients (p : queued_message -> bool) (q : list queued_message) : Z :=
  foldr (fun r acc => recipients_of r + acc) 0 (List.filter p q).

(** What the two queries say about one account. *)
Definition account_sends (pk : string) (since hour_ago : Z) (q : list queued_message) : signals :=
  Signals pk (Z.of_nat (length (List.filter (sent_in pk since) q)))
    (total_recipients (sent_in pk since) q) 0 0
    (total_recipients (fun r => sent_in pk since r && (hour_ago <? created_at r)) q) 0.

Lemma collect_sends_lookup since hour_ago q pk :
  collect_sends since hour_ago q !! pk =
    if existsb (sent_in pk since) q then Some (account_sends pk since hour_ago q) else None.
Proof.
  induction q as [|r q IH]; [done|]. cbn [collect_sends foldr existsb].
  fold (collect_sends since hour_ago q). unfold group_send, sent_in at 1.
  unfold account_sends, total_recipients in *. cbn [List.filter].
  assert (forall pk', sent_in pk' since r = bool_decide (queue_sender r = Some pk') && (since <? created_at r))
    as Hs by done. rewrite !Hs.
  destruct (queue_sender r) as [pk0|].
  2:{ rewrite (bool_decide_eq_false_2 (None = Some pk)) by done. simpl. apply IH. }
  destruct (since <? created_at r); [|by rewrite !andb_false_r].
  rewrite !andb_true_r. destruct (decide (pk0 = pk)) as [<-|Hn].
  - rewrite lookup_insert_eq, bool_decide_eq_true_2 by done. simpl. f_equal.
    rewrite IH. destruct (existsb (sent_in pk0 since) q) eqn:He; simpl.
    + unfold add_send. simpl. f_equal; try lia. destruct (hour_ago <? created_at r); simpl; lia.
    + assert (forall p, List.filter (fun r => sent_in pk0 since r && p r) q = []) as Hf.
      { intros p. clear IH. induction q as [|r' q IHq]; [done|]. simpl in *.
        apply orb_false_iff in He as [-> He]. simpl. auto. }
      assert (List.filter (sent_in pk0 since) q = []) as ->.
      { rewrite <- (Hf (fun _ => true)). apply List.filter_ext. intros. by rewrite andb_true_r. }
      specialize (Hf (fun r => hour_ago <? created_at r)). cbv beta in Hf.
      unfold add_send. simpl. f_equal; [lia|].
      destruct (hour_ago <? created_at r); simpl; rewrite Hf; simpl; lia.
  - rewrite lookup_insert_ne by done. rewrite (bool_decide_eq_false_2 (Some pk0 = Some pk)) by congruence.
    simpl. apply IH.
Qed.

Definition opt_count {A} (f : list A -> Z) (t : option (list A)) : Z :=
  match t with Some t => f t | None => 0 end.

(** The signals of one account, counted directly. *)
Definition account_signals (now window : Z) (q : list queued_message) (bounces : option (list bounce_row))
    (complaints : option (list complaint_row)) (pk : string) : signals :=
  let since := now - window in
  let s := account_sends pk since (now - hour) q in
  Signals pk (messages_sent s) (recipients_sent s)
    (opt_count (count_rows (fun r => of_sender pk since r && of_type BounceTypeHard r)) bounces)
    (opt_count (count_rows (fun r => of_sender pk since r && of_type BounceTypeSoft r)) bounces)
    (recipients_last_hour s)
    (opt_count (complaint_count pk since) complaints).

Lemma collect_map_lookup now window q bs cs pk :
  apply_complaints (now - window) cs
    (apply_bounces (now - window) bs (collect_sends (now - window) (now - hour) q)) !! pk =
  if existsb (sent_in pk (now - window)) q then Some (account_signals now window q bs cs pk) else None.
Proof.
  unfold apply_complaints, apply_bounces, account_signals, opt_count.
  destruct cs as [cs|], bs as [bs|]; rewrite ?map_lookup_imap, collect_sends_lookup;
    by destruct (existsb _ q).
Qed.

(** * Properties *)

(** [Collect] reports each account that queued mail inside the window once,
    and no other; its figures are the messages, recipients and last-hour
    recipients it queued and the bounces and complaints attributed to it. *)
Theorem collect_reports_active_senders now window q bs cs :
  NoDup (map s_pubkey (collect now window q bs cs)) /\
  forall s, s ∈ collect now window q bs cs <->
    exists pk, existsb (sent_in pk (now - window)) q = true /\
      s = account_signals now window q bs cs pk.
Proof.
  unfold collect. set (m := apply_complaints _ _ _).
  pose proof (collect_map_lookup now window q bs cs) as Hm. fold m in Hm.
  assert (forall pk s, m !! pk = Some s -> s_pubkey s = pk) as Hpk.
  { intros pk s. rewrite Hm. destruct (existsb _ q); by intros [= <-]. }
  split.
  - assert (map s_pubkey (map snd (map_to_list m)) = map fst (map_to_list m)) as ->;
      [|apply NoDup_fst_map_to_list].
    rewrite map_map. apply map_ext_in. intros [pk s] Hin. simpl. apply Hpk.
    by apply elem_of_map_to_list, list_elem_of_In.
  - intros s. split.
    + intros ([pk s'] & -> & Hin)%list_elem_of_fmap_1. apply elem_of_map_to_list in Hin.
      rewrite Hm in Hin. exists pk. destruct (existsb _ q); [split; [done|]|done]. simpl. congruence.
    + intros (pk & He & ->). apply (list_elem_of_fmap_2 snd (map_to_list m) (pk, _)).
      apply elem_of_map_to_list. by rewrite Hm, He.
Qed.

Definition enqueues (op : queue_op) : bool := match op with OpEnqueue _ _ _ => true | _ => false end.

Lemma empty_queue_stays cfg ops s' :
  queue_trace cfg (QueueState [] []) ops s' -> Forall (fun op => enqueues op = false) ops ->
  rows s' = [].
Proof.
  remember (QueueState [] []) as s eqn:Hs. assert (rows s = []) as H0 by (by subst). clear Hs.
  intros Htr. induction Htr as [s|s op s1 ops s' Hst Htr IH]; intros Hops; [done|].
  apply Forall_cons in Hops as [Hop Hops]. apply IH; [|done]. inversion Hst; subst.
  destruct op; try done; simpl; rewrite H0; try done.
Qed.

(** The ladder sees only mail that went through the queue: as long as
    nothing is enqueued, every scan judges no account at all, however many
    bounces and complaints are on record. *)
Theorem ladder_sees_only_queued_mail {W} `{LadderStores W} qcfg ops s' cfg now window bs cs (w : W) :
  queue_trace qcfg (QueueState [] []) ops s' -> Forall (fun op => enqueues op = false) ops ->
  scan cfg now (Ok (collect now window (rows s') bs cs)) w = (w, (ScanResult 0 0 ∅, None)).
Proof.
  intros Htr Hops. rewrite (empty_queue_stays qcfg ops s' Htr Hops).
  unfold collect. assert (apply_complaints (now - window) cs
    (apply_bounces (now - window) bs (collect_sends (now - window) (now - hour) [])) = ∅) as ->; [|done].
  apply map_eq. intros pk. rewrite collect_map_lookup. done.
Qed.

(** * The theorem at a concrete deployment *)

Lemma ladder_sees_only_queued_mail_witness :
  scan default_ladder_config 9 (Ok (collect 9 (24 * hour)
      (rows (queue_run default_queue_config (QueueState [] []) [OpDequeue 5 10; OpHold alice]))
      (Some [outbound_row 8 "m" alice "550 5.1.1 user unknown" "bob@example.com"]) None))
    (sample_world RungNone 0) =
  (sample_world RungNone 0, (ScanResult 0 0 ∅, None)).
Proof.
  apply (ladder_sees_only_queued_mail default_queue_config [OpDequeue 5 10; OpHold alice]
    (queue_run default_queue_config (QueueState [] []) [OpDequeue 5 10; OpHold alice])).
  - apply queue_run_trace. reflexivity.
  - repeat constructor.
Defined.
