(* ===== verification/SendGate.v ===== *)
(** * The send gate: internal/email/sendgate.go

    Authorizes an outbound send from the account's platform tier, its local send
    state, the abuse ladder's throttle mark and the rate limits.  The platform
    client is not part of the repository: its tiers are the parameters of the
    section, the answers of its lookups the arguments of [check]. *)

From S2P Require Import Prelude RateLimit Mailboxes Abuse.
#[local] Open Scope Z_scope.

Definition ErrSendNotPermitted : error :=
  Sentinel "sending requires a claimed address; anonymous identities are receive-only".
Definition ErrSendSuspended : error := Sentinel "sending is suspended for this account".

(** What [Check] returns when it does not return nil. *)
Inductive gate_error :=
| GateError (e : error)
| RateLimitError (r : reason) (after : Z).

Section gate.
Context {Tier : Type} `{EqDecision Tier} (TierAnonymous TierPaid : Tier).
Context {S : Type} `{CounterStore S}.

(** The answers the gate reads, and its configured limits.  [gi_throttled] is
    [None] when no throttle lookup is wired. *)
Record gate_inputs := GateInputs {
  gi_tier : res Tier;
  gi_state : res send_state;
  gi_throttled : option (res bool);
  gi_created_at : res (option Z);
  gi_limits : limits }.

(** [WithThrottles] and the fail-open reading of its answer. *)
Definition is_throttled (i : gate_inputs) : bool :=
  match gi_throttled i with
  | Some (Ok t) => t
  | _ => false
  end.

Definition is_elevated (tier : Tier) (st : send_state) (i : gate_inputs) : bool :=
  (ss_elevated st || bool_decide (tier = TierPaid)) && negb (is_throttled i).

Definition base_limits (elev : bool) (i : gate_inputs) : limits :=
  if is_throttled i then throttled (gi_limits i)
  else if elev then elevated (gi_limits i)
  else gi_limits i.

Definition is_new_account (now : Z) (i : gate_inputs) (created : option Z) : bool :=
  match created with
  | None => false
  | Some c => time_sub now c <? wrap64 (new_account_days (domain (gi_limits i)) * 24 * hour)
  end.

(** The age lookup, skipped for elevated accounts. *)
Definition account_is_new (elev : bool) (now : Z) (i : gate_inputs) : res bool :=
  if elev then Ok false
  else match gi_created_at i with
       | Err e => Err (Wrapped "account age lookup failed" e)
       | Ok c => Ok (is_new_account now i c)
       end.

Definition effective_limits (elev is_new : bool) (i : gate_inputs) : limits :=
  let l := base_limits elev i in
  if is_new then Limits (new_account_account_limits (account l)) (domain l) else l.

Definition rate_check (now : Z) (l : limits) (s : send) (st : S) : S * option gate_error :=
  match allow l now s st with
  | (st, Err e) => (st, Some (GateError (Wrapped "rate limit check failed" e)))
  | (st, Ok d) => (st, if allowed d then None else Some (RateLimitError (why d) (retry_after d)))
  end.

Definition check (now : Z) (pk : string) (recips nbytes : Z) (i : gate_inputs) (st : S)
    : S * option gate_error :=
  match gi_tier i with
  | Err e => (st, Some (GateError (Wrapped "tier lookup failed" e)))
  | Ok tier =>
      if bool_decide (tier = TierAnonymous) then (st, Some (GateError ErrSendNotPermitted))
      else
        match gi_state i with
        | Err e => (st, Some (GateError (Wrapped "send state lookup failed" e)))
        | Ok state =>
            if negb (ss_enabled state) then (st, Some (GateError ErrSendSuspended))
            else
              let elev := is_elevated tier state i in
              match account_is_new elev now i with
              | Err e => (st, Some (GateError e))
              | Ok is_new =>
                  rate_check now (effective_limits elev is_new i) (Send pk recips nbytes is_new) st
              end
        end
  end.

(** * Lemmas *)

Lemma rate_check_cases now l s (st st' : S) r :
  rate_check now l s st = (st', r) ->
  (exists d, allow l now s st = (st', Ok d) /\
     r = (if allowed d then None else Some (RateLimitError (why d) (retry_after d)))) \/
  (exists e, allow l now s st = (st', Err e) /\ r = Some (GateError (Wrapped "rate limit check failed" e))).
Proof.
  unfold rate_check. destruct (allow l now s st) as [st1 [d|e]]; intros [= <- <-]; eauto.
Qed.

(** The categorical checks all passed. *)
Definition categorically_allowed (i : gate_inputs) : Prop :=
  exists tier state, gi_tier i = Ok tier /\ tier <> TierAnonymous /\
    gi_state i = Ok state /\ ss_enabled state = true.

Lemma check_admitted now pk recips nbytes i (st st' : S) r tier state :
  check now pk recips nbytes i st = (st', r) ->
  gi_tier i = Ok tier -> tier <> TierAnonymous -> gi_state i = Ok state -> ss_enabled state = true ->
  let elev := is_elevated tier state i in
  (exists e, account_is_new elev now i = Err e /\ st' = st /\ r = Some (GateError e)) \/
  (exists b, account_is_new elev now i = Ok b /\
     rate_check now (effective_limits elev b i) (Send pk recips nbytes b) st = (st', r)).
Proof.
  intros Hc Ht Hna Hs Hen. unfold check in Hc. rewrite Ht, bool_decide_eq_false_2, Hs, Hen in Hc by done.
  cbn [negb] in Hc. cbv zeta in *. destruct (account_is_new _ now i) as [b|e]; [right|left]; simplify_eq; eauto.
Qed.

(** * Properties *)

(** C3. Nobody sends past the categorical checks: an accepted send comes from a
    claimed identity whose send state is enabled, and the rate limiter allowed
    it under the limits in force for that account. *)
Theorem accepted_send_is_permitted now pk recips nbytes i (st st' : S) :
  check now pk recips nbytes i st = (st', None) ->
  exists tier state b d,
    gi_tier i = Ok tier /\ tier <> TierAnonymous /\ gi_state i = Ok state /\ ss_enabled state = true /\
    account_is_new (is_elevated tier state i) now i = Ok b /\
    allow (effective_limits (is_elevated tier state i) b i) now (Send pk recips nbytes b) st = (st', Ok d) /\
    allowed d = true.
Proof.
  intros Hc. pose proof Hc as Hc'. unfold check in Hc'.
  destruct (gi_tier i) as [tier|] eqn:Ht; [|done]. case_bool_decide as Hna; [done|].
  destruct (gi_state i) as [state|] eqn:Hs; [|done].
  destruct (ss_enabled state) eqn:Hen; [|done].
  destruct (check_admitted _ _ _ _ _ _ _ _ _ _ Hc Ht Hna Hs Hen) as [(e & _ & _ & ?)|(b & Hb & Hr)]; [done|].
  destruct (rate_check_cases _ _ _ _ _ _ Hr) as [(d & Ha & Hd)|(e & _ & ?)]; [|done].
  exists tier, state, b, d. repeat (split; [done|]). by destruct (allowed d).
Qed.

(** A refused send consumes no rate-limit quota: whenever [Check] denies,
    for whatever reason, the counter store is as it was; only a store that
    failed half way through counting can have moved. *)
Theorem denied_send_leaves_quota now pk recips nbytes i (st st' : S) err :
  check now pk recips nbytes i st = (st', Some err) ->
  st' = st \/ exists e, err = GateError (Wrapped "rate limit check failed" e).
Proof.
  intros Hc. pose proof Hc as Hc'. unfold check in Hc'.
  destruct (gi_tier i) as [tier|] eqn:Ht; [|left; congruence].
  case_bool_decide as Hna; [left; congruence|].
  destruct (gi_state i) as [state|] eqn:Hs; [|left; congruence].
  destruct (ss_enabled state) eqn:Hen; [|left; simpl in Hc'; congruence].
  destruct (check_admitted _ _ _ _ _ _ _ _ _ _ Hc Ht Hna Hs Hen) as [(e & _ & -> & ?)|(b & Hb & Hr)]; [by left|].
  destruct (rate_check_cases _ _ _ _ _ _ Hr) as [(d & Ha & Hd)|(e & _ & He)].
  - left. pose proof (allow_cases (effective_limits (is_elevated tier state i) b i) now
      (Send pk recips nbytes b) st) as Hcase. rewrite Ha in Hcase.
    inversion Hcase as [| | | |Hpass _ _ Heq]; subst; try done.
    apply consume_decision in Heq as ->. done.
  - right. exists e. congruence.
Qed.

(** A throttle mark outranks every elevation: under it the account is held
    to the throttled windows whatever its tier and whatever an operator set,
    and its account age is looked up as for any other account. *)
Theorem throttle_overrides_elevation now pk recips nbytes i (st st' : S) r :
  is_throttled i = true -> check now pk recips nbytes i st = (st', r) -> categorically_allowed i ->
  (exists e, gi_created_at i = Err e /\ st' = st /\ r = Some (GateError (Wrapped "account age lookup failed" e))) \/
  (exists c, gi_created_at i = Ok c /\
     let b := is_new_account now i c in
     let l := throttled (gi_limits i) in
     rate_check now (if b then Limits (new_account_account_limits (account l)) (domain l) else l)
       (Send pk recips nbytes b) st = (st', r)).
Proof.
  intros Hth Hc (tier & state & Ht & Hna & Hs & Hen).
  pose proof (check_admitted _ _ _ _ _ _ _ _ _ _ Hc Ht Hna Hs Hen) as Hadm. cbv zeta in Hadm.
  assert (is_elevated tier state i = false) as Hel by (unfold is_elevated; by rewrite Hth, andb_false_r).
  rewrite Hel in Hadm. unfold account_is_new, effective_limits, base_limits in Hadm. rewrite Hth in Hadm.
  destruct (gi_created_at i) as [c|e]; [right|left];
    destruct Hadm as [(e' & He & H1 & H2)|(b & Hb & Hr)]; simplify_eq; eauto.
Qed.

(** An unreadable throttle mark denies nothing: the gate answers exactly as
    it does for an account that is not throttled. *)
Theorem throttle_lookup_fails_open now pk recips nbytes i (st : S) e :
  gi_throttled i = Some (Err e) ->
  check now pk recips nbytes i st =
    check now pk recips nbytes
      (GateInputs (gi_tier i) (gi_state i) (Some (Ok false)) (gi_created_at i) (gi_limits i)) st.
Proof.
  intros He. destruct i as [t s th c l]. simpl in He. subst th. reflexivity.
Qed.

End gate.

Arguments GateInputs {Tier}.

(** * The theorems at a concrete platform *)

Inductive sample_tier := Anonymous | Named | Paid.
#[export] Instance sample_tier_eq_dec : EqDecision sample_tier.
Proof. solve_decision. Defined.

Definition sample_inputs (t : sample_tier) (on : bool) (th : option (res bool)) : gate_inputs :=
  GateInputs (Ok t) (Ok (SendState on false None)) th (Ok (Some 0)) default_limits.

Definition alice_checks (recips : Z) (i : gate_inputs) (st : memory_store) : memory_store * option gate_error :=
  check Anonymous Paid (30 * day) "alice" recips 100 i st.

Lemma accepted_send_is_permitted_witness :
  alice_checks 2 (sample_inputs Named true None) new_memory_store =
    ((alice_checks 2 (sample_inputs Named true None) new_memory_store).1, None) /\
  exists tier state b d,
    gi_tier (sample_inputs Named true None) = Ok tier /\ tier <> Anonymous /\
    gi_state (sample_inputs Named true None) = Ok state /\ ss_enabled state = true /\
    account_is_new (is_elevated Paid tier state (sample_inputs Named true None)) (30 * day)
      (sample_inputs Named true None) = Ok b /\
    allow (effective_limits (is_elevated Paid tier state (sample_inputs Named true None)) b
             (sample_inputs Named true None)) (30 * day) (Send "alice" 2 100 b) new_memory_store =
      ((alice_checks 2 (sample_inputs Named true None) new_memory_store).1, Ok d) /\
    allowed d = true.
Proof.
  split; [vm_compute; reflexivity|].
  apply (accepted_send_is_permitted Anonymous Paid (30 * day) "alice" 2 100
    (sample_inputs Named true None) new_memory_store).
  vm_compute; reflexivity.
Defined.

Lemma denied_send_leaves_quota_witness :
  (alice_checks 60 (sample_inputs Named true None) new_memory_store).1 = new_memory_store \/
  exists e, RateLimitError ReasonRecipPerMsg 0 = GateError (Wrapped "rate limit check failed" e).
Proof.
  apply (denied_send_leaves_quota Anonymous Paid (30 * day) "alice" 60 100
    (sample_inputs Named true None) new_memory_store).
  vm_compute; reflexivity.
Defined.

Lemma throttle_overrides_elevation_witness :
  (alice_checks 6 (sample_inputs Paid true (Some (Ok true))) new_memory_store).2 =
    Some (RateLimitError ReasonRecipPerMsg 0) /\
  ((exists e, Ok (Some 0) = Err e /\ new_memory_store = new_memory_store /\
      Some (RateLimitError ReasonRecipPerMsg 0) = Some (GateError (Wrapped "account age lookup failed" e))) \/
   (exists c, Ok (Some 0) = Ok c /\
      let b := is_new_account (30 * day) (sample_inputs Paid true (Some (Ok true))) c in
      let l := throttled default_limits in
      rate_check (30 * day) (if b then Limits (new_account_account_limits (account l)) (domain l) else l)
        (Send "alice" 6 100 b) new_memory_store =
        (new_memory_store, Some (RateLimitError ReasonRecipPerMsg 0)))).
Proof.
  split; [vm_compute; reflexivity|].
  apply (throttle_overrides_elevation Anonymous Paid (30 * day) "alice" 6 100
    (sample_inputs Paid true (Some (Ok true))) new_memory_store new_memory_store).
  - reflexivity.
  - vm_compute; reflexivity.
  - exists Paid, (SendState true false None). done.
Defined.

Lemma throttle_lookup_fails_open_witness :
  alice_checks 2 (sample_inputs Named true (Some (Err down))) new_memory_store =
    alice_checks 2 (sample_inputs Named true (Some (Ok false))) new_memory_store.
Proof.
  apply (throttle_lookup_fails_open Anonymous Paid (30 * day) "alice" 2 100
    (sample_inputs Named true (Some (Err down))) new_memory_store down).
  reflexivity.
Defined.
