(* ===== verification/Identity.v ===== *)
(** * Identities and addresses: internal/identity/address.go,
    internal/storage/address_store.go

    Which addresses an account may send from, which recipients can be encrypted
    to, and the syntax of local parts.  The address store is the interface
    [AddressStore]; [address_table] implements it as the adapter over the shared
    addresses table does.  The NIP-05 resolver and the cloistr-me client are
    other services: their answers are parameters. *)

From S2P Require Import Prelude GoStrings.
From stdpp Require Import sorting.
#[local] Open Scope Z_scope.

Definition Domain : string := "cloistr.xyz".

Definition ErrNoUnifiedAddress : error :=
  Sentinel "user does not have a unified address - registration required".
Definition ErrAddressNotVerified : error := Sentinel "unified address not verified".
Definition ErrFromAddressMismatch : error :=
  Sentinel "from address does not match sender's unified address".
Definition ErrAddressOwnershipMismatch : error :=
  Sentinel "address ownership verification failed: pubkey does not own this address".
Definition ErrNpubAlreadyRegistered : error := Sentinel "npub already has a registered address".
Definition ErrLocalPartTaken : error := Sentinel "email address already taken".
Definition ErrInvalidLocalPart : error := Sentinel "invalid local part".
Definition ErrInvalidEmail : error := Sentinel "invalid email format".

Record unified_address := UnifiedAddress {
  npub : string;
  local_part : string;
  email : string;
  display_name : string;
  verified : bool;
  is_primary : bool }.

Class AddressStore (St : Type) := {
  get_by_npub : string -> St -> res (option unified_address);
  list_by_npub : string -> St -> res (list unified_address);
  get_by_email : string -> St -> res (option unified_address);
  create : unified_address -> St -> St * res unit;
  local_part_exists : string -> St -> res bool }.

(** ** The rules a local part obeys *)

Definition local_char (c : ascii) : bool :=
  is_letter c || is_digit c || Ascii.eqb c "." || Ascii.eqb c "_" || Ascii.eqb c "-".

Definition starts_with_letter (s : string) : bool :=
  match s with String c _ => is_letter c | "" => false end.

Definition reserved : list string :=
  ["admin"; "root"; "postmaster"; "abuse"; "noreply"; "no-reply"; "support"; "help"; "info";
   "webmaster"; "hostmaster"; "mailer-daemon"].

(** The error detail precedes the sentinel it wraps here as in [Wrapped]. *)
Definition validate_local_part (s : string) : option error :=
  if String.eqb s "" then Some ErrInvalidLocalPart
  else if str_len s <? 3 then Some (Wrapped "must be at least 3 characters" ErrInvalidLocalPart)
  else if 32 <? str_len s then Some (Wrapped "must be at most 32 characters" ErrInvalidLocalPart)
  else if negb (starts_with_letter s) then Some (Wrapped "must start with a letter" ErrInvalidLocalPart)
  else if negb (forall_chars local_char s)
  then Some (Wrapped "can only contain letters, numbers, dots, underscores, and hyphens" ErrInvalidLocalPart)
  else if contains s ".." then Some (Wrapped "cannot contain consecutive dots" ErrInvalidLocalPart)
  else if existsb (equal_fold s) reserved
  then Some (Wrapped ("'" +:+ s +:+ "' is reserved") ErrInvalidLocalPart)
  else None.

Definition email_local_char (c : ascii) : bool :=
  local_char c || Ascii.eqb c "%" || Ascii.eqb c "+".
Definition email_domain_char (c : ascii) : bool :=
  is_letter c || is_digit c || Ascii.eqb c "." || Ascii.eqb c "-".

Definition nonempty (s : string) : bool := negb (String.eqb s "").

Definition validate_email_format (s : string) : option error :=
  let ok :=
    match cut "@" s with
    | None => false
    | Some (l, d) =>
        nonempty l && forall_chars email_local_char l &&
        match cut_last "." d with
        | None => false
        | Some (host, tld) =>
            nonempty host && forall_chars email_domain_char host &&
            (2 <=? str_len tld) && forall_chars is_letter tld
        end
    end in
  if ok then None else Some ErrInvalidEmail.

(** ** Served domains *)

Definition set_served_domains (domains : list string) : list string :=
  match List.filter nonempty (map (fun d => to_lower (trim_space d)) domains) with
  | [] => [Domain]
  | m => m
  end.

Inductive address_type := AddressTypeInternal | AddressTypeExternal.

Definition classify_address (served : list string) (e : string) : address_type :=
  match cut_last "@" (to_lower e) with
  | Some (_, d) => if existsb (String.eqb d) served then AddressTypeInternal else AddressTypeExternal
  | None => AddressTypeExternal
  end.

Record external_recipient := ExternalRecipient {
  r_email : string; r_npub : string; discovery_method : string; supports_encryption : bool }.

Section service.
Context {St : Type} `{AddressStore St}.
(** The cloistr-me client ([None] when none is configured) and NIP-05. *)
Context (verifier : option (string -> string -> res bool)).
Context (resolver : option (string -> res string)).

(** The ownership cross-check: only a definite "no" refuses. *)
Definition cross_check (pk : string) (a : unified_address) : res unified_address :=
  match verifier with
  | None => Ok a
  | Some v =>
      match v pk (email a) with
      | Err _ => Ok a
      | Ok true => Ok a
      | Ok false => Err ErrAddressOwnershipMismatch
      end
  end.

Definition validate_sender (pk : string) (st : St) : res unified_address :=
  match get_by_npub pk st with
  | Err e => Err (Wrapped "failed to lookup sender" e)
  | Ok None => Err ErrNoUnifiedAddress
  | Ok (Some a) => if verified a then cross_check pk a else Err ErrAddressNotVerified
  end.

Definition resolve_from_address (pk from : string) (st : St) : res unified_address :=
  if String.eqb (trim_space from) "" then validate_sender pk st
  else
    match list_by_npub pk st with
    | Err e => Err (Wrapped "failed to list sender addresses" e)
    | Ok [] => Err ErrNoUnifiedAddress
    | Ok owned =>
        match List.find (fun a => equal_fold (email a) from) owned with
        | None => Err ErrFromAddressMismatch
        | Some a => if verified a then cross_check pk a else Err ErrAddressNotVerified
        end
    end.

Definition validate_from_address (pk from : string) (st : St) : option error :=
  match resolve_from_address pk from st with Ok _ => None | Err e => Some e end.

Definition resolve_recipient (served : list string) (e : string) (st : St) : res external_recipient :=
  match classify_address served e with
  | AddressTypeInternal =>
      match get_by_email e st with
      | Err x => Err (Wrapped "failed to lookup recipient" x)
      | Ok (Some a) => Ok (ExternalRecipient e (npub a) "internal" true)
      | Ok None => Ok (ExternalRecipient e "" "none" false)
      end
  | AddressTypeExternal =>
      match resolver with
      | None => Ok (ExternalRecipient e "" "none" false)
      | Some f =>
          match f e with
          | Ok n => if nonempty n then Ok (ExternalRecipient e n "nip05" true)
                    else Ok (ExternalRecipient e "" "none" false)
          | Err _ => Ok (ExternalRecipient e "" "none" false)
          end
      end
  end.

Fixpoint resolve_recipients (served : list string) (es : list string) (st : St)
    (acc : gmap string external_recipient) : res (gmap string external_recipient) :=
  match es with
  | [] => Ok acc
  | e :: es => let! r := resolve_recipient served e st in resolve_recipients served es st (<[e := r]> acc)
  end.

Definition register_address (pk lp dn : string) (st : St) : St * res unified_address :=
  match validate_local_part lp with
  | Some e => (st, Err e)
  | None =>
      match get_by_npub pk st with
      | Err e => (st, Err (Wrapped "failed to check existing address" e))
      | Ok (Some _) => (st, Err ErrNpubAlreadyRegistered)
      | Ok None =>
          match local_part_exists lp st with
          | Err e => (st, Err (Wrapped "failed to check local part" e))
          | Ok true => (st, Err ErrLocalPartTaken)
          | Ok false =>
              let a := UnifiedAddress pk (to_lower lp) (to_lower lp +:+ "@" +:+ Domain) dn true false in
              match create a st with
              | (st, Err e) => (st, Err (Wrapped "failed to create address" e))
              | (st, Ok _) => (st, Ok a)
              end
          end
      end
  end.

End service.

(** ** The adapter over the addresses table *)

Record address := Address {
  a_id : Z; a_username : string; a_domain : string; a_pubkey : string; a_active : bool;
  a_verified : bool; a_is_primary : option bool; a_display_name : option string }.

Abbreviation address_table := (list address).

Definition address_email (a : address) : string := a_username a +:+ "@" +:+ a_domain a.

Definition to_unified_address (a : address) : unified_address :=
  UnifiedAddress (a_pubkey a) (a_username a) (address_email a) (default "" (a_display_name a))
    (a_verified a) (default false (a_is_primary a)).

Definition owned_by (pk : string) (a : address) : bool := String.eqb (a_pubkey a) pk && a_active a.

(** [ORDER BY is_primary DESC NULLS LAST, id ASC]. *)
Definition primary_rank (a : address) : Z :=
  match a_is_primary a with Some true => 0 | Some false => 1 | None => 2 end.
Definition primary_first (a b : address) : Prop :=
  primary_rank a < primary_rank b \/ (primary_rank a = primary_rank b /\ a_id a <= a_id b).
#[export] Instance primary_first_dec : RelDecision primary_first.
Proof. intros a b. unfold primary_first. apply _. Defined.

Definition get_addresses_by_pubkey (pk : string) (t : address_table) : list address :=
  merge_sort primary_first (List.filter (owned_by pk) t).
Definition get_address_by_pubkey (pk : string) (t : address_table) : option address :=
  hd_error (get_addresses_by_pubkey pk t).

Definition get_address_by_email (e : string) (t : address_table) : res (option address) :=
  match cut "@" (to_lower e) with
  | None => Err (Sentinel ("invalid email format: " +:+ e))
  | Some (u, d) =>
      Ok (List.find (fun a => String.eqb (a_username a) u && String.eqb (a_domain a) d && a_active a) t)
  end.

Definition username_exists (u d : string) (t : address_table) : bool :=
  existsb (fun a => String.eqb (a_username a) (to_lower u) && String.eqb (a_domain a) (to_lower d)) t.

#[export] Instance table_store : AddressStore address_table := {
  get_by_npub pk t := Ok (to_unified_address <$> get_address_by_pubkey pk t);
  list_by_npub pk t := Ok (map to_unified_address (get_addresses_by_pubkey pk t));
  get_by_email e t :=
    match get_address_by_email e t with
    | Err x => Err x
    | Ok o => Ok (to_unified_address <$> o)
    end;
  create _ t := (t, Err (Sentinel "address creation is handled by cloistr-me, not cloistr-email"));
  local_part_exists lp t := Ok (username_exists lp Domain t) }.

(** * Lemmas *)

Lemma cross_check_ok v pk a b :
  cross_check v pk a = Ok b ->
  b = a /\ match v with Some f => f pk (email a) <> Ok false | None => True end.
Proof.
  unfold cross_check. destruct v as [f|]; [|by intros [= ->]].
  destruct (f pk (email a)) as [[]|] eqn:Hf; intros [= ->]; split; congruence.
Qed.

Lemma owned_elem pk t a :
  a ∈ get_addresses_by_pubkey pk t <-> a ∈ t /\ a_pubkey a = pk /\ a_active a = true.
Proof.
  unfold get_addresses_by_pubkey. rewrite merge_sort_Permutation, list_elem_of_In, filter_In.
  unfold owned_by. rewrite andb_true_iff, String.eqb_eq, list_elem_of_In. tauto.
Qed.

Lemma get_address_by_pubkey_elem pk t a :
  get_address_by_pubkey pk t = Some a -> a ∈ t /\ a_pubkey a = pk /\ a_active a = true.
Proof.
  unfold get_address_by_pubkey. intros Hh. apply owned_elem.
  destruct (get_addresses_by_pubkey pk t); simplify_eq/=. by constructor.
Qed.

Lemma local_char_safe c : local_char c = true -> c <> CR /\ c <> LF /\ c <> "@"%char /\ c <> " "%char.
Proof. intros Hc. repeat split; intros ->; by vm_compute in Hc. Qed.

(** * Properties *)

(** C20. Nobody sends under somebody else's address: the address resolved for a
    sender is an active, verified row of the table owned by that very pubkey, it
    is the requested address up to case (when one is requested), and a
    configured verifier did not deny the ownership. *)
Theorem resolved_from_is_owned verifier pk from (t : address_table) u :
  resolve_from_address verifier pk from t = Ok u ->
  exists a, a ∈ t /\ a_pubkey a = pk /\ a_active a = true /\ a_verified a = true /\
    u = to_unified_address a /\ npub u = pk /\
    (trim_space from = "" \/ equal_fold (address_email a) from = true) /\
    match verifier with Some f => f pk (address_email a) <> Ok false | None => True end.
Proof.
  unfold resolve_from_address. destruct (String.eqb_spec (trim_space from) "") as [Hb|_].
  - unfold validate_sender. simpl. destruct (get_address_by_pubkey pk t) as [a|] eqn:Hg; simpl; [|done].
    destruct (a_verified a) eqn:Hv; [|done]. intros (-> & Hver)%cross_check_ok.
    apply get_address_by_pubkey_elem in Hg as (Ht & Hpk & Hact). exists a. simpl in *. auto 10.
  - simpl. destruct (get_addresses_by_pubkey pk t) as [|a0 l] eqn:Hl; simpl; [done|].
    destruct (if equal_fold (address_email a0) from then _ else _) as [m|] eqn:Hf; [|done].
    assert (exists a, a ∈ a0 :: l /\ m = to_unified_address a /\ equal_fold (address_email a) from = true)
      as (a & Hin & -> & Heq).
    { destruct (equal_fold (address_email a0) from) eqn:Ha0.
      - injection Hf as <-. exists a0. split; [by constructor|done].
      - apply find_some in Hf as [Hin Heq]. apply in_map_iff in Hin as (a & <- & Hin).
        exists a. split; [by constructor; apply list_elem_of_In|done]. }
    rewrite <- Hl in Hin. apply owned_elem in Hin as (Ht & Hpk & Hact). simpl.
    destruct (a_verified a) eqn:Hv; [|done]. intros (-> & Hver)%cross_check_ok.
    exists a. simpl in *. auto 10.
Qed.

(** [ValidateLocalPart] accepts exactly the names of 3 to 32 characters that
    start with a letter, use only letters, digits, dots, underscores and hyphens,
    have no two dots in a row and are not reserved in any letter case. *)
Theorem local_part_accepted_iff s :
  validate_local_part s = None <->
  (3 <= str_len s <= 32 /\ starts_with_letter s = true /\ forall_chars local_char s = true /\
   contains s ".." = false /\ forall r, r ∈ reserved -> to_lower s <> to_lower r).
Proof.
  unfold validate_local_part.
  assert ((forall r, r ∈ reserved -> to_lower s <> to_lower r) <-> existsb (equal_fold s) reserved = false) as ->.
  { split; intros Hr.
    - apply not_true_is_false. intros (r & Hin & He)%existsb_exists.
      apply equal_fold_spec in He. apply (Hr r); [by apply list_elem_of_In|done].
    - intros r Hin Heq. apply not_true_iff_false in Hr. destruct Hr. apply existsb_exists.
      exists r. split; [by apply list_elem_of_In|by apply equal_fold_spec]. }
  generalize (existsb (equal_fold s) reserved) as b. intros b.
  destruct (String.eqb_spec s "") as [->|_].
  { split; [done|]. intros [[Hl _] _]. change (str_len "") with 0 in Hl. lia. }
  destruct (Z.ltb_spec (str_len s) 3); [split; [done|lia]|].
  destruct (Z.ltb_spec 32 (str_len s)); [split; [done|lia]|].
  destruct (starts_with_letter s); simpl; [|split; [done|by intros (_ & ? & _)]].
  destruct (forall_chars local_char s); simpl; [|split; [done|by intros (_ & _ & ? & _)]].
  destruct (contains s ".."); [split; [done|by intros (_ & _ & _ & ? & _)]|].
  destruct b; [by split; [|intros (_ & _ & _ & _ & ?)]|].
  split; [|done]. intros _. repeat split; lia || done.
Qed.

(** * The theorem at a concrete account *)

Definition sample_addresses : address_table :=
  [Address 1 "alice" Domain "pk" true true (Some false) None;
   Address 2 "ali" Domain "pk" true true (Some true) (Some "Alice");
   Address 3 "bob" Domain "pk2" true true (Some true) None].

Lemma resolved_from_is_owned_witness :
  resolve_from_address None "pk" "Alice@Cloistr.xyz" sample_addresses =
    Ok (to_unified_address (Address 1 "alice" Domain "pk" true true (Some false) None)) /\
  exists a, a ∈ sample_addresses /\ a_pubkey a = "pk" /\ a_active a = true /\ a_verified a = true /\
    to_unified_address (Address 1 "alice" Domain "pk" true true (Some false) None) = to_unified_address a /\
    "pk" = "pk" /\
    (trim_space "Alice@Cloistr.xyz" = "" \/ equal_fold (address_email a) "Alice@Cloistr.xyz" = true) /\ True.
Proof.
  split; [vm_compute; reflexivity|].
  apply (resolved_from_is_owned None "pk" "Alice@Cloistr.xyz" sample_addresses
    (to_unified_address (Address 1 "alice" Domain "pk" true true (Some false) None))).
  vm_compute; reflexivity.
Defined.
