(* ===== verification/Signing.v ===== *)
(** * Nostr signatures on mail: internal/email/signing.go, internal/email/verify.go,
    internal/signing/signer.go and [signEmail] of internal/transport/smtp.go

    SHA-256 and the Nostr event signature of the go-nostr library are the
    section's parameters; what the code relies on, that a signature made for a
    key checks under that key, is the class [SignerLaws].  A header map is a
    [gmap]; Go's iteration order over it is not specified, and only matters when
    two keys differ in case alone. *)

From stdpp Require Import sorting.
From S2P Require Import Prelude GoStrings.
#[local] Open Scope Z_scope.

Definition header_nostr_pubkey : string := "X-Nostr-Pubkey".
Definition header_nostr_sig : string := "X-Nostr-Sig".
Definition header_nostr_signed_headers : string := "X-Nostr-Signed-Headers".

Definition default_signed_headers : list string := ["from"; "to"; "date"; "message-id"; "subject"].
Definition optional_signed_headers : list string := ["cc"; "in-reply-to"; "references"].

Abbreviation headers := (gmap string string).

(** ** Canonical form *)

Definition CRLF : string := String CR (String LF "").
Definition nl : string := String LF "".

(** The two [ReplaceAll]s that normalize line endings. *)
Definition normalize_newlines (s : string) : string :=
  replace_all (replace_all s CRLF nl) (String CR "") nl.

Definition blank_or_tab (c : ascii) : bool := Ascii.eqb c " " || Ascii.eqb c "009".

(** Drop the last lines that are blank. *)
Fixpoint drop_trailing_blank (lines : list string) : list string :=
  match lines with
  | [] => []
  | l :: rest =>
      match drop_trailing_blank rest with
      | [] => if String.eqb (trim_space l) "" then [] else [l]
      | rest' => l :: rest'
      end
  end.

(** [canonicalizeBody] is written three times: for the signer, for the verifier
    and for the outgoing transport. *)
Definition canonicalize_body (body : string) : string :=
  join nl (drop_trailing_blank (map (trim_right blank_or_tab) (split LF (normalize_newlines body)))).

Definition verifier_canonicalize_body (body : string) : string :=
  let body := replace_all body CRLF nl in
  let body := replace_all body (String CR "") nl in
  let lines := split LF body in
  let lines := map (fun line => trim_right blank_or_tab line) lines in
  join nl (drop_trailing_blank lines).

Definition smtp_canonicalize_body (body : string) : string :=
  let body := replace_all body CRLF nl in
  let body := replace_all body (String CR "") nl in
  let lines := split LF body in
  let lines := map (fun line => trim_right blank_or_tab line) lines in
  join nl (drop_trailing_blank lines).

Definition string_le (a b : string) : Prop := String.leb a b = true.
#[export] Instance string_le_dec : RelDecision string_le.
Proof. intros a b. unfold string_le. apply _. Defined.

(** [sort.Strings]. *)
Definition sort_strings (l : list string) : list string := merge_sort string_le l.

Definition canonical_value (v : string) : string := normalize_newlines (trim_space v).

Definition present (h : headers) (name : string) : bool :=
  match h !! name with Some _ => true | None => false end.

Definition canonical_part (h : headers) (name : string) : list string :=
  match h !! name with
  | Some v => [to_lower name +:+ ":" +:+ canonical_value v]
  | None => []
  end.

Definition lower_keys (h : headers) : headers :=
  list_to_map (map (fun kv => (to_lower kv.1, kv.2)) (map_to_list h)).

Section crypto.
(** [sha256.Sum256]; [check_signature pubkey content sig] is
    [Event.CheckSignature] of the fixed-form event with that content. *)
Context (sha256 : string -> string).
Context (check_signature : string -> string -> string -> bool).

(** signing.Signer. *)
Class Signer (K : Type) := {
  public_key : K -> string;
  sign_event : K -> string -> res string }.

Class SignerLaws (K : Type) `{Signer K} := {
  signer_checks : forall k content sig,
    sign_event k content = Ok sig -> check_signature (public_key k) content sig = true;
  signer_format : forall k content sig,
    sign_event k content = Ok sig -> str_len sig = 128 /\ hex_decodes sig = true;
  key_format : forall k, str_len (public_key k) = 64 /\ hex_decodes (public_key k) = true }.

(** [LocalSigner.Sign]: the event's content is the hash of the message. *)
Definition sign_message {K} `{Signer K} (k : K) (message : string) : res string :=
  wrap "signing failed" (sign_event k (hex_encode (sha256 message))).

Definition verify_schnorr (pubkey sig message : string) : bool :=
  check_signature pubkey (hex_encode (sha256 message)) sig.

Definition with_body_hash (header_block body_canonical : string) : string :=
  header_block +:+ nl +:+ sha256 body_canonical.

(** *** EmailSigner *)

Definition select_headers_to_sign (h : headers) : list string :=
  sort_strings (List.filter (present h) default_signed_headers ++
                List.filter (present h) optional_signed_headers).

Definition canonicalize (h : headers) (body : string) (to_sign : list string) : string :=
  with_body_hash (join nl (flat_map (canonical_part h) (sort_strings to_sign))) (canonicalize_body body).

Record sign_result := SignResult {
  signature : string; pubkey : string; signed_headers : string; canonical_data : string }.

Definition sign {K} `{Signer K} (h : headers) (body : string) (k : K) : res sign_result :=
  let to_sign := select_headers_to_sign h in
  let canonical := canonicalize h body to_sign in
  match sign_message k canonical with
  | Err e => Err (Wrapped "failed to sign email" e)
  | Ok sig => Ok (SignResult sig (public_key k) (join ";" to_sign) canonical)
  end.

Definition add_signature_headers (h : headers) (r : sign_result) : headers :=
  <[header_nostr_signed_headers := signed_headers r]>
    (<[header_nostr_sig := signature r]> (<[header_nostr_pubkey := pubkey r]> h)).

Definition sign_email_headers {K} `{Signer K} (k : K) (h : headers) (body : string) : res sign_result :=
  sign (lower_keys h) body k.

(** *** signEmail of the SMTP transport: the same work, written again *)

Definition smtp_headers_to_sign (h : headers) : list string :=
  sort_strings (List.filter (present h) ["from"; "to"; "date"; "message-id"; "subject"] ++
                List.filter (present h) ["cc"; "in-reply-to"; "references"]).

Definition smtp_canonical (h : headers) (body : string) : string :=
  with_body_hash (join nl (flat_map (canonical_part h) (smtp_headers_to_sign h))) (smtp_canonicalize_body body).

(** The three headers to add; [None] without a signer. *)
Definition smtp_sign_email {K} `{Signer K} (h : headers) (body : string) (k : option K)
    : res (option (list (string * string))) :=
  match k with
  | None => Ok None
  | Some k =>
      match sign_message k (smtp_canonical h body) with
      | Err e => Err (Wrapped "failed to sign email" e)
      | Ok sig => Ok (Some [(header_nostr_pubkey, public_key k); (header_nostr_sig, sig);
                            (header_nostr_signed_headers, join ";" (smtp_headers_to_sign h))])
      end
  end.

(** *** EmailVerifier *)

Record verification_result := VerificationResult {
  v_signed : bool; v_valid : bool; v_pubkey : string; nip05_verified : bool;
  nip05_address : string; v_reason : string; v_signed_headers : list string }.

Record verifiable_email := VerifiableEmail {
  ve_headers : headers; ve_body : string; ve_pubkey : string; ve_sig : string;
  ve_signed_headers : string; from_address : string }.

Definition verifier_canonicalize (e : verifiable_email) (names : list string) : string :=
  let h := lower_keys (ve_headers e) in
  with_body_hash (join nl (flat_map (fun n => canonical_part h (to_lower n)) (sort_strings names)))
    (verifier_canonicalize_body (ve_body e)).

Definition extract_email_address (from : string) : string :=
  let from := trim_space from in
  match cut "<" from with
  | None => from
  | Some (before, after) =>
      match cut ">" from with
      | None => from
      | Some (upto, _) =>
          if str_len before <? str_len upto
          then trim_space (drop_str (String.length before + 1) upto)
          else from
      end
  end.

Definition invalid (e : verifiable_email) (names : list string) (why : string) : verification_result :=
  VerificationResult true false (ve_pubkey e) false "" why names.

Definition verify (resolver : option (string -> res string)) (e : verifiable_email) : verification_result :=
  if String.eqb (ve_pubkey e) "" || String.eqb (ve_sig e) ""
  then VerificationResult false false "" false "" "no Nostr signature headers present" []
  else if String.eqb (ve_signed_headers e) ""
  then invalid e [] "missing X-Nostr-Signed-Headers"
  else
    let names := split ";" (ve_signed_headers e) in
    if negb (str_len (ve_pubkey e) =? 64)
    then invalid e names ("invalid pubkey length: " +:+ pretty (str_len (ve_pubkey e)) +:+ " (expected 64)")
    else if negb (hex_decodes (ve_pubkey e)) then invalid e names "invalid pubkey: not valid hex"
    else if negb (str_len (ve_sig e) =? 128)
    then invalid e names ("invalid signature length: " +:+ pretty (str_len (ve_sig e)) +:+ " (expected 128)")
    else if negb (hex_decodes (ve_sig e)) then invalid e names "invalid signature: not valid hex"
    else if negb (verify_schnorr (ve_pubkey e) (ve_sig e) (verifier_canonicalize e names))
    then invalid e names "signature verification failed"
    else
      match resolver with
      | Some f =>
          if String.eqb (from_address e) ""
          then VerificationResult true true (ve_pubkey e) false "" "" names
          else
            let addr := extract_email_address (from_address e) in
            let ok := match f addr with
                      | Ok pk => String.eqb pk (ve_pubkey e)
                      | Err _ => false
                      end in
            VerificationResult true true (ve_pubkey e) ok addr "" names
      | None => VerificationResult true true (ve_pubkey e) false "" "" names
      end.

Definition get (h : headers) (name : string) : string := default "" (h !! name).

Definition verify_email (resolver : option (string -> res string)) (h : headers) (body : string)
    : verification_result :=
  let h := lower_keys h in
  verify resolver (VerifiableEmail h body (get h (to_lower header_nostr_pubkey))
    (get h (to_lower header_nostr_sig)) (get h (to_lower header_nostr_signed_headers))
    (extract_email_address (get h "from"))).

End crypto.

(** * Canonicalization *)

(** The two [ReplaceAll]s in one pass. *)
Fixpoint unix_newlines (s : string) : string :=
  match s with
  | "" => ""
  | String c t =>
      if Ascii.eqb c CR then
        match t with
        | String d u => if Ascii.eqb d LF then String LF (unix_newlines u) else String LF (unix_newlines t)
        | "" => nl
        end
      else String c (unix_newlines t)
  end.

Lemma string_wf_ind (P : string -> Prop) :
  (forall s, (forall t, (String.length t < String.length s)%nat -> P t) -> P s) -> forall s, P s.
Proof.
  intros H s. remember (String.length s) as n eqn:Hn. revert s Hn.
  induction (lt_wf n) as [n _ IH]; intros s ->. apply H. intros t Ht. by apply (IH _ Ht).
Qed.

Lemma replace_crlf_skip t : replace_go CRLF nl 1 (String LF t) = replace_all t CRLF nl.
Proof. done. Qed.

Lemma replace_crlf_cons c t :
  has_prefix (String c t) CRLF = false ->
  replace_all (String c t) CRLF nl = String c (replace_all t CRLF nl).
Proof. intros H. unfold replace_all. cbn [replace_go]. by rewrite H. Qed.

Lemma replace_crlf_hit t : replace_all (String CR (String LF t)) CRLF nl = String LF (replace_all t CRLF nl).
Proof. unfold replace_all, CRLF. cbn [replace_go]. rewrite !has_prefix_cons, has_prefix_nil. done. Qed.

Lemma replace_cr_cons c t :
  replace_all (String c t) (String CR "") nl
  = String (if Ascii.eqb c CR then LF else c) (replace_all t (String CR "") nl).
Proof.
  unfold replace_all. cbn [replace_go]. rewrite has_prefix_cons, has_prefix_nil, andb_true_r.
  rewrite (Ascii.eqb_sym CR c). by destruct (Ascii.eqb c CR).
Qed.

Lemma normalize_newlines_spec s : normalize_newlines s = unix_newlines s.
Proof.
  induction s as [s IH] using string_wf_ind. unfold normalize_newlines in *.
  destruct s as [|c t]; [done|]. cbn [unix_newlines].
  destruct (Ascii.eqb_spec c CR) as [->|Hc].
  - destruct t as [|d u]; [done|]. destruct (Ascii.eqb_spec d LF) as [->|Hd].
    + rewrite replace_crlf_hit, replace_cr_cons, IH by (simpl; lia). done.
    + rewrite replace_crlf_cons, replace_cr_cons, IH; [done|simpl; lia|].
      unfold CRLF. rewrite !has_prefix_cons, has_prefix_nil.
      destruct (Ascii.eqb_spec LF d); [congruence|done].
  - rewrite replace_crlf_cons, replace_cr_cons, IH by
      first [simpl; lia
            |unfold CRLF; rewrite has_prefix_cons; destruct (Ascii.eqb_spec CR c); [congruence|done]].
    by destruct (Ascii.eqb_spec c CR).
Qed.

Lemma normalize_no_cr s : no_char CR (normalize_newlines s) = true.
Proof.
  rewrite normalize_newlines_spec. induction s as [s IH] using string_wf_ind.
  destruct s as [|c t]; [done|]. cbn [unix_newlines].
  destruct (Ascii.eqb_spec c CR) as [->|Hc].
  - destruct t as [|d u]; [done|]. destruct (Ascii.eqb d LF); rewrite no_char_cons, IH; simpl; (done || lia).
  - rewrite no_char_cons, IH by (simpl; lia). by destruct (Ascii.eqb_spec CR c); [congruence|].
Qed.

Lemma normalize_id s : no_char CR s = true -> normalize_newlines s = s.
Proof.
  rewrite normalize_newlines_spec. induction s as [|c t IH]; [done|].
  rewrite no_char_cons, andb_true_iff, negb_true_iff, Ascii.eqb_neq. intros [Hc Ht].
  cbn [unix_newlines]. destruct (Ascii.eqb_spec c CR); [congruence|]. by rewrite IH.
Qed.

(** The three copies of [canonicalizeBody] do the same. *)
Lemma verifier_body_agrees body : verifier_canonicalize_body body = canonicalize_body body.
Proof. reflexivity. Qed.

Lemma smtp_body_agrees body : smtp_canonicalize_body body = canonicalize_body body.
Proof. reflexivity. Qed.

(** ** Splitting and joining lines *)

Lemma split_nonempty c s : split c s <> [].
Proof. destruct s as [|d s]; simpl; [done|]. by repeat case_match. Qed.

Lemma split_no_sep c s : Forall (fun w => no_char c w = true) (split c s).
Proof.
  induction s as [|d s IH]; simpl; [by repeat constructor|].
  destruct (Ascii.eqb_spec c d) as [->|Hn]; [by constructor|].
  apply Ascii.eqb_neq in Hn.
  destruct (split c s); constructor; rewrite ?no_char_cons, ?Hn; inv IH; simpl; auto.
Qed.

Lemma split_keeps (p : ascii -> bool) c s :
  forall_chars p s = true -> Forall (fun w => forall_chars p w = true) (split c s).
Proof.
  induction s as [|d s IH]; simpl; [by repeat constructor|].
  intros H; reflect_bools. specialize (IH ltac:(done)). destruct (Ascii.eqb c d); [by constructor|].
  destruct (split c s); inv IH; constructor; simpl; rewrite ?H; auto.
Qed.

Lemma join_no_char c sep ws :
  no_char c sep = true -> Forall (fun w => no_char c w = true) ws -> no_char c (join sep ws) = true.
Proof.
  intros Hs Hf. induction Hf as [|w ws Hw Hf IH]; [done|].
  destruct ws as [|w' ws]; [done|]. rewrite join_cons by done.
  by rewrite !no_char_app, Hw, Hs, IH.
Qed.

Lemma trim_right_idemp p s : trim_right p (trim_right p s) = trim_right p s.
Proof.
  induction s as [|c s IH]; [done|]. simpl.
  destruct (trim_right p s) eqn:E.
  - destruct (p c) eqn:Hp; simpl; by rewrite ?Hp.
  - rewrite <- IH at 2. simpl in *. by rewrite IH.
Qed.

Lemma trim_right_keeps (q p : ascii -> bool) s :
  forall_chars q s = true -> forall_chars q (trim_right p s) = true.
Proof.
  induction s as [|c s IH]; [done|]. simpl. intros H; reflect_bools.
  specialize (IH ltac:(done)). destruct (trim_right p s).
  - destruct (p c); simpl; rewrite ?H; done.
  - simpl in *; rewrite H; done.
Qed.

Lemma drop_trailing_idemp l : drop_trailing_blank (drop_trailing_blank l) = drop_trailing_blank l.
Proof.
  induction l as [|w l IH]; [done|]. simpl.
  destruct (drop_trailing_blank l) eqn:E.
  - destruct (String.eqb (trim_space w) "") eqn:Hw; simpl; by rewrite ?Hw.
  - change (drop_trailing_blank (w :: s :: l0)) with
      (match drop_trailing_blank (s :: l0) with
       | [] => if String.eqb (trim_space w) "" then [] else [w]
       | r => w :: r
       end). by rewrite IH.
Qed.

Lemma drop_trailing_forall (P : string -> Prop) l : Forall P l -> Forall P (drop_trailing_blank l).
Proof.
  induction 1 as [|w l Hw Hl IH]; simpl; [constructor|].
  destruct (drop_trailing_blank l); [case_match; by repeat constructor|by constructor].
Qed.

Definition body_lines (body : string) : list string :=
  drop_trailing_blank (map (trim_right blank_or_tab) (split LF (normalize_newlines body))).

Lemma body_lines_clean body :
  Forall (fun w => no_char LF w = true /\ no_char CR w = true /\ trim_right blank_or_tab w = w)
    (body_lines body).
Proof.
  apply drop_trailing_forall, Forall_map.
  eapply Forall_impl; [apply Forall_and; split; [apply split_no_sep|]|].
  { apply (split_keeps (fun d => negb (Ascii.eqb CR d))), normalize_no_cr. }
  intros w [H1 H2]. repeat split; [by apply trim_right_keeps..|apply trim_right_idemp].
Qed.

Lemma map_id_Forall {A} (f : A -> A) l : Forall (fun x => f x = x) l -> map f l = l.
Proof. induction 1; simpl; congruence. Qed.

Lemma canonicalize_lines l :
  l <> [] -> Forall (fun w => no_char LF w = true /\ no_char CR w = true) l ->
  canonicalize_body (join nl l) = join nl (drop_trailing_blank (map (trim_right blank_or_tab) l)).
Proof.
  intros Hne Hl. unfold canonicalize_body.
  rewrite normalize_id by (apply join_no_char; [done|]; eapply Forall_impl; [done|naive_solver]).
  unfold nl at 2. rewrite split_join; [done|done|]. eapply Forall_impl; [done|naive_solver].
Qed.

(** Canonicalizing twice is canonicalizing once. *)
Lemma canonicalize_body_idemp body :
  canonicalize_body (canonicalize_body body) = canonicalize_body body.
Proof.
  change (canonicalize_body body) with (join nl (body_lines body)).
  pose proof (body_lines_clean body) as Hc.
  destruct (decide (body_lines body = [])) as [->|Hne]; [done|].
  rewrite canonicalize_lines; [|done|eapply Forall_impl; [done|naive_solver]].
  rewrite map_id_Forall by (eapply Forall_impl; [done|naive_solver]).
  unfold body_lines at 1. by rewrite drop_trailing_idemp.
Qed.

(** What an SMTP client's dot writer does to line endings: a bare LF gets its
    CR.  [after_cr] says that the byte before was CR. *)
Fixpoint wire_newlines (after_cr : bool) (s : string) : string :=
  match s with
  | "" => ""
  | String c t =>
      if Ascii.eqb c LF
      then (if after_cr then String LF (wire_newlines false t)
            else String CR (String LF (wire_newlines false t)))
      else String c (wire_newlines (Ascii.eqb c CR) t)
  end.

Lemma unix_wire s : unix_newlines (wire_newlines false s) = unix_newlines s.
Proof.
  induction s as [s IH] using string_wf_ind. destruct s as [|c t]; [done|].
  cbn [wire_newlines unix_newlines].
  destruct (Ascii.eqb_spec c LF) as [->|Hl]; [by cbn; rewrite IH by (simpl; lia)|].
  destruct (Ascii.eqb_spec c CR) as [->|Hc]; cbn [unix_newlines].
  - rewrite Ascii.eqb_refl. destruct t as [|d u]; [done|].
    destruct (Ascii.eqb_spec d LF) as [->|Hd]; [by cbn; rewrite IH by (simpl; lia)|].
    specialize (IH (String d u) ltac:(simpl; lia)). cbn [wire_newlines] in *.
    destruct (Ascii.eqb_spec d LF); [done|]. destruct (Ascii.eqb_spec d LF); [done|]. by rewrite IH.
  - destruct (Ascii.eqb_spec c CR); [done|]. by rewrite IH by (simpl; lia).
Qed.

Lemma canonicalize_body_wire body :
  canonicalize_body (wire_newlines false body) = canonicalize_body body.
Proof. unfold canonicalize_body. by rewrite !normalize_newlines_spec, unix_wire. Qed.

(** *** Bodies that are the same text

    A line as it is written down: its text, the blanks and tabs behind it, and
    whether it ends in CRLF or LF.  The last line has no end. *)
Record written_line := WrittenLine { wl_text : string; wl_blanks : string; wl_crlf : bool }.

Definition line_break_free (s : string) : bool := no_char CR s && no_char LF s.

Definition line_ok (l : written_line) : Prop :=
  line_break_free (wl_text l) = true /\ forall_chars blank_or_tab (wl_blanks l) = true.

Fixpoint written (lines : list written_line) (last : written_line) : string :=
  match lines with
  | [] => wl_text last +:+ wl_blanks last
  | l :: lines =>
      (wl_text l +:+ wl_blanks l) +:+ (if wl_crlf l then CRLF else nl) +:+ written lines last
  end.

Definition texts (lines : list written_line) (last : written_line) : list string :=
  map wl_text lines ++ [wl_text last].

(** [same_text body body']: [body'] is [body] with other line ends (LF or CRLF,
    line by line), other blanks at the ends of lines and other blank lines at
    the end; or it is what an SMTP client's dot writer makes of [body]. *)
Inductive same_text (body : string) : string -> Prop :=
| Rewritten lines last lines' last' m n :
    body = written lines last -> Forall line_ok (lines ++ [last]) -> Forall line_ok (lines' ++ [last']) ->
    texts lines last ++ replicate m "" = texts lines' last' ++ replicate n "" ->
    same_text body (written lines' last')
| Wired : same_text body (wire_newlines false body).

Lemma unix_app a b : no_char CR a = true -> unix_newlines (a +:+ b) = a +:+ unix_newlines b.
Proof.
  induction a as [|c a IH]; [done|]. rewrite no_char_cons, andb_true_iff, negb_true_iff, Ascii.eqb_neq.
  intros [Hc Ha]. cbn. destruct (Ascii.eqb_spec c CR); [congruence|]. by rewrite IH.
Qed.

Lemma split_line c a b : no_char c a = true -> split c (a +:+ String c b) = a :: split c b.
Proof.
  induction a as [|d a IH]; cbn; [by rewrite Ascii.eqb_refl|].
  intros H. reflect_bools. rewrite IH by done. destruct (Ascii.eqb_spec c d); [by subst|done].
Qed.

Lemma split_last c a : no_char c a = true -> split c a = [a].
Proof.
  induction a as [|d a IH]; cbn; [done|]. intros H. reflect_bools. rewrite IH by done.
  destruct (Ascii.eqb_spec c d); [by subst|done].
Qed.

Lemma blanks_free b : forall_chars blank_or_tab b = true -> line_break_free b = true.
Proof.
  unfold line_break_free. induction b as [|c b IH]; [done|]. rewrite !no_char_cons. simpl. intros H.
  reflect_bools. specialize (IH ltac:(done)). apply andb_true_iff in IH as [-> ->].
  unfold blank_or_tab in *. destruct (Ascii.eqb_spec c " "); [by subst|].
  destruct (Ascii.eqb_spec c "009"); [by subst|done].
Qed.

Lemma trim_blanks s b :
  forall_chars blank_or_tab b = true -> trim_right blank_or_tab (s +:+ b) = trim_right blank_or_tab s.
Proof.
  intros Hb. assert (trim_right blank_or_tab b = "") as Ht.
  { induction b as [|c b IH]; [done|]. cbn in *. reflect_bools. by rewrite IH, H. }
  induction s as [|c s IH]; [done|]. cbn. by rewrite IH.
Qed.

Lemma line_free l : line_ok l -> no_char CR (wl_text l +:+ wl_blanks l) = true /\ no_char LF (wl_text l +:+ wl_blanks l) = true.
Proof.
  intros [Ht Hb%blanks_free]. unfold line_break_free in *. rewrite !no_char_app.
  apply andb_true_iff in Ht as [-> ->], Hb as [-> ->]. done.
Qed.

Lemma written_lines lines last :
  Forall line_ok (lines ++ [last]) ->
  map (trim_right blank_or_tab) (split LF (normalize_newlines (written lines last))) =
  map (trim_right blank_or_tab) (texts lines last).
Proof.
  rewrite normalize_newlines_spec. induction lines as [|l lines IH]; intros Hok; apply Forall_cons in Hok as [Hl Hok];
    destruct (line_free _ Hl) as [Hcr Hlf]; cbn [written].
  - rewrite <- (app_nil_r_str (wl_text last +:+ wl_blanks last)), unix_app by done. cbn [unix_newlines].
    rewrite app_nil_r_str, split_last by done. simpl. by rewrite trim_blanks by apply Hl.
  - rewrite unix_app by done.
    assert (unix_newlines ((if wl_crlf l then CRLF else nl) +:+ written lines last) =
      String LF (unix_newlines (written lines last))) as -> by (by destruct (wl_crlf l)).
    rewrite split_line by done. unfold texts in *. simpl. rewrite trim_blanks by apply Hl. by rewrite IH.
Qed.

Lemma drop_blank_tail l n : drop_trailing_blank (l ++ replicate n "") = drop_trailing_blank l.
Proof.
  induction l as [|w l IH]; simpl; [|by rewrite IH]. induction n as [|n IH]; [done|]. simpl. by rewrite IH.
Qed.

(** The canonical form is that of the text. *)
Lemma canonicalize_same_text body body' : same_text body body' -> canonicalize_body body' = canonicalize_body body.
Proof.
  destruct 1 as [lines last lines' last' m n -> Hok Hok' Ht|]; [|apply canonicalize_body_wire].
  unfold canonicalize_body. rewrite !written_lines by done. f_equal.
  assert (forall l k, drop_trailing_blank (map (trim_right blank_or_tab) l) =
    drop_trailing_blank (map (trim_right blank_or_tab) (l ++ replicate k ""))) as Hk.
  { intros l k. rewrite map_app. change (map (trim_right blank_or_tab) (replicate k "")) with
      (trim_right blank_or_tab <$> replicate k ""). rewrite fmap_replicate. by rewrite drop_blank_tail. }
  by rewrite (Hk _ n), (Hk (texts lines last) m), Ht.
Qed.

(** ** Sorting header names *)

Lemma ascii_compare_le a b : Ascii.compare a b = (nat_of_ascii a ?= nat_of_ascii b)%nat.
Proof.
  unfold Ascii.compare, nat_of_ascii. apply N2Nat.inj_compare.
Qed.

#[export] Instance string_le_total : Total string_le.
Proof. intros a b. apply String.leb_total. Qed.
#[export] Instance string_le_antisymm : AntiSymm (=) string_le.
Proof. intros a b. apply String.leb_antisym. Qed.
#[export] Instance string_le_trans : Transitive string_le.
Proof.
  intros a. unfold string_le, String.leb.
  induction a as [|x a IH]; intros [|y b] [|z c]; simpl; try done.
  rewrite !ascii_compare_le.
  destruct (Nat.compare_spec (nat_of_ascii x) (nat_of_ascii y)) as [Hxy|Hxy|Hxy]; try done;
  destruct (Nat.compare_spec (nat_of_ascii y) (nat_of_ascii z)) as [Hyz|Hyz|Hyz]; try done;
  destruct (Nat.compare_spec (nat_of_ascii x) (nat_of_ascii z)) as [Hxz|Hxz|Hxz]; try lia; try done.
  apply IH.
Qed.

Lemma sort_strings_idemp l : sort_strings (sort_strings l) = sort_strings l.
Proof.
  unfold sort_strings. apply (StronglySorted_unique string_le);
    [apply StronglySorted_merge_sort; apply _..|]. apply merge_sort_Permutation.
Qed.

Lemma sort_strings_In x l : In x (sort_strings l) <-> In x l.
Proof.
  unfold sort_strings. pose proof (merge_sort_Permutation string_le l) as Hp.
  split; intros H; [by eapply Permutation_in|]. eapply Permutation_in; [by symmetry|done].
Qed.

(** ** Keys in lower case *)

(** No two headers differ in case alone. *)
Definition distinct_headers (h : headers) : Prop :=
  forall a b, is_Some (h !! a) -> is_Some (h !! b) -> to_lower a = to_lower b -> a = b.

Lemma lower_keys_lookup h name v :
  distinct_headers h ->
  lower_keys h !! name = Some v <-> exists k, h !! k = Some v /\ to_lower k = name.
Proof.
  intros Hd. unfold lower_keys.
  assert (forall n w, (n, w) ∈ map (fun kv => (to_lower kv.1, kv.2)) (map_to_list h) <->
                      exists k, h !! k = Some w /\ to_lower k = n) as Hin.
  { intros n w. rewrite list_elem_of_In, in_map_iff. split.
    - intros ([k v'] & [= <- <-] & H). rewrite <- list_elem_of_In, elem_of_map_to_list in H. by exists k.
    - intros (k & H & <-). exists (k, w). by rewrite <- list_elem_of_In, elem_of_map_to_list. }
  rewrite <- elem_of_list_to_map'; [apply Hin|].
  intros w. rewrite !Hin. intros (k1 & H1 & <-) (k2 & H2 & E).
  assert (k2 = k1) as -> by (apply Hd; eauto). congruence.
Qed.

Lemma lower_keys_distinct h : distinct_headers h -> distinct_headers (lower_keys h).
Proof.
  intros Hd a b [v Ha] [w Hb] E.
  apply lower_keys_lookup in Ha as (ka & _ & <-), Hb as (kb & _ & <-); [|done..].
  by rewrite !to_lower_idemp in E.
Qed.

Lemma lower_keys_idemp h : distinct_headers h -> lower_keys (lower_keys h) = lower_keys h.
Proof.
  intros Hd. apply map_eq. intros n. apply option_eq. intros v.
  rewrite (lower_keys_lookup (lower_keys h)) by by apply lower_keys_distinct.
  rewrite (lower_keys_lookup h) by done. split.
  - intros (k & (k' & H & <-)%lower_keys_lookup & E); [|done]. exists k'. by rewrite to_lower_idemp in E.
  - intros (k & H & <-). exists (to_lower k). rewrite to_lower_idemp, lower_keys_lookup by done. eauto.
Qed.

(** ** The signature headers *)

Definition signature_names : list string :=
  [header_nostr_pubkey; header_nostr_sig; header_nostr_signed_headers].

Definition signable_names : list string := default_signed_headers ++ optional_signed_headers.

Lemma signable_facts :
  Forall (fun n => to_lower n = n /\ no_char ";" n = true /\ n <> "" /\
                   Forall (fun m => to_lower m <> n) signature_names) signable_names.
Proof. refine (proj1 (bool_decide_eq_true _) _). vm_compute. reflexivity. Qed.

Lemma selected_names h n :
  In n (select_headers_to_sign h) <-> In n signable_names /\ present h n = true.
Proof.
  unfold select_headers_to_sign, signable_names. rewrite sort_strings_In, !in_app_iff, !filter_In.
  tauto.
Qed.

Lemma selected_signable h : Forall (fun n => In n signable_names) (select_headers_to_sign h).
Proof. apply List.Forall_forall. intros n Hn. by apply selected_names in Hn as []. Qed.

Lemma split_selected h :
  select_headers_to_sign h <> [] ->
  split ";" (join ";" (select_headers_to_sign h)) = select_headers_to_sign h /\
  join ";" (select_headers_to_sign h) <> "".
Proof.
  intros Hne. pose proof (selected_signable h) as Hs.
  pose proof (proj1 (List.Forall_forall _ _) signable_facts) as Hf. split.
  - apply split_join; [done|]. eapply Forall_impl; [done|]. intros n Hn. by apply Hf.
  - destruct (select_headers_to_sign h) as [|w ws]; [done|]. inv Hs.
    destruct (Hf w) as (_ & _ & Hw & _); [done|].
    destruct ws; [done|]. rewrite join_cons by done. by destruct w.
Qed.

Lemma add_signature_lookup h r n :
  Forall (fun m => m <> n) signature_names -> add_signature_headers h r !! n = h !! n.
Proof.
  unfold add_signature_headers, signature_names. rewrite !Forall_cons. intros (? & ? & ? & _).
  by rewrite !lookup_insert_ne by done.
Qed.

Lemma distinct_before h r : distinct_headers (add_signature_headers h r) -> distinct_headers h.
Proof.
  intros Hd. assert (forall a, is_Some (h !! a) -> is_Some (add_signature_headers h r !! a)) as Hi.
  { intros a Ha. unfold add_signature_headers. by rewrite !lookup_insert_is_Some'; auto. }
  intros a b Ha Hb. apply Hd; auto.
Qed.

(** Adding the signature headers does not touch a header that may be signed. *)
Lemma signed_header_kept h r n :
  distinct_headers (add_signature_headers h r) -> In n signable_names ->
  lower_keys (add_signature_headers h r) !! n = lower_keys h !! n.
Proof.
  intros Hd Hn. pose proof (distinct_before _ _ Hd) as Hd0.
  destruct (proj1 (List.Forall_forall _ _) signable_facts _ Hn) as (_ & _ & _ & Hs).
  apply option_eq. intros v. rewrite !lower_keys_lookup by done.
  assert (forall k, to_lower k = n -> add_signature_headers h r !! k = h !! k) as Hk.
  { intros k <-. apply add_signature_lookup. eapply Forall_impl; [done|]. by intros m Hm ->. }
  split; intros (k & H & E); exists k; by rewrite Hk in *.
Qed.

Lemma signature_header_found h r name v :
  distinct_headers (add_signature_headers h r) ->
  add_signature_headers h r !! name = Some v ->
  get (lower_keys (add_signature_headers h r)) (to_lower name) = v.
Proof.
  intros Hd Hv. unfold get.
  assert (lower_keys (add_signature_headers h r) !! to_lower name = Some v) as ->; [|done].
  apply lower_keys_lookup; eauto.
Qed.

Lemma added_headers_found h r :
  distinct_headers (add_signature_headers h r) ->
  let L := lower_keys (add_signature_headers h r) in
  get L (to_lower header_nostr_pubkey) = pubkey r /\
  get L (to_lower header_nostr_sig) = signature r /\
  get L (to_lower header_nostr_signed_headers) = signed_headers r.
Proof.
  intros Hd L. repeat split; apply signature_header_found; try done; unfold add_signature_headers.
  - by rewrite !lookup_insert_ne, lookup_insert_eq by done.
  - by rewrite lookup_insert_ne, lookup_insert_eq by done.
  - by rewrite lookup_insert_eq.
Qed.

(** ** Parts of the canonical form *)

Lemma canonical_parts_ext h1 h2 names :
  Forall (fun n => h1 !! n = h2 !! n) names ->
  flat_map (canonical_part h1) names = flat_map (canonical_part h2) names.
Proof.
  induction 1 as [|n names Hn _ IH]; [done|]. simpl. by rewrite IH; unfold canonical_part; rewrite Hn.
Qed.

Lemma canonical_parts_lower h names :
  Forall (fun n => to_lower n = n) names ->
  flat_map (fun n => canonical_part h (to_lower n)) names = flat_map (canonical_part h) names.
Proof. induction 1 as [|n names Hn _ IH]; [done|]. simpl. by rewrite IH, Hn. Qed.

(** The headers a signature covers, as name and value. *)
Definition covered (h : headers) (names : list string) : list (string * string) :=
  flat_map (fun n => match h !! n with
                     | Some v => [(to_lower n, canonical_value v)]
                     | None => []
                     end) (sort_strings names).

Definition render_part (nv : string * string) : string := nv.1 +:+ ":" +:+ nv.2.

Lemma covered_parts h names :
  flat_map (canonical_part h) (sort_strings names) = map render_part (covered h names).
Proof.
  unfold covered. induction (sort_strings names) as [|n l IH]; [done|]. simpl.
  rewrite map_app, IH. unfold canonical_part. by destruct (h !! n).
Qed.

(** A name and a value that one canonical line can hold. *)
Definition one_line (nv : string * string) : Prop :=
  no_char ":" nv.1 = true /\ no_char LF nv.1 = true /\ no_char LF nv.2 = true.

Lemma render_part_inj a b : one_line a -> one_line b -> render_part a = render_part b -> a = b.
Proof.
  destruct a as [n v], b as [m w]. unfold one_line, render_part; simpl.
  intros (Hn & _ & _) (Hm & _ & _) E. apply (sep_inj_l ":") in E as [-> ->]; done.
Qed.

Lemma render_part_lf a : one_line a -> no_char LF (render_part a) = true.
Proof.
  intros (_ & H1 & H2). unfold render_part. by rewrite !no_char_app, H1, H2.
Qed.

Lemma render_part_nonempty a : render_part a <> "".
Proof. destruct a as [[] v]; done. Qed.

Lemma join_render_nonempty a l : join nl (map render_part (a :: l)) <> "".
Proof.
  destruct l as [|b l]; [apply render_part_nonempty|]. cbn [map]. rewrite join_cons by done.
  destruct a as [[] v]; done.
Qed.

Lemma map_render_inj l1 l2 :
  Forall one_line l1 -> Forall one_line l2 -> map render_part l1 = map render_part l2 -> l1 = l2.
Proof.
  intros H1. revert l2. induction H1 as [|a l1 Ha H1 IH]; intros [|b l2] H2 E; try done.
  apply Forall_cons in H2 as [Hb H2]. cbn [map] in E. injection E as Eh Et.
  f_equal; [by apply render_part_inj|by apply IH].
Qed.

Lemma join_render_inj l1 l2 :
  Forall one_line l1 -> Forall one_line l2 ->
  join nl (map render_part l1) = join nl (map render_part l2) -> l1 = l2.
Proof.
  intros H1 H2 E.
  destruct l1 as [|a l1], l2 as [|b l2]; [done|by edestruct join_render_nonempty..|].
  apply map_render_inj; [done..|].
  assert (forall l, Forall one_line l -> Forall (fun w => no_char LF w = true) (map render_part l)) as Hl.
  { intros l Hl. apply Forall_map. eapply Forall_impl; [done|]. apply render_part_lf. }
  rewrite <- (split_join LF (map render_part (a :: l1))), <- (split_join LF (map render_part (b :: l2)));
    [unfold nl in E; by rewrite E|done|by apply Hl..|done|by apply Hl].
Qed.

Lemma app_inj_tail_str (a b s t : string) :
  String.length s = String.length t -> a +:+ s = b +:+ t -> a = b /\ s = t.
Proof.
  intros Hl. revert b. induction a as [|x a IH]; intros [|y b] E; [done|..].
  - apply (f_equal String.length) in E. rewrite (length_app_str (String y b)) in E. simpl in E. lia.
  - apply (f_equal String.length) in E. rewrite (length_app_str (String x a)) in E. simpl in E. lia.
  - simpl in E. injection E as -> E. by destruct (IH b E) as [-> ->].
Qed.

(** * Theorems *)

Section theorems.
Context (sha256 : string -> string).
Context (check_signature : string -> string -> string -> bool).
Context {K : Type} `{!Signer K, !SignerLaws check_signature K}.

Lemma verifier_agrees h r body body' :
  distinct_headers (add_signature_headers h r) ->
  canonicalize_body body' = canonicalize_body body ->
  let L := lower_keys (add_signature_headers h r) in
  verifier_canonicalize sha256
    (VerifiableEmail L body' (get L (to_lower header_nostr_pubkey)) (get L (to_lower header_nostr_sig))
       (get L (to_lower header_nostr_signed_headers)) (extract_email_address (get L "from")))
    (select_headers_to_sign (lower_keys h))
  = canonicalize sha256 (lower_keys h) body (select_headers_to_sign (lower_keys h)).
Proof.
  intros Hd Hb L. unfold verifier_canonicalize, canonicalize, with_body_hash. cbn [ve_headers ve_body].
  rewrite verifier_body_agrees, Hb. unfold L. rewrite lower_keys_idemp by done. f_equal. f_equal.
  pose proof (proj1 (List.Forall_forall _ _) signable_facts) as Hf.
  assert (Forall (fun n => In n signable_names)
            (sort_strings (select_headers_to_sign (lower_keys h)))) as Hs.
  { apply List.Forall_forall. intros n Hn. rewrite sort_strings_In in Hn.
    by apply selected_names in Hn as []. }
  rewrite canonical_parts_lower by (eapply Forall_impl; [done|]; intros n Hn; by apply Hf).
  apply canonical_parts_ext. eapply Forall_impl; [done|]. intros n Hn. by apply signed_header_kept.
Qed.

Lemma sign_ok (h : headers) body (k : K) r :
  sign_email_headers sha256 k h body = Ok r ->
  let c := canonicalize sha256 (lower_keys h) body (select_headers_to_sign (lower_keys h)) in
  r = SignResult (signature r) (public_key k) (join ";" (select_headers_to_sign (lower_keys h))) c /\
  sign_event k (hex_encode (sha256 c)) = Ok (signature r).
Proof.
  unfold sign_email_headers, sign, sign_message. intros E; cbv zeta.
  destruct (sign_event k _) eqn:Es; simpl in E; [|done]. simplify_eq/=. done.
Qed.

Lemma nonempty_of_length s n : (0 <? n) = true -> str_len s = n -> String.eqb s "" = false.
Proof. destruct s; [|done]. unfold str_len. simpl. by intros H <-. Qed.

(** C10. What [SignEmail] signs, [VerifyEmail] accepts once the three headers are
    added, naming the signer's key and the signed headers, also when on the way
    the ends of lines changed between LF and CRLF, blanks and tabs were added or
    removed at the ends of lines, or blank lines at the end of the body
    ([same_text]).  The mail must have at least one header that is signed, and
    no two headers that differ in case alone. *)
Theorem signed_email_verifies (resolver : option (string -> res string)) (h : headers)
    (body body' : string) (k : K) (r : sign_result)
    (Hsign : sign_email_headers sha256 k h body = Ok r)
    (Hdist : distinct_headers (add_signature_headers h r))
    (Hsome : select_headers_to_sign (lower_keys h) <> [])
    (Hbody : same_text body body') :
  let v := verify_email sha256 check_signature resolver (add_signature_headers h r) body' in
  v_signed v = true /\ v_valid v = true /\ v_pubkey v = public_key k /\
  v_signed_headers v = select_headers_to_sign (lower_keys h) /\ v_reason v = "".
Proof.
  apply sign_ok in Hsign as [Hr Hev].
  destruct (signer_format check_signature k _ _ Hev) as [Hl Hx], (key_format check_signature k) as [Kl Kx].
  pose proof (signer_checks check_signature k _ _ Hev) as Hc.
  destruct (split_selected (lower_keys h) Hsome) as [Hsp Hj].
  assert (signed_headers r = join ";" (select_headers_to_sign (lower_keys h))) as Hn by by rewrite Hr.
  assert (pubkey r = public_key k) as Hk by by rewrite Hr.
  pose proof (verifier_agrees h r body body' Hdist (canonicalize_same_text _ _ Hbody)) as Hv. cbv zeta in Hv.
  destruct (added_headers_found h r Hdist) as (Ep & Es & En).
  unfold verify_email. cbv zeta. rewrite Ep, Es, En in *. rewrite Hk, Hn in *.
  unfold verify. cbn [ve_pubkey ve_sig ve_signed_headers from_address].
  rewrite (nonempty_of_length _ 128 eq_refl Hl), (nonempty_of_length _ 64 eq_refl Kl), (proj2 (String.eqb_neq _ _) Hj).
  rewrite Hsp, Hl, Kl, Hx, Kx, Hv. unfold verify_schnorr. rewrite Hc. simpl.
  destruct resolver as [f|]; [|done]. by destruct (String.eqb (extract_email_address _) "").
Qed.

(** What the transport signs on the way out is what [EmailSigner.Sign] signs:
    the two copies of the algorithm select the same headers, build the same
    canonical bytes and report the same header values and errors. *)
Theorem smtp_signs_like_signer (h : headers) (body : string) (k : option K) :
  smtp_sign_email sha256 h body k
  = match k with
    | None => Ok None
    | Some k =>
        match sign sha256 h body k with
        | Err e => Err e
        | Ok r => Ok (Some [(header_nostr_pubkey, pubkey r); (header_nostr_sig, signature r);
                            (header_nostr_signed_headers, signed_headers r)])
        end
    end.
Proof.
  destruct k as [k|]; [|done]. unfold smtp_sign_email, sign.
  assert (smtp_canonical sha256 h body = canonicalize sha256 h body (select_headers_to_sign h)) as ->.
  { unfold smtp_canonical, canonicalize. rewrite smtp_body_agrees. f_equal. f_equal. f_equal.
    unfold smtp_headers_to_sign, select_headers_to_sign. by rewrite sort_strings_idemp. }
  by destruct (sign_message sha256 k _).
Qed.

(** The canonical bytes determine the mail they were made from: when no covered
    name or value holds a line break (and no name a colon), two mails with the
    same canonical bytes have the same covered headers with the same values, in
    the same order, and bodies with the same hash, whichever header lists the
    two sides named. *)
Theorem canonical_bytes_bind_mail (h1 h2 : headers) (body1 body2 : string) (names1 names2 : list string)
    (Hlen : forall s, String.length (sha256 s) = 32%nat)
    (H1 : Forall one_line (covered h1 names1)) (H2 : Forall one_line (covered h2 names2))
    (Heq : canonicalize sha256 h1 body1 names1 = canonicalize sha256 h2 body2 names2) :
  covered h1 names1 = covered h2 names2 /\
  sha256 (canonicalize_body body1) = sha256 (canonicalize_body body2).
Proof.
  unfold canonicalize, with_body_hash in Heq. rewrite !covered_parts, <- !app_assoc_str in Heq.
  apply app_inj_tail_str in Heq as [Hh Hb]; [|by rewrite !Hlen]. split; [|done].
  apply app_inj_tail_str in Hh as [Hh _]; [|done]. by apply join_render_inj.
Qed.

(** A NIP-05 answer never changes whether a signature is valid; an address
    counts as verified only when the signature is valid and the resolver names
    the signing key for the address of the From header. *)
Theorem nip05_only_confirms (f : string -> res string) (e : verifiable_email) :
  let v := verify sha256 check_signature (Some f) e in
  let v0 := verify sha256 check_signature None e in
  v_signed v = v_signed v0 /\ v_valid v = v_valid v0 /\ v_reason v = v_reason v0 /\
  (nip05_verified v = true <->
     v_valid v0 = true /\ from_address e <> "" /\
     f (extract_email_address (from_address e)) = Ok (ve_pubkey e)).
Proof.
  cbv zeta. unfold verify.
  repeat match goal with
  | |- context [if ?b then invalid _ _ _ else _] =>
      destruct b; [split_and!; [done..|split; [done|by intros [? _]]]|]
  | |- context [if ?b then VerificationResult false _ _ _ _ _ _ else _] =>
      destruct b; [split_and!; [done..|split; [done|by intros [? _]]]|]
  end.
  destruct (String.eqb_spec (from_address e) "") as [->|Hne]; cbn.
  - split_and!; [done..|]. split; [done|]. by intros (_ & ? & _).
  - split_and!; [done..|]. destruct (f _) as [pk|]; cbn.
    + rewrite String.eqb_eq. split; [by intros ->|]. by intros (_ & _ & [= ->]).
    + split; [done|]. by intros (_ & _ & ?).
Qed.

End theorems.

(** * A sample key *)

Fixpoint repeat_char (n : nat) (c : ascii) : string :=
  match n with O => "" | S n => String c (repeat_char n c) end.

(** A toy digest of 32 bytes: the first bytes of the text, padded. *)
Definition sample_digest (s : string) : string := take_str 32 (s +:+ repeat_char 32 "0").
(** A toy signature: the key followed by the content, which is 64 digits. *)
Definition sample_check (pk content sig : string) : bool :=
  String.eqb sig (pk +:+ take_str 64 (content +:+ repeat_char 64 "0")).

Definition sample_sign (content : string) : res string :=
  let sig := repeat_char 64 "a" +:+ take_str 64 (content +:+ repeat_char 64 "0") in
  if (str_len sig =? 128) && hex_decodes sig then Ok sig else Err (Sentinel "bad content").

#[export] Instance sample_signer : Signer unit :=
  {| public_key := fun _ => repeat_char 64 "a"; sign_event := fun _ c => sample_sign c |}.

#[export] Instance sample_laws : SignerLaws sample_check unit.
Proof.
  split.
  - intros [] c sig. simpl. unfold sample_sign, sample_check. case_match; [|done].
    intros [= <-]. by apply String.eqb_refl.
  - intros [] c sig. simpl. unfold sample_sign. case_match; [|done].
    intros [= <-]. reflect_bools. done.
  - intros []. split; vm_compute; reflexivity.
Defined.

Lemma distinct_headers_check (h : headers) :
  bool_decide (NoDup (map (fun kv => to_lower kv.1) (map_to_list h))) = true -> distinct_headers h.
Proof.
  intros H%bool_decide_eq_true a b [v Ha] [w Hb] E.
  apply elem_of_map_to_list in Ha, Hb. induction (map_to_list h) as [|[k x] l IH]; [by apply elem_of_nil in Ha|].
  apply NoDup_cons in H as [Hn Hd]. rewrite elem_of_cons in Ha, Hb.
  assert (forall c y, (c, y) ∈ l -> to_lower c <> to_lower k) as Hfresh.
  { intros c y Hc Ec. apply Hn. simpl. rewrite <- Ec.
    apply (list_elem_of_fmap_2 (fun kv => to_lower kv.1) l (c, y)), Hc. }
  destruct Ha as [[= -> ->]|Ha], Hb as [[= -> ->]|Hb]; try done.
  - exfalso. by eapply Hfresh.
  - exfalso. by eapply Hfresh.
  - by apply IH.
Qed.

Definition sample_mail : headers :=
  list_to_map [("From", "Alice <alice@cloistr.xyz>"); ("To", "bob@example.com");
               ("Subject", " hello "); ("X-Mailer", "cloistr")].
Definition sample_body : string := "line one  " +:+ CRLF +:+ "line two" +:+ CRLF +:+ CRLF.
Definition sample_received : string := "line one" +:+ nl +:+ "line two".

Definition sample_result : sign_result :=
  match sign_email_headers sample_digest tt sample_mail sample_body with
  | Ok r => r
  | Err _ => SignResult "" "" "" ""
  end.

Definition sent_lines : list written_line := [WrittenLine "line one" "  " true; WrittenLine "line two" "" true; WrittenLine "" "" true].
Definition received_lines : list written_line := [WrittenLine "line one" "" false].

Lemma signed_email_verifies_witness :
  v_valid (verify_email sample_digest sample_check None
             (add_signature_headers sample_mail sample_result) sample_received) = true.
Proof.
  apply (signed_email_verifies sample_digest sample_check None sample_mail sample_body sample_received tt
           sample_result).
  - vm_compute. reflexivity.
  - apply distinct_headers_check. vm_compute. reflexivity.
  - refine (proj1 (bool_decide_eq_true _) _). vm_compute. reflexivity.
  - apply (Rewritten sample_body sent_lines (WrittenLine "" "" false) received_lines
      (WrittenLine "line two" "" false) 0 2).
    + reflexivity.
    + repeat constructor.
    + repeat constructor.
    + reflexivity.
Defined.

Lemma sample_digest_length s : String.length (sample_digest s) = 32%nat.
Proof.
  unfold sample_digest. cut (32 <= String.length (s +:+ repeat_char 32 "0"))%nat.
  - generalize (s +:+ repeat_char 32 "0") as t. unfold take_str. generalize 32%nat as n.
    intros n t; revert n; induction t as [|c t IH]; intros [|n] H; simpl in *; try lia. rewrite IH; lia.
  - rewrite length_app_str. simpl. lia.
Defined.

Lemma canonical_bytes_bind_mail_witness :
  covered (list_to_map [("subject", "hi ")]) ["subject"; "to"]
  = covered (list_to_map [("subject", " hi"); ("date", "x")]) ["Subject"; "subject"].
Proof.
  refine (proj1 (canonical_bytes_bind_mail sample_digest (list_to_map [("subject", "hi ")])
           (list_to_map [("subject", " hi"); ("date", "x")]) sample_body sample_received
           ["subject"; "to"] ["Subject"; "subject"] sample_digest_length _ _ _)).
  - refine (proj1 (bool_decide_eq_true _) _). vm_compute. reflexivity.
  - refine (proj1 (bool_decide_eq_true _) _). vm_compute. reflexivity.
  - vm_compute. reflexivity.
Defined.
