(* ===== verification/ConnLimiter.v ===== *)
(** * Inbound connection limits: internal/transport/ratelimit.go

    Per-IP counters of connections and messages, each call made at one instant
    [now] under the limiter's lock.  A Go map of pointers that are only ever
    reached through the map is a map of values. *)

From S2P Require Import Prelude GoStrings.

Record entry := Entry { count : Z; window : Z; blocked : bool; blocked_at : Z }.

Record config := Config {
  connections_per_minute : Z;
  messages_per_minute : Z;
  messages_per_hour : Z;
  recipients_per_message : Z;
  block_duration : Z;
  whitelisted_ips : list string;
  cleanup_interval : Z }.

Definition default_config : config := {|
  connections_per_minute := 30;
  messages_per_minute := 10;
  messages_per_hour := 100;
  recipients_per_message := 50;
  block_duration := 15 * minute;
  whitelisted_ips := [];
  cleanup_interval := 5 * minute |}.

Record limiter := Limiter { connections : gmap string entry; messages : gmap string entry }.

Definition new_limiter : limiter := Limiter ∅ ∅.

(** [RateLimitError]; [retry_at] is [None] for Go's zero time. *)
Record limit_error := LimitError { le_ip : string; le_reason : string; retry_at : option Z }.

Definition is_whitelisted (cfg : config) (ip : string) : bool :=
  existsb (String.eqb ip) (whitelisted_ips cfg).

(** [getOrCreateEntry]; the zero time is 0. *)
Definition get_or_create (now : Z) (m : gmap string entry) (ip : string) : entry :=
  default (Entry 0 now false 0) (m !! ip).

(** The entry once an expired block and an elapsed window are reset. *)
Definition refreshed (now : Z) (e : entry) : entry :=
  let e := if blocked e then Entry 0 now false (blocked_at e) else e in
  if minute <? time_sub now (window e) then Entry 0 now (blocked e) (blocked_at e) else e.

(** The common body of [AllowConnection] and [AllowMessage]. *)
Definition touch (cfg : config) (limit : Z) (reason ip : string) (now : Z) (m : gmap string entry)
    : gmap string entry * option limit_error :=
  let e := get_or_create now m ip in
  if blocked e && (time_sub now (blocked_at e) <? block_duration cfg)
  then (<[ip := e]> m, Some (LimitError ip "temporarily blocked" (Some (blocked_at e + block_duration cfg))))
  else
    let e := refreshed now e in
    let e := Entry (count e + 1) (window e) (blocked e) (blocked_at e) in
    if limit <? count e
    then (<[ip := Entry (count e) (window e) true now]> m,
          Some (LimitError ip reason (Some (now + block_duration cfg))))
    else (<[ip := e]> m, None).

Definition allow_connection (cfg : config) (ip : string) (now : Z) (l : limiter)
    : limiter * option limit_error :=
  if is_whitelisted cfg ip then (l, None)
  else let '(m, r) := touch cfg (connections_per_minute cfg) "too many connections" ip now (connections l) in
       (Limiter m (messages l), r).

Definition allow_message (cfg : config) (ip : string) (recipient_count : Z) (now : Z) (l : limiter)
    : limiter * option limit_error :=
  if is_whitelisted cfg ip then (l, None)
  else if recipients_per_message cfg <? recipient_count
  then (l, Some (LimitError ip ("too many recipients (" +:+ pretty recipient_count +:+ " > " +:+
                                pretty (recipients_per_message cfg) +:+ ")") None))
  else let '(m, r) := touch cfg (messages_per_minute cfg) "too many messages per minute" ip now (messages l) in
       (Limiter (connections l) m, r).

(** [RecordMessage] does nothing. *)
Definition record_message (ip : string) (l : limiter) : limiter := l.

Definition stale (cfg : config) (now : Z) (e : entry) : bool :=
  (window e <? now - block_duration cfg * 2) && negb (blocked e).

Definition cleanup (cfg : config) (now : Z) (l : limiter) : limiter :=
  Limiter (filter (fun kv => stale cfg now kv.2 = false) (connections l))
          (filter (fun kv => stale cfg now kv.2 = false) (messages l)).

Record limit_stats := LimitStats { tracked_ips : Z; blocked_ips : Z; total_messages : Z }.

Definition stats (l : limiter) : limit_stats := {|
  tracked_ips := Z.of_nat (size (connections l));
  blocked_ips := map_fold (fun _ e acc => (if blocked e then 1 else 0) + acc) 0 (connections l);
  total_messages := map_fold (fun _ e acc => count e + acc) 0 (messages l) |}.

(** ** The middleware

    [ip] is what the context carries; the wrapped handler returns its error, and
    the middleware turns a limit into a permanent (550) error. *)
Inductive handled := Delivered | HandlerError (e : error) | Refused (e : limit_error).

Definition handle_message (cfg : config) (ip : option string) (recipient_count now : Z)
    (handler : option error) (l : limiter) : limiter * handled :=
  let ip := default "" ip in
  let ip := if String.eqb ip "" then "unknown" else ip in
  match allow_message cfg ip recipient_count now l with
  | (l, Some e) => (l, Refused e)
  | (l, None) =>
      match handler with
      | Some e => (l, HandlerError e)
      | None => (record_message ip l, Delivered)
      end
  end.

(** A run of calls on one of the two maps: each is allowed or refused. *)
Inductive call := Request (ip : string) (now : Z) | Sweep (now : Z).

Definition call_time (c : call) : Z := match c with Request _ now | Sweep now => now end.

Definition sweep (cfg : config) (now : Z) (m : gmap string entry) : gmap string entry :=
  filter (fun kv => stale cfg now kv.2 = false) m.

Definition call_step (cfg : config) (limit : Z) (reason : string) (c : call) (m : gmap string entry)
    : gmap string entry * option (option limit_error) :=
  match c with
  | Request ip now => let '(m, r) := touch cfg limit reason ip now m in (m, Some r)
  | Sweep now => (sweep cfg now m, None)
  end.

Fixpoint run_calls (cfg : config) (limit : Z) (reason : string) (cs : list call) (m : gmap string entry)
    : gmap string entry * list (option limit_error) :=
  match cs with
  | [] => (m, [])
  | c :: cs =>
      let '(m, r) := call_step cfg limit reason c m in
      let '(m, rs) := run_calls cfg limit reason cs m in
      (m, match r with Some r => r :: rs | None => rs end)
  end.

(** Times do not go back, and stay within the range a Duration can measure. *)
Fixpoint ordered (t : Z) (cs : list call) : Prop :=
  match cs with
  | [] => True
  | c :: cs => t <= call_time c <= i64_max /\ ordered (call_time c) cs
  end.

(** * Lemmas *)

Lemma cleanup_sweeps cfg now l :
  cleanup cfg now l = Limiter (sweep cfg now (connections l)) (sweep cfg now (messages l)).
Proof. done. Qed.

Lemma sweep_lookup cfg now m ip :
  sweep cfg now m !! ip = match m !! ip with
                          | Some e => if stale cfg now e then None else Some e
                          | None => None
                          end.
Proof.
  unfold sweep. destruct (m !! ip) as [e|] eqn:Hm.
  - destruct (stale cfg now e) eqn:Hs.
    + apply map_lookup_filter_None. right. intros e' He'. simplify_eq. simpl. congruence.
    + by apply map_lookup_filter_Some.
  - apply map_lookup_filter_None. by left.
Qed.

(** What a request stores and answers, from the entry it finds. *)
Definition touch_entry (cfg : config) (limit : Z) (reason ip : string) (now : Z) (e : entry)
    : entry * option limit_error :=
  if blocked e && (time_sub now (blocked_at e) <? block_duration cfg)
  then (e, Some (LimitError ip "temporarily blocked" (Some (blocked_at e + block_duration cfg))))
  else
    let e := refreshed now e in
    if limit <? count e + 1
    then (Entry (count e + 1) (window e) true now, Some (LimitError ip reason (Some (now + block_duration cfg))))
    else (Entry (count e + 1) (window e) (blocked e) (blocked_at e), None).

Lemma touch_spec cfg limit reason ip now m :
  touch cfg limit reason ip now m =
    (<[ip := (touch_entry cfg limit reason ip now (get_or_create now m ip)).1]> m,
     (touch_entry cfg limit reason ip now (get_or_create now m ip)).2).
Proof.
  unfold touch, touch_entry. destruct (blocked _ && _); [done|]. cbv zeta. simpl.
  by destruct (limit <? _).
Qed.

Lemma touch_lookup cfg limit reason ip now m ip' :
  (touch cfg limit reason ip now m).1 !! ip' =
    if decide (ip = ip') then Some (touch_entry cfg limit reason ip now (get_or_create now m ip)).1
    else m !! ip'.
Proof.
  rewrite touch_spec. simpl. case_decide as Hd; [subst; apply lookup_insert_eq|by apply lookup_insert_ne].
Qed.

(** ** Entries that answer alike

    An entry's blocked_at is read only while it is blocked. *)

Definition entry_alike (e e' : entry) : Prop :=
  count e = count e' /\ window e = window e' /\ blocked e = blocked e' /\
  (blocked e = true -> blocked_at e = blocked_at e').

#[export] Instance entry_alike_equiv : Equivalence entry_alike.
Proof.
  unfold entry_alike. split; [by intros []|..].
  - intros e e' (-> & -> & Hb & Ha). rewrite Hb in *. repeat split; auto. intros; symmetry; auto.
  - intros a b c (-> & -> & Hb & Ha) (-> & -> & Hb' & Ha'). rewrite Hb, Hb' in *.
    repeat split; auto. intros; etransitivity; auto.
Qed.

Lemma touch_entry_alike cfg limit reason ip now e e' :
  entry_alike e e' ->
  entry_alike (touch_entry cfg limit reason ip now e).1 (touch_entry cfg limit reason ip now e').1 /\
  (touch_entry cfg limit reason ip now e).2 = (touch_entry cfg limit reason ip now e').2.
Proof.
  destruct e as [n w b at_], e' as [n' w' b' at'].
  intros (Hn & Hw & Hb & Ha). simpl in *. subst n' w' b'. unfold touch_entry, refreshed. simpl.
  destruct b; [rewrite <- Ha by done; by split|]. simpl.
  destruct (minute <? _); simpl; destruct (limit <? _); simpl; done.
Qed.

(** An entry a sweep at [t] may drop. *)
Definition expired (t : Z) (e : entry) : Prop := blocked e = false /\ minute < t - window e.

(** [m'] is [m] without some expired entries, up to [entry_alike]. *)
Definition swept (t : Z) (m m' : gmap string entry) : Prop :=
  forall ip, match m !! ip, m' !! ip with
             | Some e, Some e' => entry_alike e e'
             | Some e, None => expired t e
             | None, None => True
             | None, Some _ => False
             end.

Lemma expired_as_new cfg limit reason ip now t e :
  expired t e -> t <= now -> in_i64 (now - window e) ->
  entry_alike (touch_entry cfg limit reason ip now e).1
              (touch_entry cfg limit reason ip now (Entry 0 now false 0)).1 /\
  (touch_entry cfg limit reason ip now e).2 =
  (touch_entry cfg limit reason ip now (Entry 0 now false 0)).2.
Proof.
  intros [Hb Hw] Ht Hr. unfold touch_entry, refreshed. rewrite Hb. simpl.
  rewrite (time_sub_exact now (window e)) by done.
  destruct (Z.ltb_spec minute (now - window e)); [|lia]. simpl.
  assert (time_sub now now = 0) as -> by (rewrite time_sub_exact; [lia|unfold in_i64, i64_min, i64_max; lia]).
  simpl. destruct (limit <? _); simpl; (split; [|done]); repeat split; simpl; congruence.
Qed.

Lemma swept_refl t m : swept t m m.
Proof. intros ip. destruct (m !! ip) as [e|]; done. Qed.

Lemma swept_later t t' m m' : t <= t' -> swept t m m' -> swept t' m m'.
Proof.
  intros Ht Hs ip. specialize (Hs ip). destruct (m !! ip) as [e|], (m' !! ip); try done.
  destruct Hs as [Hb Hw]. split; [done|lia].
Qed.

(** Windows lie in the past and within what a Duration can measure. *)
Definition windows_ok (t : Z) (m : gmap string entry) : Prop :=
  forall ip e, m !! ip = Some e -> 0 <= window e <= t.

Lemma touch_entry_window cfg limit reason ip now e :
  0 <= window e <= now -> 0 <= window (touch_entry cfg limit reason ip now e).1 <= now.
Proof.
  intros Hw. unfold touch_entry, refreshed. destruct (blocked e); simpl.
  - destruct (_ <? _); [done|]. destruct (minute <? _), (limit <? _); simpl; lia.
  - destruct (minute <? _), (limit <? _); simpl; lia.
Qed.

Lemma touch_windows cfg limit reason ip now m :
  0 <= now -> windows_ok now m -> windows_ok now (touch cfg limit reason ip now m).1.
Proof.
  intros Hn Hw ip' e. rewrite touch_lookup. case_decide; [|apply Hw]. intros [= <-].
  apply touch_entry_window. unfold get_or_create.
  destruct (m !! ip) as [e0|] eqn:Hm; simpl; [by apply (Hw ip)|lia].
Qed.

Lemma sweep_windows cfg now t m : windows_ok t m -> windows_ok t (sweep cfg now m).
Proof.
  intros Hw ip e. rewrite sweep_lookup. destruct (m !! ip) as [e0|] eqn:Hm; [|done].
  destruct (stale cfg now e0); [done|]. intros [= <-]. by apply (Hw ip).
Qed.

Lemma swept_request cfg limit reason ip now t m m' :
  swept t m m' -> t <= now <= i64_max -> 0 <= now -> windows_ok now m ->
  swept now (touch cfg limit reason ip now m).1 (touch cfg limit reason ip now m').1 /\
  (touch cfg limit reason ip now m).2 = (touch cfg limit reason ip now m').2.
Proof.
  intros Hs Ht Hn Hw.
  assert (entry_alike (touch_entry cfg limit reason ip now (get_or_create now m ip)).1
                      (touch_entry cfg limit reason ip now (get_or_create now m' ip)).1 /\
          (touch_entry cfg limit reason ip now (get_or_create now m ip)).2 =
          (touch_entry cfg limit reason ip now (get_or_create now m' ip)).2) as [Ha Hr].
  { unfold get_or_create. pose proof (Hs ip) as Hip.
    destruct (m !! ip) as [e|] eqn:Hm, (m' !! ip) as [e'|]; simpl; try done.
    - by apply touch_entry_alike.
    - apply (expired_as_new cfg limit reason ip now t); [done|lia|].
      pose proof (Hw ip e Hm). unfold in_i64, i64_min, i64_max in *. lia. }
  split.
  - intros ip'. rewrite !touch_lookup. case_decide; [done|].
    apply (swept_later t now); [lia|done].
  - by rewrite !touch_spec.
Qed.

Lemma swept_sweep cfg now t m m' :
  minute <= block_duration cfg * 2 ->
  swept t m m' -> t <= now -> swept now m (sweep cfg now m').
Proof.
  intros Hd Hs Ht ip. specialize (Hs ip). rewrite sweep_lookup.
  destruct (m !! ip) as [e|], (m' !! ip) as [e'|]; try done.
  - destruct (stale cfg now e') eqn:Hst; [|done]. unfold stale in Hst. reflect_bools.
    destruct Hs as (_ & Hw & Hb & _). split; [congruence|]. rewrite Hw. lia.
  - destruct Hs as [Hb Hw]. split; [done|lia].
Qed.

Definition is_request (c : call) : bool := match c with Request _ _ => true | Sweep _ => false end.

Lemma run_swept cfg limit reason cs t m m' :
  minute <= block_duration cfg * 2 -> ordered t cs -> 0 <= t -> swept t m m' -> windows_ok t m ->
  (run_calls cfg limit reason (List.filter is_request cs) m).2 = (run_calls cfg limit reason cs m').2.
Proof.
  intros Hd. revert t m m'. induction cs as [|c cs IH]; intros t m m' Ho Ht Hs Hw; [done|].
  destruct Ho as [Hc Ho]. destruct c as [ip now|now]; simpl in *.
  - assert (windows_ok now m) as Hw' by (intros i e He; pose proof (Hw i e He); lia).
    destruct (swept_request cfg limit reason ip now t m m' Hs Hc ltac:(lia) Hw') as [Hs1 Hr].
    pose proof (touch_windows cfg limit reason ip now m ltac:(lia) Hw') as Hw1.
    destruct (touch cfg limit reason ip now m) as [m1 r1], (touch cfg limit reason ip now m') as [m2 r2].
    simpl in *. subst r2. specialize (IH now m1 m2 Ho ltac:(lia) Hs1 Hw1).
    destruct (run_calls cfg limit reason (List.filter is_request cs) m1),
      (run_calls cfg limit reason cs m2). simpl in *. by rewrite IH.
  - specialize (IH now m (sweep cfg now m') Ho ltac:(lia)).
    destruct (run_calls cfg limit reason cs (sweep cfg now m')) as [m2 rs]. simpl in *.
    apply IH; [by apply (swept_sweep cfg now t); [| |lia]|]. intros i e He. pose proof (Hw i e He). lia.
Qed.

(** How many requests of [ip] a run lets through. *)
Fixpoint passes (cfg : config) (limit : Z) (reason ip : string) (cs : list call) (m : gmap string entry) : Z :=
  match cs with
  | [] => 0
  | c :: cs =>
      let '(m', r) := call_step cfg limit reason c m in
      (match c, r with
       | Request ip' _, Some None => if String.eqb ip' ip then 1 else 0
       | _, _ => 0
       end) + passes cfg limit reason ip cs m'
  end.

(** The entry of an address whose first request of the minute [w, w + 1m] was at
    [w] or later: [n] requests counted since. *)
Definition counting (w : Z) (e : entry) : Prop :=
  w <= window e <= w + minute /\ 0 <= count e /\ (blocked e = true -> w <= blocked_at e <= w + minute).

Definition allowance (limit : Z) (o : option entry) : Z :=
  match o with
  | None => Z.max 0 limit
  | Some e => if blocked e then 0 else Z.max 0 (limit - count e)
  end.

Lemma allowance_nonneg limit o : 0 <= allowance limit o.
Proof. unfold allowance. destruct o as [e|]; [destruct (blocked e)|]; lia. Qed.

Lemma touch_entry_counting cfg limit reason ip w now e :
  0 <= w -> w <= now <= w + minute -> now <= i64_max -> minute < block_duration cfg ->
  counting w e ->
  counting w (touch_entry cfg limit reason ip now e).1 /\
  (match (touch_entry cfg limit reason ip now e).2 with None => 1 | Some _ => 0 end) +
    allowance limit (Some (touch_entry cfg limit reason ip now e).1) <= allowance limit (Some e).
Proof.
  intros H0 Hn Hm Hd (Hw & Hc & Hb). unfold touch_entry, allowance.
  destruct (blocked e) eqn:Hbl; simpl.
  - specialize (Hb eq_refl).
    rewrite time_sub_exact by (unfold in_i64, i64_min, i64_max, minute, second in *; lia).
    destruct (Z.ltb_spec (now - blocked_at e) (block_duration cfg)); [|lia].
    simpl. rewrite Hbl. split; [|lia]. split; [done|]. by split.
  - unfold refreshed. rewrite Hbl. simpl.
    rewrite time_sub_exact by (unfold in_i64, i64_min, i64_max, minute, second in *; lia).
    destruct (Z.ltb_spec minute (now - window e)); [lia|].
    destruct (Z.ltb_spec limit (count e + 1)); simpl; rewrite ?Hbl.
    + split; [|lia]. split; [done|]. split; simpl; lia.
    + split; [|lia]. split; [done|]. split; simpl; [lia|]. done.
Qed.

Lemma passes_bound cfg limit reason ip w cs t m :
  0 <= w -> w <= t -> minute < block_duration cfg -> ordered t cs ->
  Forall (fun c => call_time c <= w + minute) cs ->
  (forall e, m !! ip = Some e -> counting w e) ->
  passes cfg limit reason ip cs m <= allowance limit (m !! ip).
Proof.
  intros H0 Ht Hd Ho Hall. revert t m Ht Ho.
  induction Hall as [|c cs Hc _ IH]; intros t m Ht Ho Hm; [apply allowance_nonneg|].
  destruct Ho as [Hct Ho]. cbn [passes]. destruct c as [ip' now|now]; simpl in *.
  - pose proof (touch_lookup cfg limit reason ip' now m ip) as Hl.
    pose proof (touch_spec cfg limit reason ip' now m) as Hspec.
    destruct (touch cfg limit reason ip' now m) as [m1 r]. simplify_eq. cbn [fst snd] in *.
    destruct (String.eqb_spec ip' ip) as [->|Hne].
    + rewrite decide_True in Hl by done.
      assert (counting w (get_or_create now m ip) /\
              allowance limit (Some (get_or_create now m ip)) <= allowance limit (m !! ip)) as [Hg Hal].
      { unfold get_or_create. destruct (m !! ip) as [e|] eqn:He; simpl; [split; [by apply Hm|lia]|].
        split; [|lia]. split; simpl; [lia|]. done. }
      destruct (touch_entry_counting cfg limit reason ip w now _ H0 ltac:(lia) ltac:(lia) Hd Hg) as [Hc1 Hle].
      specialize (IH now (<[ip:=(touch_entry cfg limit reason ip now (get_or_create now m ip)).1]> m)
        ltac:(lia) Ho). rewrite Hl in IH.
      specialize (IH ltac:(by intros e [= <-])).
      destruct ((touch_entry cfg limit reason ip now (get_or_create now m ip)).2); lia.
    + rewrite decide_False in Hl by done.
      specialize (IH now (<[ip':=(touch_entry cfg limit reason ip' now (get_or_create now m ip')).1]> m)
        ltac:(lia) Ho). rewrite Hl in IH. specialize (IH Hm).
      destruct ((touch_entry cfg limit reason ip' now (get_or_create now m ip')).2); lia.
  - specialize (IH now (sweep cfg now m) ltac:(lia) Ho). rewrite sweep_lookup in IH.
    destruct (m !! ip) as [e|] eqn:He; [|by apply IH].
    unfold stale in IH. destruct (Hm e eq_refl) as (Hw & _).
    destruct (Z.ltb_spec (window e) (now - block_duration cfg * 2)); [unfold minute, second in *; lia|].
    simpl in IH. by apply IH.
Qed.

(** * Properties *)

(** The cleanup goroutine cannot be observed: however sweeps are interleaved
    with requests, every request gets the answer it would get if nothing were
    ever swept (for a block of half a minute or more). *)
Theorem cleanup_unobservable cfg limit reason cs t :
  minute <= block_duration cfg * 2 -> 0 <= t -> ordered t cs ->
  (run_calls cfg limit reason cs ∅).2 =
  (run_calls cfg limit reason (List.filter is_request cs) ∅).2.
Proof.
  intros Hd Ht Ho. symmetry. apply (run_swept cfg limit reason cs t ∅ ∅ Hd Ho Ht).
  - apply swept_refl.
  - by intros ip e He.
Qed.

Lemma blocked_entry_stays cfg limit reason ip now e :
  blocked e = true -> in_i64 (now - blocked_at e) -> now < blocked_at e + block_duration cfg ->
  touch_entry cfg limit reason ip now e =
    (e, Some (LimitError ip "temporarily blocked" (Some (blocked_at e + block_duration cfg)))).
Proof.
  intros Hb Hr Hn. unfold touch_entry. rewrite Hb, time_sub_exact by done.
  by destruct (Z.ltb_spec (now - blocked_at e) (block_duration cfg)); [|lia].
Qed.

(** Once an address exceeds its limit it is refused on every later request,
    whatever other addresses and the cleanup do, until the block is over; the
    time it is told to retry at is the end of the block. *)
Theorem blocked_until_expiry cfg limit reason cs m ip e t :
  m !! ip = Some e -> blocked e = true -> 0 <= blocked_at e <= t -> ordered t cs ->
  Forall (fun c => call_time c < blocked_at e + block_duration cfg) cs ->
  (run_calls cfg limit reason cs m).1 !! ip = Some e /\
  forall now, now < blocked_at e + block_duration cfg -> blocked_at e <= now <= i64_max ->
    (touch cfg limit reason ip now (run_calls cfg limit reason cs m).1).2 =
      Some (LimitError ip "temporarily blocked" (Some (blocked_at e + block_duration cfg))).
Proof.
  intros Hm Hb Ha Ho Hall.
  assert ((run_calls cfg limit reason cs m).1 !! ip = Some e) as Hfin.
  { revert m t Hm Ha Ho. induction Hall as [|c cs Hc _ IH]; intros m t Hm Ha Ho; [done|].
    destruct Ho as [Ht Ho]. cbn [run_calls].
    assert ((call_step cfg limit reason c m).1 !! ip = Some e) as Hm1.
    { destruct c as [ip' now|now]; simpl in *.
      - pose proof (touch_lookup cfg limit reason ip' now m ip) as Hl.
        destruct (touch cfg limit reason ip' now m) as [m1 r]. simpl in *. rewrite Hl.
        case_decide as Heq; [subst|done]. f_equal. unfold get_or_create. rewrite Hm. simpl.
        rewrite blocked_entry_stays; [done|done| |done].
        unfold in_i64, i64_min, i64_max in *. lia.
      - rewrite sweep_lookup, Hm. unfold stale. by rewrite Hb, andb_false_r. }
    destruct (call_step cfg limit reason c m) as [m1 r]. simpl in Hm1.
    specialize (IH m1 (call_time c) Hm1 ltac:(lia) Ho).
    by destruct (run_calls cfg limit reason cs m1). }
  split; [done|]. intros now Hn Hr. rewrite touch_spec. unfold get_or_create. rewrite Hfin. simpl.
  rewrite blocked_entry_stays; [done|done| |done]. unfold in_i64, i64_min, i64_max in *. lia.
Qed.

(** Within a minute no address gets more requests through than its limit,
    whatever other addresses and the cleanup do (for a block of more than a
    minute; a block that expires sooner starts a new count). *)
Theorem requests_per_minute_capped cfg limit reason ip w cs :
  0 <= w -> minute < block_duration cfg -> ordered w cs ->
  Forall (fun c => call_time c <= w + minute) cs ->
  passes cfg limit reason ip cs ∅ <= Z.max 0 limit.
Proof.
  intros H0 Hd Ho Hall.
  exact (passes_bound cfg limit reason ip w cs w ∅ H0 ltac:(lia) Hd Ho Hall ltac:(done)).
Qed.

(** * The theorems at a concrete address *)

Definition burst : list call :=
  [Request "198.51.100.7" hour; Request "192.0.2.1" hour; Request "198.51.100.7" (hour + second);
   Sweep (hour + 2 * second); Request "198.51.100.7" (hour + 3 * second)].

Lemma cleanup_unobservable_witness :
  (run_calls default_config 2 "too many connections" burst ∅).2 =
  (run_calls default_config 2 "too many connections" (List.filter is_request burst) ∅).2.
Proof.
  apply (cleanup_unobservable default_config 2 "too many connections" burst 0).
  - by vm_compute.
  - done.
  - vm_compute. repeat split; discriminate.
Defined.

Lemma blocked_until_expiry_witness :
  let m := (run_calls default_config 2 "too many connections" burst ∅).1 in
  let e := Entry 3 hour true (hour + 3 * second) in
  m !! "198.51.100.7" = Some e /\
  (run_calls default_config 2 "too many connections" [Sweep (hour + minute)] m).1 !! "198.51.100.7" = Some e.
Proof.
  intros m e. split; [vm_compute; reflexivity|].
  apply (blocked_until_expiry default_config 2 "too many connections" [Sweep (hour + minute)] m
    "198.51.100.7" e (hour + 3 * second)).
  - vm_compute; reflexivity.
  - reflexivity.
  - vm_compute. split; discriminate.
  - vm_compute. repeat split; discriminate.
  - repeat constructor.
Defined.

Lemma requests_per_minute_capped_witness :
  passes default_config 2 "too many connections" "198.51.100.7" burst ∅ = 2 /\
  passes default_config 2 "too many connections" "198.51.100.7" burst ∅ <= 2.
Proof.
  split; [vm_compute; reflexivity|].
  apply (requests_per_minute_capped default_config 2 "too many connections" "198.51.100.7" hour burst).
  - by vm_compute.
  - by vm_compute.
  - vm_compute. repeat split; discriminate.
  - repeat constructor; vm_compute; discriminate.
Defined.
