(* ===== verification/Spf.v ===== *)
(** * SPF: internal/transport/spf.go

    The resolver is outside the repository: its three lookups are the section's
    parameters.  Evaluation also returns the DNS names it queried, in order.
    The recursion depth is bounded by the code's own limit: [budget] is
    lookupLimit + 1 - depth, and a spent budget is the code's first check. *)

From S2P Require Import Prelude GoStrings GoNet.
#[local] Open Scope Z_scope.

Inductive spf_result :=
| SPFPass | SPFFail | SPFSoftFail | SPFNeutral | SPFNone | SPFTempError | SPFPermError.
#[export] Instance spf_result_eq_dec : EqDecision spf_result.
Proof. solve_decision. Defined.

Definition spf_string (r : spf_result) : string :=
  match r with
  | SPFPass => "pass" | SPFFail => "fail" | SPFSoftFail => "softfail" | SPFNeutral => "neutral"
  | SPFNone => "none" | SPFTempError => "temperror" | SPFPermError => "permerror"
  end.

(** A lookup error; only a [net.DNSError] can be temporary. *)
Record dns_error := DnsError { de_temporary : bool; de_message : string }.
Definition no_spf_record : dns_error := DnsError false "no SPF record found".

Definition lookup_limit : Z := 10.
Definition full_budget (limit : Z) : nat := Z.to_nat (limit + 1).

(** A computation and the names it queried. *)
Definition logged (A : Type) : Type := A * list string.

Section spf.
Context (lookup_txt : string -> dns_error + list string).
Context (lookup_ip : string -> dns_error + list ip).
Context (lookup_mx : string -> dns_error + list string).

Definition is_spf (txt : string) : bool := has_prefix (to_lower txt) "v=spf1".

Definition lookup_spf (domain : string) : logged (dns_error + string) :=
  (match lookup_txt domain with
   | inl e => inl e
   | inr txts => match List.find is_spf txts with
                 | Some txt => inr txt
                 | None => inl no_spf_record
                 end
   end, [domain]).

(** [matchIP4] and [matchIP6]: the default prefix length, then the network. *)
Definition match_net (suffix cidr : string) (client : ip) : option bool :=
  let cidr := if has_char "/" cidr then cidr else cidr +:+ suffix in
  n ← parse_cidr cidr; Some (net_contains n client).

(** The domain of an "a:" or "mx:" mechanism, any prefix length dropped. *)
Definition target_domain (prefix mechanism domain : string) : string :=
  if has_prefix mechanism prefix
  then match split "/" (drop_str (String.length prefix) mechanism) with t :: _ => t | [] => "" end
  else domain.

Definition match_a (mechanism : string) (client : ip) (domain : string) : logged (option bool) :=
  let t := target_domain "a:" mechanism domain in
  (match lookup_ip t with
   | inl _ => None
   | inr ips => Some (bool_decide (client ∈ ips))
   end, [t]).

Fixpoint match_hosts (client : ip) (hosts : list string) : logged bool :=
  match hosts with
  | [] => (false, [])
  | h :: hosts =>
      let hit := match lookup_ip h with inl _ => false | inr ips => bool_decide (client ∈ ips) end in
      if hit then (true, [h])
      else let '(r, q) := match_hosts client hosts in (r, h :: q)
  end.

Definition match_mx (mechanism : string) (client : ip) (domain : string) : logged (option bool) :=
  let t := target_domain "mx:" mechanism domain in
  match lookup_mx t with
  | inl _ => (None, [t])
  | inr hosts => let '(r, q) := match_hosts client hosts in (Some r, t :: q)
  end.

Definition names (mechanism m : string) : bool :=
  String.eqb mechanism m || has_prefix mechanism (m +:+ ":") || has_prefix mechanism (m +:+ "/").

(** The qualifier and the mechanism of a term. *)
Definition qualifier (part : string) : ascii * string :=
  match part with
  | String c rest =>
      if Ascii.eqb c "+" || Ascii.eqb c "-" || Ascii.eqb c "~" || Ascii.eqb c "?" then (c, rest)
      else ("+"%char, part)
  | "" => ("+"%char, "")
  end.

Definition qualified (q : ascii) : spf_result :=
  if Ascii.eqb q "+" then SPFPass
  else if Ascii.eqb q "-" then SPFFail
  else if Ascii.eqb q "~" then SPFSoftFail
  else SPFNeutral.

(** The include and redirect cases of [evaluateMechanism]: [sub] evaluates the
    record of the named domain one level deeper. *)
Definition nested (sub : string -> string -> logged (spf_result * string)) (d : string)
    : logged (option bool) :=
  match lookup_spf d with
  | (inl _, q) => (None, q)
  | (inr record, q) =>
      let '((r, _), q') := sub record d in (Some (bool_decide (r = SPFPass)), q ++ q')
  end.

(** [evaluateMechanism]; [None] is an error. *)
Definition evaluate_mechanism (sub : string -> string -> logged (spf_result * string))
    (mechanism : string) (client : ip) (domain : string) : logged (option bool) :=
  let m := to_lower mechanism in
  if String.eqb m "all" then (Some true, [])
  else if has_prefix m "ip4:" then (match_net "/32" (drop_str 4 m) client, [])
  else if has_prefix m "ip6:" then (match_net "/128" (drop_str 4 m) client, [])
  else if names m "a" then match_a m client domain
  else if names m "mx" then match_mx m client domain
  else if has_prefix m "include:" then nested sub (drop_str 8 m)
  else if has_prefix m "redirect=" then nested sub (drop_str 9 m)
  else (Some false, []).

(** The loop over the terms: a term in error is skipped. *)
Fixpoint evaluate_parts (mech : string -> logged (option bool)) (parts : list string)
    : logged (spf_result * string) :=
  match parts with
  | [] => ((SPFNeutral, "no mechanism matched"), [])
  | part :: parts =>
      let '(qual, mechanism) := qualifier part in
      let '(r, q) := mech mechanism in
      match r with
      | Some true => ((qualified qual, "matched " +:+ mechanism), q)
      | _ => let '(res, q') := evaluate_parts mech parts in (res, q ++ q')
      end
  end.

Fixpoint evaluate_spf (budget : nat) (client : ip) (record domain : string)
    : logged (spf_result * string) :=
  match budget with
  | O => ((SPFPermError, "too many DNS lookups"), [])
  | S budget =>
      match fields record with
      | version :: parts =>
          if equal_fold version "v=spf1"
          then evaluate_parts
                 (fun m => evaluate_mechanism (evaluate_spf budget client) m client domain) parts
          else ((SPFPermError, "invalid SPF record"), [])
      | [] => ((SPFPermError, "invalid SPF record"), [])
      end
  end.

Record spf_check_result := SpfCheckResult {
  cr_result : spf_result; cr_domain : string; cr_explanation : string; cr_record : string }.

Definition check (limit : Z) (addr domain : string) : logged spf_check_result :=
  match parse_ip addr with
  | None => (SpfCheckResult SPFPermError domain "invalid client IP" "", [])
  | Some client =>
      match lookup_spf domain with
      | (inl e, q) =>
          (if de_temporary e then SpfCheckResult SPFTempError domain (de_message e) ""
           else SpfCheckResult SPFNone domain "no SPF record found" "", q)
      | (inr record, q) =>
          let '((r, why), q') := evaluate_spf (full_budget limit) client record domain in
          (SpfCheckResult r domain why record, q ++ q')
      end
  end.

(** * What a pass means

    [authorizes client record domain]: some term of the record lets the client
    send, directly or through a record it includes or redirects to. *)
Inductive authorizes (client : ip) : string -> string -> Prop :=
| Authorizes record domain version parts part m :
    fields record = version :: parts -> equal_fold version "v=spf1" = true ->
    part ∈ parts -> qualified (qualifier part).1 = SPFPass ->
    m = to_lower (qualifier part).2 -> matches client domain m ->
    authorizes client record domain
with matches (client : ip) : string -> string -> Prop :=
| MatchAll domain : matches client domain "all"
| MatchNet domain m n cidr :
    has_prefix m "ip4:" = true \/ has_prefix m "ip6:" = true ->
    parse_cidr cidr = Some n -> net_contains n client = true ->
    cidr = drop_str 4 m \/ cidr = drop_str 4 m +:+ "/32" \/ cidr = drop_str 4 m +:+ "/128" ->
    matches client domain m
| MatchA domain m ips :
    names m "a" = true -> lookup_ip (target_domain "a:" m domain) = inr ips -> client ∈ ips ->
    matches client domain m
| MatchMX domain m hosts h ips :
    names m "mx" = true -> lookup_mx (target_domain "mx:" m domain) = inr hosts -> h ∈ hosts ->
    lookup_ip h = inr ips -> client ∈ ips -> matches client domain m
| MatchNested domain m d record :
    (has_prefix m "include:" = true /\ d = drop_str 8 m) \/
    (has_prefix m "redirect=" = true /\ d = drop_str 9 m) ->
    (lookup_spf d).1 = inr record -> authorizes client record d -> matches client domain m.

(** * Lemmas *)

Lemma match_net_sound suffix c client :
  match_net suffix c client = Some true ->
  exists n cidr, parse_cidr cidr = Some n /\ net_contains n client = true /\
    (cidr = c \/ cidr = c +:+ suffix).
Proof.
  unfold match_net. intros (n & Hp & [= Hn])%bind_Some. exists n, (if has_char "/" c then c else c +:+ suffix).
  split; [done|]. split; [done|]. destruct (has_char "/" c); auto.
Qed.

Lemma match_hosts_sound client hosts :
  (match_hosts client hosts).1 = true -> exists h ips, h ∈ hosts /\ lookup_ip h = inr ips /\ client ∈ ips.
Proof.
  induction hosts as [|h hosts IH]; simpl; [done|].
  destruct (match lookup_ip h with inl _ => false | inr ips => bool_decide (client ∈ ips) end) eqn:Hh.
  - intros _. destruct (lookup_ip h) as [|ips] eqn:Hl; [done|]. apply bool_decide_eq_true in Hh.
    exists h, ips. split; [by constructor|done].
  - destruct (match_hosts client hosts) as [r q]. intros Hr. destruct (IH Hr) as (h' & ips & ? & ? & ?).
    exists h', ips. split; [by constructor|done].
Qed.

Lemma nested_sound (sub : string -> string -> logged (spf_result * string)) d q :
  nested sub d = (Some true, q) ->
  exists record, (lookup_spf d).1 = inr record /\ (sub record d).1.1 = SPFPass.
Proof.
  unfold nested. destruct (lookup_spf d) as [[e|record] q0]; [done|]. destruct (sub record d) as [[r x] q'] eqn:Hs.
  intros [= Hr _]. apply bool_decide_eq_true in Hr. exists record. by rewrite Hs.
Qed.

#[local] Arguments nested : simpl never.

Lemma include_mechanism sub client domain d :
  to_lower d = d -> evaluate_mechanism sub ("include:" +:+ d) client domain = nested sub d.
Proof.
  intros Hd. unfold evaluate_mechanism. rewrite to_lower_app, Hd. cbv zeta.
  change (to_lower "include:") with "include:". simpl. by rewrite has_prefix_nil.
Qed.

Lemma redirect_mechanism sub client domain d :
  to_lower d = d -> evaluate_mechanism sub ("redirect=" +:+ d) client domain = nested sub d.
Proof.
  intros Hd. unfold evaluate_mechanism. rewrite to_lower_app, Hd. cbv zeta.
  change (to_lower "redirect=") with "redirect=". simpl. by rewrite has_prefix_nil.
Qed.

Lemma evaluate_mechanism_sound sub mechanism client domain q :
  (forall record d, (sub record d).1.1 = SPFPass -> authorizes client record d) ->
  evaluate_mechanism sub mechanism client domain = (Some true, q) ->
  matches client domain (to_lower mechanism).
Proof.
  intros Hsub. unfold evaluate_mechanism. set (m := to_lower mechanism). cbv zeta.
  destruct (String.eqb_spec m "all") as [->|_]; [constructor|].
  destruct (has_prefix m "ip4:") eqn:H4.
  { intros [= Hm _]. apply match_net_sound in Hm as (n & cidr & ? & ? & ?).
    eapply MatchNet; [by left|done|done|tauto]. }
  destruct (has_prefix m "ip6:") eqn:H6.
  { intros [= Hm _]. apply match_net_sound in Hm as (n & cidr & ? & ? & ?).
    eapply MatchNet; [by right|done|done|tauto]. }
  destruct (names m "a") eqn:Ha.
  { unfold match_a. destruct (lookup_ip _) as [e|ips] eqn:Hl; [done|]. intros [= Hin _].
    apply bool_decide_eq_true in Hin. by eapply MatchA. }
  destruct (names m "mx") eqn:Hx.
  { unfold match_mx. destruct (lookup_mx _) as [e|hosts] eqn:Hl; [done|].
    destruct (match_hosts client hosts) as [r q'] eqn:Hh. intros [= -> _].
    destruct (match_hosts_sound client hosts) as (h & ips & ? & ? & ?); [by rewrite Hh|].
    by eapply MatchMX. }
  destruct (has_prefix m "include:") eqn:Hi.
  { intros (record & Hl & Hs)%nested_sound. eapply MatchNested; [left; done|done|auto]. }
  destruct (has_prefix m "redirect=") eqn:Hr; [|done].
  intros (record & Hl & Hs)%nested_sound. eapply MatchNested; [right; done|done|auto].
Qed.

Lemma evaluate_parts_match mech parts r why q :
  evaluate_parts mech parts = ((r, why), q) -> r <> SPFNeutral ->
  exists part q', part ∈ parts /\ mech (qualifier part).2 = (Some true, q') /\
    qualified (qualifier part).1 = r.
Proof.
  revert q. induction parts as [|part parts IH]; intros q; simpl; [by intros [= <- _ _]|].
  destruct (qualifier part) as [qual m] eqn:Hq. destruct (mech m) as [o q0] eqn:Hm.
  assert (forall q', (let '(res, q'') := evaluate_parts mech parts in (res, q0 ++ q'')) = ((r, why), q') ->
    r <> SPFNeutral -> exists part' q', part' ∈ part :: parts /\ mech (qualifier part').2 = (Some true, q') /\
      qualified (qualifier part').1 = r) as Hrest.
  { intros q' He Hn. destruct (evaluate_parts mech parts) as [res q''] eqn:Hp.
    injection He as Hres _. subst res. destruct (IH q'' eq_refl Hn) as (part' & q1 & ? & ? & ?).
    exists part', q1. split; [by constructor|done]. }
  destruct o as [[]|]; [|by apply Hrest|by apply Hrest].
  intros [= <- _ _] _. exists part, q0. rewrite Hq. split; [by constructor|done].
Qed.

Lemma evaluate_spf_sound budget client record domain :
  (evaluate_spf budget client record domain).1.1 = SPFPass -> authorizes client record domain.
Proof.
  revert record domain. induction budget as [|budget IH]; intros record domain; simpl; [done|].
  destruct (fields record) as [|version parts] eqn:Hf; [done|].
  destruct (equal_fold version "v=spf1") eqn:Hv; [|done].
  destruct (evaluate_parts _ parts) as [[r why] q] eqn:He. simpl. intros ->.
  destruct (evaluate_parts_match _ _ _ _ _ He) as (part & q' & Hin & Hm & Hq); [done|].
  eapply Authorizes; try done. by eapply evaluate_mechanism_sound.
Qed.

(** * Properties *)

(** C22. A pass is never invented: when [Check] answers pass, the domain publishes
    an SPF record with a pass term that covers the client's address, directly or
    through the records it includes. *)
Theorem pass_is_justified limit addr domain r q :
  check limit addr domain = (r, q) -> cr_result r = SPFPass ->
  exists client, parse_ip addr = Some client /\
    (lookup_spf domain).1 = inr (cr_record r) /\ authorizes client (cr_record r) domain.
Proof.
  unfold check. destruct (parse_ip addr) as [client|]; [|by intros [= <- _]].
  destruct (lookup_spf domain) as [[e|record] q0] eqn:Hl.
  { destruct (de_temporary e); by intros [= <- _]. }
  destruct (evaluate_spf (full_budget limit) client record domain) as [[res why] q'] eqn:He.
  intros [= <- _]. simpl. intros ->. exists client. split; [done|]. split; [done|].
  apply (evaluate_spf_sound (full_budget limit)). by rewrite He.
Qed.

(** A term whose lookup fails is skipped as if it were not there, whatever
    the error: a temporary DNS failure of an included record does not make the
    result temporary, and the terms after it, "-all" included, decide. *)
Theorem failed_lookup_is_skipped sub client domain d e parts :
  lookup_txt d = inl e -> to_lower d = d ->
  (evaluate_parts (fun m => evaluate_mechanism sub m client domain) (("include:" +:+ d) :: parts)).1 =
  (evaluate_parts (fun m => evaluate_mechanism sub m client domain) parts).1.
Proof.
  intros Hl Hd. cbn [evaluate_parts].
  assert (qualifier ("include:" +:+ d) = ("+"%char, "include:" +:+ d)) as -> by done.
  cbv beta iota. rewrite include_mechanism by done. unfold nested, lookup_spf. rewrite Hl.
  by destruct (evaluate_parts _ parts) as [res q'].
Qed.

(** A redirect never fails a sender: the term matches exactly when the
    redirect domain's own record passes, so that domain's fail, softfail and
    error results are dropped and evaluation falls through to neutral. *)
Theorem redirect_drops_failures sub client domain d record :
  (lookup_spf d).1 = inr record -> to_lower d = d -> (sub record d).1.1 <> SPFPass ->
  (evaluate_parts (fun m => evaluate_mechanism sub m client domain) ["redirect=" +:+ d]).1 =
    (SPFNeutral, "no mechanism matched").
Proof.
  intros Hl Hd Hs. cbn [evaluate_parts].
  assert (qualifier ("redirect=" +:+ d) = ("+"%char, "redirect=" +:+ d)) as -> by done.
  cbv beta iota. rewrite redirect_mechanism by done. unfold nested. destruct (lookup_spf d) as [[e|rec] q]; [done|]. simpl in Hl. simplify_eq.
  destruct (sub record d) as [[r x] q']. simpl in Hs. by rewrite bool_decide_eq_false_2.
Qed.

(** The limit bounds nesting, not lookups: one record can make a single check
    query as many names as it has include terms, far past the limit. *)
Theorem lookups_not_limited limit client domain n :
  lookup_txt "x" = inr [] ->
  length (evaluate_parts (fun m => evaluate_mechanism (evaluate_spf (full_budget limit) client) m client domain)
            (repeat "include:x" n)).2 = n.
Proof.
  intros Hx. induction n as [|n IH]; [done|]. cbn [repeat evaluate_parts].
  change (qualifier "include:x") with ("+"%char, "include:" +:+ "x").
  cbv beta iota. rewrite include_mechanism by done. unfold nested, lookup_spf. rewrite Hx. simpl List.find.
  destruct (evaluate_parts _ (repeat "include:x" n)) as [res q']. simpl in *. by rewrite IH.
Qed.

End spf.

(** * The theorems against a small DNS *)

Definition zone_txt (d : string) : dns_error + list string :=
  if String.eqb d "example.com" then inr ["google-site-verification=1"; "v=spf1 ip4:192.0.2.0/24 include:mail.example -all"]
  else if String.eqb d "mail.example" then inr ["v=spf1 mx -all"]
  else if String.eqb d "slow.example" then inl (DnsError true "i/o timeout")
  else inr [].
Definition zone_ip (h : string) : dns_error + list ip :=
  if String.eqb h "mx1.mail.example" then inr [V4 3325256705] else inl (DnsError false "no such host").
Definition zone_mx (d : string) : dns_error + list string :=
  if String.eqb d "mail.example" then inr ["mx1.mail.example"] else inr [].

Lemma pass_is_justified_witness :
  check zone_txt zone_ip zone_mx lookup_limit "198.51.100.1" "example.com" =
    (SpfCheckResult SPFPass "example.com" "matched include:mail.example"
       "v=spf1 ip4:192.0.2.0/24 include:mail.example -all",
     ["example.com"; "mail.example"; "mail.example"; "mx1.mail.example"]) /\
  exists client, parse_ip "198.51.100.1" = Some client /\
    (lookup_spf zone_txt "example.com").1 = inr "v=spf1 ip4:192.0.2.0/24 include:mail.example -all" /\
    authorizes zone_txt zone_ip zone_mx client "v=spf1 ip4:192.0.2.0/24 include:mail.example -all" "example.com".
Proof.
  split; [vm_compute; reflexivity|].
  apply (pass_is_justified zone_txt zone_ip zone_mx lookup_limit "198.51.100.1" "example.com"
    (SpfCheckResult SPFPass "example.com" "matched include:mail.example"
       "v=spf1 ip4:192.0.2.0/24 include:mail.example -all")
    ["example.com"; "mail.example"; "mail.example"; "mx1.mail.example"]); vm_compute; reflexivity.
Defined.

(** A legitimate sender is failed because an included record could not be read. *)
Lemma failed_lookup_is_skipped_witness :
  let mech m := evaluate_mechanism zone_txt zone_ip zone_mx
                  (evaluate_spf zone_txt zone_ip zone_mx 10 (V4 1)) m (V4 1) "shop.example" in
  (evaluate_parts mech ["include:slow.example"; "-all"]).1 = (SPFFail, "matched all").
Proof.
  intros mech. etransitivity.
  - apply (failed_lookup_is_skipped zone_txt zone_ip zone_mx
      (evaluate_spf zone_txt zone_ip zone_mx 10 (V4 1)) (V4 1) "shop.example" "slow.example"
      (DnsError true "i/o timeout") ["-all"]); reflexivity.
  - reflexivity.
Defined.

Lemma redirect_drops_failures_witness :
  (evaluate_spf zone_txt zone_ip zone_mx 10 (V4 1) "v=spf1 mx -all" "mail.example").1.1 = SPFFail /\
  (evaluate_parts (fun m => evaluate_mechanism zone_txt zone_ip zone_mx
       (evaluate_spf zone_txt zone_ip zone_mx 10 (V4 1)) m (V4 1) "shop.example")
     ["redirect=mail.example"]).1 = (SPFNeutral, "no mechanism matched").
Proof.
  split; [vm_compute; reflexivity|].
  apply (redirect_drops_failures zone_txt zone_ip zone_mx
    (evaluate_spf zone_txt zone_ip zone_mx 10 (V4 1)) (V4 1) "shop.example" "mail.example" "v=spf1 mx -all").
  - reflexivity.
  - reflexivity.
  - vm_compute. discriminate.
Defined.
