(* ===== verification/Base64.v ===== *)
(** * The part of Go's [encoding/base64] the program uses

    A byte string is a [string]; a sextet is a number below 64.  [decode] is
    [StdEncoding.DecodeString], which skips CR and LF and wants its padding;
    [raw_decode] is [RawStdEncoding.DecodeString], which wants none.  Neither is
    strict about the unused low bits of a last sextet.  The decoders take the
    alphabet as an argument; [url_sextet] is that of [RawURLEncoding]. *)

From S2P Require Import Prelude GoStrings.
#[local] Open Scope nat_scope.

Definition sextet_char (n : nat) : ascii :=
  if n <? 26 then ascii_of_nat (65 + n)
  else if n <? 52 then ascii_of_nat (71 + n)
  else if n <? 62 then ascii_of_nat (n - 4)
  else if n =? 62 then "+"%char else "/"%char.

Definition char_sextet (c : ascii) : option nat :=
  let n := char_code c in
  if is_upper c then Some (n - 65)
  else if is_lower c then Some (n - 71)
  else if is_digit c then Some (n + 4)
  else if Ascii.eqb c "+" then Some 62
  else if Ascii.eqb c "/" then Some 63
  else None.

Definition url_sextet (c : ascii) : option nat :=
  if Ascii.eqb c "-" then Some 62
  else if Ascii.eqb c "_" then Some 63
  else if Ascii.eqb c "+" || Ascii.eqb c "/" then None
  else char_sextet c.

Definition pad : ascii := "=".

Fixpoint encode (s : string) : string :=
  match s with
  | "" => ""
  | String a s1 =>
      let a := char_code a in
      match s1 with
      | "" => String (sextet_char (a / 4)) (String (sextet_char (a mod 4 * 16))
                (String pad (String pad "")))
      | String b s2 =>
          let b := char_code b in
          match s2 with
          | "" => String (sextet_char (a / 4)) (String (sextet_char (a mod 4 * 16 + b / 16))
                    (String (sextet_char (b mod 16 * 4)) (String pad "")))
          | String c s3 =>
              let c := char_code c in
              String (sextet_char (a / 4)) (String (sextet_char (a mod 4 * 16 + b / 16))
                (String (sextet_char (b mod 16 * 4 + c / 64)) (String (sextet_char (c mod 64)) (encode s3))))
          end
      end
  end.

Definition byte1 (p q : nat) : ascii := ascii_of_nat (p * 4 + q / 16).
Definition byte2 (q r : nat) : ascii := ascii_of_nat (q mod 16 * 16 + r / 4).
Definition byte3 (r t : nat) : ascii := ascii_of_nat (r mod 4 * 64 + t).

(** Groups of four; a group with padding must be the last. *)
Fixpoint decode_groups (s : string) : option string :=
  match s with
  | "" => Some ""
  | String a (String b (String c (String d rest))) =>
      p ← char_sextet a; q ← char_sextet b;
      if Ascii.eqb c pad
      then if Ascii.eqb d pad && String.eqb rest "" then Some (String (byte1 p q) "") else None
      else
        r ← char_sextet c;
        if Ascii.eqb d pad
        then if String.eqb rest "" then Some (String (byte1 p q) (String (byte2 q r) "")) else None
        else
          t ← char_sextet d;
          out ← decode_groups rest;
          Some (String (byte1 p q) (String (byte2 q r) (String (byte3 r t) out)))
  | _ => None
  end.

Fixpoint raw_decode_groups (sx : ascii -> option nat) (s : string) : option string :=
  match s with
  | "" => Some ""
  | String a (String b "") =>
      p ← sx a; q ← sx b; Some (String (byte1 p q) "")
  | String a (String b (String c "")) =>
      p ← sx a; q ← sx b; r ← sx c;
      Some (String (byte1 p q) (String (byte2 q r) ""))
  | String a (String b (String c (String d rest))) =>
      p ← sx a; q ← sx b; r ← sx c; t ← sx d;
      out ← raw_decode_groups sx rest;
      Some (String (byte1 p q) (String (byte2 q r) (String (byte3 r t) out)))
  | _ => None
  end.

Fixpoint filter_chars (p : ascii -> bool) (s : string) : string :=
  match s with
  | "" => ""
  | String c t => if p c then String c (filter_chars p t) else filter_chars p t
  end.

Definition not_newline (c : ascii) : bool := negb (Ascii.eqb c CR || Ascii.eqb c LF).

Definition decode (s : string) : option string := decode_groups (filter_chars not_newline s).
Definition raw_decode (s : string) : option string :=
  raw_decode_groups char_sextet (filter_chars not_newline s).

Definition raw_url_decode (s : string) : option string :=
  raw_decode_groups url_sextet (filter_chars not_newline s).

(** [RawURLEncoding.EncodeToString]. *)
Definition url_char (n : nat) : ascii :=
  if n =? 62 then "-"%char else if n =? 63 then "_"%char else sextet_char n.

Fixpoint raw_url_encode (s : string) : string :=
  match s with
  | "" => ""
  | String a s1 =>
      let a := char_code a in
      match s1 with
      | "" => String (url_char (a / 4)) (String (url_char (a mod 4 * 16)) "")
      | String b s2 =>
          let b := char_code b in
          match s2 with
          | "" => String (url_char (a / 4)) (String (url_char (a mod 4 * 16 + b / 16))
                    (String (url_char (b mod 16 * 4)) ""))
          | String c s3 =>
              let c := char_code c in
              String (url_char (a / 4)) (String (url_char (a mod 4 * 16 + b / 16))
                (String (url_char (b mod 16 * 4 + c / 64)) (String (url_char (c mod 64)) (raw_url_encode s3))))
          end
      end
  end.

(** * Lemmas *)

Lemma char_code_bound c : char_code c < 256.
Proof. apply nat_ascii_bounded. Qed.

Lemma char_sextet_enc n : n < 64 -> char_sextet (sextet_char n) = Some n.
Proof.
  intros H. refine (proj1 (Forall_forall (fun n => char_sextet (sextet_char n) = Some n) (seq 0 64)) _ n _).
  - refine (proj1 (bool_decide_eq_true _) _). vm_compute. reflexivity.
  - apply elem_of_seq. lia.
Qed.

(** A character of the alphabet is not the padding, nor white space. *)
Definition plain_char (c : ascii) : bool :=
  negb (Ascii.eqb c pad) && negb (is_space c).

Lemma sextet_char_plain n : n < 64 -> plain_char (sextet_char n) = true.
Proof.
  intros H. refine (proj1 (Forall_forall (fun n => plain_char (sextet_char n) = true) (seq 0 64)) _ n _).
  - refine (proj1 (bool_decide_eq_true _) _). vm_compute. reflexivity.
  - apply elem_of_seq. lia.
Qed.

Lemma sextet_not_pad n : n < 64 -> Ascii.eqb (sextet_char n) pad = false.
Proof.
  intros H%sextet_char_plain. unfold plain_char in H. reflect_bools. done.
Qed.

Lemma byte1_of a q : q < 16 -> byte1 (char_code a / 4) (char_code a mod 4 * 16 + q) = a.
Proof.
  intros Hq. unfold byte1.
  assert (char_code a / 4 * 4 + (char_code a mod 4 * 16 + q) / 16 = char_code a) as ->.
  { rewrite Nat.add_comm, Nat.add_comm with (m := q), Nat.div_add by lia.
    rewrite (Nat.div_small q) by lia. pose proof (Nat.div_mod_eq (char_code a) 4). lia. }
  apply ascii_nat_embedding.
Qed.

Lemma byte2_of p b r : b < 256 -> r < 4 ->
  p * 16 + b / 16 < 64 -> byte2 (p * 16 + b / 16) (b mod 16 * 4 + r) = ascii_of_nat b.
Proof.
  intros Hb Hr Hp. unfold byte2. f_equal.
  rewrite (Nat.add_comm (p * 16)), Nat.Div0.mod_add, (Nat.mod_small (b / 16)).
  - rewrite (Nat.add_comm (b mod 16 * 4)), Nat.div_add, (Nat.div_small r) by lia.
    pose proof (Nat.div_mod_eq b 16). lia.
  - apply Nat.Div0.div_lt_upper_bound. lia.
Qed.

Lemma byte3_of q c : c < 256 -> byte3 (q * 4 + c / 64) (c mod 64) = ascii_of_nat c.
Proof.
  intros Hc. unfold byte3. f_equal.
  rewrite (Nat.add_comm (q * 4)), Nat.Div0.mod_add, (Nat.mod_small (c / 64)).
  - pose proof (Nat.div_mod_eq c 64). lia.
  - apply Nat.Div0.div_lt_upper_bound. lia.
Qed.

Ltac sextet :=
  repeat match goal with
  | |- context [char_code ?c] =>
      lazymatch goal with
      | H : char_code c < 256 |- _ => fail
      | _ => pose proof (char_code_bound c)
      end
  end;
  repeat match goal with
  | |- context [?x / ?n] =>
      lazymatch goal with
      | H : x = n * (x / n) + x mod n |- _ => fail
      | _ => pose proof (Nat.div_mod_eq x n); assert (x mod n < n) by (apply Nat.mod_upper_bound; lia)
      end
  | |- context [?x mod ?n] =>
      lazymatch goal with
      | H : x = n * (x / n) + x mod n |- _ => fail
      | _ => pose proof (Nat.div_mod_eq x n); assert (x mod n < n) by (apply Nat.mod_upper_bound; lia)
      end
  end; lia.

Lemma string_ind3 (P : string -> Prop) :
  P "" -> (forall a, P (String a "")) -> (forall a b, P (String a (String b ""))) ->
  (forall a b c s, P s -> P (String a (String b (String c s)))) -> forall s, P s.
Proof.
  intros H0 H1 H2 H3. assert (forall n s, String.length s <= n -> P s) as H.
  { induction n as [|n IH]; intros s Hs; [by destruct s; [|simpl in Hs; lia]|].
    destruct s as [|a [|b [|c s]]]; [done..|]. apply H3, IH. simpl in Hs. lia. }
  intros s. by apply (H (String.length s)).
Qed.

(** What holds of the padding and of the alphabet holds of an encoding. *)
Lemma encode_chars (p : ascii -> bool) s :
  p pad = true -> forallb (fun n => p (sextet_char n)) (seq 0 64) = true -> forall_chars p (encode s) = true.
Proof.
  intros Hp Ha. assert (forall n, n < 64 -> p (sextet_char n) = true) as Hs.
  { intros n Hn. rewrite forallb_forall in Ha. apply Ha, in_seq. lia. }
  induction s as [|a|a b|a b c s IH] using string_ind3; [done|..]; cbn [encode forall_chars];
    rewrite ?Hs, ?Hp by sextet; try done; by rewrite IH.
Qed.

(** Decoding the groups of an encoding gives the bytes back. *)
Lemma decode_groups_encode s : decode_groups (encode s) = Some s.
Proof.
  induction s as [|a|a b|a b c s IH] using string_ind3; [done|..];
    cbn [encode decode_groups]; rewrite ?char_sextet_enc by sextet; cbn [mbind option_bind].
  - rewrite <- (Nat.add_0_r (char_code a mod 4 * 16)), byte1_of by lia. done.
  - rewrite sextet_not_pad, ?char_sextet_enc by sextet. cbn [mbind option_bind].
    rewrite byte1_of by sextet. rewrite <- (Nat.add_0_r (char_code b mod 16 * 4)).
    rewrite byte2_of by sextet. rewrite ascii_nat_embedding. done.
  - rewrite !sextet_not_pad, ?char_sextet_enc by sextet. cbn [mbind option_bind].
    rewrite IH. cbn [mbind option_bind].
    rewrite byte1_of, byte2_of, byte3_of by sextet. by rewrite !ascii_nat_embedding.
Qed.

(** ** The URL alphabet *)

Lemma url_sextet_enc n : n < 64 -> url_sextet (url_char n) = Some n /\ not_newline (url_char n) = true.
Proof.
  intros H. refine (proj1 (Forall_forall (fun n => url_sextet (url_char n) = Some n /\ not_newline (url_char n) = true) (seq 0 64)) _ n _).
  - refine (proj1 (bool_decide_eq_true _) _). vm_compute. reflexivity.
  - apply elem_of_seq. lia.
Qed.

Lemma url_sextet_dec n : n < 64 -> url_sextet (url_char n) = Some n.
Proof. apply url_sextet_enc. Qed.

Lemma raw_url_encode_chars s : filter_chars not_newline (raw_url_encode s) = raw_url_encode s.
Proof.
  induction s as [|a|a b|a b c s IH] using string_ind3; [done|..]; cbn [raw_url_encode filter_chars];
    rewrite ?(fun n H => proj2 (url_sextet_enc n H)) by sextet; [done..|]. by rewrite IH.
Qed.

Lemma raw_url_round_trip s : raw_url_decode (raw_url_encode s) = Some s.
Proof.
  unfold raw_url_decode. rewrite raw_url_encode_chars.
  induction s as [|a|a b|a b c s IH] using string_ind3; [done|..];
    cbn [raw_url_encode raw_decode_groups]; rewrite ?url_sextet_dec by sextet; cbn [mbind option_bind].
  - rewrite <- (Nat.add_0_r (char_code a mod 4 * 16)), byte1_of by lia. done.
  - rewrite byte1_of by sextet. rewrite <- (Nat.add_0_r (char_code b mod 16 * 4)).
    rewrite byte2_of by sextet. by rewrite ascii_nat_embedding.
  - rewrite IH. cbn [mbind option_bind].
    rewrite byte1_of, byte2_of, byte3_of by sextet. by rewrite !ascii_nat_embedding.
Qed.
