(* ===== verification/GoUrl.v ===== *)
(** * The part of Go's net/url the program uses: query strings *)

From S2P Require Import Prelude GoStrings GoNet.
#[local] Open Scope Z_scope.

Definition one_of (cs : string) (c : ascii) : bool := has_char c cs.

Definition unreserved (c : ascii) : bool := is_letter c || is_digit c || one_of "-_.~" c.
Definition upper_hex (n : nat) : ascii := ascii_of_nat (if (n <? 10)%nat then 48 + n else 55 + n).
(** [url.QueryEscape]. *)
Fixpoint query_escape (s : string) : string :=
  match s with
  | "" => ""
  | String c t =>
      if unreserved c then String c (query_escape t)
      else if Ascii.eqb c " " then String "+" (query_escape t)
      else String "%" (String (upper_hex (char_code c / 16)) (String (upper_hex (char_code c mod 16)) (query_escape t)))
  end.

Definition escape_error (s : string) : error := Sentinel ("invalid URL escape " +:+ s).

(** [url.QueryUnescape]. *)
Fixpoint query_unescape (s : string) : res string :=
  match s with
  | "" => Ok ""
  | String "%" t =>
      match t with
      | String a (String b t') =>
          match hex_value a, hex_value b with
          | Some x, Some y =>
              let! r := query_unescape t' in Ok (String (ascii_of_nat (Z.to_nat (16 * x + y))) r)
          | _, _ => Err (escape_error s)
          end
      | _ => Err (escape_error s)
      end
  | String "+" t => let! r := query_unescape t in Ok (String " " r)
  | String c t => let! r := query_unescape t in Ok (String c r)
  end.

(** One key and value of [url.ParseQuery]; an empty field is skipped. *)
Definition query_field (f : string) : res (list (string * string)) :=
  if has_char ";" f then Err (Sentinel "invalid semicolon separator in query")
  else if String.eqb f "" then Ok []
  else
    let '(k, v) := match cut "=" f with Some kv => kv | None => (f, "") end in
    let! k := query_unescape k in
    let! v := query_unescape v in
    Ok [(k, v)].

Fixpoint query_fields (fs : list string) : res (list (string * string)) :=
  match fs with
  | [] => Ok []
  | f :: fs => let! kv := query_field f in let! rest := query_fields fs in Ok (kv ++ rest)
  end.

(** [url.ParseQuery]: any malformed field is an error. *)
Definition parse_query (q : string) : res (list (string * string)) := query_fields (split "&" q).

(** [Values.Get]. *)
Definition query_get (k : string) (vs : list (string * string)) : string :=
  match List.find (fun kv => String.eqb kv.1 k) vs with Some (_, v) => v | None => "" end.

(** ** Round trips *)

Example query_escape_example : query_escape "a&name=b c/%" = "a%26name%3Db+c%2F%25".
Proof. reflexivity. Qed.

Lemma escaped_char_reads c t : query_unescape (query_escape (String c t)) = res_bind (query_unescape (query_escape t)) (fun r => Ok (String c r)).
Proof. simpl. generalize (query_escape t). intros u. destruct c as [[] [] [] [] [] [] [] []]; reflexivity. Qed.

Lemma query_unescape_escape s : query_unescape (query_escape s) = Ok s.
Proof. induction s as [|c t IH]; [done|]. by rewrite escaped_char_reads, IH. Qed.

(** What escaping leaves: no separator of a query string. *)
Lemma query_escape_chars s : forall_chars (fun c => unreserved c || one_of "+%0123456789ABCDEF" c) (query_escape s) = true.
Proof.
  induction s as [|c t IH]; [done|]. simpl. revert IH. generalize (query_escape t). intros u IH.
  destruct c as [[] [] [] [] [] [] [] []]; simpl; by rewrite IH.
Qed.

Lemma query_escape_free d s : unreserved d || one_of "+%0123456789ABCDEF" d = false -> no_char d (query_escape s) = true.
Proof.
  intros Hd. eapply forall_chars_impl; [|apply (query_escape_chars s)]. intros c Hc.
  destruct (Ascii.eqb_spec d c) as [->|]; [congruence|done].
Qed.
