(* ===== verification/Nostr.v ===== *)
(** * Nostr events

    The fields of an event as the go-nostr library has them; its signature
    check, its keys and its ciphers are parameters where they are used. *)

From S2P Require Import Prelude.
#[local] Open Scope Z_scope.

Record nostr_event := NostrEvent {
  ev_id : string; ev_pubkey : string; ev_created_at : Z; ev_kind : Z; ev_tags : list (list string);
  ev_content : string; ev_sig : string }.
