(* ===== verification/Encryption.v ===== *)
(** * Encryption modes and signers: internal/encryption/signer.go and email.go

    A signer is the record of what its interface answers; the NIP-44 cipher and
    the remote signer behind it are functions of the record.  The store of
    signers is a function from a pubkey. *)

From S2P Require Import Prelude GoStrings Base64.

Definition ModeNone : string := "none".
Definition ModeServerSide : string := "server".
Definition ModeClientSide : string := "client".

Inductive signer_type := SignerTypeNIP46 | SignerTypeNIP07 | SignerTypeNone.
#[export] Instance signer_type_eq_dec : EqDecision signer_type.
Proof. solve_decision. Defined.

Definition ErrClientSideOnly : error :=
  Sentinel "this signer requires client-side encryption/decryption".
Definition ErrSignerCannotEncrypt : error := Sentinel "signer cannot perform encryption".
Definition ErrSignerCannotDecrypt : error :=
  Sentinel "signer cannot perform decryption - message may require original encryption method".
Definition ErrNoSignerConnection : error := Sentinel "no active bunker connection for user".

Record enc_signer := EncSigner {
  sg_type : signer_type;
  sg_pubkey : string;
  sg_encrypt : string -> string -> res string;
  sg_decrypt : string -> string -> res string;
  sg_can_encrypt : bool;
  sg_can_decrypt : bool }.

Definition client_side_signer (pk : string) : enc_signer := {|
  sg_type := SignerTypeNIP07; sg_pubkey := pk;
  sg_encrypt := fun _ _ => Err ErrClientSideOnly; sg_decrypt := fun _ _ => Err ErrClientSideOnly;
  sg_can_encrypt := false; sg_can_decrypt := false |}.

Record encryption_request := EncryptionRequest {
  er_plaintext : string; er_pre_encrypted : string; er_sender : string; er_recipient : string;
  er_mode : string }.
Record encryption_result := EncryptionResult {
  en_ciphertext : string; en_mode : string; en_algorithm : string }.

Record decryption_request := DecryptionRequest {
  dr_ciphertext : string; dr_recipient : string; dr_sender : string; dr_mode : string }.
Record decryption_result := DecryptionResult {
  de_plaintext : string; de_client : bool; de_ciphertext : string }.

Section service.
Context (signer_store : string -> res enc_signer).

Definition encrypt_for_recipient (r : encryption_request) : res encryption_result :=
  if negb (String.eqb (er_pre_encrypted r) "") then
    if String.eqb (er_mode r) ModeClientSide
    then Ok (EncryptionResult (er_pre_encrypted r) ModeClientSide "nip44-v2-client")
    else Err (Sentinel "pre-encrypted content requires client-side mode")
  else if negb (String.eqb (er_mode r) ModeServerSide)
  then Err (Sentinel "plaintext encryption requires server-side mode")
  else
    let! s := wrap "failed to get signer" (signer_store (er_sender r)) in
    if negb (sg_can_encrypt s) then Err ErrSignerCannotEncrypt
    else
      let! c := wrap "encryption failed" (sg_encrypt s (er_plaintext r) (er_recipient r)) in
      Ok (EncryptionResult c ModeServerSide "nip44-v2").

Definition decrypt_for_recipient (r : decryption_request) : res decryption_result :=
  if String.eqb (dr_mode r) ModeClientSide
  then Ok (DecryptionResult "" true (dr_ciphertext r))
  else
    let! s := wrap "failed to get signer" (signer_store (dr_recipient r)) in
    if negb (sg_can_decrypt s) then Err ErrSignerCannotDecrypt
    else
      let! p := wrap "decryption failed" (sg_decrypt s (dr_ciphertext r) (dr_sender r)) in
      Ok (DecryptionResult p false "").

Definition determine_encryption_mode (pk : string) : res string :=
  let! s := wrap "failed to get signer" (signer_store pk) in
  Ok (match sg_type s with
      | SignerTypeNIP46 => ModeServerSide
      | SignerTypeNIP07 => ModeClientSide
      | SignerTypeNone => ModeNone
      end).

End service.

(** ** Mail headers of an encrypted message (email.go) *)

Definition header_nostr_encrypted : string := "X-Nostr-Encrypted".
Definition header_nostr_sender : string := "X-Nostr-Sender".
Definition header_nostr_recipient : string := "X-Nostr-Recipient".
Definition header_nostr_algorithm : string := "X-Nostr-Algorithm".
Definition algorithm_nip44 : string := "nip44".

Record encrypted_email := EncryptedEmail {
  ee_from : string; ee_to : string; ee_subject : string; ee_body : string; ee_is_encrypted : bool;
  ee_sender : string; ee_recipient : string; ee_algorithm : string }.

Record encryption_metadata := EncryptionMetadata {
  md_is_encrypted : bool; md_sender : string; md_recipient : string; md_algorithm : string }.

Section encryptor.
(** The bunker's [EncryptContent] and [DecryptContent], and the NIP-05 resolver. *)
Context (encrypt_content : string -> string -> string -> res string).
Context (decrypt_content : string -> string -> string -> res string).
Context (resolve_pubkey : string -> res string).

Definition encrypt_email_body (sender recipient plaintext : string) : res string :=
  wrap "failed to encrypt email body" (encrypt_content sender recipient plaintext).
Definition decrypt_email_body (recipient sender ciphertext : string) : res string :=
  wrap "failed to decrypt email body" (decrypt_content recipient sender ciphertext).

Definition prepare_encrypted_email (from to subject body sender : string) : res encrypted_email :=
  let! pk := wrap ("failed to resolve recipient pubkey for " +:+ to) (resolve_pubkey to) in
  let! c := encrypt_email_body sender pk body in
  Ok (EncryptedEmail from to subject c true sender pk algorithm_nip44).

Definition format_encrypted_email_headers (e : encrypted_email) : gmap string string :=
  if negb (ee_is_encrypted e) then ∅
  else list_to_map [(header_nostr_encrypted, "true"); (header_nostr_sender, ee_sender e);
                    (header_nostr_recipient, ee_recipient e); (header_nostr_algorithm, ee_algorithm e)].

(** [headers] answers [mail.Header.Get]. *)
Definition parse_encrypted_email_headers (headers : string -> string) : encryption_metadata :=
  if negb (String.eqb (headers header_nostr_encrypted) "true") then EncryptionMetadata false "" "" ""
  else EncryptionMetadata true (headers header_nostr_sender) (headers header_nostr_recipient)
         (headers header_nostr_algorithm).

(** [read_message] is net/mail's: the headers and the body, or an error. *)
Definition parse_raw_email (read_message : string -> res ((string -> string) * string)) (raw : string)
    : res (encryption_metadata * string) :=
  let! m := wrap "failed to parse email" (read_message raw) in
  let '(h, body) := m in
  Ok (parse_encrypted_email_headers h, default body (decode (trim_space body))).

Definition decrypt_email (md : encryption_metadata) (recipient body : string) : res string :=
  if negb (md_is_encrypted md) then Ok body
  else if negb (String.eqb (md_algorithm md) algorithm_nip44)
  then Err (Sentinel ("unsupported encryption algorithm: " +:+ md_algorithm md))
  else decrypt_email_body recipient (md_sender md) body.

(** What one side formats the other reads back, and opens when the cipher
    inverts itself. *)
Theorem encrypted_email_round_trip from to subject body sender recipient e
    (Hcipher : forall s r p c, encrypt_content s r p = Ok c -> decrypt_content r s c = Ok p)
    (Hto : resolve_pubkey to = Ok recipient)
    (He : prepare_encrypted_email from to subject body sender = Ok e) :
  let md := parse_encrypted_email_headers
              (fun n => default "" (format_encrypted_email_headers e !! n)) in
  md = EncryptionMetadata true sender recipient algorithm_nip44 /\
  decrypt_email md recipient (ee_body e) = Ok body.
Proof.
  unfold prepare_encrypted_email, encrypt_email_body in He. rewrite Hto in He. simpl in He.
  destruct (encrypt_content sender recipient body) as [c|] eqn:Hc; [|done]. simpl in He.
  injection He as <-.
  assert (parse_encrypted_email_headers
            (fun n => default "" (format_encrypted_email_headers
               (EncryptedEmail from to subject c true sender recipient algorithm_nip44) !! n))
          = EncryptionMetadata true sender recipient algorithm_nip44) as ->.
  { unfold parse_encrypted_email_headers, format_encrypted_email_headers. simpl.
    by simplify_map_eq. }
  split; [done|]. unfold decrypt_email, decrypt_email_body. simpl. by rewrite (Hcipher _ _ _ _ Hc).
Qed.

End encryptor.

(** A toy cipher that inverts itself. *)
Definition sample_encrypt (sender recipient p : string) : res string := Ok ("nip44:" +:+ p).
Definition sample_decrypt (recipient sender c : string) : res string := Ok (drop_str 6 c).

Lemma encrypted_email_round_trip_witness :
  exists e, prepare_encrypted_email sample_encrypt (fun _ => Ok "b0b") "a@x" "b@y" "hi" "text" "a11ce" = Ok e /\
    decrypt_email sample_decrypt
      (parse_encrypted_email_headers (fun n => default "" (format_encrypted_email_headers e !! n)))
      "b0b" (ee_body e) = Ok "text".
Proof.
  eexists. split; [reflexivity|].
  refine (proj2 (encrypted_email_round_trip sample_encrypt sample_decrypt (fun _ => Ok "b0b") "a@x" "b@y"
           "hi" "text" "a11ce" "b0b" _ _ _ _)).
  - intros s r p c [= <-]. reflexivity.
  - reflexivity.
  - reflexivity.
Defined.
