(* ===== verification/Envelope.v ===== *)
(** * Client-side encryption envelopes: internal/encryption/payload.go and
    internal/encryption/attachment_envelope.go

    The server cannot open what a client encrypted; these are its checks that a
    client sent ciphertext, and for whom.  [encoding/json] is a parameter: a
    strict decode (unknown fields and trailing data refused) and a plain one, of
    each of the two structs. *)

From S2P Require Import Prelude GoStrings Base64.
#[local] Open Scope Z_scope.

Definition nip44_min_decoded : Z := 1 + 32 + 2 + 32 + 32.
Definition nip44_max_decoded : Z := 1 + 32 + 2 + 65536 + 32.
Definition nip44_min_encoded : Z := 132.
Definition nip44_max_encoded : Z := 87472.
Definition nip44_version : ascii := "002".

Definition is_nip44_payload (s : string) : bool :=
  if (str_len s <? nip44_min_encoded) || (nip44_max_encoded <? str_len s) then false
  else
    match decode s with
    | None => false
    | Some raw =>
        if (str_len raw <? nip44_min_decoded) || (nip44_max_decoded <? str_len raw) then false
        else match raw with String c _ => Ascii.eqb c nip44_version | "" => false end
    end.

Record sealed_blob := SealedBlob { sb_ciphertext : string; sb_nonce : string; sb_algorithm : string }.

Record body_envelope := BodyEnvelope {
  be_v : Z; be_type : string; be_id : string; be_sender : string;
  be_keys : gmap string string; be_data : option sealed_blob }.

Record attachment_envelope := AttachmentEnvelope {
  ae_v : Z; ae_id : string; ae_sender : string; ae_keys : gmap string string;
  ae_meta : option sealed_blob; ae_data : option sealed_blob }.

Definition xchacha_nonce_bytes : Z := 24.
Definition poly1305_tag_bytes : Z := 16.
Definition max_envelope_id_len : Z := 128.

Definition is_hex_pubkey (s : string) : bool := (str_len s =? 64) && hex_decodes s.

Definition is_sealed_blob (b : option sealed_blob) : bool :=
  match b with
  | None => false
  | Some b =>
      String.eqb (sb_algorithm b) "xchacha20-poly1305" &&
      match raw_url_decode (sb_nonce b) with Some n => str_len n =? xchacha_nonce_bytes | None => false end &&
      match raw_url_decode (sb_ciphertext b) with Some c => poly1305_tag_bytes <=? str_len c | None => false end
  end.

Definition valid_key_envelopes (id sender : string) (keys : gmap string string) : bool :=
  if String.eqb id "" || (max_envelope_id_len <? str_len id) || negb (is_hex_pubkey sender) then false
  else if bool_decide (keys !! sender = None) || (Z.of_nat (size keys) <? 2) then false
  else forallb (fun kv => is_hex_pubkey kv.1 && is_nip44_payload kv.2) (map_to_list keys).

Definition key_holders (keys : gmap string string) : list string :=
  map (fun kv => to_lower kv.1) (map_to_list keys).

Class JSON := {
  strict_body : string -> option body_envelope;
  unmarshal_body : string -> option body_envelope;
  strict_attachment : string -> option attachment_envelope;
  unmarshal_attachment : string -> option attachment_envelope }.

(** A strict decode reads the first value of the text and a plain decode the
    whole text, which may fail on what follows; where both succeed they agree. *)
Class JSONLaws `{JSON} := {
  body_decodes_agree : forall s e e', strict_body s = Some e -> unmarshal_body s = Some e' -> e' = e;
  attachment_decodes_agree : forall s e e',
    strict_attachment s = Some e -> unmarshal_attachment s = Some e' -> e' = e }.

Section envelopes.
Context `{JSON}.

Definition is_encrypted_attachment (b : string) : bool :=
  match strict_attachment b with
  | None => false
  | Some e =>
      if negb (ae_v e =? 1) || negb (valid_key_envelopes (ae_id e) (ae_sender e) (ae_keys e)) then false
      else is_sealed_blob (ae_meta e) && is_sealed_blob (ae_data e)
  end.

Definition is_encrypted_body (s : string) : bool :=
  match strict_body s with
  | None => false
  | Some e => (be_v e =? 1) && String.eqb (be_type e) "body" &&
              valid_key_envelopes (be_id e) (be_sender e) (be_keys e) && is_sealed_blob (be_data e)
  end.

(** The pubkeys that hold a wrapped key, in lower case; [None] for anything that
    is not an envelope. *)
Definition body_key_holders (s : string) : option (list string) :=
  if is_encrypted_body s then key_holders ∘ be_keys <$> unmarshal_body s else None.

Definition attachment_key_holders (b : string) : option (list string) :=
  if is_encrypted_attachment b then key_holders ∘ ae_keys <$> unmarshal_attachment b else None.

End envelopes.

(** * Lemmas *)

Lemma key_holders_elem keys pk : pk ∈ key_holders keys <-> exists k v, keys !! k = Some v /\ to_lower k = pk.
Proof.
  unfold key_holders. rewrite list_elem_of_In, in_map_iff. split.
  - intros ([k v] & <- & Hin). rewrite <- list_elem_of_In, elem_of_map_to_list in Hin. eauto.
  - intros (k & v & Hk & <-). exists (k, v). split; [done|].
    by rewrite <- list_elem_of_In, elem_of_map_to_list.
Qed.

Lemma valid_keys_all id sender keys pk w :
  valid_key_envelopes id sender keys = true -> keys !! pk = Some w ->
  is_hex_pubkey pk = true /\ is_nip44_payload w = true.
Proof.
  unfold valid_key_envelopes. intros Hv Hk. repeat case_match; try done.
  rewrite forallb_forall in Hv. specialize (Hv (pk, w)). rewrite <- list_elem_of_In in Hv.
  specialize (Hv (proj2 (elem_of_map_to_list _ _ _) Hk)). by apply andb_true_iff in Hv.
Qed.

Lemma valid_keys_sender id sender keys :
  valid_key_envelopes id sender keys = true -> exists w, keys !! sender = Some w.
Proof.
  unfold valid_key_envelopes. intros Hv. repeat case_match; try done.
  reflect_bools. apply bool_decide_eq_false in H0. destruct (keys !! sender); eauto. done.
Qed.

(** A key holder is a hexadecimal pubkey. *)
Lemma valid_holders_hex id sender keys pk :
  valid_key_envelopes id sender keys = true -> pk ∈ key_holders keys -> hex_decodes pk = true.
Proof.
  intros Hv (k & w & Hk & <-)%key_holders_elem. apply hex_decodes_lower.
  destruct (valid_keys_all _ _ _ _ _ Hv Hk) as [Hx _]. unfold is_hex_pubkey in Hx. by apply andb_true_iff in Hx as [_ ?].
Qed.

Lemma body_holders_hex `{JSONLaws} s h pk : body_key_holders s = Some h -> pk ∈ h -> hex_decodes pk = true.
Proof.
  unfold body_key_holders, is_encrypted_body. destruct (strict_body s) as [e|] eqn:E; [|done].
  destruct (_ && _ && _ && _) eqn:Ev; [|done]. destruct (unmarshal_body s) as [e'|] eqn:E'; [|done].
  rewrite (body_decodes_agree s e e' E E'). intros [= <-]. reflect_bools. by eapply valid_holders_hex.
Qed.

Lemma attachment_holders_hex `{JSONLaws} s h pk : attachment_key_holders s = Some h -> pk ∈ h -> hex_decodes pk = true.
Proof.
  unfold attachment_key_holders, is_encrypted_attachment. destruct (strict_attachment s) as [e|] eqn:E; [|done].
  destruct (_ || _) eqn:Ev; [done|]. destruct (_ && _); [|done].
  destruct (unmarshal_attachment s) as [e'|] eqn:E'; [|done].
  rewrite (attachment_decodes_agree s e e' E E'). intros [= <-]. reflect_bools. by eapply valid_holders_hex.
Qed.

(** A NIP-44 payload is never short, never text that is not base64. *)
Lemma nip44_payload_decodes s :
  is_nip44_payload s = true ->
  exists raw, decode s = Some (String nip44_version raw) /\
    nip44_min_decoded <= str_len (String nip44_version raw) <= nip44_max_decoded.
Proof.
  unfold is_nip44_payload. intros Hs. case_match; [done|]. destruct (decode s) as [raw|]; [|done].
  case_match eqn:Hb; [done|]. reflect_bools. destruct raw as [|c raw]; [done|].
  apply Ascii.eqb_eq in Hs as ->. exists raw. split; [done|]. lia.
Qed.
