(* ===== verification/Emails.v ===== *)
(** * The stored mail: internal/storage/postgres.go, "Email Operations" and "Attachment Operations"

    A database is its [emails] and [attachments] tables, in insertion order, and
    the [mailboxes] table they refer to.  Each operation is one SQL statement at
    the time [now]; the constraints are those of the migrated schema (a key on
    id, unique (mailbox_pubkey, direction, message_id) with NULLs distinct, the
    VARCHAR lengths, the foreign keys).  A nil Go slice of labels is stored as
    NULL.  The BEFORE UPDATE trigger stamps [updated_at]. *)

From stdpp Require Import sorting.
From S2P Require Import Prelude GoStrings Mailboxes.
#[local] Open Scope Z_scope.

Record email := Email {
  em_id : string;
  em_mailbox_pubkey : string;
  em_message_id : option string;
  em_from_address : string;
  em_to_address : string;
  em_cc : option string;
  em_bcc : option string;
  em_subject : string;
  em_body : string;
  em_html_body : option string;
  em_is_encrypted : bool;
  em_encryption_nonce : option string;
  em_encryption_mode : option string;
  em_sender_npub : option string;
  em_recipient_npub : option string;
  em_direction : string;
  em_status : string;
  em_read_at : option Z;
  em_folder : string;
  em_labels : option (list string);
  em_in_reply_to : option string;
  em_references : option string;
  em_nostr_verified : bool;
  em_nostr_verification_error : option string;
  em_nostr_verified_at : option Z;
  em_created_at : Z;
  em_updated_at : Z;
  em_deleted_at : option Z }.

Record attachment := Attachment {
  at_id : string;
  at_email_id : string;
  at_filename : string;
  at_content_type : option string;
  at_size_bytes : option Z;
  at_blossom_sha256 : option string;
  at_blossom_url : option string;
  at_blob_key : option string;
  at_created_at : Z }.

Record database := Database {
  db_emails : list email;
  db_attachments : list attachment;
  db_mailboxes : mailbox_table }.

(** ** Insertion *)

Definition default_folder (direction : string) : string :=
  if String.eqb direction "sent" then "Sent"
  else if String.eqb direction "draft" then "Drafts"
  else "INBOX".

Definition or_else (s d : string) : string := if String.eqb s "" then d else s.

(** The row CreateEmail inserts: columns it does not name take their defaults. *)
Definition created_row (gen : string) (now : Z) (e : email) : email :=
  let dir := or_else (em_direction e) "sent" in {|
  em_id := or_else (em_id e) gen;
  em_mailbox_pubkey := em_mailbox_pubkey e; em_message_id := em_message_id e;
  em_from_address := em_from_address e; em_to_address := em_to_address e;
  em_cc := em_cc e; em_bcc := em_bcc e; em_subject := em_subject e; em_body := em_body e;
  em_html_body := em_html_body e; em_is_encrypted := em_is_encrypted e;
  em_encryption_nonce := em_encryption_nonce e; em_encryption_mode := em_encryption_mode e;
  em_sender_npub := em_sender_npub e; em_recipient_npub := em_recipient_npub e;
  em_direction := dir;
  em_status := or_else (em_status e) "active";
  em_read_at := None;
  em_folder := or_else (em_folder e) (default_folder dir);
  em_labels := em_labels e; em_in_reply_to := em_in_reply_to e; em_references := em_references e;
  em_nostr_verified := false; em_nostr_verification_error := None; em_nostr_verified_at := None;
  em_created_at := now; em_updated_at := now; em_deleted_at := None |}.

Definition fits (n : Z) (s : string) : bool := str_len s <=? n.
Definition fits_opt (n : Z) (s : option string) : bool :=
  match s with Some s => fits n s | None => true end.

(** VARCHAR lengths (in characters; bytes here). *)
Definition columns_fit (e : email) : bool :=
  fits_opt 255 (em_message_id e) && fits 255 (em_from_address e) && fits 255 (em_to_address e) &&
  fits_opt 255 (em_cc e) && fits_opt 255 (em_bcc e) && fits_opt 255 (em_encryption_nonce e) &&
  fits_opt 16 (em_encryption_mode e) && fits_opt 128 (em_sender_npub e) &&
  fits_opt 128 (em_recipient_npub e) && fits 20 (em_direction e) && fits 20 (em_status e) &&
  fits 50 (em_folder e).

(** Two rows that the unique index refuses to hold together. *)
Definition same_message (a b : email) : bool :=
  String.eqb (em_mailbox_pubkey a) (em_mailbox_pubkey b) &&
  String.eqb (em_direction a) (em_direction b) &&
  match em_message_id a, em_message_id b with
  | Some x, Some y => String.eqb x y
  | _, _ => false
  end.

Definition has_mailbox (d : database) (pk : string) : bool :=
  match db_mailboxes d !! pk with Some _ => true | None => false end.

Definition constraint_violated (d : database) (r : email) : option string :=
  if negb (columns_fit r) then Some "value too long"
  else if existsb (fun x => String.eqb (em_id x) (em_id r)) (db_emails d) then Some "duplicate key"
  else if existsb (same_message r) (db_emails d)
  then Some "duplicate key emails_mailbox_direction_message_id_key"
  else if negb (has_mailbox d (em_mailbox_pubkey r)) then Some "foreign key"
  else None.

Definition create_email (gen : string) (now : Z) (e : email) (d : database) : database * res string :=
  let r := created_row gen now e in
  match constraint_violated d r with
  | Some why => (d, Err (Wrapped "failed to create email" (Sentinel why)))
  | None => (Database (db_emails d ++ [r]) (db_attachments d) (db_mailboxes d), Ok (em_id r))
  end.

(** ** Selection *)

Definition live (e : email) : bool := match em_deleted_at e with None => true | Some _ => false end.
Definition has_id (i : string) (e : email) : bool := String.eqb (em_id e) i.
Definition live_id (i : string) (e : email) : bool := has_id i e && live e.

(** What a SELECT scans into the struct: the Nostr columns are not selected. *)
Definition scanned (e : email) : email := {|
  em_id := em_id e; em_mailbox_pubkey := em_mailbox_pubkey e; em_message_id := em_message_id e;
  em_from_address := em_from_address e; em_to_address := em_to_address e; em_cc := em_cc e;
  em_bcc := em_bcc e; em_subject := em_subject e; em_body := em_body e;
  em_html_body := em_html_body e; em_is_encrypted := em_is_encrypted e;
  em_encryption_nonce := em_encryption_nonce e; em_encryption_mode := em_encryption_mode e;
  em_sender_npub := em_sender_npub e; em_recipient_npub := em_recipient_npub e;
  em_direction := em_direction e; em_status := em_status e; em_read_at := em_read_at e;
  em_folder := em_folder e; em_labels := em_labels e; em_in_reply_to := em_in_reply_to e;
  em_references := em_references e;
  em_nostr_verified := false; em_nostr_verification_error := None; em_nostr_verified_at := None;
  em_created_at := em_created_at e; em_updated_at := em_updated_at e; em_deleted_at := em_deleted_at e |}.

Definition get_email (i : string) (d : database) : option email :=
  scanned <$> List.find (live_id i) (db_emails d).

Definition get_email_by_message_id (pk mid : string) (d : database) : option email :=
  scanned <$> List.find (fun e => String.eqb (em_mailbox_pubkey e) pk &&
                                  bool_decide (em_message_id e = Some mid) && live e) (db_emails d).

(** *** Filters *)

(** [ILIKE] on ASCII: % any text, _ any character, \ the next one literally. *)
Fixpoint like (pat s : string) : bool :=
  match pat with
  | "" => String.eqb s ""
  | String c pat' =>
      if Ascii.eqb c "%" then
        (fix any (s : string) : bool :=
           like pat' s || match s with "" => false | String _ t => any t end) s
      else if Ascii.eqb c "_" then match s with "" => false | String _ t => like pat' t end
      else if Ascii.eqb c "\" then
        match pat', s with
        | String d pat'', String x t => Ascii.eqb d x && like pat'' t
        | _, _ => false
        end
      else match s with "" => false | String x t => Ascii.eqb c x && like pat' t end
  end.
Definition ilike (s pat : string) : bool := like (to_lower pat) (to_lower s).
Definition around (s : string) : string := "%" +:+ s +:+ "%".

Record email_filter := EmailFilter {
  f_direction : string; f_status : string; f_folder : string; f_labels : list string;
  f_unread : option bool; f_starred : option bool; f_search : string;
  f_from_address : string; f_to_address : string; f_has_attachment : option bool;
  f_before : option Z; f_after : option Z; f_in_reply_to : string }.

Definition no_filter : email_filter := EmailFilter "" "" "" [] None None "" "" "" None None None "".

(** Three-valued SQL conditions: [None] is NULL, which a WHERE rejects. *)
Definition holds (c : option bool) : bool := default false c.

(** [labels @> ARRAY[l]] and [labels && ls]. *)
Definition labels_contain (e : email) (l : string) : option bool :=
  (fun ls => bool_decide (l ∈ ls)) <$> em_labels e.
Definition labels_meet (e : email) (ls : list string) : option bool :=
  (fun xs => existsb (fun l => bool_decide (l ∈ xs)) ls) <$> em_labels e.

(** The literal the query compares with: the Go string holds two backslashes,
    which a standard SQL literal keeps. *)
Definition starred_in_query : string := "\\Starred".

Definition has_attachments (d : database) (e : email) : bool :=
  existsb (fun a => String.eqb (at_email_id a) (em_id e)) (db_attachments d).

Definition given (s : string) (c : bool) : bool := String.eqb s "" || c.

Definition matches (d : database) (f : email_filter) (e : email) : bool :=
  given (f_direction f) (String.eqb (em_direction e) (f_direction f)) &&
  given (f_status f) (String.eqb (em_status e) (f_status f)) &&
  given (f_folder f) (String.eqb (em_folder e) (f_folder f)) &&
  match f_unread f, em_read_at e with
  | Some true, Some _ => false
  | Some false, None => false
  | _, _ => true
  end &&
  match f_starred f with
  | None => true
  | Some true => holds (labels_contain e starred_in_query)
  | Some false => holds (negb <$> labels_contain e starred_in_query)
  end &&
  given (f_search f) (ilike (em_subject e) (around (f_search f)) || ilike (em_body e) (around (f_search f))) &&
  (bool_decide (f_labels f = []) || holds (labels_meet e (f_labels f))) &&
  given (f_from_address f) (ilike (em_from_address e) (around (f_from_address f))) &&
  given (f_to_address f) (ilike (em_to_address e) (around (f_to_address f))) &&
  match f_has_attachment f with
  | None => true
  | Some b => Bool.eqb (has_attachments d e) b
  end &&
  match f_before f with None => true | Some t => em_created_at e <? t end &&
  match f_after f with None => true | Some t => t <? em_created_at e end &&
  given (f_in_reply_to f) (bool_decide (em_in_reply_to e = Some (f_in_reply_to f))).

(** Pages are ordered by [created_at], the only column any caller asks for;
    equal times keep the table order, which SQL leaves open. *)
Record list_options := ListOptions { limit : Z; offset : Z; order_desc : bool }.
Definition default_list_options : list_options := ListOptions 50 0 true.

Definition listed_before (desc : bool) (a b : email) : Prop :=
  if desc then em_created_at b <= em_created_at a else em_created_at a <= em_created_at b.
#[export] Instance listed_before_dec desc : RelDecision (listed_before desc).
Proof. intros a b. unfold listed_before. destruct desc; apply _. Defined.

Definition in_listing (d : database) (pk : string) (f : option email_filter) (e : email) : bool :=
  String.eqb (em_mailbox_pubkey e) pk && live e &&
  match f with Some f => matches d f e | None => true end.

Definition list_emails (pk : string) (f : option email_filter) (o : list_options) (d : database)
    : list email * Z :=
  let all := List.filter (in_listing d pk f) (db_emails d) in
  (map scanned (take (Z.to_nat (limit o)) (drop (Z.to_nat (offset o))
     (merge_sort (listed_before (order_desc o)) all))), Z.of_nat (length all)).

(** ** Updates

    [set_*] are the SET clauses, with the trigger's stamp. *)

Definition set_read (now : Z) (r : option Z) (e : email) : email := {|
  em_id := em_id e; em_mailbox_pubkey := em_mailbox_pubkey e; em_message_id := em_message_id e;
  em_from_address := em_from_address e; em_to_address := em_to_address e; em_cc := em_cc e;
  em_bcc := em_bcc e; em_subject := em_subject e; em_body := em_body e;
  em_html_body := em_html_body e; em_is_encrypted := em_is_encrypted e;
  em_encryption_nonce := em_encryption_nonce e; em_encryption_mode := em_encryption_mode e;
  em_sender_npub := em_sender_npub e; em_recipient_npub := em_recipient_npub e;
  em_direction := em_direction e; em_status := em_status e; em_read_at := r;
  em_folder := em_folder e; em_labels := em_labels e; em_in_reply_to := em_in_reply_to e;
  em_references := em_references e; em_nostr_verified := em_nostr_verified e;
  em_nostr_verification_error := em_nostr_verification_error e;
  em_nostr_verified_at := em_nostr_verified_at e; em_created_at := em_created_at e;
  em_updated_at := now; em_deleted_at := em_deleted_at e |}.

Definition set_labels (now : Z) (ls : option (list string)) (e : email) : email := {|
  em_id := em_id e; em_mailbox_pubkey := em_mailbox_pubkey e; em_message_id := em_message_id e;
  em_from_address := em_from_address e; em_to_address := em_to_address e; em_cc := em_cc e;
  em_bcc := em_bcc e; em_subject := em_subject e; em_body := em_body e;
  em_html_body := em_html_body e; em_is_encrypted := em_is_encrypted e;
  em_encryption_nonce := em_encryption_nonce e; em_encryption_mode := em_encryption_mode e;
  em_sender_npub := em_sender_npub e; em_recipient_npub := em_recipient_npub e;
  em_direction := em_direction e; em_status := em_status e; em_read_at := em_read_at e;
  em_folder := em_folder e; em_labels := ls; em_in_reply_to := em_in_reply_to e;
  em_references := em_references e; em_nostr_verified := em_nostr_verified e;
  em_nostr_verification_error := em_nostr_verification_error e;
  em_nostr_verified_at := em_nostr_verified_at e; em_created_at := em_created_at e;
  em_updated_at := now; em_deleted_at := em_deleted_at e |}.

Definition set_folder (now : Z) (folder : string) (e : email) : email := {|
  em_id := em_id e; em_mailbox_pubkey := em_mailbox_pubkey e; em_message_id := em_message_id e;
  em_from_address := em_from_address e; em_to_address := em_to_address e; em_cc := em_cc e;
  em_bcc := em_bcc e; em_subject := em_subject e; em_body := em_body e;
  em_html_body := em_html_body e; em_is_encrypted := em_is_encrypted e;
  em_encryption_nonce := em_encryption_nonce e; em_encryption_mode := em_encryption_mode e;
  em_sender_npub := em_sender_npub e; em_recipient_npub := em_recipient_npub e;
  em_direction := em_direction e; em_status := em_status e; em_read_at := em_read_at e;
  em_folder := folder; em_labels := em_labels e; em_in_reply_to := em_in_reply_to e;
  em_references := em_references e; em_nostr_verified := em_nostr_verified e;
  em_nostr_verification_error := em_nostr_verification_error e;
  em_nostr_verified_at := em_nostr_verified_at e; em_created_at := em_created_at e;
  em_updated_at := now; em_deleted_at := em_deleted_at e |}.

Definition set_archived (now : Z) (e : email) : email := {|
  em_id := em_id e; em_mailbox_pubkey := em_mailbox_pubkey e; em_message_id := em_message_id e;
  em_from_address := em_from_address e; em_to_address := em_to_address e; em_cc := em_cc e;
  em_bcc := em_bcc e; em_subject := em_subject e; em_body := em_body e;
  em_html_body := em_html_body e; em_is_encrypted := em_is_encrypted e;
  em_encryption_nonce := em_encryption_nonce e; em_encryption_mode := em_encryption_mode e;
  em_sender_npub := em_sender_npub e; em_recipient_npub := em_recipient_npub e;
  em_direction := em_direction e; em_status := "archived"; em_read_at := em_read_at e;
  em_folder := "Archive"; em_labels := em_labels e; em_in_reply_to := em_in_reply_to e;
  em_references := em_references e; em_nostr_verified := em_nostr_verified e;
  em_nostr_verification_error := em_nostr_verification_error e;
  em_nostr_verified_at := em_nostr_verified_at e; em_created_at := em_created_at e;
  em_updated_at := now; em_deleted_at := em_deleted_at e |}.

Definition set_deleted (now : Z) (e : email) : email := {|
  em_id := em_id e; em_mailbox_pubkey := em_mailbox_pubkey e; em_message_id := em_message_id e;
  em_from_address := em_from_address e; em_to_address := em_to_address e; em_cc := em_cc e;
  em_bcc := em_bcc e; em_subject := em_subject e; em_body := em_body e;
  em_html_body := em_html_body e; em_is_encrypted := em_is_encrypted e;
  em_encryption_nonce := em_encryption_nonce e; em_encryption_mode := em_encryption_mode e;
  em_sender_npub := em_sender_npub e; em_recipient_npub := em_recipient_npub e;
  em_direction := em_direction e; em_status := "deleted"; em_read_at := em_read_at e;
  em_folder := em_folder e; em_labels := em_labels e; em_in_reply_to := em_in_reply_to e;
  em_references := em_references e; em_nostr_verified := em_nostr_verified e;
  em_nostr_verification_error := em_nostr_verification_error e;
  em_nostr_verified_at := em_nostr_verified_at e; em_created_at := em_created_at e;
  em_updated_at := now; em_deleted_at := Some now |}.

(** The columns UpdateEmail writes are those of the struct [x]. *)
Definition set_content (now : Z) (x : email) (e : email) : email := {|
  em_id := em_id e; em_mailbox_pubkey := em_mailbox_pubkey e; em_message_id := em_message_id e;
  em_from_address := em_from_address e; em_to_address := em_to_address e; em_cc := em_cc e;
  em_bcc := em_bcc e; em_subject := em_subject x; em_body := em_body x;
  em_html_body := em_html_body x; em_is_encrypted := em_is_encrypted e;
  em_encryption_nonce := em_encryption_nonce e; em_encryption_mode := em_encryption_mode e;
  em_sender_npub := em_sender_npub e; em_recipient_npub := em_recipient_npub e;
  em_direction := em_direction e; em_status := em_status x; em_read_at := em_read_at e;
  em_folder := em_folder x; em_labels := em_labels x; em_in_reply_to := em_in_reply_to e;
  em_references := em_references e; em_nostr_verified := em_nostr_verified e;
  em_nostr_verification_error := em_nostr_verification_error e;
  em_nostr_verified_at := em_nostr_verified_at e; em_created_at := em_created_at e;
  em_updated_at := now; em_deleted_at := em_deleted_at e |}.

Definition set_draft (now : Z) (x : email) (e : email) : email := {|
  em_id := em_id e; em_mailbox_pubkey := em_mailbox_pubkey e; em_message_id := em_message_id e;
  em_from_address := em_from_address e; em_to_address := em_to_address x; em_cc := em_cc x;
  em_bcc := em_bcc e; em_subject := em_subject x; em_body := em_body x;
  em_html_body := em_html_body e; em_is_encrypted := em_is_encrypted x;
  em_encryption_nonce := em_encryption_nonce e; em_encryption_mode := em_encryption_mode x;
  em_sender_npub := em_sender_npub e; em_recipient_npub := em_recipient_npub e;
  em_direction := em_direction e; em_status := em_status e; em_read_at := em_read_at e;
  em_folder := em_folder e; em_labels := em_labels e; em_in_reply_to := em_in_reply_to x;
  em_references := em_references x; em_nostr_verified := em_nostr_verified e;
  em_nostr_verification_error := em_nostr_verification_error e;
  em_nostr_verified_at := em_nostr_verified_at e; em_created_at := em_created_at e;
  em_updated_at := now; em_deleted_at := em_deleted_at e |}.

Definition update_emails (p : email -> bool) (f : email -> email) (d : database) : database :=
  Database (map (fun e => if p e then f e else e) (db_emails d)) (db_attachments d) (db_mailboxes d).
Definition affected (p : email -> bool) (d : database) : nat := length (List.filter p (db_emails d)).

Definition not_found (i : string) : error := Sentinel ("email not found: " +:+ i).
Definition ErrDraftNotFound : error := Sentinel "draft not found".

(** A statement whose new values do not fit their columns fails, if it matches
    a row at all; one that matches none is reported as [missing]. *)
Definition run_update (p : email -> bool) (f : email -> email) (fit : bool) (what : string)
    (missing : error) (d : database) : database * option error :=
  match affected p d with
  | O => (d, Some missing)
  | S _ => if fit then (update_emails p f d, None)
           else (d, Some (Wrapped what (Sentinel "value too long")))
  end.

Definition update_email (now : Z) (x : email) (d : database) : database * option error :=
  run_update (live_id (em_id x)) (set_content now x) (fits 20 (em_status x) && fits 50 (em_folder x))
    "failed to update email" (not_found (em_id x)) d.

Definition own_draft (x e : email) : bool :=
  live_id (em_id x) e && String.eqb (em_mailbox_pubkey e) (em_mailbox_pubkey x) &&
  String.eqb (em_direction e) "draft".

Definition update_draft (now : Z) (x : email) (d : database) : database * option error :=
  run_update (own_draft x) (set_draft now x)
    (fits 255 (em_to_address x) && fits_opt 255 (em_cc x) && fits_opt 16 (em_encryption_mode x))
    "failed to update draft" ErrDraftNotFound d.

Definition unread (e : email) : bool := match em_read_at e with None => true | Some _ => false end.

Definition mark_email_as_read (now : Z) (i : string) : database -> database :=
  update_emails (fun e => live_id i e && unread e) (set_read now (Some now)).
Definition mark_email_as_unread (now : Z) (i : string) : database -> database :=
  update_emails (live_id i) (set_read now None).

(** [array_append] and [array_remove]; both leave NULL to NULL handling. *)
Definition append_label (l : string) (ls : option (list string)) : option (list string) :=
  Some (default [] ls ++ [l]).
Definition remove_label (l : string) (ls : option (list string)) : option (list string) :=
  List.filter (fun x => negb (String.eqb x l)) <$> ls.

Definition label_missing (l : string) (e : email) : bool := holds (negb <$> labels_contain e l).

Definition add_email_label (now : Z) (i l : string) : database -> database :=
  update_emails (fun e => live_id i e && label_missing l e)
    (fun e => set_labels now (append_label l (em_labels e)) e).
Definition remove_email_label (now : Z) (i l : string) : database -> database :=
  update_emails (live_id i) (fun e => set_labels now (remove_label l (em_labels e)) e).

Definition live_in (ids : list string) (e : email) : bool := bool_decide (em_id e ∈ ids) && live e.

Definition bulk_mark_read (now : Z) (ids : list string) : database -> database :=
  update_emails (fun e => live_in ids e && unread e) (set_read now (Some now)).
Definition bulk_mark_unread (now : Z) (ids : list string) : database -> database :=
  update_emails (live_in ids) (set_read now None).
Definition bulk_delete (now : Z) (ids : list string) : database -> database :=
  update_emails (live_in ids) (set_deleted now).
Definition bulk_archive (now : Z) (ids : list string) : database -> database :=
  update_emails (live_in ids) (set_archived now).

Definition bulk_move_to_folder (now : Z) (ids : list string) (folder : string) (d : database)
    : database * option error :=
  if fits 50 folder || (affected (live_in ids) d =? 0)%nat
  then (update_emails (live_in ids) (set_folder now folder) d, None)
  else (d, Some (Wrapped "failed to bulk move" (Sentinel "value too long"))).

Definition move_email_to_folder (now : Z) (i folder : string) (d : database) : database * option error :=
  run_update (live_id i) (set_folder now folder) (fits 50 folder) "failed to move email" (not_found i) d.

Definition delete_email (now : Z) (i : string) (d : database) : database * option error :=
  run_update (live_id i) (set_deleted now) true "failed to delete email" (not_found i) d.

Definition permanently_delete_email (i : string) (d : database) : database :=
  Database (List.filter (fun e => negb (has_id i e)) (db_emails d))
    (List.filter (fun a => negb (String.eqb (at_email_id a) i)) (db_attachments d)) (db_mailboxes d).

(** ** Statistics *)

Record email_stats := EmailStats {
  st_total : Z; st_unread : Z; st_sent : Z; st_received : Z; st_drafts : Z; st_spam : Z; st_trash : Z }.

Definition get_email_stats (pk : string) (d : database) : email_stats :=
  let count p := Z.of_nat (length (List.filter (fun e => String.eqb (em_mailbox_pubkey e) pk && p e)
                                     (db_emails d))) in
  let active e := String.eqb (em_status e) "active" in
  let dir s e := String.eqb (em_direction e) s in {|
  st_total := count active;
  st_unread := count (fun e => unread e && dir "received" e && active e);
  st_sent := count (fun e => dir "sent" e && active e);
  st_received := count (fun e => dir "received" e && active e);
  st_drafts := count (dir "draft");
  st_spam := count (fun e => String.eqb (em_status e) "spam");
  st_trash := count (fun e => String.eqb (em_status e) "deleted") |}.

(** ** Attachments *)

Definition attachment_fits (a : attachment) : bool :=
  fits 255 (at_filename a) && fits_opt 100 (at_content_type a) && fits_opt 64 (at_blossom_sha256 a).

Definition attachment_row (gen : string) (now : Z) (a : attachment) : attachment := {|
  at_id := or_else (at_id a) gen; at_email_id := at_email_id a; at_filename := at_filename a;
  at_content_type := at_content_type a; at_size_bytes := at_size_bytes a;
  at_blossom_sha256 := at_blossom_sha256 a; at_blossom_url := at_blossom_url a;
  at_blob_key := at_blob_key a; at_created_at := now |}.

Definition create_attachment (gen : string) (now : Z) (a : attachment) (d : database)
    : database * option error :=
  let r := attachment_row gen now a in
  if attachment_fits r && negb (existsb (fun x => String.eqb (at_id x) (at_id r)) (db_attachments d)) &&
     existsb (has_id (at_email_id r)) (db_emails d)
  then (Database (db_emails d) (db_attachments d ++ [r]) (db_mailboxes d), None)
  else (d, Some (Wrapped "failed to create attachment" (Sentinel "constraint violated"))).

Definition older (a b : attachment) : Prop := at_created_at a <= at_created_at b.
#[export] Instance older_dec : RelDecision older.
Proof. intros a b. unfold older. apply _. Defined.

Definition get_attachments_by_email (i : string) (d : database) : list attachment :=
  merge_sort older (List.filter (fun a => String.eqb (at_email_id a) i) (db_attachments d)).

(** * Lemmas *)

Definition owner (e : email) : string := em_mailbox_pubkey e.
Definition unique_ids (d : database) : Prop := NoDup (map em_id (db_emails d)).

(** A SET clause that keeps the row's key and mailbox. *)
Definition keeps_key (f : email -> email) : Prop :=
  forall e, em_id (f e) = em_id e /\ owner (f e) = owner e.

Lemma set_read_keeps now r : keeps_key (set_read now r).        Proof. done. Qed.
Lemma set_labels_keeps now g : keeps_key (fun e => set_labels now (g e) e). Proof. done. Qed.
Lemma set_folder_keeps now f : keeps_key (set_folder now f).    Proof. done. Qed.
Lemma set_archived_keeps now : keeps_key (set_archived now).    Proof. done. Qed.
Lemma set_deleted_keeps now : keeps_key (set_deleted now).      Proof. done. Qed.
Lemma set_content_keeps now x : keeps_key (set_content now x).  Proof. done. Qed.
Lemma set_draft_keeps now x : keeps_key (set_draft now x).      Proof. done. Qed.
#[export] Hint Resolve set_read_keeps set_labels_keeps set_folder_keeps set_archived_keeps
  set_deleted_keeps set_content_keeps set_draft_keeps : email.

Lemma update_ids p f d : keeps_key f -> map em_id (db_emails (update_emails p f d)) = map em_id (db_emails d).
Proof.
  intros Hf. unfold update_emails. simpl. rewrite map_map. apply map_ext.
  intros e. destruct (p e); [apply Hf|done].
Qed.

(** A table to evaluate the operations on. *)
Definition sample_row (i pk dir : string) : email :=
  created_row i 1 {|
    em_id := ""; em_mailbox_pubkey := pk; em_message_id := Some i; em_from_address := "bob@example.com";
    em_to_address := "alice@cloistr.xyz"; em_cc := None; em_bcc := None; em_subject := "hello";
    em_body := "hi"; em_html_body := None; em_is_encrypted := false; em_encryption_nonce := None;
    em_encryption_mode := None; em_sender_npub := None; em_recipient_npub := None;
    em_direction := dir; em_status := ""; em_read_at := None; em_folder := ""; em_labels := None;
    em_in_reply_to := None; em_references := None; em_nostr_verified := true;
    em_nostr_verification_error := None; em_nostr_verified_at := None; em_created_at := 0;
    em_updated_at := 0; em_deleted_at := None |}.

Definition sample_db : database :=
  Database [sample_row "m1" "alice" "received"; sample_row "m2" "bob" "received"]
    [] {[ "alice" := fresh_mailbox 0; "bob" := fresh_mailbox 0 ]}.
