(* ===== verification/MailOps.v ===== *)
(** * A user's operations on stored mail: internal/email/service.go (reading,
    labels, folders, bulk actions) and internal/email/drafts.go

    Every operation is made for a user's pubkey on the database of [Emails]; the
    clock, generated ids and the calls to other components are arguments. *)

From S2P Require Import Prelude GoStrings Base64 Mailboxes Emails Encryption Envelope.

Definition EmailNotFound : error := Sentinel "email not found".
Definition AccessDenied : error := Sentinel "access denied".

(** The lookup and ownership check every operation starts with. *)
Definition own_email (user i : string) (d : database) : res email :=
  match get_email i d with
  | None => Err EmailNotFound
  | Some e => if String.eqb (em_mailbox_pubkey e) user then Ok e else Err AccessDenied
  end.

Definition when_own (user i : string) (op : database -> database * option error) (d : database)
    : database * option error :=
  match own_email user i d with
  | Err e => (d, Some e)
  | Ok _ => op d
  end.

(** A statement that cannot fail. *)
Definition done_with (op : database -> database) (d : database) : database * option error := (op d, None).

Definition starred_label : string := "\Starred".

Definition svc_delete_email (now : Z) (user i : string) := when_own user i (delete_email now i).
Definition svc_archive_email (now : Z) (user i : string) :=
  when_own user i (move_email_to_folder now i "archive").
Definition svc_mark_email_read (now : Z) (user i : string) :=
  when_own user i (done_with (mark_email_as_read now i)).
Definition svc_mark_email_unread (now : Z) (user i : string) :=
  when_own user i (done_with (mark_email_as_unread now i)).
Definition svc_toggle_star (now : Z) (user i : string) (star : bool) :=
  when_own user i (done_with (if star then add_email_label now i starred_label
                              else remove_email_label now i starred_label)).
Definition svc_add_label (now : Z) (user i l : string) :=
  when_own user i (done_with (add_email_label now i l)).
Definition svc_remove_label (now : Z) (user i l : string) :=
  when_own user i (done_with (remove_email_label now i l)).
Definition svc_move_email (now : Z) (user i folder : string) :=
  when_own user i (move_email_to_folder now i folder).

Definition svc_list_emails (user : string) (f : option email_filter) (o : list_options) (d : database)
    : list email * Z := list_emails user f o d.

Definition unread_inbox_count (user : string) (d : database) : Z :=
  (list_emails user (Some (EmailFilter "" "" "INBOX" [] (Some true) None "" "" "" None None None ""))
     (ListOptions 1 0 false) d).2.

(** ** Bulk actions *)

Record bulk_action_request := BulkActionRequest { ba_ids : list string; ba_action : string; ba_folder : string }.

Definition bulk_owned (user : string) (d : database) (i : string) : bool :=
  match get_email i d with Some e => String.eqb (em_mailbox_pubkey e) user | None => false end.

Definition label_each (op : string -> database -> database) (ids : list string) (d : database) : database :=
  fold_left (fun d i => op i d) ids d.

Definition bulk_action (now : Z) (user : string) (r : bulk_action_request) (d : database)
    : database * option error :=
  let ids := ba_ids r in
  if bool_decide (ids = []) then (d, Some (Sentinel "no email IDs provided"))
  else
    match List.find (fun i => negb (bulk_owned user d i)) ids with
    | Some i => (d, Some (Sentinel ("access denied for email " +:+ i)))
    | None =>
        if String.eqb (ba_action r) "read" then (bulk_mark_read now ids d, None)
        else if String.eqb (ba_action r) "unread" then (bulk_mark_unread now ids d, None)
        else if String.eqb (ba_action r) "archive" then (bulk_archive now ids d, None)
        else if String.eqb (ba_action r) "delete" then (bulk_delete now ids d, None)
        else if String.eqb (ba_action r) "move" then
          if String.eqb (ba_folder r) "" then (d, Some (Sentinel "folder required for move action"))
          else bulk_move_to_folder now ids (ba_folder r) d
        else if String.eqb (ba_action r) "star"
        then (label_each (fun i => add_email_label now i starred_label) ids d, None)
        else if String.eqb (ba_action r) "unstar"
        then (label_each (fun i => remove_email_label now i starred_label) ids d, None)
        else (d, Some (Sentinel ("unknown bulk action: " +:+ ba_action r)))
    end.

(** ** Reading a message *)

Record get_email_result := GetEmailResult {
  gr_id : string; gr_message_id : string; gr_in_reply_to : string; gr_references : string;
  gr_from : string; gr_to : string; gr_cc : string; gr_subject : string;
  gr_body : string; gr_html_body : string; gr_encrypted_body : string;
  gr_is_encrypted : bool; gr_encryption_mode : string; gr_requires_client_decryption : bool;
  gr_sender_pubkey : string; gr_folder : string; gr_labels : option (list string);
  gr_created_at : Z; gr_read_at : option Z; gr_attachments : list attachment;
  gr_nostr_verified : bool; gr_nostr_verified_at : option Z }.

Definition stored_mode (e : email) : string :=
  match em_encryption_mode e with
  | Some m => if String.eqb m "" then (if em_is_encrypted e then ModeClientSide else ModeNone) else m
  | None => if em_is_encrypted e then ModeClientSide else ModeNone
  end.

Definition html_body_for (e : email) (mode : string) : string :=
  match em_html_body e with
  | None => ""
  | Some h => if em_is_encrypted e || negb (String.eqb mode ModeNone) then "" else h
  end.

(** Body, ciphertext for the client, and whether the client must decrypt.
    [decrypt] is the encryption service, absent when none is configured. *)
Definition opened_body (decrypt : option (decryption_request -> res decryption_result))
    (user : string) (e : email) (mode : string) : string * string * bool :=
  if String.eqb mode ModeNone then (em_body e, "", false)
  else if String.eqb mode ModeClientSide then ("", em_body e, true)
  else if String.eqb mode ModeServerSide then
    match decrypt with
    | None => ("", em_body e, true)
    | Some f =>
        match f (DecryptionRequest (em_body e) user (default "" (em_sender_npub e)) ModeServerSide) with
        | Err _ => ("", em_body e, true)
        | Ok r => if de_client r then ("", de_ciphertext r, true) else (de_plaintext r, "", false)
        end
    end
  else ("", "", false).

(** [validate] is the identity service's check of the user.  The update that is
    meant to mark a received message as read writes the row back. *)
Definition svc_get_email (validate : string -> option error)
    (decrypt : option (decryption_request -> res decryption_result)) (now : Z) (user i : string)
    (d : database) : database * res get_email_result :=
  match validate user with
  | Some e => (d, Err (Wrapped "user validation failed" e))
  | None =>
      match own_email user i d with
      | Err e => (d, Err e)
      | Ok e =>
          let mode := stored_mode e in
          let '(body, cipher, client) := opened_body decrypt user e mode in
          let incoming := String.eqb (em_direction e) "received" && unread e in
          let d' := if incoming then (update_email now (set_read (em_updated_at e) (Some now) e) d).1 else d in
          (d', Ok {|
            gr_id := em_id e; gr_message_id := default "" (em_message_id e);
            gr_in_reply_to := default "" (em_in_reply_to e); gr_references := default "" (em_references e);
            gr_from := em_from_address e; gr_to := em_to_address e; gr_cc := default "" (em_cc e);
            gr_subject := em_subject e; gr_body := body; gr_html_body := html_body_for e mode;
            gr_encrypted_body := cipher; gr_is_encrypted := em_is_encrypted e;
            gr_encryption_mode := mode; gr_requires_client_decryption := client;
            gr_sender_pubkey := default "" (em_sender_npub e); gr_folder := em_folder e;
            gr_labels := em_labels e; gr_created_at := em_created_at e;
            gr_read_at := if incoming then Some now else em_read_at e;
            gr_attachments := get_attachments_by_email (em_id e) d;
            gr_nostr_verified := em_nostr_verified e; gr_nostr_verified_at := em_nostr_verified_at e |})
      end
  end.

(** ** Drafts *)

Definition max_draft_body_bytes : Z := Z.shiftl 1 20.
Definition encrypted_subject_placeholder : string := "Encrypted message".
Definition ErrDraftServerMode : error :=
  Sentinel "drafts cannot use server-side encryption; save as a client-encrypted draft".
Definition ErrDraftKeyNotOwner : error := Sentinel "encrypted draft is not readable by its owner".
Definition ErrDraftTooLarge : error := Sentinel "draft body is too large".
Definition ErrClientBodyNotEncrypted : error :=
  Sentinel "client-side encryption requires the body to be encrypted by the client".

Record draft_input := DraftInput {
  di_id : string; di_to : string; di_cc : list string; di_subject : string; di_body : string;
  di_mode : string; di_in_reply_to : string; di_references : list string }.

(** A [storage.Email] with only the given fields set. *)
Definition draft_row (user to subject body : string) (encrypted : bool) (mode : string)
    (cc irt refs : option string) (i : string) : email := {|
  em_id := i; em_mailbox_pubkey := user; em_message_id := None; em_from_address := "";
  em_to_address := to; em_cc := cc; em_bcc := None; em_subject := subject; em_body := body;
  em_html_body := None; em_is_encrypted := encrypted; em_encryption_nonce := None;
  em_encryption_mode := Some mode; em_sender_npub := Some user; em_recipient_npub := None;
  em_direction := "draft"; em_status := "active"; em_read_at := None; em_folder := "Drafts";
  em_labels := None; em_in_reply_to := irt; em_references := refs; em_nostr_verified := false;
  em_nostr_verification_error := None; em_nostr_verified_at := None; em_created_at := 0;
  em_updated_at := 0; em_deleted_at := None |}.

Definition non_empty (s : string) : option string := if String.eqb s "" then None else Some s.

Section drafts.
Context `{JSON}.
(** [uuid.Parse] accepts the id. *)
Context (is_uuid : string -> bool).

(** The subject and mode a draft is stored under. *)
Definition draft_secrecy (user : string) (x : draft_input) : res (string * bool * string) :=
  if String.eqb (di_mode x) ModeNone || String.eqb (di_mode x) ""
  then Ok (di_subject x, false, ModeNone)
  else if String.eqb (di_mode x) ModeClientSide then
    match body_key_holders (di_body x) with
    | None => Err ErrClientBodyNotEncrypted
    | Some holders =>
        if bool_decide (user ∈ holders) then Ok (encrypted_subject_placeholder, true, ModeClientSide)
        else Err ErrDraftKeyNotOwner
    end
  else if String.eqb (di_mode x) ModeServerSide then Err ErrDraftServerMode
  else Err (Sentinel ("invalid encryption mode " +:+ di_mode x)).

Definition save_draft (gen : string) (now : Z) (user : string) (x : draft_input) (d : database)
    : database * res string :=
  if max_draft_body_bytes <? str_len (di_body x) then (d, Err ErrDraftTooLarge)
  else
    let to := trim_space (di_to x) in
    if 255 <? str_len to then (d, Err (Wrapped "recipient address is too long" ErrDraftTooLarge))
    else
      match draft_secrecy user x with
      | Err e => (d, Err e)
      | Ok (subject, encrypted, mode) =>
          let row := draft_row user to subject (di_body x) encrypted mode
                       (non_empty (join ", " (di_cc x))) (non_empty (di_in_reply_to x))
                       (match di_references x with [] => None | refs => Some (join " " refs) end) in
          if String.eqb (di_id x) "" then
            let d := Database (db_emails d) (db_attachments d) (ensure_mailbox None now user (db_mailboxes d)).1 in
            match create_email gen now (row "") d with
            | (d, Err e) => (d, Err (Wrapped "create draft" e))
            | (d, Ok i) => (d, Ok i)
            end
          else if negb (is_uuid (di_id x)) then (d, Err ErrDraftNotFound)
          else match update_draft now (row (di_id x)) d with
               | (d, Some e) => (d, Err e)
               | (d, None) => (d, Ok (di_id x))
               end
      end.

End drafts.

(** ** The operations of any users, in any order *)

Inductive mail_op :=
| OpDelete (i : string) | OpArchive (i : string) | OpMarkRead (i : string) | OpMarkUnread (i : string)
| OpStar (i : string) (star : bool) | OpAddLabel (i l : string) | OpRemoveLabel (i l : string)
| OpMove (i folder : string) | OpBulk (r : bulk_action_request) | OpGet (i : string)
| OpDraft (gen : string) (x : draft_input).

Record mail_request := MailRequest { mr_user : string; mr_now : Z; mr_op : mail_op }.

Section run.
Context `{JSON} (is_uuid : string -> bool) (validate : string -> option error).
Context (decrypt : option (decryption_request -> res decryption_result)).

Definition mail_exec (d : database) (q : mail_request) : database :=
  let u := mr_user q in
  let now := mr_now q in
  match mr_op q with
  | OpDelete i => (svc_delete_email now u i d).1
  | OpArchive i => (svc_archive_email now u i d).1
  | OpMarkRead i => (svc_mark_email_read now u i d).1
  | OpMarkUnread i => (svc_mark_email_unread now u i d).1
  | OpStar i b => (svc_toggle_star now u i b d).1
  | OpAddLabel i l => (svc_add_label now u i l d).1
  | OpRemoveLabel i l => (svc_remove_label now u i l d).1
  | OpMove i f => (svc_move_email now u i f d).1
  | OpBulk r => (bulk_action now u r d).1
  | OpGet i => (svc_get_email validate decrypt now u i d).1
  | OpDraft gen x => (save_draft is_uuid gen now u x d).1
  end.

Definition mail_run (d : database) (qs : list mail_request) : database := fold_left mail_exec qs d.

End run.

(** * Lemmas *)

Definition mail_of (pk : string) (d : database) : list email :=
  List.filter (fun e => String.eqb (owner e) pk) (db_emails d).

(** [confined u d d']: the step from [d] to [d'] concerns the mail of [u] only. *)
Record confined (u : string) (d d' : database) : Prop := Confined {
  confined_attachments : db_attachments d' = db_attachments d;
  confined_mail : forall pk, pk <> u -> mail_of pk d' = mail_of pk d;
  confined_ids : unique_ids d -> unique_ids d' }.

#[export] Instance confined_refl u : Reflexive (confined u).
Proof. intros d. by split. Qed.
#[export] Instance confined_trans u : Transitive (confined u).
Proof.
  intros d1 d2 d3 [A1 M1 I1] [A2 M2 I2]. split; [congruence| |auto].
  intros pk Hpk. by rewrite M2, M1.
Qed.

Lemma update_mail_of p f d pk :
  keeps_key f -> (forall e, e ∈ db_emails d -> p e = true -> owner e <> pk) ->
  mail_of pk (update_emails p f d) = mail_of pk d.
Proof.
  intros Hf. unfold mail_of, update_emails. simpl. induction (db_emails d) as [|e l IH]; [done|].
  intros Hp. simpl. destruct (p e) eqn:Hpe.
  - assert (owner e <> pk) as Ho by (apply Hp; [by left|done]).
    destruct (Hf e) as [_ ->]. rewrite (proj2 (String.eqb_neq _ _) Ho). apply IH. intros e' He'. apply Hp. by right.
  - destruct (String.eqb (owner e) pk); [f_equal|]; apply IH; intros e' He'; apply Hp; by right.
Qed.

(** The live rows with these ids belong to [u]. *)
Definition owns (u : string) (ids : list string) (d : database) : Prop :=
  forall e, e ∈ db_emails d -> em_id e ∈ ids -> live e = true -> owner e = u.

Lemma update_confined u ids p f d :
  keeps_key f -> owns u ids d -> (forall e, p e = true -> em_id e ∈ ids /\ live e = true) ->
  confined u d (update_emails p f d).
Proof.
  intros Hf Ho Hp. split; [done| |].
  - intros pk Hpk. apply update_mail_of; [done|]. intros e He [Hi Hl]%Hp <-. by apply Hpk, Ho.
  - unfold unique_ids. by rewrite update_ids.
Qed.

Lemma own_email_owns u i d e : unique_ids d -> own_email u i d = Ok e -> owns u [i] d.
Proof.
  unfold own_email, get_email. intros Hu. destruct (List.find (live_id i) (db_emails d)) as [x|] eqn:Hf; [|done].
  simpl. change (em_mailbox_pubkey x) with (owner x).
  destruct (String.eqb_spec (owner x) u) as [Ho|]; [|done]. intros _ y Hy Hi%list_elem_of_singleton Hl.
  apply find_some in Hf as [Hx Hxi]. apply andb_true_iff in Hxi as [Hxi _]. apply String.eqb_eq in Hxi.
  rewrite <- list_elem_of_In in Hx. assert (x = y) as <-; [|done].
  apply list_elem_of_lookup in Hx as [a Ha], Hy as [b Hb].
  assert (a = b) as <-; [|congruence].
  apply (NoDup_lookup (map em_id (db_emails d)) a b i); [done|..];
    rewrite list_lookup_fmap, ?Ha, ?Hb; simpl; congruence.
Qed.

Lemma live_id_in i e : live_id i e = true -> em_id e ∈ [i] /\ live e = true.
Proof. unfold live_id, has_id. intros [Hi Hl]%andb_true_iff. apply String.eqb_eq in Hi as ->. by split; [left|]. Qed.

Lemma live_in_in ids e : live_in ids e = true -> em_id e ∈ ids /\ live e = true.
Proof. unfold live_in. by intros [?%bool_decide_eq_true ?]%andb_true_iff. Qed.

Lemma andb_live_id i q e : live_id i e && q = true -> em_id e ∈ [i] /\ live e = true.
Proof. intros [H _]%andb_true_iff. by apply live_id_in. Qed.

Lemma andb_live_in ids q e : live_in ids e && q = true -> em_id e ∈ ids /\ live e = true.
Proof. intros [H _]%andb_true_iff. by apply live_in_in. Qed.

#[export] Hint Resolve live_id_in live_in_in andb_live_id andb_live_in : email.

(** ** Each operation is confined to its user's mail *)

Lemma run_update_confined u ids p f fit what missing d :
  keeps_key f -> owns u ids d -> (forall e, p e = true -> em_id e ∈ ids /\ live e = true) ->
  confined u d (run_update p f fit what missing d).1.
Proof.
  intros Hf Ho Hp. unfold run_update. destruct (affected p d); [reflexivity|].
  destruct fit; [by eapply update_confined|reflexivity].
Qed.

Lemma when_own_confined u i op d :
  unique_ids d -> (owns u [i] d -> confined u d (op d).1) -> confined u d (when_own u i op d).1.
Proof.
  intros Hu Hop. unfold when_own. destruct (own_email u i d) eqn:Ho; [|reflexivity].
  apply Hop. by eapply own_email_owns.
Qed.

Lemma update_owns u ids p f d :
  keeps_key f -> (forall e, p e = true -> live (f e) = true -> live e = true) ->
  owns u ids d -> owns u ids (update_emails p f d).
Proof.
  intros Hf Hl Ho e He Hi Hle. unfold update_emails in He. simpl in He.
  rewrite list_elem_of_In, in_map_iff in He. destruct He as (x & <- & Hx).
  rewrite <- list_elem_of_In in Hx. destruct (p x) eqn:Hp; [|by apply Ho].
  destruct (Hf x) as [Hid Hown]. rewrite Hown. apply Ho; [done|by rewrite <- Hid|auto].
Qed.

Lemma label_each_confined u ids (op : string -> database -> database) d :
  owns u ids d ->
  (forall i d, i ∈ ids -> owns u ids d -> confined u d (op i d) /\ owns u ids (op i d)) ->
  confined u d (label_each op ids d).
Proof.
  unfold label_each. intros Ho Hop.
  assert (forall l d, (forall i, i ∈ l -> i ∈ ids) -> owns u ids d -> confined u d (fold_left (fun d i => op i d) l d))
    as H; [|by apply H].
  induction l as [|i l IH]; intros d0 Hl Hd0; [reflexivity|]. simpl.
  destruct (Hop i d0) as [Hc Hd1]; [apply Hl; by left|done|].
  etransitivity; [exact Hc|]. apply IH; [|done]. intros j Hj. apply Hl. by right.
Qed.

Lemma bulk_owned_owns u ids d :
  unique_ids d -> List.find (fun i => negb (bulk_owned u d i)) ids = None -> owns u ids d.
Proof.
  intros Hu Hf e He Hi Hl.
  pose proof (find_none _ _ Hf (em_id e)) as Hn. rewrite <- list_elem_of_In in Hn. specialize (Hn Hi).
  apply negb_false_iff in Hn. unfold bulk_owned in Hn.
  destruct (get_email (em_id e) d) as [x|] eqn:Hg; [|done].
  apply (own_email_owns u (em_id e) d x); [done| |done|by left|done].
  unfold own_email. by rewrite Hg, Hn.
Qed.

Lemma add_label_step u ids now l i d :
  i ∈ ids -> owns u ids d -> confined u d (add_email_label now i l d) /\ owns u ids (add_email_label now i l d).
Proof.
  intros Hi Ho. split; [|by apply update_owns].
  eapply (update_confined u ids); [done|done|]. intros e [He Hl]%andb_live_id. split; [|done].
  by apply list_elem_of_singleton in He as ->.
Qed.

Lemma remove_label_step u ids now l i d :
  i ∈ ids -> owns u ids d ->
  confined u d (remove_email_label now i l d) /\ owns u ids (remove_email_label now i l d).
Proof.
  intros Hi Ho. split; [|by apply update_owns].
  eapply (update_confined u ids); [done|done|]. intros e [He Hl]%live_id_in. split; [|done].
  by apply list_elem_of_singleton in He as ->.
Qed.

Lemma bulk_action_confined now u r d : unique_ids d -> confined u d (bulk_action now u r d).1.
Proof.
  intros Hu. unfold bulk_action. case_bool_decide; [reflexivity|].
  destruct (List.find _ _) eqn:Hf; [reflexivity|]. apply bulk_owned_owns in Hf; [|done].
  repeat match goal with |- context [if ?b then _ else _] => destruct b end; try reflexivity; simpl;
    try (eapply (update_confined u (ba_ids r)); eauto with email).
  - unfold bulk_move_to_folder. destruct (_ || _); [|reflexivity].
    eapply (update_confined u (ba_ids r)); eauto with email.
  - apply label_each_confined; [done|]. intros. by apply add_label_step.
  - apply label_each_confined; [done|]. intros. by apply remove_label_step.
Qed.

Lemma create_email_confined gen now e d u :
  owner e = u -> confined u d (create_email gen now e d).1.
Proof.
  intros Ho. unfold create_email.
  destruct (constraint_violated d (created_row gen now e)) eqn:Hc; [reflexivity|]. simpl.
  unfold constraint_violated in Hc. do 4 (case_match; [done|]). split; [done| |].
  - intros pk Hpk. unfold mail_of. simpl. rewrite List.filter_app. simpl.
    assert (em_mailbox_pubkey e = u) as -> by done. rewrite (proj2 (String.eqb_neq u pk)) by done.
    apply app_nil_r.
  - unfold unique_ids. simpl. rewrite map_app. intros Hu. apply NoDup_app. split; [done|].
    split; [|apply NoDup_singleton]. intros i Hi Hi'. apply list_elem_of_singleton in Hi'.
    change (or_else (em_id e) gen) with (em_id (created_row gen now e)) in Hi'. subst i.
    apply not_true_iff_false in H0. apply H0, existsb_exists.
    rewrite list_elem_of_In, in_map_iff in Hi. destruct Hi as (x & Hx & Hin). exists x.
    split; [done|]. rewrite Hx. apply String.eqb_refl.
Qed.

Lemma with_mailboxes_confined u d m : confined u d (Database (db_emails d) (db_attachments d) m).
Proof. by split. Qed.

Section theorems.
Context `{JSON} (is_uuid : string -> bool) (validate : string -> option error).
Context (decrypt : option (decryption_request -> res decryption_result)).

Lemma update_draft_confined now x d u :
  em_mailbox_pubkey x = u -> confined u d (update_draft now x d).1.
Proof.
  intros Hx. unfold update_draft, run_update. destruct (affected _ d); [reflexivity|].
  destruct (_ && _); [|reflexivity]. cbn [fst]. split; [done| |].
  - intros pk Hpk. apply update_mail_of; [auto with email|]. intros e _ He. unfold own_draft in He.
    reflect_bools. unfold owner. congruence.
  - unfold unique_ids. rewrite update_ids by auto with email. done.
Qed.

Lemma save_draft_confined gen now u x d : confined u d (save_draft is_uuid gen now u x d).1.
Proof.
  unfold save_draft. destruct (_ <? _); [reflexivity|]. destruct (255 <? _); [reflexivity|].
  destruct (draft_secrecy u x) as [[[subject enc] mode]|]; [|reflexivity].
  destruct (String.eqb (di_id x) "").
  - set (d1 := Database _ _ _). set (r := draft_row _ _ _ _ _ _ _ _ _ _).
    etransitivity; [apply (with_mailboxes_confined u _ (db_mailboxes d1))|]. fold d1.
    pose proof (create_email_confined gen now r d1 u eq_refl) as Hc.
    by destruct (create_email gen now r d1) as [d2 [i|e]].
  - destruct (is_uuid (di_id x)); [|reflexivity]. cbn [negb].
    set (r := draft_row _ _ _ _ _ _ _ _ _ _).
    pose proof (update_draft_confined now r d u eq_refl) as Hc.
    by destruct (update_draft now r d) as [d2 [e|]].
Qed.

Lemma mail_exec_confined d q :
  unique_ids d -> confined (mr_user q) d (mail_exec is_uuid validate decrypt d q).
Proof.
  intros Hu. destruct q as [u now op]. unfold mail_exec. cbn [mr_user mr_now mr_op].
  destruct op; try (apply when_own_confined; [done|]; intros Ho;
    first [apply (run_update_confined u [i]); eauto with email
          |unfold done_with; try destruct star; eapply (update_confined u [i]); eauto with email]).
  - by apply bulk_action_confined.
  - unfold svc_get_email. destruct (validate u); [reflexivity|].
    destruct (own_email u i d) as [e|] eqn:Ho; [|reflexivity].
    destruct (opened_body _ _ _ _) as [[b c] cl]. simpl. destruct (_ && _); [|reflexivity].
    apply (run_update_confined u [em_id e]); eauto with email.
    assert (em_id e = i) as ->; [|by eapply own_email_owns].
    unfold own_email, get_email in Ho. destruct (List.find _ _) as [y|] eqn:Hf; [|done]. simpl in Ho.
    destruct (String.eqb _ _); [|done]. injection Ho as <-.
    apply find_some in Hf as [_ Hf]. apply andb_true_iff in Hf as [Hf _]. by apply String.eqb_eq in Hf.
  - apply save_draft_confined.
Qed.

Lemma mail_run_unique qs d :
  unique_ids d -> unique_ids (mail_run is_uuid validate decrypt d qs).
Proof.
  revert d. unfold mail_run. induction qs as [|q qs IH]; intros d Hu; [done|]. simpl. apply IH.
  by eapply confined_ids; [apply mail_exec_confined|].
Qed.

(** C19. Nobody reaches another mailbox: whatever requests other users make, single
    or bulk, on ids of their own or guessed ones, in whatever order, the rows of
    a mailbox stay exactly as they were, and so do the attachments. *)
Theorem others_mail_untouched (qs : list mail_request) (d : database) (pk : string)
    (Hids : unique_ids d) (Hothers : Forall (fun q => mr_user q <> pk) qs) :
  mail_of pk (mail_run is_uuid validate decrypt d qs) = mail_of pk d /\
  db_attachments (mail_run is_uuid validate decrypt d qs) = db_attachments d.
Proof.
  revert d Hids. unfold mail_run. induction Hothers as [|q qs Hq _ IH]; intros d Hu; [done|]. simpl.
  pose proof (mail_exec_confined d q Hu) as [Ha Hm Hi]. destruct (IH _ (Hi Hu)) as [-> ->].
  split; [by apply Hm|done].
Qed.

(** ** Invariants of the rows

    A property of rows that every SET clause and the draft's insertion keep. *)
Record row_invariant (P : email -> Prop) : Prop := RowInvariant {
  ri_scanned : forall e, P e -> P (scanned e);
  ri_read : forall now r e, P e -> P (set_read now r e);
  ri_folder : forall now f e, fits 50 f = true -> P e -> P (set_folder now f e);
  ri_archived : forall now e, P e -> P (set_archived now e);
  ri_deleted : forall now e, P e -> P (set_deleted now e);
  ri_content : forall now x e, P x -> P e -> P (set_content now x e);
  ri_add : forall now l e, label_missing l e = true -> P e -> P (set_labels now (append_label l (em_labels e)) e);
  ri_remove : forall now l e, P e -> P (set_labels now (remove_label l (em_labels e)) e);
  ri_draft : forall now u to subject body enc mode cc irt refs i e,
    let x := draft_row u to subject body enc mode cc irt refs i in
    fits 255 to = true -> fits_opt 255 cc = true -> fits 16 mode = true -> P e -> P (set_draft now x e);
  ri_created : forall gen now u to subject body enc mode cc irt refs i,
    let x := created_row gen now (draft_row u to subject body enc mode cc irt refs i) in
    columns_fit x = true -> P x }.

Section rows.
Context (P : email -> Prop) (HP : row_invariant P).

Definition all_rows (d : database) : Prop := Forall P (db_emails d).

Lemma update_rows p f d :
  (forall e, p e = true -> P e -> P (f e)) -> all_rows d -> all_rows (update_emails p f d).
Proof.
  unfold all_rows, update_emails. intros Hf Hd. simpl. apply Forall_map.
  eapply Forall_impl; [exact Hd|]. intros e He. simpl. destruct (p e) eqn:Hp; auto.
Qed.

Lemma run_update_rows p f (fit : bool) what missing d :
  (fit = true -> forall e, p e = true -> P e -> P (f e)) -> all_rows d ->
  all_rows (run_update p f fit what missing d).1.
Proof.
  intros Hf Hd. unfold run_update. destruct (affected p d); [done|]. destruct fit; [|done].
  apply update_rows; auto.
Qed.

Lemma add_label_rows now i l d : all_rows d -> all_rows (add_email_label now i l d).
Proof. apply update_rows. intros e [_ Hm]%andb_true_iff He. by apply ri_add. Qed.

Lemma remove_label_rows now i l d : all_rows d -> all_rows (remove_email_label now i l d).
Proof. apply update_rows. intros e _ He. by apply ri_remove. Qed.

Lemma label_each_rows op ids d :
  (forall i d, all_rows d -> all_rows (op i d)) -> all_rows d -> all_rows (label_each op ids d).
Proof. intros Hop. unfold label_each. revert d. induction ids as [|i ids IH]; intros d Hd; simpl; auto. Qed.

Lemma when_own_rows u i op d :
  all_rows d -> (all_rows d -> all_rows (op d).1) -> all_rows (when_own u i op d).1.
Proof. intros Hd Hop. unfold when_own. destruct (own_email u i d); auto. Qed.

Lemma own_email_row u i d e : all_rows d -> own_email u i d = Ok e -> P e.
Proof.
  unfold own_email, get_email. intros Hd. destruct (List.find _ _) as [y|] eqn:Hf; [|done]. simpl.
  destruct (String.eqb _ _); [|done]. intros [= <-]. apply ri_scanned; [done|].
  apply find_some in Hf as [Hy _]. rewrite <- list_elem_of_In in Hy. by apply (proj1 (Forall_forall _ _) Hd).
Qed.

Lemma move_rows now i f d : all_rows d -> all_rows (move_email_to_folder now i f d).1.
Proof. apply run_update_rows. intros Hfit e _ He. by apply ri_folder. Qed.

#[local] Hint Resolve add_label_rows remove_label_rows move_rows : email.
#[local] Hint Extern 1 (P (set_read _ _ _)) => apply (ri_read P HP) : email.
#[local] Hint Extern 1 (P (set_archived _ _)) => apply (ri_archived P HP) : email.
#[local] Hint Extern 1 (P (set_deleted _ _)) => apply (ri_deleted P HP) : email.

Lemma bulk_action_rows now u r d : all_rows d -> all_rows (bulk_action now u r d).1.
Proof.
  intros Hd. unfold bulk_action. case_bool_decide; [done|]. destruct (List.find _ _); [done|].
  repeat match goal with |- context [if ?b then _ else _] => destruct b end; try done; simpl;
    try (apply update_rows; auto with email).
  - unfold bulk_move_to_folder. destruct (fits 50 (ba_folder r)) eqn:Hfit; simpl.
    + apply update_rows; [|done]. intros e _ He. by apply ri_folder.
    + destruct (affected (live_in (ba_ids r)) d =? 0)%nat eqn:Ha; [|done].
      apply Nat.eqb_eq, length_zero_iff_nil in Ha. unfold all_rows, update_emails. simpl.
      apply Forall_map. unfold all_rows in Hd. rewrite Forall_forall in Hd |- *. intros e He. simpl.
      destruct (live_in (ba_ids r) e) eqn:Hl; [|by apply Hd]. exfalso.
      assert (In e (List.filter (live_in (ba_ids r)) (db_emails d))) as Hin
        by (apply filter_In; split; [by apply list_elem_of_In|done]).
      by rewrite Ha in Hin.
  - apply label_each_rows; auto with email.
  - apply label_each_rows; auto with email.
Qed.

Lemma draft_secrecy_mode u x subject enc mode :
  draft_secrecy u x = Ok (subject, enc, mode) -> fits 16 mode = true.
Proof. unfold draft_secrecy. intros Hs. repeat case_match; by simplify_eq. Qed.

Lemma create_draft_rows gen now e d :
  (columns_fit (created_row gen now e) = true -> P (created_row gen now e)) -> all_rows d ->
  all_rows (create_email gen now e d).1.
Proof.
  intros He Hd. unfold create_email. destruct (constraint_violated _ _) eqn:Hc; [done|].
  apply Forall_app. split; [done|]. constructor; [|done]. apply He.
  unfold constraint_violated in Hc. by destruct (columns_fit _).
Qed.

Lemma save_draft_rows gen now u x d : all_rows d -> all_rows (save_draft is_uuid gen now u x d).1.
Proof.
  intros Hd. unfold save_draft. destruct (_ <? _); [done|]. destruct (255 <? _) eqn:Hto; [done|].
  destruct (draft_secrecy u x) as [[[subject enc] mode]|] eqn:Hs; [|done].
  apply draft_secrecy_mode in Hs.
  destruct (String.eqb (di_id x) "").
  - set (d1 := Database _ _ _). set (r := draft_row _ _ _ _ _ _ _ _ _ _).
    assert (all_rows (create_email gen now r d1).1) as Hc
      by (apply create_draft_rows; [intros; by apply ri_created|done]).
    by destruct (create_email gen now r d1) as [d2 [i|e]].
  - destruct (is_uuid (di_id x)); [|done]. cbn [negb]. set (r := draft_row _ _ _ _ _ _ _ _ _ _).
    assert (all_rows (update_draft now r d).1) as Hc.
    { apply run_update_rows; [|done]. intros Hfit e _ He. apply ri_draft; try done.
      - unfold fits. reflect_bools. by apply Z.leb_le.
      - by apply andb_true_iff in Hfit as [[_ Hfit]%andb_true_iff _]. }
    by destruct (update_draft now r d) as [d2 [e|]].
Qed.

Lemma mail_exec_rows d q : all_rows d -> all_rows (mail_exec is_uuid validate decrypt d q).
Proof.
  intros Hd. destruct q as [u now op]. unfold mail_exec. cbn [mr_user mr_now mr_op].
  destruct op; try (apply when_own_rows; [done|]; intros _; auto with email;
    first [apply run_update_rows; auto with email
          |unfold done_with; simpl; try destruct star; auto with email; apply update_rows; auto with email]).
  - by apply bulk_action_rows.
  - unfold svc_get_email. destruct (validate u); [done|]. destruct (own_email u i d) as [e|] eqn:Ho; [|done].
    destruct (opened_body _ _ _ _) as [[b c] cl]. simpl. destruct (_ && _); [|done].
    apply run_update_rows; [|done]. intros _ y _ Hy. apply ri_content; [done| |done].
    apply ri_read; [done|]. by eapply own_email_row.
  - by apply save_draft_rows.
Qed.

Lemma mail_run_rows qs d : all_rows d -> all_rows (mail_run is_uuid validate decrypt d qs).
Proof.
  unfold mail_run. revert d. induction qs as [|q qs IH]; intros d Hd; [done|]. simpl.
  by apply IH, mail_exec_rows.
Qed.

End rows.

(** ** Labels *)

Definition no_labels (e : email) : Prop := em_labels e = None.

Lemma no_labels_invariant : row_invariant no_labels.
Proof.
  unfold no_labels. split; try done; intros; simpl in *; try done.
  - unfold label_missing, labels_contain in *. by destruct (em_labels e).
  - unfold remove_label. by destruct (em_labels e).
Qed.

(** C23. No label ever sticks: a message is created with NULL labels, and adding a
    label only updates rows whose labels are known not to contain it, which NULL
    is not.  From a store of unlabelled mail no request, of any user, changes
    that, stars included, and the starred view of every mailbox stays empty. *)
Theorem labels_never_stick (qs : list mail_request) (d : database) (pk : string) (f : email_filter)
    (o : list_options) (Hd : Forall no_labels (db_emails d)) (Hf : f_starred f = Some true) :
  Forall no_labels (db_emails (mail_run is_uuid validate decrypt d qs)) /\
  list_emails pk (Some f) o (mail_run is_uuid validate decrypt d qs) = ([], 0).
Proof.
  pose proof (mail_run_rows _ no_labels_invariant qs d Hd) as Hu. unfold all_rows in Hu.
  split; [done|]. unfold list_emails.
  set (d' := mail_run is_uuid validate decrypt d qs) in *.
  assert (forall l, Forall no_labels l -> List.filter (in_listing d' pk (Some f)) l = []) as Hnil.
  { intros l Hl. induction Hl as [|e l He _ IH]; [done|]. simpl.
    assert (in_listing d' pk (Some f) e = false) as ->; [|done].
    unfold in_listing, matches. rewrite Hf. unfold labels_contain. rewrite He. simpl.
    by rewrite !andb_false_r. }
  rewrite (Hnil _ Hu). change (sorting.merge_sort (listed_before (order_desc o)) []) with (@nil email).
  by rewrite drop_nil, take_nil.
Qed.

(** ** Reading *)

(** Opening a received message reports it as read at that moment and leaves it
    unread: the update it makes does not write the column, so no row's read time
    changes, and the message still counts as unread. *)
Theorem opening_leaves_unread (now : Z) (user i : string) (d d' : database) (r : get_email_result)
    (Hok : svc_get_email validate decrypt now user i d = (d', Ok r)) :
  map em_read_at (db_emails d') = map em_read_at (db_emails d) /\
  (forall e, own_email user i d = Ok e -> em_direction e = "received" -> em_read_at e = None ->
     gr_read_at r = Some now).
Proof.
  unfold svc_get_email in Hok. destruct (validate user); [done|].
  destruct (own_email user i d) as [e|] eqn:Ho; [|done].
  destruct (opened_body _ _ _ _) as [[b c] cl]. cbv zeta in Hok. injection Hok as <- <-. split.
  - destruct (_ && _); [|done]. unfold update_email, run_update.
    destruct (affected _ d); [done|]. destruct (_ && _); [|done]. simpl. rewrite map_map.
    apply map_ext. intros x. by destruct (live_id (em_id e) x).
  - intros e' [= <-] Hdir Hr. simpl. unfold unread. by rewrite Hdir, Hr.
Qed.

(** ** Drafts *)

(** An encrypted draft that is saved is ciphertext its owner can open, under the
    placeholder subject: the row created holds the client's envelope, the owner
    is among its key holders, and the subject the client sent is nowhere. *)
Theorem encrypted_draft_is_sealed (gen : string) (now : Z) (user : string) (x : draft_input)
    (d d' : database) (i : string)
    (Hmode : di_mode x = ModeClientSide) (Hnew : di_id x = "")
    (Hok : save_draft is_uuid gen now user x d = (d', Ok i)) :
  exists row holders,
    db_emails d' = db_emails d ++ [row] /\ em_id row = i /\ em_mailbox_pubkey row = user /\
    em_body row = di_body x /\ body_key_holders (em_body row) = Some holders /\ user ∈ holders /\
    em_subject row = encrypted_subject_placeholder /\ em_is_encrypted row = true /\
    em_direction row = "draft".
Proof.
  unfold save_draft in Hok. destruct (_ <? _); [done|]. destruct (255 <? _); [done|].
  unfold draft_secrecy in Hok. rewrite Hmode, Hnew in Hok.
  change (String.eqb ModeClientSide ModeNone || String.eqb ModeClientSide "") with false in Hok.
  change (String.eqb ModeClientSide ModeClientSide) with true in Hok. cbv iota in Hok.
  destruct (body_key_holders (di_body x)) as [holders|] eqn:Hb; [|done].
  case_bool_decide as Hu; [|done]. cbv zeta in Hok. change (String.eqb "" "") with true in Hok. cbv iota in Hok.
  unfold create_email in Hok. destruct (constraint_violated _ _); [done|]. injection Hok as <- <-.
  eexists _, holders. split; [reflexivity|]. by split_and!.
Qed.

End theorems.

(** * The theorems at a small store *)

(** A JSON reader that knows one envelope. *)
Definition sample_payload : string := encode (String nip44_version (hex_encode (hex_encode (hex_encode "thirteen byte")))).
Definition sample_key (c : ascii) : string :=
  (fix go n := match n with O => "" | S n => String c (go n) end) 64%nat.
Definition sample_envelope : body_envelope :=
  BodyEnvelope 1 "body" "id" (sample_key "a") {[ sample_key "a" := sample_payload; sample_key "b" := sample_payload ]}
    (Some (SealedBlob "AAAAAAAAAAAAAAAAAAAAAAAAAAAAAAAA" "AAAAAAAAAAAAAAAAAAAAAAAAAAAAAAAA" "xchacha20-poly1305")).
Definition sample_blob : option sealed_blob :=
  Some (SealedBlob "AAAAAAAAAAAAAAAAAAAAAAAAAAAAAAAA" "AAAAAAAAAAAAAAAAAAAAAAAAAAAAAAAA" "xchacha20-poly1305").
Definition sample_file : attachment_envelope :=
  AttachmentEnvelope 1 "id" (sample_key "a") {[ sample_key "a" := sample_payload; sample_key "b" := sample_payload ]}
    sample_blob sample_blob.
#[export] Instance sample_json : JSON := {
  strict_body s := if String.eqb s "envelope" then Some sample_envelope else None;
  unmarshal_body s := if String.eqb s "envelope" then Some sample_envelope else None;
  strict_attachment s := if String.eqb s "file" then Some sample_file else None;
  unmarshal_attachment s := if String.eqb s "file" then Some sample_file else None }.
#[export] Instance sample_json_laws : JSONLaws.
Proof. split; simpl; intros s e e'; by repeat case_match; intros; simplify_eq. Qed.

Definition always_uuid (s : string) : bool := true.
Definition anyone (pk : string) : option error := None.

Definition busy_bob : list mail_request :=
  [MailRequest "bob" 10 (OpStar "m2" true); MailRequest "bob" 11 (OpDelete "m1");
   MailRequest "bob" 12 (OpBulk (BulkActionRequest ["m2"; "m1"] "delete" ""));
   MailRequest "bob" 13 (OpBulk (BulkActionRequest ["m2"] "star" "")); MailRequest "bob" 14 (OpGet "m2");
   MailRequest "bob" 15 (OpDraft "m3" (DraftInput "" "x@y" [] "s" "b" "none" "" []))].

Lemma others_mail_untouched_witness :
  mail_of "alice" (mail_run always_uuid anyone None sample_db busy_bob) = mail_of "alice" sample_db /\
  db_attachments (mail_run always_uuid anyone None sample_db busy_bob) = db_attachments sample_db.
Proof.
  apply (others_mail_untouched always_uuid anyone None busy_bob sample_db "alice").
  - refine (proj1 (bool_decide_eq_true _) _). vm_compute. reflexivity.
  - repeat constructor; vm_compute; discriminate.
Defined.

Lemma labels_never_stick_witness :
  list_emails "bob" (Some (EmailFilter "" "" "" [] None (Some true) "" "" "" None None None "")) default_list_options
    (mail_run always_uuid anyone None sample_db busy_bob) = ([], 0).
Proof.
  refine (proj2 (labels_never_stick always_uuid anyone None busy_bob sample_db "bob"
    (EmailFilter "" "" "" [] None (Some true) "" "" "" None None None "") default_list_options _ _)).
  - repeat constructor.
  - reflexivity.
Defined.

Lemma opening_leaves_unread_witness :
  exists d' r, svc_get_email anyone None 20 "alice" "m1" sample_db = (d', Ok r) /\
    gr_read_at r = Some 20 /\ map em_read_at (db_emails d') = [None; None].
Proof.
  do 2 eexists. split; [vm_compute; reflexivity|]. split; [reflexivity|].
  refine (proj1 (opening_leaves_unread anyone None 20 "alice" "m1" sample_db _ _ _)). vm_compute. reflexivity.
Defined.

Lemma encrypted_draft_is_sealed_witness :
  exists d', save_draft always_uuid "m9" 30 (sample_key "a")
      (DraftInput "" "bob@example.com" [] "secret plan" "envelope" ModeClientSide "" []) sample_db = (d', Ok "m9") /\
    exists row holders, db_emails d' = db_emails sample_db ++ [row] /\ em_id row = "m9" /\
      em_mailbox_pubkey row = sample_key "a" /\ em_body row = "envelope" /\
      body_key_holders (em_body row) = Some holders /\ sample_key "a" ∈ holders /\
      em_subject row = encrypted_subject_placeholder /\ em_is_encrypted row = true /\ em_direction row = "draft".
Proof.
  eexists. split; [vm_compute; reflexivity|].
  apply (encrypted_draft_is_sealed always_uuid "m9" 30 (sample_key "a")
    (DraftInput "" "bob@example.com" [] "secret plan" "envelope" ModeClientSide "" []) sample_db _ "m9").
  - reflexivity.
  - reflexivity.
  - vm_compute. reflexivity.
Defined.
