(* ===== verification/EmailStore.v ===== *)
(** * The emails table as a store of messages

    What the statements of [Emails] promise their callers: visible messages and
    a bin ([spec_exec]), stated without rows, which the SQL table implements
    ([table_refines_map]);
    pages of a listing that together are the listing; and one row per message in
    a mailbox and direction. *)

From stdpp Require Import sorting.
From S2P Require Import Prelude GoStrings Mailboxes Emails.
#[local] Open Scope Z_scope.

Inductive statement :=
| SCreate (gen : string) (now : Z) (e : email)
| SUpdate (now : Z) (x : email)
| SUpdateDraft (now : Z) (x : email)
| SMarkRead (now : Z) (i : string)
| SMarkUnread (now : Z) (i : string)
| SAddLabel (now : Z) (i l : string)
| SRemoveLabel (now : Z) (i l : string)
| SMove (now : Z) (i folder : string)
| SDelete (now : Z) (i : string)
| SPurge (i : string)
| SBulkRead (now : Z) (ids : list string)
| SBulkUnread (now : Z) (ids : list string)
| SBulkDelete (now : Z) (ids : list string)
| SBulkArchive (now : Z) (ids : list string)
| SBulkMove (now : Z) (ids : list string) (folder : string).

Definition succeeded {A} (r : database * option A) : database * bool :=
  (r.1, match r.2 with None => true | Some _ => false end).

(** The statement on the table: the new table and whether it reports success. *)
Definition exec_statement (s : statement) (d : database) : database * bool :=
  match s with
  | SCreate gen now e => let '(d', r) := create_email gen now e d in (d', is_ok r)
  | SUpdate now x => succeeded (update_email now x d)
  | SUpdateDraft now x => succeeded (update_draft now x d)
  | SMarkRead now i => (mark_email_as_read now i d, true)
  | SMarkUnread now i => (mark_email_as_unread now i d, true)
  | SAddLabel now i l => (add_email_label now i l d, true)
  | SRemoveLabel now i l => (remove_email_label now i l d, true)
  | SMove now i f => succeeded (move_email_to_folder now i f d)
  | SDelete now i => succeeded (delete_email now i d)
  | SPurge i => (permanently_delete_email i d, true)
  | SBulkRead now ids => (bulk_mark_read now ids d, true)
  | SBulkUnread now ids => (bulk_mark_unread now ids d, true)
  | SBulkDelete now ids => (bulk_delete now ids d, true)
  | SBulkArchive now ids => (bulk_archive now ids d, true)
  | SBulkMove now ids f => succeeded (bulk_move_to_folder now ids f d)
  end.

(** ** The specification

    What the owner of a mailbox is promised, without rows, columns or marks of
    deletion: the messages that are there, each a letter with a folder, a status,
    a read mark and a set of labels, and the bin, of which only the keys that
    the unique index still holds matter. *)

Record letter := Letter {
  l_owner : string; l_kind : string; l_message_id : option string;
  l_from : string; l_to : string; l_cc : option string; l_bcc : option string;
  l_subject : string; l_text : string; l_html : option string;
  l_encrypted : bool; l_nonce : option string; l_mode : option string;
  l_sender : option string; l_recipient : option string;
  l_reply_to : option string; l_references : option string; l_created : Z }.

Record message := Message {
  m_letter : letter; m_folder : string; m_status : string; m_read : option Z;
  m_labels : option (gset string); m_changed : Z }.

(** Mailbox, kind and Message-ID: what two stored letters may not share. *)
Definition index_key : Type := string * string * option string.
Definition letter_key (l : letter) : index_key := (l_owner l, l_kind l, l_message_id l).
Definition collide (k1 k2 : index_key) : bool := bool_decide (k1 = k2) && bool_decide (is_Some k1.2).

Record mail_store := MailStore { visible : gmap string message; bin : gmap string index_key }.

(** Change the visible messages among [X] of which [q] holds. *)
Definition amend (X : list string) (q : message -> bool) (g : message -> message) (S : mail_store) : mail_store :=
  MailStore (map_imap (fun i m => Some (if bool_decide (i ∈ X) && q m then g m else m)) (visible S)) (bin S).

(** Take the messages [X] away. *)
Definition discard (X : list string) (S : mail_store) : mail_store :=
  MailStore (filter (fun im => im.1 ∉ X) (visible S))
    (((fun m => letter_key (m_letter m)) <$> filter (fun im => im.1 ∈ X) (visible S)) ∪ bin S).

Definition any (_ : message) : bool := true.
Definition finds (X : list string) (q : message -> bool) (S : mail_store) : bool :=
  existsb (fun i => match visible S !! i with Some m => q m | None => false end) X.

(** A change that is reported: it needs the message, and values of the width of
    their columns. *)
Definition reported (X : list string) (q : message -> bool) (fit : bool) (S S' : mail_store)
    : mail_store * bool :=
  if finds X q S && fit then (S', true) else (S, false).

Definition within (n : nat) (s : string) : bool := (String.length s <=? n)%nat.
Definition all_within (widths : list (option string * nat)) : bool :=
  forallb (fun sn => match sn.1 with Some s => within sn.2 s | None => true end) widths.

(** The letter and the message made of what a caller hands to CreateEmail. *)
Definition posted (now : Z) (e : email) : message :=
  let kind := if String.eqb (em_direction e) "" then "sent" else em_direction e in
  {| m_letter := {|
       l_owner := em_mailbox_pubkey e; l_kind := kind; l_message_id := em_message_id e;
       l_from := em_from_address e; l_to := em_to_address e; l_cc := em_cc e; l_bcc := em_bcc e;
       l_subject := em_subject e; l_text := em_body e; l_html := em_html_body e;
       l_encrypted := em_is_encrypted e; l_nonce := em_encryption_nonce e;
       l_mode := em_encryption_mode e; l_sender := em_sender_npub e;
       l_recipient := em_recipient_npub e; l_reply_to := em_in_reply_to e;
       l_references := em_references e; l_created := now |};
     m_folder :=
       if negb (String.eqb (em_folder e) "") then em_folder e
       else if String.eqb kind "sent" then "Sent"
       else if String.eqb kind "draft" then "Drafts" else "INBOX";
     m_status := if String.eqb (em_status e) "" then "active" else em_status e;
     m_read := None; m_labels := list_to_set <$> em_labels e; m_changed := now |}.

Definition message_widths (m : message) : list (option string * nat) :=
  let l := m_letter m in
  [(l_message_id l, 255%nat); (Some (l_from l), 255%nat); (Some (l_to l), 255%nat);
   (l_cc l, 255%nat); (l_bcc l, 255%nat); (l_nonce l, 255%nat); (l_mode l, 16%nat);
   (l_sender l, 128%nat); (l_recipient l, 128%nat); (Some (l_kind l), 20%nat);
   (Some (m_status m), 20%nat); (Some (m_folder m), 50%nat)].

Definition post (mailboxes : mailbox_table) (i : string) (m : message) (S : mail_store) : mail_store * bool :=
  let k := letter_key (m_letter m) in
  if all_within (message_widths m) &&
     bool_decide (visible S !! i = None) && bool_decide (bin S !! i = None) &&
     negb (existsb (fun im => collide k (letter_key (m_letter im.2))) (map_to_list (visible S))) &&
     negb (existsb (fun ik => collide k ik.2) (map_to_list (bin S))) &&
     bool_decide (is_Some (mailboxes !! l_owner (m_letter m)))
  then (MailStore (<[i := m]> (visible S)) (bin S), true) else (S, false).

Definition no_read (m : message) : bool := bool_decide (m_read m = None).
Definition marked (now : Z) (r : option Z) (m : message) : message :=
  Message (m_letter m) (m_folder m) (m_status m) r (m_labels m) now.
Definition relabelled (now : Z) (f : gset string -> gset string) (m : message) : message :=
  Message (m_letter m) (m_folder m) (m_status m) (m_read m) (f <$> m_labels m) now.
Definition filed (now : Z) (folder : string) (m : message) : message :=
  Message (m_letter m) folder (m_status m) (m_read m) (m_labels m) now.
Definition archived (now : Z) (m : message) : message :=
  Message (m_letter m) "Archive" "archived" (m_read m) (m_labels m) now.

(** Labels of a message posted without a label list stay unknown: no label can
    be added to them. *)
Definition lacks (l : string) (m : message) : bool :=
  match m_labels m with Some ls => bool_decide (l ∉ ls) | None => false end.

Definition rewritten (now : Z) (x : email) (m : message) : message :=
  let l := m_letter m in
  {| m_letter := {|
       l_owner := l_owner l; l_kind := l_kind l; l_message_id := l_message_id l;
       l_from := l_from l; l_to := l_to l; l_cc := l_cc l; l_bcc := l_bcc l;
       l_subject := em_subject x; l_text := em_body x; l_html := em_html_body x;
       l_encrypted := l_encrypted l; l_nonce := l_nonce l; l_mode := l_mode l;
       l_sender := l_sender l; l_recipient := l_recipient l; l_reply_to := l_reply_to l;
       l_references := l_references l; l_created := l_created l |};
     m_folder := em_folder x; m_status := em_status x; m_read := m_read m;
     m_labels := list_to_set <$> em_labels x; m_changed := now |}.

Definition redrafted (now : Z) (x : email) (m : message) : message :=
  let l := m_letter m in
  {| m_letter := {|
       l_owner := l_owner l; l_kind := l_kind l; l_message_id := l_message_id l;
       l_from := l_from l; l_to := em_to_address x; l_cc := em_cc x; l_bcc := l_bcc l;
       l_subject := em_subject x; l_text := em_body x; l_html := l_html l;
       l_encrypted := em_is_encrypted x; l_nonce := l_nonce l; l_mode := em_encryption_mode x;
       l_sender := l_sender l; l_recipient := l_recipient l; l_reply_to := em_in_reply_to x;
       l_references := em_references x; l_created := l_created l |};
     m_folder := m_folder m; m_status := m_status m; m_read := m_read m;
     m_labels := m_labels m; m_changed := now |}.

Definition draft_of (x : email) (m : message) : bool :=
  String.eqb (l_owner (m_letter m)) (em_mailbox_pubkey x) && String.eqb (l_kind (m_letter m)) "draft".

Definition spec_exec (mailboxes : mailbox_table) (s : statement) (S : mail_store) : mail_store * bool :=
  match s with
  | SCreate gen now e =>
      post mailboxes (if String.eqb (em_id e) "" then gen else em_id e) (posted now e) S
  | SUpdate now x =>
      reported [em_id x] any (all_within [(Some (em_status x), 20%nat); (Some (em_folder x), 50%nat)]) S
        (amend [em_id x] any (rewritten now x) S)
  | SUpdateDraft now x =>
      reported [em_id x] (draft_of x)
        (all_within [(Some (em_to_address x), 255%nat); (em_cc x, 255%nat); (em_encryption_mode x, 16%nat)])
        S (amend [em_id x] (draft_of x) (redrafted now x) S)
  | SMarkRead now i => (amend [i] no_read (marked now (Some now)) S, true)
  | SMarkUnread now i => (amend [i] any (marked now None) S, true)
  | SAddLabel now i l => (amend [i] (lacks l) (relabelled now (fun ls => {[l]} ∪ ls)) S, true)
  | SRemoveLabel now i l => (amend [i] any (relabelled now (fun ls => ls ∖ {[l]})) S, true)
  | SMove now i f => reported [i] any (within 50 f) S (amend [i] any (filed now f) S)
  | SDelete _ i => reported [i] any true S (discard [i] S)
  | SPurge i => (MailStore (delete i (visible S)) (delete i (bin S)), true)
  | SBulkRead now ids => (amend ids no_read (marked now (Some now)) S, true)
  | SBulkUnread now ids => (amend ids any (marked now None) S, true)
  | SBulkDelete _ ids => (discard ids S, true)
  | SBulkArchive now ids => (amend ids any (archived now) S, true)
  | SBulkMove now ids f =>
      if finds ids any S && negb (within 50 f) then (S, false) else (amend ids any (filed now f) S, true)
  end.

(** ** The abstraction *)

Definition rows_by_id (d : database) : gmap string email := list_to_map (map (fun e => (em_id e, e)) (db_emails d)).

Lemma rows_by_id_lookup d i e :
  unique_ids d -> rows_by_id d !! i = Some e <-> e ∈ db_emails d /\ em_id e = i.
Proof.
  intros Hu. unfold rows_by_id. rewrite <- elem_of_list_to_map.
  - rewrite list_elem_of_In, in_map_iff. setoid_rewrite <- list_elem_of_In. split.
    + intros (x & [= <- <-] & Hx). done.
    + intros [He <-]. by exists e.
  - unfold unique_ids in Hu. by rewrite <- list_fmap_compose.
Qed.

(** Two tables with the same rows by id hold the same messages; to show that a
    store is the abstraction of a table, look one id up. *)
Lemma rows_by_id_eq d m :
  unique_ids d -> (forall i e, m !! i = Some e <-> e ∈ db_emails d /\ em_id e = i) -> rows_by_id d = m.
Proof.
  intros Hu Hm. apply map_eq. intros i. apply option_eq. intros e.
  by rewrite Hm, rows_by_id_lookup.
Qed.

Lemma update_unique p f d : keeps_key f -> unique_ids d -> unique_ids (update_emails p f d).
Proof. intros Hf. unfold unique_ids. by rewrite update_ids. Qed.

Lemma update_by_id p f d :
  keeps_key f -> unique_ids d ->
  rows_by_id (update_emails p f d) = (fun e => if p e then f e else e) <$> rows_by_id d.
Proof.
  intros Hf Hu. apply rows_by_id_eq; [by apply update_unique|]. intros i e.
  rewrite lookup_fmap_Some. setoid_rewrite rows_by_id_lookup; [|done].
  unfold update_emails. simpl. rewrite list_elem_of_In, in_map_iff.
  setoid_rewrite <- list_elem_of_In. split.
  - intros (x & Hx & Hin & <-). split; [by exists x|]. subst e.
    destruct (p x); [apply Hf|done].
  - intros [(x & <- & Hin) <-]. exists x. split; [done|]. split; [done|].
    destruct (p x); [symmetry; apply Hf|done].
Qed.

(** The letter of a row, and the row as a message of its mailbox. *)
Definition letter_of (e : email) : letter := {|
  l_owner := em_mailbox_pubkey e; l_kind := em_direction e; l_message_id := em_message_id e;
  l_from := em_from_address e; l_to := em_to_address e; l_cc := em_cc e; l_bcc := em_bcc e;
  l_subject := em_subject e; l_text := em_body e; l_html := em_html_body e;
  l_encrypted := em_is_encrypted e; l_nonce := em_encryption_nonce e;
  l_mode := em_encryption_mode e; l_sender := em_sender_npub e;
  l_recipient := em_recipient_npub e; l_reply_to := em_in_reply_to e;
  l_references := em_references e; l_created := em_created_at e |}.
Definition view (e : email) : message :=
  Message (letter_of e) (em_folder e) (em_status e) (em_read_at e) (list_to_set <$> em_labels e)
    (em_updated_at e).

Definition shown (e : email) : option message := if live e then Some (view e) else None.
Definition binned (e : email) : option index_key :=
  if live e then None else Some (letter_key (letter_of e)).

Definition abstract (d : database) : mail_store :=
  MailStore (omap shown (rows_by_id d)) (omap binned (rows_by_id d)).

Lemma visible_lookup d i : visible (abstract d) !! i = rows_by_id d !! i ≫= shown.
Proof. apply lookup_omap. Qed.
Lemma bin_lookup d i : bin (abstract d) !! i = rows_by_id d !! i ≫= binned.
Proof. apply lookup_omap. Qed.

Lemma store_eq S S' :
  (forall i, visible S !! i = visible S' !! i) -> (forall i, bin S !! i = bin S' !! i) -> S = S'.
Proof. destruct S, S'. simpl. intros Hv Hb. f_equal; by apply map_eq. Qed.

Lemma rows_id d i e : unique_ids d -> rows_by_id d !! i = Some e -> em_id e = i.
Proof. intros Hu He. by apply rows_by_id_lookup in He as [_ ?]. Qed.

(** An UPDATE whose SET clause acts on the view of a row as [g] is [amend g]. *)
Lemma amend_abstract p f X q g d :
  keeps_key f -> unique_ids d ->
  (forall e, p e = bool_decide (em_id e ∈ X) && live e && q (view e)) ->
  (forall e, p e = true -> live (f e) = true /\ view (f e) = g (view e)) ->
  abstract (update_emails p f d) = amend X q g (abstract d).
Proof.
  intros Hf Hu Hp Hg.
  apply store_eq; intros i; simpl; rewrite ?map_lookup_imap, !lookup_omap, update_by_id, lookup_fmap by done;
    destruct (rows_by_id d !! i) as [e|] eqn:He; try done; simpl; apply rows_id in He as <-; try done;
    unfold shown, binned; specialize (Hp e); specialize (Hg e); destruct (live e) eqn:Hl.
  - simpl. rewrite andb_true_r in Hp. rewrite <- Hp. destruct (p e); [|by rewrite Hl].
    by destruct Hg as [-> ->].
  - rewrite andb_false_r in Hp. simpl in Hp. by rewrite Hp, Hl.
  - destruct (p e); [|by rewrite Hl]. by destruct Hg as [-> _].
  - rewrite andb_false_r in Hp. simpl in Hp. by rewrite Hp, Hl.
Qed.

(** One whose SET clause stamps [deleted_at] is [discard]. *)
Lemma discard_abstract p f X d :
  keeps_key f -> unique_ids d ->
  (forall e, p e = bool_decide (em_id e ∈ X) && live e) ->
  (forall e, live (f e) = false /\ letter_of (f e) = letter_of e) ->
  abstract (update_emails p f d) = discard X (abstract d).
Proof.
  intros Hf Hu Hp Hg. apply store_eq; intros i; simpl.
  - rewrite map_lookup_filter, !lookup_omap, update_by_id, lookup_fmap by done.
    destruct (rows_by_id d !! i) as [e|] eqn:He; [|done]. simpl. apply rows_id in He as <-; [|done].
    unfold shown. rewrite Hp. destruct (live e) eqn:Hl; simpl.
    + destruct (bool_decide_reflect (em_id e ∈ X)); simpl;
        [rewrite (proj1 (Hg e)); by rewrite option_guard_False by (by intros ?)|].
      by rewrite Hl, option_guard_True.
    + by rewrite andb_false_r, Hl.
  - rewrite lookup_union, lookup_fmap, map_lookup_filter, !lookup_omap, update_by_id, lookup_fmap by done.
    destruct (rows_by_id d !! i) as [e|] eqn:He; [|done]. simpl. apply rows_id in He as <-; [|done].
    unfold shown, binned. rewrite Hp. destruct (live e) eqn:Hl; simpl.
    + destruct (bool_decide_reflect (em_id e ∈ X)); simpl.
      * destruct (Hg e) as [-> ->]. by rewrite option_guard_True.
      * rewrite Hl, option_guard_False by done. done.
    + by rewrite andb_false_r, Hl.
Qed.

Lemma existsb_false {A} (p : A -> bool) l x : existsb p l = false -> x ∈ l -> p x = false.
Proof.
  intros Hl Hx. apply not_true_iff_false. intros Hp. apply not_true_iff_false in Hl. apply Hl.
  apply existsb_exists. exists x. split; [by apply list_elem_of_In|done].
Qed.

Lemma rows_insert d r :
  unique_ids d -> existsb (fun x => String.eqb (em_id x) (em_id r)) (db_emails d) = false ->
  let d' := Database (db_emails d ++ [r]) (db_attachments d) (db_mailboxes d) in
  unique_ids d' /\ rows_by_id d' = <[em_id r := r]> (rows_by_id d).
Proof.
  intros Hu Hn d'.
  assert (forall x, x ∈ db_emails d -> em_id x <> em_id r) as Hfresh.
  { intros x Hx He. apply (existsb_false _ _ x) in Hn; [|done]. simpl in Hn. by rewrite He, String.eqb_refl in Hn. }
  assert (unique_ids d') as Hu'.
  { unfold unique_ids. simpl. rewrite map_app. apply NoDup_app. split; [done|]. split.
    - intros i Hi. simpl. rewrite list_elem_of_singleton.
      apply list_elem_of_In, in_map_iff in Hi as (x & <- & Hx). apply Hfresh. by apply list_elem_of_In.
    - apply NoDup_singleton. }
  split; [done|]. apply rows_by_id_eq; [done|]. intros i e. simpl.
  rewrite lookup_insert_Some, rows_by_id_lookup, elem_of_app, list_elem_of_singleton by done. split.
  - intros [[<- <-]|(_ & ? & ?)]; auto.
  - intros [[He| ->] <-]; [right|by left]. split; [|done]. intros H. by eapply Hfresh.
Qed.

Lemma rows_has_id d i :
  unique_ids d ->
  existsb (fun x => String.eqb (em_id x) i) (db_emails d) = negb (bool_decide (rows_by_id d !! i = None)).
Proof.
  intros Hu. destruct (rows_by_id d !! i) as [e|] eqn:He.
  - rewrite bool_decide_eq_false_2 by done. apply rows_by_id_lookup in He as [He <-]; [|done].
    apply existsb_exists. exists e. split; [by apply list_elem_of_In|apply String.eqb_refl].
  - rewrite bool_decide_eq_true_2 by done. apply not_true_iff_false. intros (x & Hx & Hi)%existsb_exists.
    apply String.eqb_eq in Hi. apply list_elem_of_In in Hx.
    assert (rows_by_id d !! i = Some x) by (by apply rows_by_id_lookup). congruence.
Qed.

Lemma affected_none p d : (affected p d =? 0)%nat = negb (existsb p (db_emails d)).
Proof.
  unfold affected. induction (db_emails d) as [|e l IH]; [done|]. simpl. by destruct (p e).
Qed.

(** A WHERE clause matches a row exactly when the store finds a message. *)
Lemma matches_finds p X q d :
  unique_ids d -> (forall e, p e = bool_decide (em_id e ∈ X) && live e && q (view e)) ->
  existsb p (db_emails d) = finds X q (abstract d).
Proof.
  intros Hu Hp. unfold finds. apply eq_true_iff_eq. rewrite !existsb_exists. split.
  - intros (e & He & Hpe). rewrite Hp in Hpe. apply andb_true_iff in Hpe as [[Hi Hl]%andb_true_iff Hq].
    exists (em_id e). split; [apply list_elem_of_In; by eapply bool_decide_eq_true|].
    rewrite visible_lookup, (proj2 (rows_by_id_lookup d (em_id e) e Hu));
      [|split; [by apply list_elem_of_In|done]].
    simpl. unfold shown. by rewrite Hl.
  - intros (i & Hi & Hm). rewrite visible_lookup in Hm.
    destruct (rows_by_id d !! i) as [e|] eqn:He; [|done]. apply rows_by_id_lookup in He as [He <-]; [|done].
    simpl in Hm. unfold shown in Hm. destruct (live e) eqn:Hl; [|done].
    exists e. split; [by apply list_elem_of_In|].
    rewrite Hp, Hl, Hm. by rewrite bool_decide_eq_true_2 by (by apply list_elem_of_In).
Qed.

(** ** Each statement refines its specification

    [refines u s]: the outcome [u] of a statement, as a table and whether it
    reports success, is the outcome [s] of the specification, and the ids stay
    unique. *)
Definition refines (u : database * bool) (s : mail_store * bool) : Prop :=
  abstract u.1 = s.1 /\ u.2 = s.2 /\ unique_ids u.1.

Lemma amend_refines p f X q g d :
  keeps_key f ->
  (forall e, p e = bool_decide (em_id e ∈ X) && live e && q (view e)) ->
  (forall e, p e = true -> live (f e) = true /\ view (f e) = g (view e)) ->
  unique_ids d -> refines (update_emails p f d, true) (amend X q g (abstract d), true).
Proof.
  intros Hf Hp Hg Hu. split; [by apply amend_abstract|]. split; [done|]. by apply update_unique.
Qed.

Lemma discard_refines p f X d :
  keeps_key f ->
  (forall e, p e = bool_decide (em_id e ∈ X) && live e) ->
  (forall e, live (f e) = false /\ letter_of (f e) = letter_of e) ->
  unique_ids d -> refines (update_emails p f d, true) (discard X (abstract d), true).
Proof.
  intros Hf Hp Hg Hu. split; [by apply discard_abstract|]. split; [done|]. by apply update_unique.
Qed.

(** A statement that reports whether it met a row. *)
Lemma run_refines p X q f fit fit' what err d S :
  (forall e, p e = bool_decide (em_id e ∈ X) && live e && q (view e)) ->
  unique_ids d -> fit = fit' ->
  refines (update_emails p f d, true) (S, true) ->
  refines (succeeded (run_update p f fit what err d)) (reported X q fit' (abstract d) S).
Proof.
  intros Hp Hu <- HS. unfold run_update, reported. rewrite <- (matches_finds p) by done.
  pose proof (affected_none p d) as Ha.
  destruct (affected p d), (existsb p (db_emails d)); try discriminate Ha; [by split|].
  simpl. destruct fit; [exact HS|by split].
Qed.

Lemma has_id_in i e : has_id i e = bool_decide (em_id e ∈ [i]).
Proof.
  unfold has_id. apply eq_true_iff_eq. by rewrite String.eqb_eq, bool_decide_eq_true, list_elem_of_singleton.
Qed.

Lemma within_fits n s : fits (Z.of_nat n) s = within n s.
Proof.
  unfold fits, within, str_len. apply eq_true_iff_eq. rewrite Z.leb_le, Nat.leb_le. lia.
Qed.

Lemma columns_fit_widths r : columns_fit r = all_within (message_widths (view r)).
Proof.
  unfold columns_fit, all_within, message_widths, fits_opt. simpl.
  change 255 with (Z.of_nat 255). change 128 with (Z.of_nat 128). change 50 with (Z.of_nat 50).
  change 20 with (Z.of_nat 20). change 16 with (Z.of_nat 16).
  rewrite !within_fits, ?andb_true_r, ?andb_assoc.
  repeat match goal with |- context [match ?o with Some _ => _ | None => _ end] => destruct o end;
    by rewrite ?within_fits, ?andb_true_r, ?andb_assoc.
Qed.

Lemma created_view gen now e : view (created_row gen now e) = posted now e.
Proof.
  unfold view, letter_of, posted, created_row, or_else, default_folder. simpl.
  by destruct (String.eqb (em_folder e) "").
Qed.

Lemma same_message_collide r x : same_message r x = collide (letter_key (letter_of r)) (letter_key (letter_of x)).
Proof.
  unfold same_message, collide, letter_key. simpl. apply eq_true_iff_eq.
  rewrite !andb_true_iff, !String.eqb_eq, !bool_decide_eq_true. split.
  - intros [[-> ->] Hm]. destruct (em_message_id r), (em_message_id x); try done.
    apply String.eqb_eq in Hm as ->. split; [done|by eexists].
  - intros [[= -> -> ->] [k Hk]]. destruct (em_message_id x); [|done]. by rewrite String.eqb_refl.
Qed.

(** Among the rows a key collides exactly when it does among the visible
    messages or in the bin. *)
Lemma collisions r d :
  unique_ids d ->
  existsb (same_message r) (db_emails d) =
  existsb (fun im => collide (letter_key (letter_of r)) (letter_key (m_letter im.2)))
    (map_to_list (visible (abstract d))) ||
  existsb (fun ik => collide (letter_key (letter_of r)) ik.2) (map_to_list (bin (abstract d))).
Proof.
  intros Hu. apply eq_true_iff_eq. rewrite orb_true_iff, !existsb_exists. split.
  - intros (x & Hx & Hs). rewrite same_message_collide in Hs. apply list_elem_of_In in Hx.
    assert (rows_by_id d !! em_id x = Some x) as Hr by (by apply rows_by_id_lookup).
    destruct (live x) eqn:Hl; [left; exists (em_id x, view x) | right; exists (em_id x, letter_key (letter_of x))];
      (split; [|done]); apply list_elem_of_In, elem_of_map_to_list;
      rewrite ?visible_lookup, ?bin_lookup, Hr; simpl; unfold shown, binned; by rewrite Hl.
  - intros [([i m] & Hm & Hs)|([i k] & Hk & Hs)];
      [apply list_elem_of_In, elem_of_map_to_list in Hm; rewrite visible_lookup in Hm
      |apply list_elem_of_In, elem_of_map_to_list in Hk; rewrite bin_lookup in Hk];
      (destruct (rows_by_id d !! i) as [e|] eqn:He; [|done]);
      apply rows_by_id_lookup in He as [He <-]; [|done| |done];
      (exists e; split; [by apply list_elem_of_In|]); rewrite same_message_collide; simpl in *;
      unfold shown, binned in *; destruct (live e); simplify_eq; done.
Qed.

Lemma create_refines gen now e d :
  unique_ids d ->
  refines (exec_statement (SCreate gen now e) d) (spec_exec (db_mailboxes d) (SCreate gen now e) (abstract d)).
Proof.
  intros Hu. unfold exec_statement, create_email. cbn [spec_exec]. unfold post.
  rewrite <- (created_view gen now e).
  change (if String.eqb (em_id e) "" then gen else em_id e) with (em_id (created_row gen now e)).
  assert (live (created_row gen now e) = true) as Hl by done. revert Hl.
  generalize (created_row gen now e). intros r Hl. unfold constraint_violated.
  rewrite columns_fit_widths, rows_has_id, collisions, visible_lookup, bin_lookup by done.
  change (m_letter (view r)) with (letter_of r).
  destruct (all_within _); [|by split]. simpl.
  destruct (rows_by_id d !! em_id r) as [x|] eqn:Hx; simpl.
  { unfold shown, binned. by destruct (live x). }
  destruct (existsb _ (map_to_list (omap shown _))); simpl; [by split|].
  destruct (existsb _ (map_to_list (omap binned _))); simpl; [by split|]. unfold has_mailbox.
  destruct (db_mailboxes d !! em_mailbox_pubkey r) eqn:Hm; simpl; [|by split].
  destruct (rows_insert d r Hu) as [Hu' Hr].
  { rewrite rows_has_id by done. by rewrite bool_decide_eq_true_2. }
  split; [|by split]. apply store_eq; intros i; simpl; rewrite ?lookup_insert, !lookup_omap, Hr, lookup_insert.
  - case_decide as Hi; [|done]. simpl. unfold shown. by rewrite Hl.
  - case_decide as Hi; [|done]. subst i. simpl. unfold binned. by rewrite Hl, Hx.
Qed.

Lemma purge_refines i d :
  unique_ids d ->
  refines (permanently_delete_email i d, true)
    (MailStore (delete i (visible (abstract d))) (delete i (bin (abstract d))), true).
Proof.
  intros Hu.
  assert (unique_ids (permanently_delete_email i d)) as Hu'.
  { unfold unique_ids, permanently_delete_email in *. simpl.
    induction (db_emails d) as [|e l IH]; [done|]. simpl in *. inv Hu. specialize (IH H2).
    destruct (has_id i e); simpl; [done|]. constructor; [|done]. intros Hin. apply H1.
    apply list_elem_of_In, in_map_iff in Hin as (x & Hx & Hin). apply list_elem_of_In, in_map_iff.
    exists x. split; [done|]. by apply filter_In in Hin as [? _]. }
  assert (rows_by_id (permanently_delete_email i d) = delete i (rows_by_id d)) as Hr.
  { apply rows_by_id_eq; [done|]. intros j e. simpl.
    rewrite lookup_delete_Some, rows_by_id_lookup, !list_elem_of_In, filter_In, negb_true_iff by done.
    unfold has_id. rewrite String.eqb_neq. naive_solver. }
  split; [|by split]. apply store_eq; intros j; simpl;
    rewrite lookup_delete, !lookup_omap, Hr, lookup_delete; by case_decide.
Qed.

Lemma bulk_move_refines now ids f d :
  unique_ids d ->
  refines (exec_statement (SBulkMove now ids f) d)
    (spec_exec (db_mailboxes d) (SBulkMove now ids f) (abstract d)).
Proof.
  intros Hu. cbn [exec_statement spec_exec]. unfold bulk_move_to_folder.
  change 50 with (Z.of_nat 50). rewrite within_fits, affected_none.
  assert (forall e, live_in ids e = bool_decide (em_id e ∈ ids) && live e && any (view e)) as Hp.
  { intros e. by rewrite andb_true_r. }
  rewrite (matches_finds _ _ _ d Hu Hp).
  destruct (within 50 f), (finds ids any (abstract d)); simpl; try (by split);
    (apply amend_refines; [auto with email|exact Hp|by intros e [_ Hl]%andb_true_iff|done]).
Qed.

Lemma no_read_unread e : no_read (view e) = unread e.
Proof. unfold no_read, unread. simpl. by destruct (em_read_at e). Qed.

Lemma lacks_missing l e : lacks l (view e) = label_missing l e.
Proof.
  unfold lacks, label_missing, labels_contain, holds. simpl. destruct (em_labels e) as [ls|]; [|done]. simpl.
  rewrite <- bool_decide_not. apply bool_decide_ext. by rewrite elem_of_list_to_set.
Qed.

Lemma appended_labels l ls :
  (list_to_set <$> append_label l (Some ls) : option (gset string)) = Some ({[l]} ∪ list_to_set ls).
Proof. unfold append_label. simpl. f_equal. set_solver. Qed.

Lemma removed_labels l o :
  (list_to_set <$> remove_label l o : option (gset string)) =
  (fun ls => ls ∖ {[l]}) <$> (list_to_set <$> o).
Proof.
  destruct o as [ls|]; [|done]. simpl. f_equal. apply set_eq. intros x.
  rewrite elem_of_difference, !elem_of_list_to_set, elem_of_singleton, !list_elem_of_In, filter_In, negb_true_iff,
    String.eqb_neq. done.
Qed.

Lemma labels_refines now i l d :
  unique_ids d ->
  refines (exec_statement (SAddLabel now i l) d) (spec_exec (db_mailboxes d) (SAddLabel now i l) (abstract d)).
Proof.
  intros Hu. apply amend_refines; [auto with email| | |done]; intros e.
  - by rewrite lacks_missing, <- has_id_in.
  - intros [[_ Hl]%andb_true_iff Hm]%andb_true_iff. split; [done|].
    unfold view, relabelled. simpl. f_equal. unfold label_missing, labels_contain, holds in Hm.
    destruct (em_labels e) as [ls|]; [|done]. apply appended_labels.
Qed.

(** What GetEmail answers is the entry of the store. *)
Lemma get_email_visible i d : unique_ids d -> view <$> get_email i d = visible (abstract d) !! i.
Proof.
  intros Hu. rewrite visible_lookup. unfold get_email.
  destruct (List.find (live_id i) (db_emails d)) as [e|] eqn:He; simpl.
  - apply find_some in He as [He [Hi Hl]%andb_true_iff]. apply String.eqb_eq in Hi.
    rewrite (proj2 (rows_by_id_lookup d i e Hu)) by (split; [by apply list_elem_of_In|done]).
    simpl. unfold shown. by rewrite Hl.
  - destruct (rows_by_id d !! i) as [e|] eqn:Hr; [|done].
    apply rows_by_id_lookup in Hr as [Hr <-]; [|done]. apply list_elem_of_In in Hr.
    apply (find_none _ _ He) in Hr. unfold live_id, has_id in Hr. rewrite String.eqb_refl in Hr.
    simpl in *. unfold shown. by rewrite Hr.
Qed.

(** WHERE clauses in the terms of the specification. *)
Ltac where_clause :=
  intros e; unfold own_draft, live_id, live_in, draft_of, any; rewrite ?no_read_unread, ?has_id_in, ?andb_true_r;
  simpl; by rewrite ?andb_assoc.
(** SET clauses on the view of a row. *)
Ltac set_clause :=
  intros e Hp; unfold own_draft, live_id, live_in in Hp; repeat (apply andb_true_iff in Hp as [Hp ?]);
  split; [done|try reflexivity].

Lemma statement_refines s d :
  unique_ids d -> refines (exec_statement s d) (spec_exec (db_mailboxes d) s (abstract d)).
Proof.
  intros Hu. destruct s.
  - by apply create_refines.
  - apply run_refines; [where_clause|done| |apply amend_refines; [auto with email|where_clause|set_clause|done]].
    unfold all_within. simpl. by rewrite (within_fits 20), (within_fits 50), andb_true_r.
  - apply run_refines; [where_clause|done| |apply amend_refines; [auto with email|where_clause|set_clause|done]].
    unfold all_within, fits_opt. simpl. rewrite (within_fits 255), andb_true_r, <- andb_assoc.
    by destruct (em_cc x), (em_encryption_mode x); rewrite ?(within_fits 255), ?(within_fits 16).
  - apply amend_refines; [auto with email|where_clause|set_clause|done].
  - apply amend_refines; [auto with email|where_clause|set_clause|done].
  - by apply labels_refines.
  - apply amend_refines; [auto with email|where_clause|set_clause|done].
    unfold view, relabelled. simpl. f_equal. apply removed_labels.
  - apply run_refines; [where_clause|done|by rewrite (within_fits 50)|].
    apply amend_refines; [auto with email|where_clause|set_clause|done].
  - apply run_refines; [where_clause|done|done|apply discard_refines; [auto with email|where_clause|done|done]].
  - by apply purge_refines.
  - apply amend_refines; [auto with email|where_clause|set_clause|done].
  - apply amend_refines; [auto with email|where_clause|set_clause|done].
  - apply discard_refines; [auto with email|where_clause|done|done].
  - apply amend_refines; [auto with email|where_clause|set_clause|done].
  - by apply bulk_move_refines.
Qed.

(** C18. Against the message-store specification: on a table with distinct ids
    every statement of the store (creation with its constraints, the full
    update, the draft update, the flag, label, folder and deletion statements,
    purging and the bulk statements) does to the mailboxes exactly what
    [spec_exec] says of visible messages and the bin: a deleted message leaves
    the store, a moved one is in the named folder, a label is a member of the
    set, a draft is rewritten in the fields the caller gave, nothing else
    changes, and a statement reports success exactly when the specification
    does.  The ids stay distinct, and a message read back afterwards is the
    entry of the specification's map. *)
Theorem table_refines_map s d :
  unique_ids d ->
  let '(d', ok) := exec_statement s d in
  let '(S', ok') := spec_exec (db_mailboxes d) s (abstract d) in
  abstract d' = S' /\ ok = ok' /\ unique_ids d' /\
  forall i, view <$> get_email i d' = visible S' !! i.
Proof.
  intros Hu. pose proof (statement_refines s d Hu) as Hs.
  destruct (exec_statement s d) as [d' ok], (spec_exec (db_mailboxes d) s (abstract d)) as [S' ok'].
  destruct Hs as (HS & Hok & Hu'). simpl in *. subst S'. repeat split; [done|done|].
  intros i. by apply get_email_visible.
Qed.

(** Bob's message is moved, and gone once it is deleted. *)
Lemma table_refines_map_witness :
  let d1 := (exec_statement (SMove 9 "m2" "Archive") sample_db).1 in
  (m_folder <$> visible (abstract d1) !! "m2") = Some "Archive" /\
  visible (spec_exec (db_mailboxes d1) (SDelete 10 "m2") (abstract d1)).1 !! "m2" = None /\
  (let '(d', ok) := exec_statement (SDelete 10 "m2") d1 in
   let '(S', ok') := spec_exec (db_mailboxes d1) (SDelete 10 "m2") (abstract d1) in
   abstract d' = S' /\ ok = ok' /\ unique_ids d' /\ forall i, view <$> get_email i d' = visible S' !! i).
Proof.
  split; [vm_compute; reflexivity|]. split; [vm_compute; reflexivity|].
  apply (table_refines_map (SDelete 10 "m2") (exec_statement (SMove 9 "m2" "Archive") sample_db).1).
  refine (proj1 (bool_decide_eq_true _) _). vm_compute. reflexivity.
Defined.

(** ** Listings *)

#[export] Instance listed_before_total desc : Total (listed_before desc).
Proof. intros a b. unfold listed_before. destruct desc; lia. Qed.

Lemma scanned_sorted desc l : Sorted (listed_before desc) l -> Sorted (listed_before desc) (map scanned l).
Proof.
  induction 1 as [|a l Hl IH Hd]; [constructor|]. simpl. constructor; [done|].
  inv Hd; constructor. unfold listed_before in *. by destruct desc.
Qed.

Definition page (pk : string) (f : option email_filter) (desc : bool) (n : Z) (d : database) (j : nat) : list email :=
  (list_emails pk f (ListOptions n (Z.of_nat j * n) desc) d).1.

Lemma concat_pages {A} (l : list A) n k :
  concat (map (fun j => take n (drop (j * n) l)) (seq 0 k)) = take (k * n) l.
Proof.
  induction k as [|k IH]; [by rewrite take_0|].
  rewrite seq_S, map_app, concat_app, IH. simpl. rewrite app_nil_r.
  rewrite (Nat.add_comm n). by rewrite take_take_drop.
Qed.

(** Paging: for every filter and order, the pages of [n] rows (offset 0, n,
    2n, ...) put together are all the caller's live rows that match the filter,
    each once, in the order of their creation time, as soon as there are enough
    pages to hold the reported total; and the total reported with any page is
    the number of matching rows. *)
Theorem pages_make_the_listing pk f desc n k d :
  0 < n -> (list_emails pk f (ListOptions n 0 desc) d).2 <= Z.of_nat k * n ->
  let all := List.concat (map (page pk f desc n d) (seq 0 k)) in
  all ≡ₚ map scanned (List.filter (in_listing d pk f) (db_emails d)) /\
  Sorted (listed_before desc) all /\
  Z.of_nat (length all) = (list_emails pk f (ListOptions n 0 desc) d).2.
Proof.
  intros Hn Hk. simpl in *. set (rows := List.filter _ _) in *.
  assert (List.concat (map (page pk f desc n d) (seq 0 k)) = map scanned (merge_sort (listed_before desc) rows)) as ->.
  { rewrite (map_ext _ (fun j => take (Z.to_nat n) (drop (j * Z.to_nat n)
               (map scanned (merge_sort (listed_before desc) rows))))).
    - rewrite concat_pages. apply take_ge. rewrite length_map, merge_sort_Permutation. lia.
    - intros j. unfold page, list_emails. simpl. fold rows.
      rewrite Z2Nat.inj_mul, Nat2Z.id by lia. by rewrite fmap_take, fmap_drop. }
  split; [|split].
  - by rewrite merge_sort_Permutation.
  - apply scanned_sorted, (Sorted_merge_sort _).
  - by rewrite length_map, merge_sort_Permutation.
Qed.

Lemma pages_make_the_listing_witness :
  page "bob" None true 1 sample_db 1 = [] /\
  (let all := List.concat (map (page "bob" None true 1 sample_db) (seq 0 2)) in
   all ≡ₚ map scanned (List.filter (in_listing sample_db "bob" None) (db_emails sample_db)) /\
   Sorted (listed_before true) all /\
   Z.of_nat (length all) = (list_emails "bob" None (ListOptions 1 0 true) sample_db).2).
Proof.
  split; [vm_compute; reflexivity|].
  apply (pages_make_the_listing "bob" None true 1 2 sample_db); [lia|]. vm_compute. discriminate.
Defined.
