(* ===== verification/Mime.v ===== *)
(** * Building an outgoing message: [buildRawEmailReport] of
    internal/transport/smtp.go and the message types of internal/transport/transport.go

    A message is rendered as a list of header fields and a body.  What a run
    reads from outside is explicit: the clock and the random letters ([stamp]),
    the order in which Go walks a map ([order]), the cipher of the encryptor and
    the quoted-printable writer of the standard library. *)

From S2P Require Import Prelude GoStrings Base64 Signing Encryption.
#[local] Open Scope Z_scope.

Record mime_attachment := MimeAttachment { ma_filename : string; ma_content_type : string; ma_data : string }.

Record message (K : Type) := Message {
  m_from : string;
  m_to : list string;
  m_cc : list string;
  m_bcc : list string;
  m_sender_pubkey : string;
  m_recipient_pubkeys : gmap string string;
  m_subject : string;
  m_body : string;
  m_html_body : string;
  m_is_pre_encrypted : bool;
  m_encrypted_recipients : gmap string bool;
  m_encryption_requested : bool;
  m_message_id : string;
  m_in_reply_to : string;
  m_references : list string;
  m_headers : gmap string string;
  m_signer : option K;
  m_attachments : list mime_attachment }.
Arguments Message {K}.
Arguments m_from {K}.  Arguments m_to {K}.  Arguments m_cc {K}.  Arguments m_bcc {K}.
Arguments m_sender_pubkey {K}.  Arguments m_recipient_pubkeys {K}.  Arguments m_subject {K}.
Arguments m_body {K}.  Arguments m_html_body {K}.  Arguments m_is_pre_encrypted {K}.
Arguments m_encrypted_recipients {K}.  Arguments m_encryption_requested {K}.
Arguments m_message_id {K}.  Arguments m_in_reply_to {K}.  Arguments m_references {K}.
Arguments m_headers {K}.  Arguments m_signer {K}.  Arguments m_attachments {K}.

Definition all_recipients {K} (m : message K) : list string := m_to m ++ m_cc m ++ m_bcc m.

Definition ErrServerEncryption : error :=
  Sentinel "server-side encryption failed; the message was not sent".

(** ** Keeping a value inside its header line *)

(** [headerBreaks]: the earliest pair of the replacer wins at each position. *)
Fixpoint header_safe (s : string) : string :=
  match s with
  | "" => ""
  | String c t =>
      if Ascii.eqb c CR then
        match t with
        | String d u => if Ascii.eqb d LF then String " " (header_safe u) else String " " (header_safe t)
        | "" => " "
        end
      else if Ascii.eqb c LF then String " " (header_safe t)
      else String c (header_safe t)
  end.

Definition dquote : string := String "034" "".

Definition header_safe_attachment (a : mime_attachment) : mime_attachment :=
  MimeAttachment (replace_all (header_safe (ma_filename a)) dquote "'")
    (header_safe (ma_content_type a)) (ma_data a).

(** ** Names made from the clock *)

Definition letters : string := "abcdefghijklmnopqrstuvwxyzABCDEFGHIJKLMNOPQRSTUVWXYZ0123456789".

(** One letter per reading of the clock. *)
Definition random_string (readings : list Z) : string :=
  foldr String "" (map (fun t => default "a"%char (String.get (Z.to_nat (t mod str_len letters)) letters)) readings).

Record stamp := Stamp { st_nano : Z; st_readings : list Z }.

Definition generate_message_id (s : stamp) (from : string) : string :=
  let domain := match split "@" from with
                | [_; d] => d
                | _ => "coldforge.xyz"
                end in
  pretty (st_nano s) +:+ "." +:+ random_string (st_readings s) +:+ "@" +:+ domain.

Definition generate_boundary (s : stamp) : string :=
  "----=_Part_" +:+ pretty (st_nano s) +:+ "_" +:+ random_string (st_readings s).

(** ** MIME entities *)

(** [wrappedBase64]'s loop; [fuel] bounds its iterations. *)
Fixpoint wrap_loop (fuel : nat) (enc : string) : option string :=
  match fuel with
  | O => None
  | S k => if 76 <? str_len enc
           then (fun rest => take_str 76 enc +:+ CRLF +:+ rest) <$> wrap_loop k (drop_str 76 enc)
           else Some enc
  end.
Definition wrapped_base64 (b : string) : string :=
  let enc := encode b in default "" (wrap_loop (S (String.length enc)) enc).

(** The loop of [writeAttachmentPart] ends every line, the last one too. *)
Fixpoint part_loop (fuel : nat) (enc : string) : option string :=
  match enc, fuel with
  | "", _ => Some ""
  | _, O => None
  | _, S k => (fun rest => take_str 76 enc +:+ CRLF +:+ rest) <$> part_loop k (drop_str 76 enc)
  end.

Abbreviation field := (string * string)%type.
Definition hdr (f : field) : string := f.1 +:+ ": " +:+ f.2 +:+ CRLF.
Definition concat_str (l : list string) : string := foldr String.append "" l.
Definition render (fields : list field) (content : string) : string :=
  concat_str (map hdr fields) +:+ CRLF +:+ content.

Definition attachment_part (a : mime_attachment) : string :=
  let ct := if String.eqb (ma_content_type a) "" then "application/octet-stream" else ma_content_type a in
  let enc := encode (ma_data a) in
  render [("Content-Type", ct +:+ "; name=" +:+ dquote +:+ ma_filename a +:+ dquote);
          ("Content-Transfer-Encoding", "base64");
          ("Content-Disposition", "attachment; filename=" +:+ dquote +:+ ma_filename a +:+ dquote)]
    (default "" (part_loop (S (String.length enc)) enc)).

Section building.
Context {K : Type} `{Signer K}.
Context (sha256 : string -> string).
(** [EncryptContent] of the encryptor, [None] when there is no encryptor. *)
Context (encrypt_content : option (string -> string -> string -> res string)).
Context (quoted_printable : string -> string).
Context (order : gmap string string -> list field).

Definition header_safe_message (m : message K) : message K :=
  Message (header_safe (m_from m)) (map header_safe (m_to m)) (map header_safe (m_cc m))
    (map header_safe (m_bcc m)) (m_sender_pubkey m) (m_recipient_pubkeys m) (header_safe (m_subject m))
    (m_body m) (m_html_body m) (m_is_pre_encrypted m) (m_encrypted_recipients m)
    (m_encryption_requested m) (header_safe (m_message_id m)) (header_safe (m_in_reply_to m))
    (map header_safe (m_references m))
    (fold_left (fun h kv => <[header_safe kv.1 := header_safe kv.2]> h) (order (m_headers m)) ∅)
    (m_signer m) (map header_safe_attachment (m_attachments m)).

(** What the clock says while one message is built. *)
Record readings := Readings { r_id : stamp; r_date : string; r_mixed : stamp; r_alternative : stamp }.

Definition with_message_id (c : readings) (m : message K) : message K :=
  if negb (String.eqb (m_message_id m) "") then m else
  Message (m_from m) (m_to m) (m_cc m) (m_bcc m) (m_sender_pubkey m) (m_recipient_pubkeys m) (m_subject m)
    (m_body m) (m_html_body m) (m_is_pre_encrypted m) (m_encrypted_recipients m)
    (m_encryption_requested m) (generate_message_id (r_id c) (header_safe (m_from m))) (m_in_reply_to m)
    (m_references m) (m_headers m) (m_signer m) (m_attachments m).

Definition angle (s : string) : string := "<" +:+ s +:+ ">".

Definition headers_for_signing (c : readings) (m : message K) : headers :=
  list_to_map (
    [("message-id", m_message_id m); ("date", r_date c); ("from", m_from m);
     ("to", join ", " (m_to m)); ("subject", m_subject m)] ++
    (if bool_decide (m_cc m = []) then [] else [("cc", join ", " (m_cc m))]) ++
    (if String.eqb (m_in_reply_to m) "" then [] else [("in-reply-to", angle (m_in_reply_to m))]) ++
    (if bool_decide (m_references m = []) then [] else [("references", join " " (map angle (m_references m)))])).

Definition message_fields (c : readings) (m : message K) : list field :=
  [("Message-ID", angle (m_message_id m)); ("Date", r_date c); ("From", m_from m);
   ("To", join ", " (m_to m))] ++
  (if bool_decide (m_cc m = []) then [] else [("Cc", join ", " (m_cc m))]) ++
  [("Subject", m_subject m)] ++
  (if String.eqb (m_in_reply_to m) "" then [] else [("In-Reply-To", angle (m_in_reply_to m))]) ++
  (if bool_decide (m_references m = []) then [] else [("References", join " " (map angle (m_references m)))]) ++
  order (m_headers m) ++ [("MIME-Version", "1.0")].

Definition server_error (why : string) : error := Wrapped why ErrServerEncryption.

(** The recipient whose key a pre-encrypted body is announced for. *)
Definition announced_key (m : message K) : option string :=
  head (omap (fun a => match m_recipient_pubkeys m !! a with
                       | Some pk => if String.eqb pk "" then None else Some pk
                       | None => None
                       end) (m_to m)).

(** The body to write, whether it is ciphertext, whom it was encrypted to here,
    and the fields that announce it. *)
Definition encryption_step (m : message K) : res (string * bool * string * list field) :=
  if m_encryption_requested m && negb (m_is_pre_encrypted m) then
    match encrypt_content with
    | None => Err (server_error "no encryptor configured")
    | Some enc =>
        match m_to m, m_cc m, m_bcc m with
        | [addr], [], [] =>
            if negb (bool_decide (m_attachments m = [])) then Err (server_error "attachments would be sent unencrypted")
            else
              let pk := default "" (m_recipient_pubkeys m !! addr) in
              if String.eqb pk "" then Err (server_error ("no Nostr key for " +:+ addr))
              else match encrypt_email_body enc (m_sender_pubkey m) pk (m_body m) with
                   | Err _ => Err (server_error "encryption failed")
                   | Ok c => Ok (c, true, addr,
                       [(header_nostr_encrypted, "true"); (header_nostr_sender, m_sender_pubkey m);
                        (header_nostr_recipient, pk); (header_nostr_algorithm, algorithm_nip44)])
                   end
        | _, _, _ => Err (server_error "server-side encryption supports exactly one recipient")
        end
    end
  else if m_is_pre_encrypted m then
    Ok (m_body m, true, "",
        [(header_nostr_encrypted, "true")] ++
        (if String.eqb (m_sender_pubkey m) "" then [] else [(header_nostr_sender, m_sender_pubkey m)]) ++
        (match announced_key m with Some pk => [(header_nostr_recipient, pk)] | None => [] end) ++
        [(header_nostr_algorithm, algorithm_nip44)])
  else Ok (m_body m, false, "", []).

(** A signature that fails leaves the message unsigned. *)
Definition signature_fields (c : readings) (m : message K) (body : string) : list field :=
  match smtp_sign_email sha256 (headers_for_signing c m) body (m_signer m) with
  | Ok (Some l) => order (list_to_map l)
  | _ => []
  end.

Definition multipart (kind boundary : string) : field :=
  ("Content-Type", "multipart/" +:+ kind +:+ "; boundary=" +:+ dquote +:+ boundary +:+ dquote).

(** [writeBodyContent]: the fields and the content of the body's entity. *)
Definition body_entity (c : readings) (m : message K) (body : string) (is_encrypted : bool) : list field * string :=
  if negb (String.eqb (m_html_body m) "") && negb is_encrypted then
    let boundary := generate_boundary (r_alternative c) in
    let part ty text := "--" +:+ boundary +:+ CRLF +:+
      render [("Content-Type", ty +:+ "; charset=utf-8"); ("Content-Transfer-Encoding", "quoted-printable")]
        (quoted_printable text) +:+ CRLF in
    ([multipart "alternative" boundary],
     part "text/plain" body +:+ part "text/html" (m_html_body m) +:+ "--" +:+ boundary +:+ "--" +:+ CRLF)
  else ([("Content-Type", "text/plain; charset=utf-8"); ("Content-Transfer-Encoding", "base64")],
        wrapped_base64 body).

(** The message's own entity: the body, or the body and the attachments. *)
Definition content_entity (c : readings) (m : message K) (body : string) (is_encrypted : bool) : list field * string :=
  let '(fields, content) := body_entity c m body is_encrypted in
  if bool_decide (m_attachments m = []) then (fields, content)
  else
    let boundary := generate_boundary (r_mixed c) in
    ([multipart "mixed" boundary],
     "--" +:+ boundary +:+ CRLF +:+ render fields content +:+ CRLF +:+
     concat_str (map (fun a => "--" +:+ boundary +:+ CRLF +:+ attachment_part a) (m_attachments m)) +:+
     "--" +:+ boundary +:+ "--" +:+ CRLF).

(** The header fields, the content, and whom the server encrypted it to. *)
Definition build_entity (c : readings) (m : message K) : res (list field * string * string) :=
  let m := header_safe_message m in
  let! e := encryption_step m in
  let '(body, is_encrypted, encrypted_to, enc_fields) := e in
  let '(entity_fields, content) := content_entity c m body is_encrypted in
  Ok (message_fields c m ++ enc_fields ++ signature_fields c m body ++ entity_fields, content, encrypted_to).

(** [buildRawEmailReport], after the Message-ID is put on the caller's message. *)
Definition build_raw_email_report (c : readings) (m : message K) : res (string * string) :=
  if String.eqb (trim_space (m_from m)) "" then Err (Sentinel "cannot build message: FromAddress is empty")
  else
    let! e := build_entity c (with_message_id c m) in
    let '(fields, content, encrypted_to) := e in
    Ok (render fields content, encrypted_to).

(** [deliveredEncrypted]. *)
Definition delivered_encrypted (m : message K) (server_encrypted_to addr : string) : bool :=
  if m_is_pre_encrypted m then default false (m_encrypted_recipients m !! addr)
  else negb (String.eqb server_encrypted_to "") && String.eqb addr server_encrypted_to.

End building.

(** * Lines *)

(** A text that holds no line break. *)
Definition single_line (s : string) : bool := no_char CR s && no_char LF s.

Lemma single_app a b : single_line (a +:+ b) = single_line a && single_line b.
Proof. unfold single_line. rewrite !no_char_app. by destruct (no_char CR a), (no_char LF a), (no_char CR b). Qed.

Lemma single_spec s : single_line s = true <-> no_char CR s = true /\ no_char LF s = true.
Proof. apply andb_true_iff. Qed.

Lemma single_cons c s : single_line (String c s) = single_line (String c "") && single_line s.
Proof. exact (single_app (String c "") s). Qed.

Lemma single_join sep l :
  single_line sep = true -> Forall (fun s => single_line s = true) l -> single_line (join sep l) = true.
Proof.
  intros [H1 H2]%single_spec Hl. apply single_spec.
  split; apply join_no_char; try done; (eapply Forall_impl; [exact Hl|]); by intros s [? ?]%single_spec.
Qed.

Lemma single_chars p s :
  p CR = false -> p LF = false -> forall_chars p s = true -> single_line s = true.
Proof.
  intros H1 H2 Hs. apply single_spec; split; (eapply forall_chars_impl; [|exact Hs]); intros c Hc;
    apply negb_true_iff, Ascii.eqb_neq; intros <-; congruence.
Qed.

Lemma single_digits (z : Z) : single_line (pretty z) = true.
Proof. by apply (single_chars digit_or_sign), pretty_Z_chars. Qed.

Lemma single_hex s : hex_decodes s = true -> single_line s = true.
Proof. intros H. unfold hex_decodes in H. reflect_bools. by apply (single_chars is_hex). Qed.

Lemma header_safe_single s : single_line (header_safe s) = true.
Proof.
  induction s as [s IH] using string_wf_ind.
  assert (forall c t, (String.length t < String.length s)%nat -> c <> CR -> c <> LF ->
            single_line (String c (header_safe t)) = true) as Hc.
  { intros c t Ht H1 H2. specialize (IH t Ht). unfold single_line in *.
    rewrite !no_char_cons. destruct (Ascii.eqb_spec CR c), (Ascii.eqb_spec LF c); try congruence. done. }
  destruct s as [|c t]; [done|]. cbn [header_safe].
  destruct (Ascii.eqb_spec c CR).
  - destruct t as [|d u]; [done|]. destruct (Ascii.eqb d LF); apply Hc; simpl; (done || lia).
  - destruct (Ascii.eqb_spec c LF); apply Hc; simpl; (done || lia).
Qed.

(** Text without line breaks passes unchanged. *)
Lemma header_safe_id s : single_line s = true -> header_safe s = s.
Proof.
  unfold single_line. induction s as [|c t IH]; [done|]. rewrite !no_char_cons. intros H.
  apply andb_true_iff in H as [H1 H2]. apply andb_true_iff in H1 as [Hc1 Ht1]. apply andb_true_iff in H2 as [Hc2 Ht2].
  apply negb_true_iff in Hc1, Hc2. cbn [header_safe].
  rewrite (Ascii.eqb_sym c CR), Hc1, (Ascii.eqb_sym c LF), Hc2, IH; [done|by rewrite Ht1, Ht2].
Qed.

Lemma single_list l : Forall (fun s => single_line s = true) (map header_safe l).
Proof. induction l; constructor; [apply header_safe_single|done]. Qed.

Lemma letters_single :
  Forall (fun n => single_line (String (default "a"%char (String.get n letters)) "") = true) (seq 0 63).
Proof. refine (proj1 (bool_decide_eq_true _) _). vm_compute. reflexivity. Qed.

Lemma random_single ts : single_line (random_string ts) = true.
Proof.
  unfold random_string. induction ts as [|t ts IH]; [done|]. cbn [map foldr].
  assert (single_line (String (default "a"%char (String.get (Z.to_nat (t mod str_len letters)) letters)) "") = true) as Hc.
  { apply (proj1 (Forall_forall _ _) letters_single), elem_of_seq.
    pose proof (Z.mod_pos_bound t (str_len letters) eq_refl). change (str_len letters) with 62 in *. lia. }
  rewrite single_cons. by rewrite Hc, IH.
Qed.

Lemma message_id_single s from : single_line from = true -> single_line (generate_message_id s from) = true.
Proof.
  intros Hf. unfold generate_message_id. rewrite !single_app, single_digits, random_single. simpl.
  assert (Forall (fun w => single_line w = true) (split "@" from)) as Hs.
  { apply single_spec in Hf as [H1 H2]. pose proof (split_keeps _ "@" _ H1) as H3.
    pose proof (split_keeps _ "@" _ H2) as H4. apply Forall_forall. intros w Hw.
    apply single_spec; split; [by apply (proj1 (Forall_forall _ _) H3)|by apply (proj1 (Forall_forall _ _) H4)]. }
  destruct (split "@" from) as [|a [|d [|]]]; try done.
  by apply Forall_cons in Hs as [_ [Hd _]%Forall_cons].
Qed.

Lemma boundary_single s : single_line (generate_boundary s) = true.
Proof. unfold generate_boundary. by rewrite !single_app, single_digits, random_single. Qed.

(** ** Reading a header block back: lines up to the first empty one *)

Fixpoint cut_line (s : string) : option (string * string) :=
  match s with
  | "" => None
  | String c t =>
      match (if has_prefix s CRLF then Some ("", drop_str 2 s) else None) with
      | Some r => Some r
      | None => (fun lr => (String c lr.1, lr.2)) <$> cut_line t
      end
  end.

Fixpoint read_header (fuel : nat) (s : string) : option (list string * string) :=
  match fuel with
  | O => None
  | S k =>
      match cut_line s with
      | None => None
      | Some (l, rest) =>
          if String.eqb l "" then Some ([], rest)
          else (fun r => (l :: r.1, r.2)) <$> read_header k rest
      end
  end.

Definition field_line (f : field) : string := f.1 +:+ ": " +:+ f.2.
Definition field_ok (f : field) : Prop := single_line f.1 = true /\ single_line f.2 = true.

Lemma prefix_crlf c s : has_prefix (String c s) CRLF = Ascii.eqb CR c && has_prefix s (String LF "").
Proof. apply has_prefix_cons. Qed.

Lemma cut_line_app l rest : single_line l = true -> cut_line (l +:+ CRLF +:+ rest) = Some (l, rest).
Proof.
  induction l as [|c l IH]; intros Hl.
  { simpl. by destruct rest. }
  rewrite single_cons in Hl. apply andb_true_iff in Hl as [Hc Hl].
  change (String c l +:+ CRLF +:+ rest) with (String c (l +:+ CRLF +:+ rest)). cbn [cut_line].
  rewrite prefix_crlf. apply single_spec in Hc as [Hc _]. rewrite no_char_cons in Hc. apply andb_true_iff in Hc as [Hc _].
  apply negb_true_iff in Hc. rewrite Hc. cbn [andb]. by rewrite IH.
Qed.

Lemma field_line_single f : field_ok f -> single_line (field_line f) = true.
Proof. intros [H1 H2]. unfold field_line. by rewrite !single_app, H1, H2. Qed.

Lemma read_render fields content :
  Forall field_ok fields ->
  read_header (S (length fields)) (render fields content) = Some (map field_line fields, content).
Proof.
  unfold render. induction 1 as [|f fields Hf _ IH]; [simpl; by destruct content|].
  change (concat_str (map hdr (f :: fields))) with (hdr f +:+ concat_str (map hdr fields)).
  assert ((hdr f +:+ concat_str (map hdr fields)) +:+ CRLF +:+ content
          = field_line f +:+ CRLF +:+ concat_str (map hdr fields) +:+ CRLF +:+ content) as ->.
  { unfold hdr, field_line. by rewrite <- !app_assoc_str. }
  cbn [length]. remember (S (length fields)) as n. cbn [read_header].
  rewrite cut_line_app by by apply field_line_single.
  assert (String.eqb (field_line f) "" = false) as ->.
  { apply String.eqb_neq. unfold field_line. by destruct f.1. }
  by rewrite IH.
Qed.

(** * Base64 on the wire *)

Lemma encode_no_newline s : forall_chars not_newline (encode s) = true.
Proof. by apply encode_chars. Qed.

Lemma filter_app_chars p a b : filter_chars p (a +:+ b) = filter_chars p a +:+ filter_chars p b.
Proof. induction a as [|c a IH]; [done|]. simpl. rewrite IH. by destruct (p c). Qed.

Lemma filter_all p s : forall_chars p s = true -> filter_chars p s = s.
Proof. induction s as [|c s IH]; [done|]. simpl. intros H; reflect_bools. by rewrite H, IH. Qed.

Lemma take_drop_str n s : take_str n s +:+ drop_str n s = s.
Proof.
  unfold take_str. revert n. induction s as [|c s IH]; intros [|n]; try done.
  simpl. by rewrite IH.
Qed.

Lemma take_str_length n s : (String.length (take_str n s) <= n)%nat.
Proof.
  unfold take_str. revert n. induction s as [|c s IH]; intros [|n]; simpl; try lia. specialize (IH n). lia.
Qed.

Lemma drop_str_length n s : String.length (drop_str n s) = (String.length s - n)%nat.
Proof. revert n. induction s as [|c s IH]; intros [|n]; simpl; auto. Qed.

Definition no_longer (n : Z) (l : string) : Prop := str_len l <= n.

Lemma chunk_no_longer n s : no_longer (Z.of_nat n) (take_str n s).
Proof. unfold no_longer, str_len. pose proof (take_str_length n s). lia. Qed.

(** The loop ends and cuts the text into lines of at most 76 characters. *)
Lemma wrap_loop_lines fuel enc :
  (String.length enc < fuel)%nat ->
  exists lines, wrap_loop fuel enc = Some (join CRLF lines) /\ lines <> [] /\
    concat_str lines = enc /\ Forall (no_longer 76) lines.
Proof.
  revert enc. induction fuel as [|k IH]; intros enc Hk; [lia|]. cbn [wrap_loop].
  destruct (Z.ltb_spec 76 (str_len enc)) as [Hl|Hl].
  - unfold str_len in Hl. destruct (IH (drop_str 76 enc)) as (lines & -> & Hne & Hc & Hf).
    { rewrite drop_str_length. lia. }
    exists (take_str 76 enc :: lines). cbn [fmap option_fmap option_map]. rewrite join_cons by done.
    split; [done|]. split; [done|]. split; [|by constructor; [apply chunk_no_longer|]].
    change (take_str 76 enc +:+ concat_str lines = enc). rewrite Hc. apply take_drop_str.
  - exists [enc]. split; [done|]. split; [done|]. split; [apply app_nil_r_str|]. by repeat constructor.
Qed.

Lemma wrap_loop_more k k' enc w :
  (k <= k')%nat -> wrap_loop k enc = Some w -> wrap_loop k' enc = Some w.
Proof.
  revert k' enc w. induction k as [|k IH]; intros [|k'] enc w Hk; try done; [lia|]. cbn [wrap_loop].
  destruct (76 <? str_len enc); [|done]. intros (v & Ev & ->)%fmap_Some.
  by rewrite (IH k' _ v) by (done || lia).
Qed.

Lemma part_loop_lines fuel enc :
  (String.length enc <= fuel)%nat ->
  exists lines, part_loop fuel enc = Some (concat_str (map (fun l => l +:+ CRLF) lines)) /\
    concat_str lines = enc /\ Forall (no_longer 76) lines.
Proof.
  revert enc. induction fuel as [|k IH]; intros enc Hk.
  { destruct enc; [|simpl in Hk; lia]. by exists []. }
  destruct enc as [|c t] eqn:E; [by exists []|]. rewrite <- E in *.
  destruct (IH (drop_str 76 enc)) as (lines & Hp & Hc & Hf).
  { rewrite drop_str_length. subst enc. simpl in *. lia. }
  exists (take_str 76 enc :: lines). split; [|split].
  - rewrite E at 1. cbn [part_loop]. rewrite <- E, Hp. cbn [fmap option_fmap option_map]. f_equal.
    change (concat_str (map ?f (?x :: lines))) with (f x +:+ concat_str (map f lines)).
    by rewrite <- app_assoc_str.
  - change (take_str 76 enc +:+ concat_str lines = enc). rewrite Hc. apply take_drop_str.
  - by constructor; [apply chunk_no_longer|].
Qed.

Lemma filter_join lines :
  filter_chars not_newline (join CRLF lines) = filter_chars not_newline (concat_str lines).
Proof.
  induction lines as [|l lines IH]; [done|]. change (concat_str (l :: lines)) with (l +:+ concat_str lines).
  destruct lines as [|l' lines]; [by rewrite app_nil_r_str|]. rewrite join_cons by done.
  by rewrite !filter_app_chars, IH.
Qed.

Lemma filter_ended lines :
  filter_chars not_newline (concat_str (map (fun l => l +:+ CRLF) lines))
  = filter_chars not_newline (concat_str lines).
Proof.
  induction lines as [|l lines IH]; [done|]. change (concat_str (l :: lines)) with (l +:+ concat_str lines).
  change (concat_str (map ?f (l :: lines))) with (f l +:+ concat_str (map f lines)).
  rewrite !filter_app_chars, IH. by rewrite app_nil_r_str.
Qed.

Lemma decode_lines b lines w :
  concat_str lines = encode b ->
  filter_chars not_newline w = filter_chars not_newline (concat_str lines) -> decode w = Some b.
Proof.
  intros Hc Hw. unfold decode. rewrite Hw, Hc, filter_all by apply encode_no_newline.
  apply decode_groups_encode.
Qed.

(** Base64 on the wire: the wrapping loops of the body and of an attachment
    part end, within the text's length of iterations; they write the encoding in
    lines of at most 76 characters, and what they write decodes to the bytes
    they were given. *)
Theorem base64_survives_the_wire (b : string) :
  (exists lines, wrapped_base64 b = join CRLF lines /\ Forall (no_longer 76) lines) /\
  (forall fuel, (String.length (encode b) < fuel)%nat ->
     wrap_loop fuel (encode b) = Some (wrapped_base64 b) /\
     exists part, part_loop fuel (encode b) = Some part /\ decode part = Some b) /\
  decode (wrapped_base64 b) = Some b.
Proof.
  assert (forall fuel, (String.length (encode b) < fuel)%nat ->
            exists lines, wrap_loop fuel (encode b) = Some (join CRLF lines) /\
              concat_str lines = encode b /\ Forall (no_longer 76) lines) as Hw.
  { intros fuel Hf. destruct (wrap_loop_lines _ _ Hf) as (lines & ? & _ & ? & ?). eauto. }
  destruct (Hw (S (String.length (encode b)))) as (lines & El & Hc & Hl); [lia|].
  assert (wrapped_base64 b = join CRLF lines) as E by (unfold wrapped_base64; by rewrite El).
  split; [eauto|]. split; [|by rewrite E; eapply decode_lines; [done|apply filter_join]].
  intros fuel Hf. split.
  - apply (wrap_loop_more (S (String.length (encode b)))); [lia|]. by rewrite E.
  - destruct (part_loop_lines fuel (encode b)) as (plines & Ep & Hpc & _); [lia|].
    eexists. split; [exact Ep|]. eapply decode_lines; [exact Hpc|apply filter_ended].
Qed.

Lemma ok_field n v : single_line n = true -> single_line v = true -> field_ok (n, v).
Proof. done. Qed.

Lemma ok_if (b : bool) l : Forall field_ok l -> Forall field_ok (if b then [] else l).
Proof. by destruct b. Qed.

Lemma angle_single s : single_line (angle s) = single_line s.
Proof. unfold angle. rewrite !single_app. simpl. apply andb_true_r. Qed.

Lemma angles_single l :
  Forall (fun s => single_line s = true) l -> Forall (fun s => single_line s = true) (map angle l).
Proof. induction 1; constructor; [by rewrite angle_single|done]. Qed.

(** Go through a list of fields. *)
Ltac ok_fields :=
  repeat first
    [ apply List.Forall_nil
    | apply Forall_cons; split; [apply ok_field; [done|]; rewrite ?angle_single;
        first [apply header_safe_single | by apply single_join | done]|]
    | apply Forall_app; split
    | apply ok_if ].

(** * The fields of a message *)

Section fields.
Context {K : Type} `{Signer K}.
Context (sha256 : string -> string).
Context (check_signature : string -> string -> string -> bool).
Context `{!SignerLaws check_signature K}.
Context (encrypt_content : option (string -> string -> string -> res string)).
Context (quoted_printable : string -> string).
Context (order : gmap string string -> list field).
(** Go walks every entry of a map once. *)
Context (order_walks : forall h, order h ≡ₚ map_to_list h).

Abbreviation build := (build_raw_email_report sha256 encrypt_content quoted_printable order).
Abbreviation entity := (build_entity sha256 encrypt_content quoted_printable order).
Abbreviation safe := (header_safe_message order).

(** The keys the message carries hold no line break: those of the login and of
    the resolver.  A key that the request brings is not checked for it
    ([EmailApi.recipient_keys_inject_headers]). *)
Definition keys_single (m : message K) : Prop :=
  single_line (m_sender_pubkey m) = true /\
  map_Forall (fun _ pk => single_line pk = true) (m_recipient_pubkeys m).

Lemma walk_forall (P : field -> Prop) h :
  (forall k v, h !! k = Some v -> P (k, v)) -> Forall P (order h).
Proof.
  intros HP. rewrite order_walks. apply Forall_forall. intros [k v] Hkv%elem_of_map_to_list. by apply HP.
Qed.

(** A map filled entry by entry holds nothing else. *)
Lemma filled_from {A} (f : A -> field) l (h0 : gmap string string) k v :
  fold_left (fun h x => <[(f x).1 := (f x).2]> h) l h0 !! k = Some v ->
  h0 !! k = Some v \/ exists x, x ∈ l /\ f x = (k, v).
Proof.
  revert h0. induction l as [|x l IH]; intros h0; simpl; [by left|].
  intros [Hi|(y & Hy & E)]%IH; [|right; exists y; by rewrite elem_of_cons; auto].
  apply lookup_insert_Some in Hi as [[<- <-]|[_ Hk]]; [|by left].
  right. exists x. rewrite elem_of_cons. split; [by left|by destruct (f x)].
Qed.

Lemma custom_field_from (m : message K) k v :
  m_headers (safe m) !! k = Some v ->
  exists k0 v0, m_headers m !! k0 = Some v0 /\ k = header_safe k0 /\ v = header_safe v0.
Proof.
  intros Hk. apply (filled_from (fun kv => (header_safe kv.1, header_safe kv.2))) in Hk as [Hk|([k0 v0] & Hin & [= <- <-])].
  { by rewrite lookup_empty in Hk. }
  rewrite order_walks in Hin. apply elem_of_map_to_list in Hin. eauto.
Qed.

Lemma safe_fields_ok (c : readings) (m : message K) :
  single_line (r_date c) = true -> Forall field_ok (message_fields order c (safe m)).
Proof.
  intros Hd. unfold message_fields. cbn -[join angle].
  pose proof (single_list (m_to m)). pose proof (single_list (m_cc m)).
  pose proof (angles_single _ (single_list (m_references m))).
  ok_fields. apply walk_forall. intros k v (k0 & v0 & _ & -> & ->)%custom_field_from.
  apply ok_field; apply header_safe_single.
Qed.

(** A field the builder adds itself: it is no From line. *)
Definition named (n : string) (f : field) : bool := equal_fold f.1 n.
Definition own_field (f : field) : Prop := field_ok f /\ named "from" f = false.

Lemma encryption_fields_ok (m : message K) body ise to l :
  keys_single m -> encryption_step encrypt_content (safe m) = Ok (body, ise, to, l) -> Forall own_field l.
Proof.
  intros [Hs Hr]. unfold encryption_step. simpl.
  assert (forall a, single_line (default "" (m_recipient_pubkeys m !! a)) = true) as Hk.
  { intros a. destruct (m_recipient_pubkeys m !! a) eqn:E; [|done]. exact (Hr a _ E). }
  destruct (m_encryption_requested m && negb (m_is_pre_encrypted m)).
  - destruct encrypt_content; [|done]. go_match. intros E; simplify_eq. repeat constructor; simpl; done || apply Hk.
  - destruct (m_is_pre_encrypted m); intros E; simplify_eq/=; [|constructor].
    constructor; [done|]. apply Forall_app. split; [destruct (String.eqb _ ""); by repeat constructor|].
    apply Forall_app. split; [|by repeat constructor].
    destruct (announced_key _) as [pk|] eqn:E; [|done]. constructor; [|done]. split; [split; [done|]|done]. simpl.
    unfold announced_key in E. apply head_Some_elem_of, list_elem_of_omap in E as (a & _ & E). simpl in E.
    destruct (m_recipient_pubkeys m !! a) eqn:El; [|done]. destruct (String.eqb _ ""); simplify_eq. exact (Hr a _ El).
Qed.

Lemma signable_single : Forall (fun n => single_line n = true) signable_names.
Proof. refine (proj1 (bool_decide_eq_true _) _). vm_compute. reflexivity. Qed.

Lemma signature_fields_ok (c : readings) (m : message K) body :
  Forall own_field (signature_fields sha256 order c m body).
Proof.
  unfold signature_fields, smtp_sign_email. destruct (m_signer m) as [k|]; [|constructor].
  destruct (sign_message sha256 k _) as [sig|] eqn:Es; [|constructor].
  assert (exists h, sign_event k h = Ok sig) as [h Hev].
  { unfold sign_message in Es. destruct (sign_event k _) eqn:E; simplify_eq/=. eauto. }
  destruct (signer_format check_signature k _ _ Hev) as [_ Hx], (key_format check_signature k) as [_ Kx].
  apply walk_forall. intros n v Hl. apply elem_of_list_to_map_2 in Hl.
  rewrite !elem_of_cons in Hl.
  destruct Hl as [[= -> ->]|[[= -> ->]|[[= -> ->]|Hl]]]; [..|by apply elem_of_nil in Hl].
  - split; [|done]. split; [done|by apply single_hex].
  - split; [|done]. split; [done|by apply single_hex].
  - split; [|done]. split; [done|]. simpl. apply single_join; [done|].
    apply Forall_forall. intros w Hw. unfold smtp_headers_to_sign in Hw.
    rewrite list_elem_of_In, sort_strings_In in Hw.
    assert (In w signable_names) as Hw'.
    { unfold signable_names. rewrite in_app_iff in *. rewrite !filter_In in Hw. tauto. }
    apply list_elem_of_In in Hw'. by apply (proj1 (Forall_forall _ _) signable_single).
Qed.

Lemma content_fields_ok (c : readings) (m : message K) body ise :
  Forall own_field (content_entity quoted_printable c m body ise).1.
Proof.
  unfold content_entity, body_entity.
  assert (forall k b, single_line k = true -> own_field (multipart k (generate_boundary b))) as Hb.
  { intros k b Hk. split; [|done]. split; [done|]. unfold multipart. cbn [snd]. by rewrite !single_app, Hk, boundary_single. }
  destruct (negb _ && negb _), (bool_decide _); cbn [fst];
    repeat constructor; try done; first [by apply (Hb "alternative") | by apply (Hb "mixed")].
Qed.

(** The custom headers a caller may add. *)
Definition no_custom (n : string) (m : message K) : Prop :=
  map_Forall (fun k _ => equal_fold (header_safe k) n = false) (m_headers m).

Lemma none_named n l : Forall (fun f => named n f = false) l -> List.filter (named n) l = [].
Proof. induction 1 as [|f l Hf _ IH]; [done|]. simpl. by rewrite Hf. Qed.

Lemma own_none l : Forall own_field l -> List.filter (named "from") l = [].
Proof. intros Hl. apply none_named. eapply Forall_impl; [exact Hl|]. by intros f []. Qed.

Lemma own_ok l : Forall own_field l -> Forall field_ok l.
Proof. intros Hl. eapply Forall_impl; [exact Hl|]. by intros f []. Qed.

Lemma from_line (c : readings) (m : message K) :
  no_custom "from" m ->
  List.filter (named "from") (message_fields order c (safe m)) = [("From", header_safe (m_from m))].
Proof.
  intros Hc. unfold message_fields. rewrite !List.filter_app.
  rewrite (none_named "from" (order (m_headers (safe m)))).
  - by destruct (bool_decide (m_cc _ = [])), (String.eqb (m_in_reply_to _) ""), (bool_decide (m_references _ = [])).
  - apply walk_forall. intros k v (k0 & v0 & Hk & -> & ->)%custom_field_from. exact (Hc _ _ Hk).
Qed.

Lemma with_id_same (c : readings) (m : message K) :
  let m' := with_message_id c m in
  m_from m' = m_from m /\ m_headers m' = m_headers m /\ (keys_single m -> keys_single m').
Proof. unfold with_message_id. by destruct (negb _). Qed.


(** * Blind copies *)

Definition with_bcc (l : list string) (m : message K) : message K :=
  Message (m_from m) (m_to m) (m_cc m) l (m_sender_pubkey m) (m_recipient_pubkeys m) (m_subject m)
    (m_body m) (m_html_body m) (m_is_pre_encrypted m) (m_encrypted_recipients m)
    (m_encryption_requested m) (m_message_id m) (m_in_reply_to m) (m_references m) (m_headers m)
    (m_signer m) (m_attachments m).

(** Blind copies stay blind: a message that is sent is byte for byte the one
    that would be sent without its BCC recipients. *)
Theorem bcc_not_disclosed (c : readings) (m : message K) r (Hbuilt : build c m = Ok r) :
  build c (with_bcc [] m) = Ok r.
Proof.
  unfold build_raw_email_report in *. simpl. destruct (String.eqb (trim_space _) ""); [done|].
  assert (with_message_id c (with_bcc [] m) = with_bcc [] (with_message_id c m)) as ->.
  { unfold with_message_id. simpl. by destruct (negb _). }
  revert Hbuilt. generalize (with_message_id c m). intros m' Hbuilt.
  unfold build_entity in *.
  destruct (encryption_step encrypt_content (safe m')) as [e|] eqn:Ee; [|done].
  assert (encryption_step encrypt_content (safe (with_bcc [] m')) = Ok e) as ->.
  { unfold encryption_step in *. simpl in *.
    destruct (m_encryption_requested m' && _); [|done]. destruct encrypt_content; [|done].
    destruct (map header_safe (m_to m')) as [|a []], (map header_safe (m_cc m')), (map header_safe (m_bcc m')); done. }
  done.
Qed.

(** * Server-side encryption *)

Definition with_text (body html : string) (m : message K) : message K :=
  Message (m_from m) (m_to m) (m_cc m) (m_bcc m) (m_sender_pubkey m) (m_recipient_pubkeys m) (m_subject m)
    body html (m_is_pre_encrypted m) (m_encrypted_recipients m)
    (m_encryption_requested m) (m_message_id m) (m_in_reply_to m) (m_references m) (m_headers m)
    (m_signer m) (m_attachments m).

(** What the encryption step decides in server mode. *)
Lemma server_step (m : message K) :
  m_encryption_requested m = true -> m_is_pre_encrypted m = false ->
  match encryption_step encrypt_content m with
  | Err e => errors_is e ErrServerEncryption = true
  | Ok (ct, ise, to, l) =>
      exists enc pk, encrypt_content = Some enc /\ m_to m = [to] /\ m_cc m = [] /\ m_bcc m = [] /\
        m_attachments m = [] /\ m_recipient_pubkeys m !! to = Some pk /\ ise = true /\
        enc (m_sender_pubkey m) pk (m_body m) = Ok ct /\
        forall body html, enc (m_sender_pubkey m) pk body = Ok ct ->
          encryption_step encrypt_content (with_text body html m) = Ok (ct, true, to, l)
  end.
Proof.
  intros Hr Hp. unfold encryption_step. simpl. rewrite Hr, Hp. simpl.
  destruct encrypt_content as [enc|]; [|done].
  destruct (m_to m) as [|a []], (m_cc m), (m_bcc m); try done.
  destruct (bool_decide_reflect (m_attachments m = [])) as [Ha|]; [|done]. simpl.
  destruct (m_recipient_pubkeys m !! a) as [pk|] eqn:Epk; [|done]. simpl.
  destruct (String.eqb pk ""); [done|]. unfold encrypt_email_body, wrap.
  destruct (enc _ pk (m_body m)) as [ct|] eqn:Ec; [|done].
  exists enc, pk. repeat (split; [done|]). intros body html Hb.
  by rewrite Hb.
Qed.

Lemma safe_with_text body html (m : message K) :
  safe (with_text body html m) = with_text body html (safe m).
Proof. done. Qed.

Lemma server_entity (c : readings) (m : message K) :
  m_encryption_requested m = true -> m_is_pre_encrypted m = false ->
  match entity c m with
  | Err e => errors_is e ErrServerEncryption = true
  | Ok (fields, content, to) =>
      exists addr pk ct enc, m_to m = [addr] /\ m_cc m = [] /\ m_bcc m = [] /\ m_attachments m = [] /\
        to = header_safe addr /\ m_recipient_pubkeys m !! to = Some pk /\
        encrypt_content = Some enc /\ enc (m_sender_pubkey m) pk (m_body m) = Ok ct /\
        content = wrapped_base64 ct /\
        forall body html, enc (m_sender_pubkey m) pk body = Ok ct ->
          entity c (with_text body html m) = Ok (fields, content, to)
  end.
Proof.
  intros Hreq Hpre. unfold build_entity. pose proof (server_step (safe m) Hreq Hpre) as Hs.
  destruct (encryption_step encrypt_content (safe m)) as [[[[ct ise] to] l]|e]; [|exact Hs].
  destruct Hs as (enc & pk & Henc & Hto & Hcc & Hbcc & Hat & Hpk & -> & Hct & Hsame).
  assert (forall b h, content_entity quoted_printable c (safe (with_text b h m)) ct true
          = ([("Content-Type", "text/plain; charset=utf-8"); ("Content-Transfer-Encoding", "base64")],
             wrapped_base64 ct)) as Hent.
  { intros b h. unfold content_entity, body_entity. rewrite andb_false_r. by rewrite bool_decide_eq_true_2. }
  pose proof (Hent (m_body m) (m_html_body m)) as Hown.
  assert (with_text (m_body m) (m_html_body m) m = m) as Hm by by destruct m.
  rewrite Hm in Hown. cbn [res_bind]. rewrite Hown. cbn [res_bind]. simpl in Hto, Hcc, Hbcc, Hat.
  destruct (m_to m) as [|addr []] eqn:Et; try done. injection Hto as <-.
  exists addr, pk, ct, enc. split; [done|].
  split; [by eapply map_eq_nil|]. split; [by eapply map_eq_nil|]. split; [by eapply map_eq_nil|].
  repeat (split; [done|]). intros body html Hb. rewrite (safe_with_text body html m), (Hsame body html Hb).
  cbn [res_bind]. rewrite <- (safe_with_text body html m), Hent. done.
Qed.

(** Server-side encryption never falls back to plaintext: a message that asks
    for it is refused with [ErrServerEncryption], or goes to one recipient
    alone, without copies or attachments, and its content is the base64 of the
    ciphertext for that recipient's key; any other text with that ciphertext
    would give the same bytes, so that neither the body nor its HTML version
    shows in them. *)
Theorem server_mode_never_sends_plaintext (c : readings) (m : message K)
    (Hreq : m_encryption_requested m = true) (Hpre : m_is_pre_encrypted m = false)
    (Hfrom : trim_space (m_from m) <> "") :
  match build c m with
  | Err e => errors_is e ErrServerEncryption = true
  | Ok (raw, to) =>
      exists addr pk ct enc fields,
        m_to m = [addr] /\ m_cc m = [] /\ m_bcc m = [] /\ m_attachments m = [] /\
        to = header_safe addr /\ m_recipient_pubkeys m !! to = Some pk /\
        encrypt_content = Some enc /\ enc (m_sender_pubkey m) pk (m_body m) = Ok ct /\
        raw = render fields (wrapped_base64 ct) /\
        forall body html, enc (m_sender_pubkey m) pk body = Ok ct ->
          build c (with_text body html m) = Ok (raw, to)
  end.
Proof.
  unfold build_raw_email_report. rewrite (proj2 (String.eqb_neq _ _) Hfrom).
  assert (forall b h, with_message_id c (with_text b h m) = with_text b h (with_message_id c m)) as Hid.
  { intros b h. unfold with_message_id. simpl. by destruct (negb _). }
  assert (exists i, with_message_id c m = Message (m_from m) (m_to m) (m_cc m) (m_bcc m) (m_sender_pubkey m)
    (m_recipient_pubkeys m) (m_subject m) (m_body m) (m_html_body m) (m_is_pre_encrypted m)
    (m_encrypted_recipients m) (m_encryption_requested m) i (m_in_reply_to m) (m_references m) (m_headers m)
    (m_signer m) (m_attachments m)) as [i Em].
  { unfold with_message_id. destruct (negb _); [exists (m_message_id m); by destruct m|by eexists]. }
  rewrite Em.
  match goal with |- context [entity c ?m'] => pose proof (server_entity c m' Hreq Hpre) as Hs; set (m1 := m') in * end.
  destruct (entity c m1) as [[[fields content] to]|e]; [|exact Hs].
  destruct Hs as (addr & pk & ct & enc & ? & ? & ? & ? & ? & ? & ? & ? & -> & Hsame).
  exists addr, pk, ct, enc, fields. repeat (split; [done|]).
  intros body html Hb. change (m_from (with_text body html m)) with (m_from m).
  rewrite (proj2 (String.eqb_neq _ _) Hfrom), Hid, Em. by rewrite (Hsame body html Hb).
Qed.

End fields.

(** * The Nostr signature of a sent message *)

Section nostr_signature.
Context {K : Type}.
Context (sha256 : string -> string).
Context (order : gmap string string -> list field).
Abbreviation safe := (header_safe_message order).

Lemma trim_left_length p s : (String.length (trim_left p s) <= String.length s)%nat.
Proof. induction s as [|c s IH]; simpl; [lia|]. destruct (p c); simpl; lia. Qed.

Lemma trim_right_length p s : (String.length (trim_right p s) <= String.length s)%nat.
Proof.
  induction s as [|c s IH]; simpl; [lia|]. destruct (trim_right p s); [destruct (p c)|]; simpl in *; lia.
Qed.

Lemma trim_right_last p d s : p d = false -> trim_right p (s +:+ String d "") = s +:+ String d "".
Proof.
  intros Hd. induction s as [|c s IH]; simpl; [by rewrite Hd|]. rewrite IH. by destruct s.
Qed.

Lemma trim_left_keeps q p s : forall_chars q s = true -> forall_chars q (trim_left p s) = true.
Proof.
  induction s as [|c s IH]; [done|]. intros Hq. pose proof Hq as Hq'. simpl in Hq |- *.
  apply andb_true_iff in Hq as [_ Hq]. destruct (p c); [by apply IH|done].
Qed.

Lemma trim_space_single s : single_line s = true -> single_line (trim_space s) = true.
Proof. rewrite !single_spec. intros [H1 H2]. split; by apply trim_right_keeps, trim_left_keeps. Qed.

Lemma canonical_single v : single_line v = true -> canonical_value v = trim_space v.
Proof. intros Hv%trim_space_single. apply normalize_id. by apply single_spec in Hv as [? _]. Qed.

Lemma trim_angle s : trim_space (angle s) = angle s.
Proof. exact (trim_right_last is_space ">" (String "<" s) eq_refl). Qed.

Lemma canonical_angle s : single_line s = true -> canonical_value (angle s) <> canonical_value s.
Proof.
  intros Hs E. rewrite !canonical_single, trim_angle in E by by rewrite ?angle_single.
  apply (f_equal String.length) in E. unfold angle in E. rewrite !length_app_str in E. simpl in E.
  unfold trim_space in E. pose proof (trim_right_length is_space (trim_left is_space s)).
  pose proof (trim_left_length is_space s). lia.
Qed.

Lemma signing_values (c : readings) (m : message K) n v :
  single_line (r_date c) = true -> headers_for_signing c (safe m) !! n = Some v -> single_line v = true.
Proof.
  intros Hd Hn. unfold headers_for_signing in Hn. apply elem_of_list_to_map_2 in Hn. revert n v Hn.
  cut (Forall field_ok (
    [("message-id", m_message_id (safe m)); ("date", r_date c); ("from", m_from (safe m));
     ("to", join ", " (m_to (safe m))); ("subject", m_subject (safe m))] ++
    (if bool_decide (m_cc (safe m) = []) then [] else [("cc", join ", " (m_cc (safe m)))]) ++
    (if String.eqb (m_in_reply_to (safe m)) "" then [] else [("in-reply-to", angle (m_in_reply_to (safe m)))]) ++
    (if bool_decide (m_references (safe m) = []) then [] else [("references", join " " (map angle (m_references (safe m))))]))).
  { intros Hf n v Hn. by apply (proj1 (Forall_forall _ _) Hf) in Hn as []. }
  cbn -[join angle]. pose proof (single_list (m_to m)). pose proof (single_list (m_cc m)).
  pose proof (angles_single _ (single_list (m_references m))). ok_fields.
Qed.

Lemma covered_in h names n v :
  (n, v) ∈ covered h names <-> exists k w, In k names /\ h !! k = Some w /\ n = to_lower k /\ v = canonical_value w.
Proof.
  unfold covered. rewrite list_elem_of_In, in_flat_map. split.
  - intros (k & Hk & Hv). rewrite sort_strings_In in Hk. destruct (h !! k) as [w|] eqn:E; [|done].
    destruct Hv as [[= <- <-]|[]]. eauto 6.
  - intros (k & w & Hk & Hw & -> & ->). exists k. rewrite sort_strings_In, Hw. split; [done|by left].
Qed.

Lemma signing_message_id (c : readings) (m : message K) :
  headers_for_signing c (safe m) !! "message-id" = Some (header_safe (m_message_id m)).
Proof. unfold headers_for_signing. simpl. by rewrite lookup_insert_eq. Qed.

Lemma smtp_names h :
  let names := smtp_headers_to_sign h in
  Forall (fun n => In n signable_names) names /\ sort_strings names = names /\
  (present h "message-id" = true -> In "message-id" names).
Proof.
  intros names. unfold names, smtp_headers_to_sign. rewrite sort_strings_idemp.
  split; [|split; [done|]].
  - apply Forall_forall. intros n Hn. rewrite list_elem_of_In, sort_strings_In, in_app_iff, !filter_In in Hn.
    unfold signable_names. rewrite in_app_iff. tauto.
  - intros Hp. rewrite sort_strings_In, in_app_iff, !filter_In. left. split; [|done]. do 3 right. by left.
Qed.

Lemma covered_single h names :
  Forall (fun n => In n signable_names) names -> (forall n v, h !! n = Some v -> single_line v = true) ->
  Forall one_line (covered h names).
Proof.
  intros Hn Hv. apply Forall_forall. intros [n v] (k & w & Hk & Hw & -> & ->)%covered_in.
  apply list_elem_of_In in Hk. apply (proj1 (Forall_forall _ _) Hn), list_elem_of_In in Hk.
  pose proof (proj1 (Forall_forall _ _) signable_single _ Hk) as Hs.
  pose proof (proj1 (Forall_forall (fun n => no_char ":" n = true) signable_names)) as Hc.
  specialize (Hc ltac:(refine (proj1 (bool_decide_eq_true _) _); vm_compute; reflexivity) _ Hk).
  apply list_elem_of_In, (proj1 (List.Forall_forall _ _) signable_facts) in Hk as (El & _).
  unfold one_line. cbn [fst snd]. rewrite El, canonical_single by by eapply Hv.
  apply single_spec in Hs as [_ Hs]. split; [done|]. split; [done|].
  apply Hv in Hw. by apply trim_space_single, single_spec in Hw as [_ ?].
Qed.

(** The signature the transport adds cannot be checked by the receiver: it
    covers the Message-ID without the angle brackets that the header line has,
    so that the bytes the receiver canonicalizes from the headers as they
    arrive differ from the bytes that were signed, whatever the body. *)
Theorem sent_signature_misses_message_id (c : readings) (m : message K) (e : verifiable_email) (body : string)
    (Hlen : forall s, String.length (sha256 s) = 32%nat)
    (Hdate : single_line (r_date c) = true)
    (Hline : lower_keys (ve_headers e) !! "message-id" = Some (angle (header_safe (m_message_id m))))
    (Hrest : forall n v, lower_keys (ve_headers e) !! n = Some v -> single_line v = true) :
  let signed := headers_for_signing c (safe m) in
  verifier_canonicalize sha256 e (split ";" (join ";" (smtp_headers_to_sign signed)))
  <> smtp_canonical sha256 signed body.
Proof.
  intros signed E. destruct (smtp_names signed) as (Hn & Hso & Hid). cbv zeta in *.
  assert (signed !! "message-id" = Some (header_safe (m_message_id m))) as Hm by apply signing_message_id.
  assert (In "message-id" (smtp_headers_to_sign signed)) as Hin by (apply Hid; unfold present; by rewrite Hm).
  pose proof (signing_values c m) as Hsv. fold signed in Hsv. revert Hn Hso Hin Hid E.
  unfold smtp_canonical. generalize (smtp_headers_to_sign signed). intros names Hn Hso Hin _ E.
  assert (forall n, In n names -> to_lower n = n /\ no_char ";" n = true) as Hf.
  { intros n Hx. apply list_elem_of_In, (proj1 (Forall_forall _ _) Hn) in Hx.
    by apply (proj1 (List.Forall_forall _ _) signable_facts) in Hx as (? & ? & _). }
  unfold verifier_canonicalize in E. rewrite split_join in E.
  2: { by intros ->. } 2: { apply List.Forall_forall. intros n Hx. by apply Hf. }
  rewrite canonical_parts_lower in E by (rewrite Hso; apply List.Forall_forall; intros n Hx; by apply Hf).
  rewrite <- Hso in E at 2. rewrite !covered_parts in E. unfold with_body_hash in E.
  rewrite <- !app_assoc_str in E. apply app_inj_tail_str in E as [E _]; [|by rewrite !Hlen].
  apply app_inj_tail_str in E as [E _]; [|done]. apply join_render_inj in E; [|apply covered_single; [done|by eauto]..].
  assert (("message-id", canonical_value (header_safe (m_message_id m))) ∈ covered signed names) as Hc.
  { apply covered_in. by exists "message-id", (header_safe (m_message_id m)). }
  rewrite <- E in Hc. apply covered_in in Hc as (k & w & Hk & Hw & Ek & Ev).
  destruct (Hf k Hk) as [Hl _]. rewrite Hl in Ek. subst k. rewrite Hline in Hw. injection Hw as <-.
  by apply (canonical_angle (header_safe (m_message_id m))); [apply header_safe_single|].
Qed.

End nostr_signature.

(** * A sample message *)

Definition sample_clock : readings :=
  Readings (Stamp 1700000000000000000 [3; 99; 7]) "Tue, 14 Nov 2023 22:13:20 +0000"
    (Stamp 1700000000000000001 [4]) (Stamp 1700000000000000002 [5]).

Definition evil_subject : string := "hi" +:+ CRLF +:+ "From: boss@bank.example" +:+ CRLF +:+ CRLF +:+ "gone".

Definition sample_message (server : bool) : message unit :=
  Message "alice@cloistr.xyz" ["bob@example.com"] (if server then [] else ["carol@example.com"])
    (if server then [] else ["dave@example.com"]) "aa" {[ "bob@example.com" := "bb" ]} evil_subject
    "the plan" "<b>the plan</b>" false ∅ server "id@cloistr.xyz" "" ["r1"] ∅ (Some tt)
    (if server then [] else [MimeAttachment "a.txt" "" "data"]).

Definition sample_cipher : option (string -> string -> string -> res string) :=
  Some (fun sender pk text => Ok ("sealed for " +:+ pk)).

Abbreviation sample_build := (build_raw_email_report sample_digest sample_cipher (fun s => s) map_to_list).

Definition built_raw (server : bool) : string :=
  match sample_build sample_clock (sample_message server) with Ok (raw, _) => raw | Err _ => "" end.


Lemma bcc_not_disclosed_witness :
  sample_build sample_clock (with_bcc [] (sample_message false)) = Ok (built_raw false, "").
Proof.
  apply (bcc_not_disclosed sample_digest sample_cipher (fun s => s) map_to_list sample_clock
    (sample_message false) (built_raw false, "")).
  vm_compute. reflexivity.
Defined.

Lemma server_mode_never_sends_plaintext_witness :
  exists ct fields, built_raw true = render fields (wrapped_base64 ct) /\ ct = "sealed for bb".
Proof.
  pose proof (server_mode_never_sends_plaintext sample_digest sample_cipher (fun s => s) map_to_list
    sample_clock (sample_message true) eq_refl eq_refl ltac:(discriminate)) as Hs.
  assert (sample_build sample_clock (sample_message true) = Ok (built_raw true, "bob@example.com")) as E.
  { vm_compute. reflexivity. }
  rewrite E in Hs. destruct Hs as (addr & pk & ct & enc & fields & _ & _ & _ & _ & _ & Hpk & Henc & Hct & Hraw & _).
  exists ct, fields. split; [exact Hraw|]. injection Henc as <-. injection Hpk as <-. by injection Hct as <-.
Defined.

Definition sample_received : verifiable_email :=
  VerifiableEmail {[ "message-id" := "<id@cloistr.xyz>" ]} "the plan" "" "" "" "".

Lemma sent_signature_misses_message_id_witness :
  let signed := headers_for_signing sample_clock (header_safe_message map_to_list (sample_message false)) in
  verifier_canonicalize sample_digest sample_received (split ";" (join ";" (smtp_headers_to_sign signed)))
  <> smtp_canonical sample_digest signed "the plan".
Proof.
  apply (sent_signature_misses_message_id sample_digest map_to_list
    sample_clock (sample_message false) sample_received "the plan" sample_digest_length).
  - reflexivity.
  - vm_compute. reflexivity.
  - assert (map_Forall (fun _ v => single_line v = true) (lower_keys (ve_headers sample_received))) as Hf.
    { refine (proj1 (bool_decide_eq_true _) _). vm_compute. reflexivity. }
    intros n v. apply Hf.
Defined.
