(* ===== verification/Delivery.v ===== *)
(** * Delivering a message: internal/transport/smtp.go (the SMTP dialogs, direct and
    hybrid delivery, Send), mx.go, dkim.go and the Manager of transport.go

    The network is an oracle that answers each command of the client from the
    commands before it; a run extends that history.  DNS answers and the DKIM
    library's signature are parameters. *)

From stdpp Require Import sorting.
From S2P Require Import Prelude GoStrings Signing Encryption Mime.
#[local] Open Scope Z_scope.

(** ** Configuration *)

Inductive delivery_mode := ModeUnset | ModeRelay | ModeDirect | ModeHybrid.

Record smtp_config := SmtpConfig {
  host : string; port : Z; username : string; password : string; use_tls : bool;
  timeout : Z; local_name : string; delivery : delivery_mode; local_domains : list string }.

(** The defaults [NewSMTPTransport] fills in. *)
Definition new_smtp_config (c : smtp_config) : smtp_config :=
  SmtpConfig (host c) (port c) (username c) (password c) (use_tls c)
    (if timeout c =? 0 then 30 * second else timeout c)
    (if String.eqb (local_name c) "" then "localhost" else local_name c)
    (match delivery c with ModeUnset => ModeRelay | d => d end) (local_domains c).

(** ** The client's commands and the history of their answers *)

Inductive command :=
| Connect (addr : string)
| Greet (host : string)
| Helo (name : string)
| Extension (name : string)
| StartTLS (host : string)
| Auth (user pass : string)
| MailFrom (from : string)
| RcptTo (to : string)
| DataStart
| DataWrite (message : string)
| DataEnd
| Quit.

#[export] Instance command_eq_dec : EqDecision command.
Proof. solve_decision. Defined.

Definition history := list (command * option error).
Definition io (A : Type) := history -> history * res A.

Definition io_ret {A} (a : A) : io A := fun h => (h, Ok a).
Definition io_bind {A B} (m : io A) (k : A -> io B) : io B := fun h =>
  match m h with
  | (h', Ok a) => k a h'
  | (h', Err e) => (h', Err e)
  end.
Notation "m ;;; k" := (io_bind m (fun _ => k)) (at level 100, k at level 200, right associativity) : go_scope.

Section network.
Context (net : history -> command -> option error).

Definition ask (c : command) : io (option error) := fun h => (h ++ [(c, net h c)], Ok (net h c)).

(** A command whose failure ends the dialog with [ctx]. *)
Definition must (ctx : string) (c : command) : io unit :=
  io_bind (ask c) (fun a => fun h => (h, match a with None => Ok tt | Some e => Err (Wrapped ctx e) end)).
(** A command whose failure is ignored. *)
Definition attempt (c : command) : io unit := io_bind (ask c) (fun _ => io_ret tt).
Definition offered (ext : string) : io bool :=
  io_bind (ask (Extension ext)) (fun a => io_ret (match a with None => true | Some _ => false end)).
Definition io_when (b : bool) (m : io unit) : io unit := if b then m else io_ret tt.

(** A command after whose failure [cleanup] is still sent, its answer ignored. *)
Definition must_or (ctx : string) (c cleanup : command) : io unit :=
  io_bind (ask c) (fun a =>
    match a with
    | None => io_ret tt
    | Some e => io_bind (ask cleanup) (fun _ h => (h, Err (Wrapped ctx e)))
    end).

(** The envelope and the message, common to both dialogs.  The data writer is
    closed, which sends the final dot, also after a failed write. *)
Fixpoint rcpts (to : list string) : io unit :=
  match to with
  | [] => io_ret tt
  | r :: rest => must ("RCPT TO failed for " +:+ r) (RcptTo r) ;;; rcpts rest
  end.

Definition transaction (from : string) (to : list string) (message : string) : io unit :=
  must "MAIL FROM failed" (MailFrom from) ;;;
  rcpts to ;;;
  must "DATA command failed" DataStart ;;;
  must_or "failed to write message" (DataWrite message) DataEnd ;;;
  must "failed to close data writer" DataEnd ;;;
  attempt Quit.

Definition send_via_smtp (c : smtp_config) (from : string) (to : list string) (message : string) : io unit :=
  must "failed to connect to SMTP server" (Connect (host c +:+ ":" +:+ pretty (port c))) ;;;
  must "failed to create SMTP client" (Greet (host c)) ;;;
  must "HELO failed" (Helo (local_name c)) ;;;
  io_when (use_tls c)
    (io_bind (offered "STARTTLS") (fun ok => io_when ok (must "STARTTLS failed" (StartTLS (host c))))) ;;;
  io_when (negb (String.eqb (username c) "") && negb (String.eqb (password c) ""))
    (must "authentication failed" (Auth (username c) (password c))) ;;;
  transaction from to message.

Definition send_raw := send_via_smtp.

Definition send_to_host (c : smtp_config) (addr from : string) (to : list string) (message : string) : io unit :=
  let h := match split ":" addr with h :: _ => h | [] => "" end in
  must "failed to connect" (Connect addr) ;;;
  must "failed to create SMTP client" (Greet h) ;;;
  must "HELO failed" (Helo (local_name c)) ;;;
  io_bind (offered "STARTTLS") (fun ok => io_when ok (attempt (StartTLS h))) ;;;
  transaction from to message.
End network.

(** ** MX records *)

Record mx_record := MX { mx_host : string; mx_pref : Z }.
Record mx_cache_entry := MXCacheEntry { me_records : list mx_record; me_expires_at : Z }.
Abbreviation mx_cache := (gmap string mx_cache_entry).

(** [net.LookupMX]'s answer: records, a not-found error, or another error. *)
Inductive mx_answer := MXRecords (l : list mx_record) | MXNotFound | MXError (e : error).

Definition mx_cache_ttl : Z := 5 * minute.

Definition preferred (a b : mx_record) : Prop := mx_pref a <= mx_pref b.
#[export] Instance preferred_dec : RelDecision preferred.
Proof. intros a b. unfold preferred. apply _. Defined.

Definition trim_dot (h : string) : string :=
  if has_suffix h "." then take_str (String.length h - 1) h else h.

(** Records of equal preference keep their order, which Go's sort leaves open. *)
Definition mx_records_to_hosts (l : list mx_record) : list string :=
  map (fun r => trim_dot (mx_host r)) (merge_sort preferred l).

Section mx.
Context (lookup_mx : string -> mx_answer) (lookup_host : string -> res (list string)).

Definition resolve (now : Z) (domain : string) (cache : mx_cache) : mx_cache * res (list string) :=
  let domain := to_lower (trim_space domain) in
  let fail e := Err (Wrapped ("failed to resolve MX for " +:+ domain) e) in
  if String.eqb domain "" then (cache, Err (Sentinel "empty domain"))
  else
    let fresh :=
      match lookup_mx domain with
      | MXError e => (cache, fail e)
      | MXNotFound =>
          match lookup_host domain with
          | Ok (_ :: _) => (cache, Ok [domain])
          | Ok [] => (cache, fail (Sentinel "%!w(<nil>)"))
          | Err e => (cache, fail e)
          end
      | MXRecords [] => (cache, Ok [domain])
      | MXRecords l => (<[domain := MXCacheEntry l (now + mx_cache_ttl)]> cache, Ok (mx_records_to_hosts l))
      end in
    match cache !! domain with
    | Some e => if now <? me_expires_at e then (cache, Ok (mx_records_to_hosts (me_records e))) else fresh
    | None => fresh
    end.

Definition resolve_for_email (now : Z) (email : string) (cache : mx_cache) : mx_cache * res (list string) :=
  match split "@" email with
  | [_; domain] => resolve now domain cache
  | _ => (cache, Err (Sentinel ("invalid email address: " +:+ email)))
  end.

Definition clear_cache (cache : mx_cache) : mx_cache := ∅.
End mx.

(** ** Direct and hybrid delivery *)

Record net_state := NetState { ns_log : history; ns_mx : mx_cache }.

Definition recipient_domain (addr : string) : option string :=
  match split "@" addr with
  | [_; d] => Some d
  | _ => None
  end.

(** Recipients by domain; an address without exactly one @ is skipped. *)
Definition by_domain (to : list string) : gmap string (list string) :=
  fold_left (fun m addr => match recipient_domain addr with
                           | Some d => <[d := default [] (m !! d) ++ [addr]]> m
                           | None => m
                           end) to ∅.

Section deliver.
Context (net : history -> command -> option error).
Context (lookup_mx : string -> mx_answer) (lookup_host : string -> res (list string)).
(** The order in which Go walks the map of domains. *)
Context (walk : gmap string (list string) -> list (string * list string)).
Context (c : smtp_config) (now : Z).

(** Try the hosts in order until one accepts; [last] is the last error so far. *)
Fixpoint try_hosts (hosts : list string) (from : string) (to : list string) (message : string)
    (last : option error) (h : history) : history * option error :=
  match hosts with
  | [] => (h, last)
  | x :: rest =>
      match send_to_host net c (x +:+ ":25") from to message h with
      | (h', Ok _) => (h', last)
      | (h', Err e) => try_hosts rest from to message (Some e) h'
      end
  end.

Fixpoint direct_domains (l : list (string * list string)) (from message : string)
    (last : option error) (s : net_state) : net_state * option error :=
  match l with
  | [] => (s, last)
  | (d, to) :: rest =>
      match resolve lookup_mx lookup_host now d (ns_mx s) with
      | (mx, Err e) => direct_domains rest from message (Some e) (NetState (ns_log s) mx)
      | (mx, Ok hosts) =>
          let '(h, last') := try_hosts hosts from to message last (ns_log s) in
          direct_domains rest from message last' (NetState h mx)
      end
  end.

Definition send_direct (from : string) (to : list string) (message : string) (s : net_state)
    : net_state * option error :=
  direct_domains (walk (by_domain to)) from message None s.

Definition relay (from : string) (to : list string) (message : string) (s : net_state)
    : net_state * option error :=
  match send_via_smtp net c from to message (ns_log s) with
  | (h, Ok _) => (NetState h (ns_mx s), None)
  | (h, Err e) => (NetState h (ns_mx s), Some e)
  end.

Definition is_local (addr : string) : bool :=
  match recipient_domain addr with
  | Some d => bool_decide (to_lower d ∈ map to_lower (local_domains c))
  | None => false
  end.

Definition send_hybrid (from : string) (to : list string) (message : string) (s : net_state)
    : net_state * option error :=
  let local := List.filter is_local to in
  let remote := List.filter (fun a => negb (is_local a)) to in
  let '(s1, e1) := match local with [] => (s, None) | _ => send_direct from local message s end in
  match remote with
  | [] => (s1, e1)
  | _ =>
      let '(s2, e2) := relay from remote message s1 in
      (s2, match e2 with Some e => Some e | None => e1 end)
  end.

Definition deliver (from : string) (to : list string) (message : string) (s : net_state)
    : net_state * option error :=
  match delivery c with
  | ModeDirect => send_direct from to message s
  | ModeHybrid => send_hybrid from to message s
  | _ => relay from to message s
  end.
End deliver.

(** ** DKIM *)

(** A signer: its domain and the library's signature of a message, or why it failed. *)
Record dkim_signer := DKIMSigner {
  dk_domain : string; dk_selector : string; dk_signature : string -> res string }.

Definition newline_char (ch : ascii) : bool := Ascii.eqb ch CR || Ascii.eqb ch LF.

Definition dkim_sign (k : dkim_signer) (message : string) : res string :=
  let! sig := dk_signature k message in
  Ok ("DKIM-Signature: " +:+ trim_right newline_char sig +:+ CRLF +:+ message).

Definition dkim_dns_record_name (k : dkim_signer) : string :=
  dk_selector k +:+ "._domainkey." +:+ dk_domain k.

(** [dkimSignerFor]: the provider's signer for the From domain, then the single one. *)
Definition dkim_signer_for (provider : option (string -> option dkim_signer)) (single : option dkim_signer)
    (from : string) : option dkim_signer :=
  let domain := match cut_last "@" from with Some (_, d) => to_lower d | None => from end in
  match (match provider with Some p => p domain | None => None end) with
  | Some k => Some k
  | None =>
      match single with
      | Some k => if match provider with None => true | Some _ => equal_fold (dk_domain k) domain end
                  then Some k else None
      | None => None
      end
  end.

(** ** Send *)

Inductive transport_type := TransportSMTP | TransportNostr | TransportHybrid | TransportOther (name : string).
#[export] Instance transport_type_eq_dec : EqDecision transport_type.
Proof. solve_decision. Defined.

Record recipient_result := RecipientResult {
  rr_address : string; rr_success : bool; rr_error : option error; rr_encrypted : bool }.

Record delivery_result := DeliveryResult {
  dr_success : bool; dr_message_id : string; dr_transport : transport_type;
  dr_recipients : list recipient_result; dr_error : option error }.

Definition failed_result (to : list string) (e : error) : delivery_result :=
  DeliveryResult false "" TransportSMTP
    (map (fun a => RecipientResult a false (Some e) false) to) (Some e).

Section send.
Context {K : Type} `{Signer K}.
Context (sha256 : string -> string).
Context (encrypt_content : option (string -> string -> string -> res string)).
Context (quoted_printable : string -> string).
Context (order : gmap string string -> list field).
Context (net : history -> command -> option error).
Context (lookup_mx : string -> mx_answer) (lookup_host : string -> res (list string)).
Context (walk : gmap string (list string) -> list (string * list string)).
Context (provider : option (string -> option dkim_signer)) (single : option dkim_signer).

Definition with_dkim (from raw : string) : string :=
  match dkim_signer_for provider single from with
  | None => raw
  | Some k => match dkim_sign k raw with Ok signed => signed | Err _ => raw end
  end.

(** The result and the error, as Go returns both; the caller's message now has
    the Message-ID of [with_message_id]. *)
Definition smtp_send (cfg : smtp_config) (now : Z) (c : readings) (m : message K) (s : net_state)
    : net_state * (option delivery_result * option error) :=
  let to := all_recipients m in
  match to with
  | [] => (s, (None, Some (Sentinel "no recipients specified")))
  | _ =>
      match build_raw_email_report sha256 encrypt_content quoted_printable order c m with
      | Err e => (s, (Some (DeliveryResult false "" TransportSMTP [] (Some e)), Some e))
      | Ok (raw, encrypted_to) =>
          let '(s', failed) := deliver net lookup_mx lookup_host walk cfg now
                                 (m_from m) to (with_dkim (m_from m) raw) s in
          match failed with
          | Some e => (s', (Some (failed_result to e), Some e))
          | None =>
              (s', (Some (DeliveryResult true (m_message_id (with_message_id c m)) TransportSMTP
                     (map (fun a => RecipientResult a true None (delivered_encrypted m encrypted_to a)) to) None),
                    None))
          end
      end
  end.
End send.

(** [CanDeliver]. *)
Definition smtp_can_deliver (addr : string) : bool :=
  has_char "@" addr &&
  match split "@" addr with
  | [l; d] => negb (String.eqb l "") && negb (String.eqb d "")
  | _ => false
  end.

(** ** The Manager *)

Section manager.
Context {M W : Type}.

(** transport.Transport: Send and CanDeliver. *)
Record transport := Transport {
  t_send : M -> W -> W * (option delivery_result * option error);
  t_can_deliver : M -> string -> bool }.

Record manager := Manager {
  mg_transports : transport_type -> option transport;
  mg_default : transport_type }.

Definition new_manager : manager := Manager (fun _ => None) TransportSMTP.
Definition register_transport (ty : transport_type) (t : transport) (g : manager) : manager :=
  Manager (fun ty' => if decide (ty' = ty) then Some t else mg_transports g ty') (mg_default g).
Definition set_default_transport (ty : transport_type) (g : manager) : manager :=
  Manager (mg_transports g) ty.

Definition manager_send_hybrid (g : manager) (to : M -> list string) (m : M) (w : W)
    : W * (option delivery_result * option error) :=
  let smtp w :=
    match mg_transports g TransportSMTP with
    | None => (w, (None, Some (Sentinel "no fallback transport available")))
    | Some t => t_send t m w
    end in
  match mg_transports g TransportNostr with
  | None => smtp w
  | Some t =>
      if forallb (t_can_deliver t m) (to m) then
        match t_send t m w with
        | (w', (Some r, None)) => if dr_success r then (w', (Some r, None)) else smtp w'
        | (w', _) => smtp w'
        end
      else smtp w
  end.

Definition manager_send (g : manager) (preferred_ : option transport_type) (to : M -> list string)
    (m : M) (w : W) : W * (option delivery_result * option error) :=
  let ty := default (mg_default g) preferred_ in
  if decide (ty = TransportHybrid) then manager_send_hybrid g to m w
  else match mg_transports g ty with
       | None => (w, (None, Some (Sentinel "transport not available")))
       | Some t => t_send t m w
       end.
End manager.

(** * What the servers accepted

    [view] follows a history: the dialog under way, whether the message was
    written to its end, and the messages whose final dot was acknowledged after
    that.  (A final dot after a failed write can at most deliver a truncated
    message; those are not counted.) *)

Record accepted_mail := Accepted { ac_addr : string; ac_from : string; ac_to : list string; ac_message : string }.

Record view_state := View { vw_current : accepted_mail; vw_written : bool; vw_accepted : list accepted_mail }.

Definition view_step (v : view_state) (x : command * option error) : view_state :=
  let '(View (Accepted a f t m) w acc) := v in
  match x with
  | (Connect a', None) => View (Accepted a' "" [] "") false acc
  | (MailFrom f', None) => View (Accepted a f' [] m) false acc
  | (RcptTo r, None) => View (Accepted a f (t ++ [r]) m) w acc
  | (DataWrite m', None) => View (Accepted a f t m') true acc
  | (DataEnd, None) => View (Accepted a f t m) false (if w then acc ++ [Accepted a f t m] else acc)
  | _ => v
  end.

Definition view (h : history) : view_state := fold_left view_step h (View (Accepted "" "" [] "") false []).
Definition accepted (h : history) : list accepted_mail := vw_accepted (view h).

Lemma view_snoc h x : view (h ++ [x]) = view_step (view h) x.
Proof. unfold view. by rewrite fold_left_app. Qed.

(** ** Triples over the view *)

Section dialogs.
Context (net : history -> command -> option error).

Definition triple {A} (P : view_state -> Prop) (m : io A) (Q : res A -> view_state -> Prop) : Prop :=
  forall h, P (view h) -> Q (m h).2 (view (m h).1).

Lemma triple_bind {A B} P (m : io A) (k : A -> io B) R Q :
  triple P m R -> (forall a, triple (R (Ok a)) (k a) Q) -> (forall e v, R (Err e) v -> Q (Err e) v) ->
  triple P (io_bind m k) Q.
Proof.
  intros Hm Hk He h HP. specialize (Hm h HP). unfold io_bind.
  destruct (m h) as [h' [a|e]]; simpl in Hm |- *; [by apply Hk|by apply He].
Qed.

Lemma triple_ret {A} (a : A) (P : view_state -> Prop) (Q : res A -> view_state -> Prop) :
  (forall v, P v -> Q (Ok a) v) -> triple P (io_ret a) Q.
Proof. intros HQ h HP. by apply HQ. Qed.

Lemma triple_must ctx cmd (P : view_state -> Prop) (Q : res unit -> view_state -> Prop) :
  (forall v, P v -> Q (Ok tt) (view_step v (cmd, None))) ->
  (forall v e e', P v -> Q (Err e) (view_step v (cmd, Some e'))) -> triple P (must net ctx cmd) Q.
Proof.
  intros Hok He h HP. unfold must, ask, io_bind. simpl. rewrite view_snoc.
  destruct (net h cmd); [by eapply He|by apply Hok].
Qed.

Lemma triple_attempt cmd (P : view_state -> Prop) (Q : res unit -> view_state -> Prop) :
  (forall v a, P v -> Q (Ok tt) (view_step v (cmd, a))) -> triple P (attempt net cmd) Q.
Proof. intros HQ h HP. unfold attempt, ask, io_bind, io_ret. simpl. rewrite view_snoc. by apply HQ. Qed.

Lemma triple_offered ext (P : view_state -> Prop) (Q : res bool -> view_state -> Prop) :
  (forall v b a, P v -> Q (Ok b) (view_step v (Extension ext, a))) -> triple P (offered net ext) Q.
Proof.
  intros HQ h HP. unfold offered, ask, io_bind, io_ret. simpl. rewrite view_snoc.
  by destruct (net h (Extension ext)); apply HQ.
Qed.

Lemma triple_weaken {A} (P P' : view_state -> Prop) (m : io A) Q Q' :
  triple P' m Q' -> (forall v, P v -> P' v) -> (forall r v, Q' r v -> Q r v) -> triple P m Q.
Proof. intros Hm HP HQ h Hh. by apply HQ, Hm, HP. Qed.

(** The dialog [at_] a point, with nothing more accepted than [acc]; [w] says
    whether a message is written. *)
Definition at_ (acc : list accepted_mail) (cur : accepted_mail) (w : bool) (v : view_state) : Prop := v = View cur w acc.
Definition no_more (acc : list accepted_mail) (v : view_state) : Prop := vw_accepted v = acc.
Definition then_at {A} acc cur w (r : res A) (v : view_state) : Prop :=
  match r with Ok _ => at_ acc cur w v | Err _ => no_more acc v end.

(** A failed command changes nothing in the view. *)
Lemma refused_step v cmd e : view_step v (cmd, Some e) = v.
Proof. destruct v as [[a f t m] w acc]. by destruct cmd. Qed.

Lemma seq_at {A} acc cur cur' w w' (m : io unit) (k : io A) Q :
  triple (at_ acc cur w) m (then_at acc cur' w') -> triple (at_ acc cur' w') k Q ->
  (forall e v, no_more acc v -> Q (Err e) v) -> triple (at_ acc cur w) (m ;;; k) Q.
Proof. intros Hm Hk HQ. eapply triple_bind; [exact Hm|by intros ?|exact HQ]. Qed.

Lemma must_at ctx cmd acc cur cur' w w' :
  view_step (View cur w acc) (cmd, None) = View cur' w' acc ->
  triple (at_ acc cur w) (must net ctx cmd) (then_at acc cur' w').
Proof.
  intros Hs. apply triple_must.
  - by intros v ->.
  - intros v e e' ->. by rewrite refused_step.
Qed.

(** The data: written to the end, or closed after a failed write, which is no
    complete message. *)
Lemma write_at message acc a f t m :
  triple (at_ acc (Accepted a f t m) false) (must_or net "failed to write message" (DataWrite message) DataEnd)
    (then_at acc (Accepted a f t message) true).
Proof.
  intros h Hv. unfold at_, then_at, no_more in *. unfold must_or, ask, io_bind, io_ret. simpl.
  destruct (net h (DataWrite message)) as [e|]; simpl; rewrite !view_snoc, Hv; simpl.
  - by destruct (net _ DataEnd).
  - done.
Qed.

Lemma rcpts_at to acc a f t m w :
  triple (at_ acc (Accepted a f t m) w) (rcpts net to) (then_at acc (Accepted a f (t ++ to) m) w).
Proof.
  revert t. induction to as [|r to IH]; intros t; simpl.
  - apply triple_ret. intros v ->. by rewrite app_nil_r.
  - eapply seq_at; [by apply must_at| |by intros].
    specialize (IH (t ++ [r])). by rewrite <- app_assoc in IH.
Qed.

(** A transaction is accepted exactly when it succeeds. *)
Definition taken {A} (acc : list accepted_mail) (x : accepted_mail) (r : res A) (v : view_state) : Prop :=
  vw_accepted v = match r with Ok _ => acc ++ [x] | Err _ => acc end.

Lemma transaction_taken from to message acc a f t m w :
  triple (at_ acc (Accepted a f t m) w) (transaction net from to message)
    (taken acc (Accepted a from to message)).
Proof.
  unfold transaction.
  eapply seq_at; [by apply must_at| |by intros].
  eapply seq_at; [apply (rcpts_at to acc a from [] m)| |by intros].
  eapply seq_at; [by apply must_at| |by intros].
  eapply seq_at; [apply write_at| |by intros].
  eapply triple_bind; [|intros ?; apply triple_attempt|].
  - apply (triple_must _ _ _ (taken acc (Accepted a from to message))).
    + by intros v ->.
    + intros v e e' ->. done.
  - intros v x Hv. by destruct v as [[] ? ?].
  - done.
Qed.

Lemma keep_must ctx cmd acc cur w :
  view_step (View cur w acc) (cmd, None) = View cur w acc ->
  triple (at_ acc cur w) (must net ctx cmd) (then_at acc cur w).
Proof. apply must_at. Qed.

Lemma keep_when b (m : io unit) acc cur w :
  triple (at_ acc cur w) m (then_at acc cur w) -> triple (at_ acc cur w) (io_when b m) (then_at acc cur w).
Proof. intros Hm. destruct b; [exact Hm|]. apply triple_ret. by intros v ->. Qed.

Lemma keep_offered ext (k : bool -> io unit) acc cur w :
  (forall b, triple (at_ acc cur w) (k b) (then_at acc cur w)) ->
  triple (at_ acc cur w) (io_bind (offered net ext) k) (then_at acc cur w).
Proof.
  intros Hk. apply (triple_bind _ _ _ (fun r => at_ acc cur w)); [|intros b; apply Hk|].
  - apply triple_offered. intros v b a ->. by destruct cur, a.
  - by intros e v ->.
Qed.

Lemma connect_at ctx addr acc :
  triple (no_more acc) (must net ctx (Connect addr)) (then_at acc (Accepted addr "" [] "") false).
Proof.
  apply triple_must.
  - intros [[] ? ?] <-. done.
  - intros v e e' Hv. by rewrite refused_step.
Qed.

Lemma connected {A} ctx addr acc (k : io A) Q :
  triple (at_ acc (Accepted addr "" [] "") false) k Q -> (forall e v, no_more acc v -> Q (Err e) v) ->
  triple (no_more acc) (must net ctx (Connect addr) ;;; k) Q.
Proof. intros Hk HQ. eapply triple_bind; [apply connect_at|by intros ?|exact HQ]. Qed.

Lemma host_taken c addr from to message acc :
  triple (no_more acc) (send_to_host net c addr from to message) (taken acc (Accepted addr from to message)).
Proof.
  unfold send_to_host. apply connected; [|by intros].
  eapply seq_at; [by apply keep_must| |by intros].
  eapply seq_at; [by apply keep_must| |by intros].
  eapply seq_at; [|apply transaction_taken|by intros].
  apply keep_offered. intros b. apply keep_when, triple_attempt. intros v a ->. by destruct a.
Qed.

Lemma relay_taken c from to message acc :
  triple (no_more acc) (send_via_smtp net c from to message)
    (taken acc (Accepted (host c +:+ ":" +:+ pretty (port c)) from to message)).
Proof.
  unfold send_via_smtp. apply connected; [|by intros].
  eapply seq_at; [by apply keep_must| |by intros].
  eapply seq_at; [by apply keep_must| |by intros].
  eapply seq_at; [apply keep_when, keep_offered; intros b; by apply keep_when, keep_must| |by intros].
  eapply seq_at; [by apply keep_when, keep_must|apply transaction_taken|by intros].
Qed.

(** ** Trying hosts *)

Lemma try_hosts_accepted c hosts from to message last h :
  let '(h', last') := try_hosts net c hosts from to message last h in
  (exists x, x ∈ hosts /\ accepted h' = accepted h ++ [Accepted (x +:+ ":25") from to message]) \/
  (accepted h' = accepted h /\ (hosts <> [] -> last' <> None) /\ (last <> None -> last' <> None)).
Proof.
  revert last h. induction hosts as [|x hosts IH]; intros last h; simpl; [by right|].
  pose proof (host_taken c (x +:+ ":25") from to message (accepted h) h eq_refl) as Ht.
  destruct (send_to_host net c (x +:+ ":25") from to message h) as [h1 [[]|e]]; simpl in Ht; unfold taken in Ht.
  - left. exists x. split; [by left|done].
  - specialize (IH (Some e) h1). destruct (try_hosts _ _ _ _ _ _ _ _) as [h2 last2].
    unfold accepted in *. rewrite Ht in IH.
    destruct IH as [(y & Hy & Ha)|(Ha & _ & Hl)].
    + left. exists y. split; [by right|done].
    + right. split; [done|]. split; intros _; by apply Hl.
Qed.

(** An error that was noted stays. *)
Lemma try_hosts_last c hosts from to message e h :
  (try_hosts net c hosts from to message (Some e) h).2 <> None.
Proof.
  revert e h. induction hosts as [|x hosts IH]; intros e h; simpl; [done|].
  destruct (send_to_host _ _ _ _ _ _ h) as [h1 [[]|e']]; [done|apply IH].
Qed.

(** ** Direct delivery *)

Context (lookup_mx : string -> mx_answer) (lookup_host : string -> res (list string)).
Context (walk : gmap string (list string) -> list (string * list string)).
Context (walk_all : forall m, walk m ≡ₚ map_to_list m).
Context (c : smtp_config) (now : Z).

(** A resolver answers at least one host: its cache holds no empty entry. *)
Definition cache_ok (mx : mx_cache) : Prop := map_Forall (fun _ e => me_records e <> []) mx.

Lemma hosts_nonempty l : l <> [] -> mx_records_to_hosts l <> [].
Proof.
  intros Hl E. apply map_eq_nil in E. apply Hl. apply Permutation_nil_r.
  rewrite <- E. symmetry. apply merge_sort_Permutation.
Qed.

(** A host that takes the mail of [d], as DNS says: one of its MX records, by
    lookup or still in the cache, or the domain itself where it has none. *)
Inductive mx_host_of (mx0 : mx_cache) (d host : string) : Prop :=
| ByRecord l r : lookup_mx (to_lower (trim_space d)) = MXRecords l -> r ∈ l -> host = trim_dot (mx_host r) ->
    mx_host_of mx0 d host
| ByCache e r : mx0 !! to_lower (trim_space d) = Some e -> now < me_expires_at e -> r ∈ me_records e ->
    host = trim_dot (mx_host r) -> mx_host_of mx0 d host
| ByDomain : lookup_mx (to_lower (trim_space d)) = MXRecords [] -> host = to_lower (trim_space d) ->
    mx_host_of mx0 d host
| ByAddress a l : lookup_mx (to_lower (trim_space d)) = MXNotFound ->
    lookup_host (to_lower (trim_space d)) = Ok (a :: l) -> host = to_lower (trim_space d) -> mx_host_of mx0 d host.

(** Every entry of the cache was there before or is DNS's answer. *)
Definition sourced (mx0 mx : mx_cache) : Prop :=
  map_Forall (fun dom e => mx0 !! dom = Some e \/ lookup_mx dom = MXRecords (me_records e)) mx.

Lemma in_hosts x l : x ∈ mx_records_to_hosts l -> exists r, r ∈ l /\ x = trim_dot (mx_host r).
Proof.
  intros (r & -> & Hr)%list_elem_of_fmap. exists r. split; [|done]. by rewrite merge_sort_Permutation in Hr.
Qed.

Lemma resolve_hosts mx0 d mx :
  cache_ok mx -> sourced mx0 mx ->
  let '(mx', r) := resolve lookup_mx lookup_host now d mx in
  cache_ok mx' /\ sourced mx0 mx' /\
  match r with Ok hosts => hosts <> [] /\ forall x, x ∈ hosts -> mx_host_of mx0 d x | Err _ => True end.
Proof.
  intros Hc Hs. unfold resolve. set (dom := to_lower (trim_space d)).
  destruct (String.eqb dom ""); [done|].
  assert (let '(mx', r) := match lookup_mx dom with
    | MXRecords [] => (mx, Ok [dom])
    | MXRecords ((_ :: _) as l) => (<[dom:=MXCacheEntry l (now + mx_cache_ttl)]> mx, Ok (mx_records_to_hosts l))
    | MXNotFound => match lookup_host dom with
        | Ok [] => (mx, Err (Wrapped ("failed to resolve MX for " +:+ dom) (Sentinel "%!w(<nil>)")))
        | Ok (_ :: _) => (mx, Ok [dom])
        | Err e => (mx, Err (Wrapped ("failed to resolve MX for " +:+ dom) e)) end
    | MXError e => (mx, Err (Wrapped ("failed to resolve MX for " +:+ dom) e)) end in
    cache_ok mx' /\ sourced mx0 mx' /\
    match r with Ok hosts => hosts <> [] /\ forall x, x ∈ hosts -> mx_host_of mx0 d x | Err _ => True end) as Hf.
  { destruct (lookup_mx dom) as [[|x l]| |e] eqn:El; [| | |done].
    - split; [done|]. split; [done|]. split; [done|]. intros x ->%list_elem_of_singleton. by apply ByDomain.
    - split; [apply map_Forall_insert_2; [done|exact Hc]|].
      split; [apply map_Forall_insert_2; [by right|exact Hs]|]. split; [by apply hosts_nonempty|].
      intros y (r & Hr & ->)%in_hosts. by eapply ByRecord.
    - destruct (lookup_host dom) as [[|a l]|] eqn:Eh; try done. split; [done|]. split; [done|]. split; [done|].
      intros x ->%list_elem_of_singleton. by eapply ByAddress. }
  destruct (mx !! dom) as [e|] eqn:Ee; [|exact Hf].
  destruct (Z.ltb_spec now (me_expires_at e)) as [Hlt|]; [|exact Hf].
  split; [done|]. split; [done|]. split; [apply hosts_nonempty; exact (Hc _ _ Ee)|].
  intros x (r & Hr & ->)%in_hosts. destruct (Hs _ _ Ee) as [H0|Hl]; [by eapply ByCache|by eapply ByRecord].
Qed.

(** The port of SMTP at a host that takes the mail of [d]. *)
Definition mx_address (mx0 : mx_cache) (d addr : string) : Prop :=
  exists host, addr = host +:+ ":25" /\ mx_host_of mx0 d host.

(** Entries of [l] in order, some left out, each handed over at an address of
    its domain. *)
Inductive handed (mx0 : mx_cache) (from message : string) : list (string * list string) -> list accepted_mail -> Prop :=
| handed_nil : handed mx0 from message [] []
| handed_skip d to l acc : handed mx0 from message l acc -> handed mx0 from message ((d, to) :: l) acc
| handed_take d to l acc addr :
    mx_address mx0 d addr -> handed mx0 from message l acc ->
    handed mx0 from message ((d, to) :: l) (Accepted addr from to message :: acc).

Lemma direct_domains_handed mx0 l from message last s :
  cache_ok (ns_mx s) -> sourced mx0 (ns_mx s) ->
  let '(s', last') := direct_domains net lookup_mx lookup_host c now l from message last s in
  exists acc, accepted (ns_log s') = accepted (ns_log s) ++ acc /\ handed mx0 from message l acc /\
    (last <> None -> last' <> None) /\ (last' = None -> map ac_to acc = map snd l).
Proof.
  revert last s. induction l as [|[d to] l IH]; intros last s Hc Hs; simpl.
  { exists []. rewrite app_nil_r. repeat split; [constructor|done]. }
  pose proof (resolve_hosts mx0 d (ns_mx s) Hc Hs) as Hres.
  destruct (resolve lookup_mx lookup_host now d (ns_mx s)) as [mx [hosts|e]] eqn:Er;
    destruct Hres as (Hc' & Hs' & Hhosts).
  - destruct Hhosts as [Hne0 Hof].
    pose proof (try_hosts_accepted c hosts from to message last (ns_log s)) as Ht.
    pose proof (fun e => try_hosts_last c hosts from to message e (ns_log s)) as Hkeep.
    destruct (try_hosts net c hosts from to message last (ns_log s)) as [h last1] eqn:Eh.
    specialize (IH last1 (NetState h mx) Hc' Hs'). destruct (direct_domains _ _ _ _ _ _ _ _ _ _) as [s' last'].
    destruct IH as (acc & Ha & Hh & Hl & Hm). simpl in Ha.
    destruct Ht as [(x & Hin & Hx)|(Hx & Hne & Hl1)]; rewrite Hx in Ha.
    + exists (Accepted (x +:+ ":25") from to message :: acc). rewrite Ha, <- app_assoc.
      split; [done|]. split; [constructor; [exists x; auto|done]|]. split.
      * intros Hn. destruct last as [e|]; [|done]. apply Hl. specialize (Hkeep e). by rewrite Eh in Hkeep.
      * intros Hn. simpl. by rewrite Hm.
    + exists acc. split; [done|]. split; [by constructor|]. split; [by auto|].
      intros Hn. exfalso. apply Hl; [by apply Hne|done].
  - specialize (IH (Some e) (NetState (ns_log s) mx) Hc' Hs'). destruct (direct_domains _ _ _ _ _ _ _ _ _ _) as [s' last'].
    destruct IH as (acc & Ha & Hh & Hl & Hm). simpl in Ha.
    exists acc. split; [done|]. split; [by constructor|]. split; [by auto|].
    intros Hn. exfalso. by apply Hl.
Qed.

Definition well_formed (a : string) : bool := match recipient_domain a with Some _ => true | None => false end.

Lemma by_domain_snoc to a :
  by_domain (to ++ [a]) = match recipient_domain a with
                          | Some d => <[d := default [] (by_domain to !! d) ++ [a]]> (by_domain to)
                          | None => by_domain to
                          end.
Proof. unfold by_domain. by rewrite fold_left_app. Qed.

Lemma by_domain_all to :
  List.concat (map snd (map_to_list (by_domain to))) ≡ₚ List.filter well_formed to.
Proof.
  induction to as [|a to IH] using rev_ind; [done|].
  rewrite by_domain_snoc, List.filter_app. simpl. unfold well_formed at 2.
  destruct (recipient_domain a) as [d|]; [|by rewrite app_nil_r].
  rewrite <- IH. destruct (by_domain to !! d) as [old|] eqn:Eo; simpl.
  - rewrite <- insert_delete_eq, map_to_list_insert by apply lookup_delete_eq.
    rewrite <- (map_to_list_delete (by_domain to) d old) by done. simpl.
    rewrite <- !app_assoc. f_equiv. apply Permutation_app_comm.
  - rewrite map_to_list_insert by done. simpl. apply Permutation_cons_append.
Qed.

(** Recipients are grouped by their domain. *)
Lemma by_domain_domain to d l a : by_domain to !! d = Some l -> a ∈ l -> recipient_domain a = Some d.
Proof.
  revert d l. induction to as [|b to IH] using rev_ind; intros d l.
  { change (by_domain []) with (∅ : gmap string (list string)). by rewrite lookup_empty. }
  rewrite by_domain_snoc. destruct (recipient_domain b) as [d'|] eqn:Eb; [|by apply IH].
  rewrite lookup_insert. case_decide as Hd; [|by apply IH]. subst d'. intros [= <-].
  rewrite elem_of_app, list_elem_of_singleton. intros [Ha| ->]; [|done].
  destruct (by_domain to !! d) as [old|] eqn:Eo; [by eapply IH|by apply not_elem_of_nil in Ha].
Qed.

(** Handed over at a host of the domain that every recipient is of. *)
Definition at_own_host (mx0 : mx_cache) (x : accepted_mail) : Prop :=
  exists d, mx_address mx0 d (ac_addr x) /\ Forall (fun a => recipient_domain a = Some d) (ac_to x).

Lemma handed_some mx0 from message l acc :
  (forall d to a, (d, to) ∈ l -> a ∈ to -> recipient_domain a = Some d) ->
  handed mx0 from message l acc ->
  Forall (fun x => ac_from x = from /\ ac_message x = message /\ at_own_host mx0 x) acc /\
  List.concat (map ac_to acc) ⊆+ List.concat (map snd l).
Proof.
  intros Hl. induction 1 as [|d to l acc _ IH|d to l acc addr Hm _ IH]; simpl; [done| |];
    (destruct IH as [IHf IHs]; [intros d' to' a Hin; apply (Hl d' to'); by right|]).
  - split; [done|]. by apply submseteq_inserts_l.
  - split; [|by apply submseteq_app]. constructor; [|done]. split; [done|]. split; [done|].
    exists d. split; [done|]. apply Forall_forall. intros a Ha. apply (Hl d to); [by left|done].
Qed.

(** C26. Direct delivery hands no recipient the message twice: the complete
    messages that servers acknowledge, each under the sender and with the
    message given, are for distinct occurrences among the recipients that have
    exactly one @; each was handed over on port 25 of a host that DNS names for
    the domain of its recipients (by MX record, looked up or cached, or the
    domain itself where there is none); and when no error is reported, all of
    those recipients have been served, once each.  (A server that took the
    message and whose acknowledgement was lost counts as not having accepted
    it.) *)
Theorem direct_delivers_once from to message s (Hmx : cache_ok (ns_mx s)) :
  let '(s', failed) := send_direct net lookup_mx lookup_host walk c now from to message s in
  exists acc, accepted (ns_log s') = accepted (ns_log s) ++ acc /\
    Forall (fun x => ac_from x = from /\ ac_message x = message /\ at_own_host (ns_mx s) x) acc /\
    List.concat (map ac_to acc) ⊆+ List.filter well_formed to /\
    (failed = None -> List.concat (map ac_to acc) ≡ₚ List.filter well_formed to).
Proof.
  unfold send_direct.
  assert (sourced (ns_mx s) (ns_mx s)) as Hs by (intros dom e He; by left).
  pose proof (direct_domains_handed (ns_mx s) (walk (by_domain to)) from message None s Hmx Hs) as Hd.
  destruct (direct_domains _ _ _ _ _ _ _ _ _ _) as [s' failed].
  destruct Hd as (acc & Ha & Hh & _ & Hall). apply handed_some in Hh as [Hf Hsub].
  2: { intros d l a Hin. rewrite walk_all in Hin. apply elem_of_map_to_list in Hin. by eapply by_domain_domain. }
  assert (List.concat (map snd (walk (by_domain to))) ≡ₚ List.filter well_formed to) as Hw.
  { by rewrite walk_all, by_domain_all. }
  exists acc. split; [done|]. split; [done|]. rewrite <- Hw. split; [done|].
  intros Hn. by rewrite <- flat_map_concat_map, (flat_map_concat_map ac_to), Hall.
Qed.

(** ** When every command but those of one address is answered *)

Definition succeeds {A} (m : io A) : Prop := forall h, exists h' a, m h = (h', Ok a).

Lemma succeeds_seq {A B} (m : io A) (k : A -> io B) :
  succeeds m -> (forall a, succeeds (k a)) -> succeeds (io_bind m k).
Proof.
  intros Hm Hk h. destruct (Hm h) as (h1 & a & E). destruct (Hk a h1) as (h2 & b & E').
  exists h2, b. unfold io_bind. by rewrite E.
Qed.

Lemma succeeds_must ctx cmd : (forall h, net h cmd = None) -> succeeds (must net ctx cmd).
Proof. intros Hn h. unfold must, ask, io_bind. rewrite Hn. eauto. Qed.

Lemma succeeds_must_or ctx cmd cleanup : (forall h, net h cmd = None) -> succeeds (must_or net ctx cmd cleanup).
Proof. intros Hn h. unfold must_or, ask, io_bind, io_ret. rewrite Hn. eauto. Qed.

Lemma succeeds_ret {A} (a : A) : succeeds (io_ret a).
Proof. intros h. unfold io_ret. eauto. Qed.

Lemma succeeds_attempt cmd : succeeds (attempt net cmd).
Proof. intros h. unfold attempt, ask, io_bind, io_ret. eauto. Qed.

Lemma succeeds_offered ext : succeeds (offered net ext).
Proof. intros h. unfold offered, ask, io_bind, io_ret. eauto. Qed.

Lemma succeeds_rcpts to : (forall h cmd, (forall a, cmd <> Connect a) -> net h cmd = None) -> succeeds (rcpts net to).
Proof.
  intros Hn. induction to as [|r to IH]; simpl; [apply succeeds_ret|].
  apply succeeds_seq; [by apply succeeds_must; intros h; apply Hn|by intros _].
Qed.

Lemma succeeds_host addr from to message :
  (forall h, net h (Connect addr) = None) ->
  (forall h cmd, (forall a, cmd <> Connect a) -> net h cmd = None) ->
  succeeds (send_to_host net c addr from to message).
Proof.
  intros Ha Hn. unfold send_to_host, transaction, io_when.
  repeat first [ apply succeeds_must_or; intros ?; by apply Hn
               | apply succeeds_must; intros ?; first [by apply Ha | by apply Hn]
               | by apply succeeds_rcpts | apply succeeds_attempt | apply succeeds_offered | apply succeeds_ret
               | apply succeeds_seq; [|intros ?]
               | match goal with |- succeeds (if ?b then _ else _) => destruct b end ].
Qed.

(** A delivery that succeeds at the second MX host is reported as failed: when
    the recipient's first host refuses the connection and the next one accepts
    the message, the message has been delivered and [sendDirect] still returns
    the first host's error, which [Send] reports for every recipient. *)
Theorem recovered_delivery_reported_failed from addr d message s h1 h2 rest mx e
    (Hdom : recipient_domain addr = Some d)
    (Hmx : resolve lookup_mx lookup_host now d (ns_mx s) = (mx, Ok (h1 :: h2 :: rest)))
    (Hdown : forall h, net h (Connect (h1 +:+ ":25")) = Some e)
    (Hup : forall h cmd, cmd <> Connect (h1 +:+ ":25") -> net h cmd = None) (Hdiff : h1 <> h2) :
  let '(s', failed) := send_direct net lookup_mx lookup_host walk c now from [addr] message s in
  failed = Some (Wrapped "failed to connect" e) /\
  accepted (ns_log s') = accepted (ns_log s) ++ [Accepted (h2 +:+ ":25") from [addr] message].
Proof.
  assert (walk (by_domain [addr]) = [(d, [addr])]) as Hw.
  { apply Permutation_singleton_r. rewrite walk_all. unfold by_domain. simpl. rewrite Hdom.
    by rewrite map_to_list_insert. }
  assert (h2 +:+ ":25" <> h1 +:+ ":25") as Haddr.
  { intros E. apply (sep_inj ":") in E as [E _]; [|done..]. by subst. }
  unfold send_direct. rewrite Hw. simpl. rewrite Hmx. simpl.
  assert (send_to_host net c (h1 +:+ ":25") from [addr] message (ns_log s)
          = (ns_log s ++ [(Connect (h1 +:+ ":25"), Some e)], Err (Wrapped "failed to connect" e))) as ->.
  { unfold send_to_host, must, ask, io_bind. simpl. by rewrite Hdown. }
  set (h := ns_log s ++ _).
  pose proof (host_taken c (h2 +:+ ":25") from [addr] message (accepted h) h eq_refl) as Ht.
  destruct (succeeds_host (h2 +:+ ":25") from [addr] message) with (h := h) as (h' & [] & E).
  { intros h0. apply Hup. congruence. } { intros h0 cmd Hc. apply Hup, Hc. }
  rewrite E in Ht |- *. unfold taken in Ht. simpl in Ht |- *. split; [done|].
  unfold accepted in *. rewrite Ht. unfold h. rewrite view_snoc. by rewrite refused_step.
Qed.

End dialogs.

(** ** DKIM *)

(** A DKIM signature joins the header block and leaves the message as it was:
    the signed message reads back as the signature's lines followed by the
    message's own header lines and content, whether or not the library's
    signature already ended its line. *)
Theorem dkim_keeps_message (k : dkim_signer) raw sig l ls n lines content
    (Hsig : dk_signature k raw = Ok sig)
    (Hlines : trim_right newline_char sig = join CRLF (l :: ls))
    (Hsingle : Forall (fun x => single_line x = true) (l :: ls)) (Hfull : Forall (fun x => x <> "") ls)
    (Hread : read_header n raw = Some (lines, content)) :
  exists signed, dkim_sign k raw = Ok signed /\
    read_header (S (length ls) + n) signed = Some (("DKIM-Signature: " +:+ l) :: ls ++ lines, content).
Proof.
  unfold dkim_sign. rewrite Hsig. simpl. rewrite Hlines. eexists. split; [done|].
  apply Forall_cons in Hsingle as [Hl Hls].
  assert (forall x rest r, single_line x = true -> x <> "" -> forall m,
    read_header m rest = Some r -> read_header (S m) (x +:+ CRLF +:+ rest) = Some (x :: r.1, r.2)) as Hone.
  { intros x rest r Hx Hne m Hr. cbn [read_header]. rewrite cut_line_app by done.
    by rewrite (proj2 (String.eqb_neq _ _) Hne), Hr. }
  assert (forall x, single_line x = true -> x <> "" -> forall xs, Forall (fun x => single_line x = true) xs ->
    Forall (fun x => x <> "") xs ->
    read_header (S (length xs) + n) (join CRLF (x :: xs) +:+ CRLF +:+ raw) = Some (x :: xs ++ lines, content)) as Hall.
  { intros x Hx Hne xs Hxs. revert x Hx Hne. induction Hxs as [|y ys Hy Hys IH]; intros x Hx Hne Hf.
    - by apply (Hone x raw (lines, content)).
    - apply Forall_cons in Hf as [Hyn Hf]. rewrite join_cons, !app_assoc_str by done.
      change (S (length (y :: ys)) + n)%nat with (S (S (length ys) + n)).
      by apply (Hone x _ (y :: ys ++ lines, content)), IH. }
  assert (forall a xs b, join CRLF ((a +:+ b) :: xs) = a +:+ join CRLF (b :: xs)) as Hj.
  { intros a [|y ys] b; [done|]. rewrite !join_cons by done. by rewrite app_assoc_str. }
  assert (single_line ("DKIM-Signature: " +:+ l) = true) as Hd by by rewrite single_app, Hl.
  specialize (Hall _ Hd ltac:(done) ls Hls Hfull). by rewrite Hj, app_assoc_str in Hall.
Qed.

(** ** Samples *)

Definition sample_config : smtp_config :=
  SmtpConfig "relay" 587 "" "" true 0 "mail.cloistr.xyz" ModeDirect ["cloistr.xyz"].

Definition sample_mx (d : string) : mx_answer := MXRecords [MX "mx2." 20; MX "mx1." 10].
Definition no_hosts (d : string) : res (list string) := Ok [].
Definition refused : error := Sentinel "connection refused".

(** The first host is down. *)
Definition first_down (h : history) (cmd : command) : option error :=
  if bool_decide (cmd = Connect "mx1:25") then Some refused else None.

Lemma direct_delivers_once_witness :
  let '(s', failed) := send_direct (fun _ _ => None) sample_mx no_hosts map_to_list sample_config 0
     "a@cloistr.xyz" ["b@x.org"; "odd@a@b"; "c@y.org"; "d@x.org"] "hi" (NetState [] ∅) in
  exists acc, accepted (ns_log s') = acc /\ Forall (at_own_host sample_mx no_hosts 0 ∅) acc /\
    List.concat (map ac_to acc) ≡ₚ ["b@x.org"; "c@y.org"; "d@x.org"].
Proof.
  pose proof (direct_delivers_once (fun _ _ => None) sample_mx no_hosts map_to_list (fun m => Permutation_refl _)
    sample_config 0 "a@cloistr.xyz" ["b@x.org"; "odd@a@b"; "c@y.org"; "d@x.org"] "hi" (NetState [] ∅)
    (map_Forall_empty _)) as Hd.
  destruct (send_direct _ _ _ _ _ _ _ _ _ _) as [s' failed] eqn:E.
  destruct Hd as (acc & Ha & Hf & _ & Hall). exists acc. split; [exact Ha|]. split.
  - eapply Forall_impl; [exact Hf|]. by intros x (_ & _ & ?).
  - apply Hall. apply (f_equal snd) in E. vm_compute in E. by rewrite <- E.
Defined.

Lemma recovered_delivery_reported_failed_witness :
  let '(s', failed) := send_direct first_down sample_mx no_hosts map_to_list sample_config 0
     "a@cloistr.xyz" ["b@x.org"] "hi" (NetState [] ∅) in
  failed = Some (Wrapped "failed to connect" refused) /\
  accepted (ns_log s') = accepted [] ++ [Accepted ("mx2" +:+ ":25") "a@cloistr.xyz" ["b@x.org"] "hi"].
Proof.
  assert (exists mx, resolve sample_mx no_hosts 0 "x.org" ∅ = (mx, Ok ["mx1"; "mx2"])) as [mx Hmx].
  { eexists. vm_compute. reflexivity. }
  assert (forall h, first_down h (Connect ("mx1" +:+ ":25")) = Some refused) as Hdown by reflexivity.
  assert (forall h cmd, cmd <> Connect ("mx1" +:+ ":25") -> first_down h cmd = None) as Hup.
  { intros h cmd Hc. unfold first_down. by rewrite bool_decide_eq_false_2. }
  exact (recovered_delivery_reported_failed first_down sample_mx no_hosts map_to_list (fun m => Permutation_refl _)
    sample_config 0 "a@cloistr.xyz" "b@x.org" "x.org" "hi" (NetState [] ∅) "mx1" "mx2" [] mx refused
    eq_refl Hmx Hdown Hup ltac:(discriminate)).
Defined.

Definition sample_dkim : dkim_signer :=
  DKIMSigner "cloistr.xyz" "s1" (fun raw => Ok ("v=1; d=cloistr.xyz;" +:+ CRLF +:+ " b=abc" +:+ CRLF)).
Definition sample_raw : string := render [("From", "a@cloistr.xyz")] "hi".

Lemma dkim_keeps_message_witness :
  exists signed, dkim_sign sample_dkim sample_raw = Ok signed /\
    read_header 4 signed
    = Some (["DKIM-Signature: v=1; d=cloistr.xyz;"; " b=abc"; "From: a@cloistr.xyz"], "hi").
Proof.
  apply (dkim_keeps_message sample_dkim sample_raw ("v=1; d=cloistr.xyz;" +:+ CRLF +:+ " b=abc" +:+ CRLF)
    "v=1; d=cloistr.xyz;" [" b=abc"] 2 ["From: a@cloistr.xyz"] "hi").
  - reflexivity.
  - vm_compute. reflexivity.
  - repeat constructor.
  - repeat constructor; discriminate.
  - vm_compute. reflexivity.
Defined.
