(* ===== verification/Complaints.v ===== *)
(** * Feedback-loop complaints: internal/transport/fbl.go

    [read_message] is net/mail's parser, as in [Bounce]; the fields of a report
    are found by the same regular expression as those of a delivery report, and
    the last match is wanted here, so that [field_matches] lists them all.  The
    complaint table is a list of rows. *)

From S2P Require Import Prelude GoStrings Queue Bounce.
#[local] Open Scope Z_scope.

Record complaint_info := ComplaintInfo {
  ci_recipient : string;
  ci_message_id : string;
  ci_feedback_type : string;
  ci_reporting_mta : string;
  ci_received_at : Z;
  ci_sender_pubkey : string }.

Record complaint := Complaint { cp_info : complaint_info; cp_sender : option string }.

(** [^\s*Name\s*:]; what follows the colon. *)
Definition after_colon (name s : string) : option string :=
  rest ← strip_prefix_fold name (skip_space s);
  match skip_space rest with
  | String ":" v => Some v
  | _ => None
  end.

(** One match of [dsnFieldRe(name)] at the start of a line: the value, trimmed,
    and the text after it.  Where only white space is left, [.+] can still match
    one blank. *)
Definition field_match (name s : string) : option (string * string) :=
  w ← after_colon name s;
  let v := skip_space w in
  if String.eqb v "" then (if forall_chars (Ascii.eqb LF) w then None else Some ("", ""))
  else Some (trim_space (line_of v), drop_str (String.length (line_of v)) v).

(** [FindAllSubmatch]; every step consumes a byte, which bounds [fuel]. *)
Fixpoint field_matches_go (fuel : nat) (name : string) (at_start : bool) (s : string) : list string :=
  match fuel with
  | O => []
  | S k =>
      match (if at_start then field_match name s else None) with
      | Some (v, rest) => v :: field_matches_go k name false rest
      | None => match s with
                | "" => []
                | String c t => field_matches_go k name (Ascii.eqb c LF) t
                end
      end
  end.
Definition field_matches (name body : string) : list string :=
  field_matches_go (S (S (String.length body))) name true body.

Definition first_match (name body : string) : option string := head (field_matches name body).

(** [lastMatch]. *)
Definition last_match (name body : string) : string := default "" (last (field_matches name body)).

Section fbl.
Context (read_message : string -> option mail_message).

Definition is_complaint (data : string) : bool :=
  match read_message data with
  | None => false
  | Some m =>
      let ct := to_lower (header_get (header m) "Content-Type") in
      if contains ct "report-type=feedback-report" then true
      else if negb (contains ct "multipart/report") then false
      else
        let body := take_str max_dsn_body_scan (body m) in
        contains (to_lower body) "message/feedback-report" || is_some (first_match "Feedback-Type" body)
  end.

Definition parse_complaint (now : Z) (data : string) : res complaint_info :=
  match read_message data with
  | None => Err (Wrapped "failed to parse message" (Sentinel "malformed"))
  | Some m =>
      let body := take_str max_dsn_body_scan (body m) in
      Ok (ComplaintInfo
            (match first_match "Original-Rcpt-To" body with Some v => strip_address_type v | None => "" end)
            (last_match "Message-ID" body)
            (match first_match "Feedback-Type" body with Some v => to_lower (trim_space v) | None => "other" end)
            (match first_match "Reporting-MTA" body with Some v => strip_address_type v | None => "" end)
            now "")
  end.

Definition attribute_complaint (now : Z) (q : list queued_message) (c : complaint_info) : complaint_info :=
  ComplaintInfo (ci_recipient c) (ci_message_id c) (ci_feedback_type c) (ci_reporting_mta c) (ci_received_at c)
    (queue_sender_resolver now (ci_message_id c) (ci_recipient c) q).

(** The INSERT; [fault] is the driver's error for this call, and a missing table
    is no error. *)
Definition store_complaint (fault : option string) (c : complaint_info) (t : list complaint)
    : list complaint * option error :=
  match fault with
  | None => (t ++ [Complaint c (if String.eqb (ci_sender_pubkey c) "" then None else Some (ci_sender_pubkey c))], None)
  | Some e => (t, if contains e "does not exist" then None else Some (Sentinel e))
  end.

Definition process_complaint (now : Z) (q : list queued_message) (fault : option string) (data : string)
    (t : list complaint) : list complaint * option error :=
  match parse_complaint now data with
  | Err e => (t, Some (Wrapped "parse feedback report" e))
  | Ok c =>
      match store_complaint fault (attribute_complaint now q c) t with
      | (t', None) => (t', None)
      | (t', Some e) => (t', Some (Wrapped "store feedback report" e))
      end
  end.

End fbl.
