(* ===== verification/DkimVerify.v ===== *)
(** * DKIM verification of inbound mail: internal/transport/dkim_verify.go

    The go-msgauth library's answer for a message, one verification per
    signature or an error, is a parameter. *)

From S2P Require Import Prelude GoStrings.
#[local] Open Scope Z_scope.

Record dkim_signature_result := DkimSignatureResult {
  ds_domain : string; ds_selector : string; ds_valid : bool; ds_error : string;
  ds_headers_included : list string }.

Record dkim_result := DkimResult {
  dv_valid : bool; dv_signatures : list dkim_signature_result; dv_error : string }.

(** The library's [dkim.Verification]; [None] is a nil Err. *)
Record verification := Verification { vf_domain : string; vf_identifier : string; vf_err : option string }.

Definition extract_signed_headers (v : verification) : list string :=
  ["from"; "to"; "subject"; "date"; "message-id"].

Definition signature_result (v : verification) : dkim_signature_result :=
  DkimSignatureResult (vf_domain v) (vf_identifier v)
    (match vf_err v with None => true | Some _ => false end) (default "" (vf_err v))
    (extract_signed_headers v).

Section verifier.
Context (library : string -> string + list verification).

Definition verify_dkim (message : string) : dkim_result :=
  match library message with
  | inl e => DkimResult false [] ("DKIM verification failed: " +:+ e)
  | inr [] => DkimResult false [] "no DKIM signatures found"
  | inr vs => let sigs := map signature_result vs in DkimResult (existsb ds_valid sigs) sigs ""
  end.

Definition verify_required (message domain : string) : dkim_result :=
  let r := verify_dkim message in
  if negb (dv_valid r) then r
  else
    let domain := to_lower domain in
    if existsb (fun s => ds_valid s && String.eqb (to_lower (ds_domain s)) domain) (dv_signatures r) then r
    else DkimResult false (dv_signatures r) ("no valid signature from expected domain: " +:+ domain).

(** The loop over the required domains: it stops at the first that is valid, and
    keeps the last result. *)
Fixpoint verify_any (message : string) (domains : list string) (last : option dkim_result) : option dkim_result :=
  match domains with
  | [] => last
  | d :: rest =>
      let r := verify_required message d in
      if dv_valid r then Some r else verify_any message rest (Some r)
  end.

(** The middleware: the error it answers itself, or the result it passes on. *)
Definition dkim_middleware (require_valid : bool) (required_domains : list string) (data : string)
    : string + dkim_result :=
  let r := match required_domains with
           | [] => verify_dkim data
           | _ => default (DkimResult false [] "") (verify_any data required_domains None)
           end in
  if require_valid && negb (dv_valid r) then inl ("DKIM verification failed: " +:+ dv_error r) else inr r.

(** The library found a good signature of [d]. *)
Definition signed_by (message d : string) : Prop :=
  exists vs v, library message = inr vs /\ v ∈ vs /\ vf_err v = None /\ to_lower (vf_domain v) = to_lower d.

Lemma verify_dkim_valid message :
  dv_valid (verify_dkim message) = true <-> exists d, signed_by message d.
Proof.
  unfold verify_dkim, signed_by. destruct (library message) as [e|vs].
  { split; [done|]. by intros (? & ? & ? & ? & _). }
  trans (existsb ds_valid (map signature_result vs) = true); [by destruct vs|].
  rewrite existsb_exists. split.
  - intros (s & Hs & Hv). apply in_map_iff in Hs as (v & <- & Hin). simpl in Hv.
    exists (vf_domain v), vs, v. split; [done|]. split; [by apply list_elem_of_In|].
    by destruct (vf_err v).
  - intros (d & vs' & v & [= <-] & Hin & He & _). exists (signature_result v).
    split; [by apply in_map, list_elem_of_In|]. simpl. by rewrite He.
Qed.

Lemma verify_required_valid message d :
  dv_valid (verify_required message d) = true <-> signed_by message d.
Proof.
  unfold verify_required. destruct (dv_valid (verify_dkim message)) eqn:Ev; simpl.
  - unfold verify_dkim in *. unfold signed_by. destruct (library message) as [e|[|v0 vs]]; [done..|].
    set (sigs := map signature_result (v0 :: vs)) in *. cbv zeta in *. cbn [dv_signatures dv_valid] in *.
    destruct (existsb (fun s => ds_valid s && String.eqb (to_lower (ds_domain s)) (to_lower d)) sigs) eqn:Ex.
    + split; [intros _|done]. apply existsb_exists in Ex as (s & Hs & Hv). reflect_bools.
      apply in_map_iff in Hs as (v & <- & Hin). simpl in *. exists (v0 :: vs), v.
      split; [done|]. split; [by apply list_elem_of_In|]. by destruct (vf_err v).
    + split; [done|]. intros (vs' & v & [= <-] & Hin & He & Hd). apply not_true_iff_false in Ex. destruct Ex.
      apply existsb_exists. exists (signature_result v). split; [by apply in_map, list_elem_of_In|].
      simpl. rewrite He, Hd. by apply String.eqb_refl.
  - rewrite Ev. split; [done|]. intros Hs. apply not_true_iff_false in Ev. destruct Ev.
    apply verify_dkim_valid. by exists d.
Qed.

Lemma verify_any_valid message domains last :
  (forall r, last = Some r -> dv_valid r = false) ->
  (exists r, verify_any message domains last = Some r /\ dv_valid r = true) <->
  Exists (signed_by message) domains.
Proof.
  revert last. induction domains as [|d rest IH]; intros last Hl; simpl.
  - rewrite Exists_nil. split; [|done]. intros (r & Hr & Hv). rewrite (Hl _ Hr) in Hv. done.
  - rewrite Exists_cons. destruct (dv_valid (verify_required message d)) eqn:Ev.
    + split; [intros _; left; by apply verify_required_valid|]. eauto.
    + rewrite IH by by intros r [= <-]. split; [by right|]. intros [Hs|Hs]; [|done].
      apply verify_required_valid in Hs. congruence.
Qed.

(** A required DKIM signature is required: with [RequireValid] the wrapped
    handler sees a message exactly when one of its signatures verifies, and one
    of a required domain where domains are required (compared without case). *)
Theorem required_signature_is_checked (domains : list string) (data : string) :
  (exists r, dkim_middleware true domains data = inr r) <->
  match domains with
  | [] => exists d, signed_by data d
  | _ => Exists (signed_by data) domains
  end.
Proof.
  unfold dkim_middleware. simpl. destruct domains as [|d rest].
  - rewrite <- verify_dkim_valid. destruct (dv_valid (verify_dkim data)); simpl; split; try done; [by eexists|by intros []].
  - rewrite <- (verify_any_valid data (d :: rest) None) by done.
    destruct (verify_any data (d :: rest) None) as [r|]; simpl.
    + destruct (dv_valid r) eqn:Ev; simpl; split; intros Hx; eauto; [by destruct Hx|].
      destruct Hx as (r' & [= ->] & Hv). congruence.
    + split; [by intros []|by intros (r & ? & _)].
Qed.

End verifier.
