(* ===== verification/Session.v ===== *)
(** * Inbound SMTP sessions: internal/transport/inbound.go

    A session is the record of the go-smtp callbacks.  The server's components
    are composed as Data composes them: the connection limiter of [ConnLimiter],
    the complaint handler of [Complaints], the bounce handler of [Bounce], the
    DKIM verifier of [DkimVerify] and the message handler.  net/mail's address
    parser, the SPF check (an instance is [Spf.check]) and the handler are
    parameters.  The order of commands is the client's. *)

From S2P Require Import Prelude GoStrings GoNet ConnLimiter Spf Queue Bounce Complaints DkimVerify.
#[local] Open Scope Z_scope.

(** ** Configuration *)

Record server_config := ServerConfig {
  sc_listen_addr : string; sc_domain : string; sc_allowed_domains : list string;
  sc_max_message_size : Z; sc_max_recipients : Z; sc_read_timeout : Z; sc_write_timeout : Z;
  sc_require_tls : bool; sc_tls_cert_file : string; sc_tls_key_file : string; sc_enable_spf : bool; sc_spf_fail_action : string;
  sc_enable_dkim : bool; sc_dkim_fail_action : string }.

Definition default_server_config : server_config :=
  ServerConfig ":25" "localhost" [] (25 * 1024 * 1024) 100 (60 * second) (60 * second) false "" "" false "" false "".

Definition positive_or (z d : Z) : Z := if z <=? 0 then d else z.
Definition nonempty_or (s d : string) : string := if String.eqb s "" then d else s.

Definition with_defaults (config : option server_config) : server_config :=
  let d := default_server_config in
  match config with
  | None => d
  | Some c => ServerConfig (nonempty_or (sc_listen_addr c) (sc_listen_addr d)) (nonempty_or (sc_domain c) (sc_domain d))
      (sc_allowed_domains c) (positive_or (sc_max_message_size c) (sc_max_message_size d))
      (positive_or (sc_max_recipients c) (sc_max_recipients d))
      (positive_or (sc_read_timeout c) (sc_read_timeout d)) (positive_or (sc_write_timeout c) (sc_write_timeout d))
      (sc_require_tls c) (sc_tls_cert_file c) (sc_tls_key_file c)
      (sc_enable_spf c) (sc_spf_fail_action c) (sc_enable_dkim c) (sc_dkim_fail_action c)
  end.

(** ** Starting and stopping

    [load_cert] reads the key pair; [serve] is what ListenAndServe answers when
    it returns, [true] for the TLS listener. *)

Definition start (load_cert : option error) (serve : bool -> option error) (c : server_config) (running : bool)
    : bool * option error :=
  if running then (running, Some (Sentinel "server already running"))
  else if negb (String.eqb (sc_tls_cert_file c) "") && negb (String.eqb (sc_tls_key_file c) "") then
    match load_cert with
    | Some e => (true, Some (Wrapped "failed to load TLS certificate" e))
    | None => (true, serve true)
    end
  else (true, serve false).

Definition stop (close : option error) (running : bool) : bool * option error :=
  if running then (false, close) else (running, None).

(** ** Replies *)

Record smtp_error := SMTPError { se_code : Z; se_enhanced : Z * Z * Z; se_message : string }.

(** What a message handler may answer: [NewPermanentError] or a plain error. *)
Inductive handler_error := PermanentError (e : error) | PlainError (e : error).
Definition is_permanent_error (e : handler_error) : bool :=
  match e with PermanentError _ => true | PlainError _ => false end.

(** ** Addresses *)

Fixpoint last_bracket (addr : string) : option string :=
  match addr with
  | "" => None
  | String c t =>
      match last_bracket t with
      | Some u => Some (String c u)
      | None => if has_prefix addr "]:" then Some "" else None
      end
  end.

Definition extract_ip (addr : string) : string :=
  match last_bracket addr with
  | Some before =>
      let s := before +:+ "]" in
      if has_prefix s "[" then drop_str 1 s else s
  | None => match cut_last ":" addr with Some (before, _) => before | None => addr end
  end.

Definition simple_validate_recipient (allowed : list string) (address : string) : option error :=
  match split "@" address with
  | [_; d] =>
      match allowed with
      | [] => None
      | _ => if existsb (fun a => String.eqb (to_lower a) (to_lower d)) allowed then None
             else Some (Sentinel ("domain not accepted: " +:+ to_lower d))
      end
  | _ => Some (Sentinel "invalid address format")
  end.

(** ** Sessions *)

Record session := Session {
  s_client_ip : string; s_from : string; s_from_domain : string; s_to : list string;
  s_spf : option spf_check_result }.

(** What reaches a handler: the envelope, the bytes and the verification results
    in the context. *)
Record delivery_call := DeliveryCall {
  dc_from : string; dc_to : list string; dc_data : string;
  dc_spf : option spf_check_result; dc_dkim : option dkim_result }.

(** The server's state: limiter, bounce and complaint tables, and the handler's
    own state. *)
Record server_state (W : Type) := ServerState {
  sv_limiter : limiter; sv_bounces : list bounce_row; sv_complaints : list complaint; sv_world : W }.
Arguments ServerState {W}.
Arguments sv_limiter {W}.  Arguments sv_bounces {W}.  Arguments sv_complaints {W}.  Arguments sv_world {W}.

(** The components a server is built with. *)
Record components (W : Type) := Components {
  c_limits : option config;
  c_spf : option (string -> string -> spf_check_result);
  c_dkim : option (string -> string + list verification);
  c_bounce : bool;
  c_fbl : bool;
  c_validator : option (W -> string -> option error);
  c_handler : option (delivery_call -> W -> W * option handler_error) }.
Arguments Components {W}.
Arguments c_limits {W}.  Arguments c_spf {W}.  Arguments c_dkim {W}.  Arguments c_bounce {W}.
Arguments c_fbl {W}.  Arguments c_validator {W}.  Arguments c_handler {W}.

(** How the network's reader answers: the bytes, or a failure. *)
Inductive body_read := BodyRead (data : string) | BodyFailed.

Section server.
Context {W : Type}.
Context (cfg : server_config) (comp : components W).
Context (parse_address : string -> option string).
Context (read_message : string -> option mail_message).

Definition new_session (remote_addr : string) (now : Z) (st : server_state W)
    : server_state W * (session + smtp_error) :=
  let ip := extract_ip remote_addr in
  let ok := inl (Session ip "" "" [] None) in
  match c_limits comp with
  | None => (st, ok)
  | Some limits =>
      let '(l, r) := allow_connection limits ip now (sv_limiter st) in
      (ServerState l (sv_bounces st) (sv_complaints st) (sv_world st),
       match r with
       | Some _ => inr (SMTPError 421 (4, 7, 0) "Too many connections, please try again later")
       | None => ok
       end)
  end.

Definition parse_either (s : string) : option string :=
  match parse_address s with Some a => Some a | None => parse_address ("<" +:+ s +:+ ">") end.

Definition mail_from (from : string) (s : session) : session * option smtp_error :=
  if String.eqb from "" then (Session (s_client_ip s) "" (s_from_domain s) (s_to s) (s_spf s), None)
  else
    match parse_either from with
    | None => (s, Some (SMTPError 553 (5, 1, 3) "Invalid sender address"))
    | Some a =>
        let dom := match split "@" a with [_; d] => d | _ => s_from_domain s end in
        let s := Session (s_client_ip s) a dom (s_to s) (s_spf s) in
        match c_spf comp with
        | Some check =>
            if sc_enable_spf cfg && negb (String.eqb dom "") then
              let r := check (s_client_ip s) dom in
              (Session (s_client_ip s) a dom (s_to s) (Some r),
               if bool_decide (cr_result r = SPFFail) && String.eqb (sc_spf_fail_action cfg) "reject"
               then Some (SMTPError 550 (5, 7, 23) ("SPF validation failed: " +:+ cr_explanation r)) else None)
            else (s, None)
        | None => (s, None)
        end
    end.

(** The domain check of RCPT; [None] when the address passes. *)
Definition domain_refused (recipient : string) : option smtp_error :=
  match sc_allowed_domains cfg with
  | [] => None
  | allowed =>
      match split "@" recipient with
      | [_; d] =>
          if existsb (fun a => String.eqb (to_lower a) (to_lower d)) allowed then None
          else Some (SMTPError 550 (5, 1, 1) "Recipient domain not accepted")
      | _ => Some (SMTPError 553 (5, 1, 3) "Invalid recipient address format")
      end
  end.

Definition rcpt_to (w : W) (to : string) (s : session) : session * option smtp_error :=
  match parse_either to with
  | None => (s, Some (SMTPError 553 (5, 1, 3) "Invalid recipient address"))
  | Some a =>
      match domain_refused a with
      | Some e => (s, Some e)
      | None =>
          match match c_validator comp with Some v => v w a | None => None end with
          | Some _ => (s, Some (SMTPError 550 (5, 1, 1) "User unknown"))
          | None => (Session (s_client_ip s) (s_from s) (s_from_domain s) (s_to s ++ [a]) (s_spf s), None)
          end
      end
  end.

(** [io.LimitReader(r, maxSize+1)]. *)
Definition limited (data : string) : string := limit_str (sc_max_message_size cfg + 1) data.

Definition handler_reply (r : option handler_error) : option smtp_error :=
  match r with
  | None => None
  | Some e => Some (if is_permanent_error e then SMTPError 550 (5, 0, 0) "Message rejected"
                    else SMTPError 451 (4, 0, 0) "Temporary failure, please retry")
  end.

Definition dkim_check (data : string) : option dkim_result :=
  match c_dkim comp with
  | Some lib => if sc_enable_dkim cfg then Some (verify_dkim lib data) else None
  | None => None
  end.

(** Unsigned mail is not refused. *)
Definition dkim_refusal (r : option dkim_result) : option smtp_error :=
  match r with
  | Some r => if negb (dv_valid r) && String.eqb (sc_dkim_fail_action cfg) "reject" &&
                 negb (bool_decide (length (dv_signatures r) = O))
              then Some (SMTPError 550 (5, 7, 20) ("DKIM verification failed: " +:+ dv_error r)) else None
  | None => None
  end.

(** The last stage of Data: DKIM, then the handler. *)
Definition hand_over (s : session) (data : string) (st : server_state W) : server_state W * option smtp_error :=
  let dkim := dkim_check data in
  match dkim_refusal dkim with
  | Some e => (st, Some e)
  | None =>
      match c_handler comp with
      | None => (st, None)
      | Some h =>
          let '(w, r) := h (DeliveryCall (s_from s) (s_to s) data (s_spf s) dkim) (sv_world st) in
          (ServerState (sv_limiter st) (sv_bounces st) (sv_complaints st) w, handler_reply r)
      end
  end.

Definition check_message_limit (now : Z) (s : session) (st : server_state W) :=
  match c_limits comp with
  | None => (sv_limiter st, None)
  | Some limits => allow_message limits (s_client_ip s) (Z.of_nat (length (s_to s))) now (sv_limiter st)
  end.

(** [now] is the clock of the handlers, [q] the outbound queue they attribute
    from, [fault] the database's answer to the complaint INSERT. *)
Definition data_cmd (now : Z) (q : list queued_message) (fault : option string) (body : body_read)
    (s : session) (st : server_state W) : server_state W * option smtp_error :=
  let '(l, refused) := check_message_limit now s st in
  let st := ServerState l (sv_bounces st) (sv_complaints st) (sv_world st) in
  match refused with
  | Some _ => (st, Some (SMTPError 451 (4, 7, 0) "Too many messages, please try again later"))
  | None =>
      match body with
      | BodyFailed => (st, Some (SMTPError 451 (4, 3, 0) "Error reading message"))
      | BodyRead sent =>
          let data := limited sent in
          if sc_max_message_size cfg <? str_len data then (st, Some (SMTPError 552 (5, 3, 4) "Message too large"))
          else
            let bounce_stage (st : server_state W) :=
              if c_bounce comp && is_bounce read_message (s_from s) data then
                (ServerState (sv_limiter st) (process_bounce read_message now q data (sv_bounces st)).1
                   (sv_complaints st) (sv_world st), None)
              else hand_over s data st in
            if c_fbl comp && is_complaint read_message data then
              match process_complaint read_message now q fault data (sv_complaints st) with
              | (cs, None) => (ServerState (sv_limiter st) (sv_bounces st) cs (sv_world st), None)
              | (cs, Some _) => bounce_stage (ServerState (sv_limiter st) (sv_bounces st) cs (sv_world st))
              end
            else bounce_stage st
      end
  end.

Definition reset_cmd (s : session) : session := Session (s_client_ip s) "" (s_from_domain s) [] (s_spf s).

(** ** A client's commands, in any order *)

Inductive smtp_command :=
| CMail (from : string)
| CRcpt (to : string)
| CData (now : Z) (q : list queued_message) (fault : option string) (body : body_read)
| CReset.

Definition run_command (c : smtp_command) (x : session * server_state W)
    : (session * server_state W) * option smtp_error :=
  let '(s, st) := x in
  match c with
  | CMail from => let '(s', r) := mail_from from s in ((s', st), r)
  | CRcpt to => let '(s', r) := rcpt_to (sv_world st) to s in ((s', st), r)
  | CData now q fault body => let '(st', r) := data_cmd now q fault body s st in ((s, st'), r)
  | CReset => ((reset_cmd s, st), None)
  end.

(** The states of a session opened from [remote_addr], other sessions' effects on
    the handler's state included. *)
Inductive reachable (remote_addr : string) : session * server_state W -> Prop :=
| reach_new now st st' s :
    new_session remote_addr now st = (st', inl s) -> reachable remote_addr (s, st')
| reach_step c x y r :
    reachable remote_addr x -> run_command c x = (y, r) -> reachable remote_addr y
| reach_other s st st' :
    reachable remote_addr (s, st) -> reachable remote_addr (s, st').

(** * Properties *)

(** An envelope recipient the server accepted. *)
Definition accepted_recipient (a : string) : Prop :=
  domain_refused a = None /\
  match c_validator comp with Some v => exists w, v w a = None | None => True end.
Definition parsed_sender (a : string) : Prop := a = "" \/ exists from, parse_either from = Some a.

Lemma reachable_envelope remote x :
  reachable remote x -> Forall accepted_recipient (s_to x.1) /\ parsed_sender (s_from x.1).
Proof.
  induction 1 as [now st st' s Hn|c [s st] y r _ [IHt IHf] Hc|s st st' _ IH]; [..|exact IH].
  - unfold new_session in Hn. destruct (c_limits comp); [|simplify_eq; simpl; split; [constructor|by left]].
    destruct (allow_connection _ _ _ _) as [l [e|]]; simplify_eq. simpl. split; [constructor|by left].
  - destruct c as [from|to|now q fault body|]; simpl in Hc, IHt, IHf.
    + unfold mail_from in Hc. destruct (String.eqb from ""); [simplify_eq; simpl; split; [done|by left]|].
      destruct (parse_either from) as [a|] eqn:Ep; [|by simplify_eq].
      assert (parsed_sender a) by (right; eauto).
      destruct (c_spf comp); [destruct (sc_enable_spf cfg && _)|]; by simplify_eq.
    + unfold rcpt_to in Hc. destruct (parse_either to) as [a|]; [|by simplify_eq].
      destruct (domain_refused a) eqn:Ed; [by simplify_eq|].
      destruct (match c_validator comp with Some v => v (sv_world st) a | None => None end) eqn:Ev; [by simplify_eq|].
      simplify_eq. simpl. split; [|done]. apply Forall_app. split; [done|]. constructor; [|done].
      split; [done|]. destruct (c_validator comp); eauto.
    + destruct (data_cmd _ _ _ _ _ _). by simplify_eq.
    + simplify_eq. simpl. split; [constructor|by left].
Qed.

Lemma hand_over_spec s data st st' r h :
  c_handler comp = Some h -> hand_over s data st = (st', r) ->
  (st' = st /\ r <> None) \/
  exists dc e, h dc (sv_world st) = (sv_world st', e) /\ r = handler_reply e /\
    dc_from dc = s_from s /\ dc_to dc = s_to s /\ dc_data dc = data.
Proof.
  intros Hh. unfold hand_over. rewrite Hh. destruct (dkim_refusal _) as [why|].
  - intros [= <- <-]. by left.
  - destruct (h _ (sv_world st)) as [w e] eqn:E. intros [= <- <-]. right. by eexists _, e.
Qed.

Lemma take_whole n (t : string) : str_len (take_str n t) < Z.of_nat n -> take_str n t = t.
Proof.
  unfold take_str, str_len. revert n. induction t as [|c t IH]; intros [|n]; simpl; intros Hn; try done; try lia.
  rewrite IH; [done|lia].
Qed.

(** The message is presumed to be a report: a complaint or a bounce. *)
Definition presumed_report (from data : string) : bool :=
  (c_fbl comp && is_complaint read_message data) || (c_bounce comp && is_bounce read_message from data).

(** What happened to a message that was read whole: it was refused or taken as a
    report, or it went to the handler. *)
Definition handed_over (h : delivery_call -> W -> W * option handler_error) (s : session) (sent : string)
    (w : W) (x : server_state W * option smtp_error) : Prop :=
  (sv_world x.1 = w /\ (x.2 = None -> presumed_report (s_from s) sent = true)) \/
  exists dc e, h dc w = (sv_world x.1, e) /\ (x.2 = None <-> e = None) /\
    dc_data dc = sent /\ dc_to dc = s_to s /\ dc_from dc = s_from s.

Lemma hand_over_handed h s sent st :
  c_handler comp = Some h -> handed_over h s sent (sv_world st) (hand_over s sent st).
Proof.
  intros Hh. destruct (hand_over s sent st) as [st' r] eqn:E.
  destruct (hand_over_spec _ _ _ _ _ _ Hh E) as [[-> Hr]|(dc & e & He & -> & Ef & Et & Ed)].
  - left. split; [done|]. intros H. by destruct Hr.
  - right. exists dc, e. split; [done|]. split; [by destruct e|]. by rewrite Ef, Et, Ed.
Qed.

Lemma data_handed_over h s st now q fault sent st' r :
  c_handler comp = Some h -> 0 <= sc_max_message_size cfg ->
  data_cmd now q fault (BodyRead sent) s st = (st', r) ->
  (sv_world st' = sv_world st /\ (r = None -> presumed_report (s_from s) sent = true)) \/
  (str_len sent <= sc_max_message_size cfg /\ handed_over h s sent (sv_world st) (st', r)).
Proof.
  intros Hh Hsize Hd. unfold data_cmd in Hd.
  destruct (check_message_limit now s st) as [l [e|]]; [left; by simplify_eq|].
  destruct (Z.ltb_spec (sc_max_message_size cfg) (str_len (limited sent))) as [Hl|Hl]; [left; by simplify_eq|].
  assert (limited sent = sent) as El.
  { unfold limited, limit_str in *. case_match; [done|]. apply take_whole. rewrite Z2Nat.id by lia. lia. }
  rewrite El in *. unfold presumed_report.
  destruct (c_fbl comp && is_complaint read_message sent) eqn:Ec.
  - destruct (process_complaint _ _ _ _ _ _) as [cs r1]. destruct r1.
    + destruct (c_bounce comp && _) eqn:Eb.
      * simplify_eq. left. split; [done|]. intros _. simpl. done.
      * right. split; [done|]. rewrite <- Hd. by apply (hand_over_handed _ _ _ (ServerState _ _ _ _)).
    + simplify_eq. by left.
  - destruct (c_bounce comp && _) eqn:Eb.
    + simplify_eq. by left.
    + right. split; [done|]. rewrite <- Hd. by apply (hand_over_handed _ _ _ (ServerState _ _ _ _)).
Qed.

(** DATA, in any session whatever the order of its commands: either the
    handler's state is untouched, and then a positive reply means that the
    message was taken as a complaint or a bounce; or the handler was called
    once, with the whole message, no larger than the configured size, from the
    parsed envelope sender, to recipients that are all of an allowed domain and
    were accepted by the validator, and the reply is positive exactly when the
    handler took it. *)
Theorem data_hands_over_accepted_mail remote s st st' h now q fault sent r
    (Hs : reachable remote (s, st)) (Hh : c_handler comp = Some h) (Hsize : 0 <= sc_max_message_size cfg)
    (Hd : data_cmd now q fault (BodyRead sent) s st = (st', r)) :
  (sv_world st' = sv_world st /\ (r = None -> presumed_report (s_from s) sent = true)) \/
  exists dc e, h dc (sv_world st) = (sv_world st', e) /\ (r = None <-> e = None) /\
    dc_data dc = sent /\ str_len sent <= sc_max_message_size cfg /\
    Forall accepted_recipient (dc_to dc) /\ parsed_sender (dc_from dc).
Proof.
  destruct (reachable_envelope _ _ Hs) as [Hto Hfrom]. simpl in Hto, Hfrom.
  destruct (data_handed_over _ _ _ _ _ _ _ _ _ Hh Hsize Hd) as [?|[Hlen [?|(dc & e & He & Hr & Ed & Et & Ef)]]]; [by left..|].
  right. exists dc, e. rewrite Ed, Et, Ef. auto 6.
Qed.

(** A message from the null sender is filed as a bounce whatever it says:
    with a bounce handler configured the server acknowledges it, and neither
    delivers it nor, once it is read, refuses it. *)
Theorem null_sender_mail_never_delivered now q fault sent s st st' r
    (Hb : c_bounce comp = true) (Hf : s_from s = "")
    (Hd : data_cmd now q fault (BodyRead sent) s st = (st', r)) :
  sv_world st' = sv_world st /\
  (c_limits comp = None -> str_len (limited sent) <= sc_max_message_size cfg -> r = None).
Proof.
  unfold data_cmd in Hd.
  destruct (check_message_limit now s st) as [l [e|]] eqn:El;
    [simplify_eq; split; [done|]; intros Hn; unfold check_message_limit in El; by rewrite Hn in El|].
  destruct (Z.ltb_spec (sc_max_message_size cfg) (str_len (limited sent))); [simplify_eq; split; [done|]; lia|].
  assert (is_bounce read_message (s_from s) (limited sent) = true) as Eb by (by rewrite Hf).
  rewrite Hb, Eb in Hd. simpl in Hd.
  destruct (c_fbl comp && _); [destruct (process_complaint _ _ _ _ _ _) as [cs r1]; destruct r1|]; by simplify_eq.
Qed.
End server.

Lemma positive_or_pos z d : 0 < d -> 0 < positive_or z d.
Proof. unfold positive_or. destruct (Z.leb_spec z 0); lia. Qed.

(** Whatever the caller leaves out, the server's limits are positive. *)
Lemma with_defaults_positive c :
  0 < sc_max_message_size (with_defaults c) /\ 0 < sc_max_recipients (with_defaults c) /\
  0 < sc_read_timeout (with_defaults c) /\ 0 < sc_write_timeout (with_defaults c).
Proof.
  destruct c as [c|]; [|by vm_compute]. repeat split; by apply positive_or_pos.
Qed.

(** ** Witnesses *)

(** A server for example.org whose handler keeps what it is given. *)
Definition sample_config : server_config :=
  with_defaults (Some (ServerConfig "" "mx.example.org" ["Example.org"] 0 0 0 0 false "" "" false "" false "")).

Definition keep_mail (dc : delivery_call) (w : list delivery_call) : list delivery_call * option handler_error :=
  (w ++ [dc], None).

Definition sample_components : components (list delivery_call) :=
  Components None None None true true None (Some keep_mail).

Definition sample_address (s : string) : option string :=
  if has_char "@" s then Some s else None.

Definition sample_state : server_state (list delivery_call) := ServerState new_limiter [] [] [].
Definition sample_session : session := Session "192.0.2.1" "ann@example.com" "example.com" ["bob@example.org"] None.

Lemma data_hands_over_accepted_mail_witness :
  let call := DeliveryCall "ann@example.com" ["bob@example.org"] "hello" None None in
  let st' := ServerState new_limiter [] [] [call] in
  (sv_world st' = sv_world sample_state /\
   (None = None :> option smtp_error -> presumed_report sample_components (fun _ => None) "ann@example.com" "hello" = true)) \/
  exists dc e, keep_mail dc (sv_world sample_state) = (sv_world st', e) /\ (None = None :> option smtp_error <-> e = None) /\
    dc_data dc = "hello" /\ str_len "hello" <= sc_max_message_size sample_config /\
    Forall (accepted_recipient sample_config sample_components) (dc_to dc) /\ parsed_sender sample_address (dc_from dc).
Proof.
  refine (data_hands_over_accepted_mail sample_config sample_components sample_address (fun _ => None)
            "192.0.2.1:2525" sample_session sample_state _ keep_mail 0 [] None "hello" None _ eq_refl _ _); [|done|vm_compute; reflexivity].
  eapply (reach_step _ _ _ _ _ (CRcpt "bob@example.org")).
  - eapply (reach_step _ _ _ _ _ (CMail "ann@example.com")).
    + eapply (reach_new _ _ _ _ _ 0 sample_state). vm_compute. reflexivity.
    + vm_compute. reflexivity.
  - vm_compute. reflexivity.
Defined.

Lemma null_sender_mail_never_delivered_witness :
  let s := Session "192.0.2.1" "" "" ["bob@example.org"] None in
  let x := data_cmd sample_config sample_components (fun _ => None) 0 [] None (BodyRead "hello") s sample_state in
  sv_world x.1 = [] /\
  (None = None :> option config -> str_len (limited sample_config "hello") <= sc_max_message_size sample_config -> x.2 = None).
Proof.
  exact (null_sender_mail_never_delivered sample_config sample_components (fun _ => None) 0 [] None "hello"
           (Session "192.0.2.1" "" "" ["bob@example.org"] None) sample_state _ _ eq_refl eq_refl
           (surjective_pairing _)).
Defined.
