(* ===== verification/Inbound.v ===== *)
(** * Receiving a message: internal/email/inbound.go

    The processor is the message handler and the recipient validator of
    [Session].  A reader is the bytes it yields and whether it then fails.  Of
    the standard library, net/mail, mime and mime/multipart are parameters
    (among them [mime_parts], what a multipart reader yields part after part, a
    quoted-printable part decoded); base64 is [Base64].  The database is that of
    [Emails], and [lookup] the address table of [Identity]. *)

From S2P Require Import Prelude GoStrings Base64 Bounce Mailboxes Identity Signing Emails Session.
#[local] Open Scope Z_scope.

(** ** Recipients *)

Definition strip_plus_tag (address : string) : string :=
  match cut_last "@" address with
  | None => address
  | Some (local, domain) =>
      if String.eqb local "" then address
      else if has_prefix local (String "034" "") || has_char "@" local then address
      else
        let local := match cut "+" local with
                     | Some (base, _) => if String.eqb base "" then local else base
                     | None => local
                     end in
        local +:+ "@" +:+ domain
  end.

Section recipients.
Context (lookup : string -> res (option address)).

(** The address without its tag; the empty key is "unknown or inactive". *)
Definition resolve_base (a : string) : res string :=
  let base := strip_plus_tag a in
  if String.eqb base a then Ok ""
  else match lookup base with
       | Err e => Err (Wrapped "recipient lookup failed" e)
       | Ok (Some r) => Ok (if a_active r then a_pubkey r else "")
       | Ok None => Ok ""
       end.

Definition resolve_recipient_pubkey (a : string) : res string :=
  match lookup a with
  | Err e => Err (Wrapped "recipient lookup failed" e)
  | Ok (Some r) => if a_active r then Ok (a_pubkey r) else resolve_base a
  | Ok None => resolve_base a
  end.

Definition no_such_recipient (a : string) : error := Sentinel ("no such recipient: " +:+ a).

Definition validate_recipient (a : string) : option error :=
  match resolve_recipient_pubkey a with
  | Err e => Some e
  | Ok pk => if String.eqb pk "" then Some (no_such_recipient a) else None
  end.

End recipients.

(** ** Parsed messages *)

Record parsed_attachment := ParsedAttachment {
  pa_filename : string; pa_content_type : string; pa_content_id : string; pa_inline : bool; pa_data : string }.

Record parsed_message := ParsedMessage {
  pm_raw : string; pm_message_id : string; pm_from : string; pm_to : list string; pm_cc : list string;
  pm_subject : string; pm_date : Z; pm_body : string; pm_html_body : string; pm_headers : headers;
  pm_nostr_pubkey : string; pm_nostr_sig : string; pm_nostr_headers : list string;
  pm_is_encrypted : bool; pm_algorithm : string; pm_in_reply_to : string; pm_references : list string;
  pm_attachments : list parsed_attachment }.

(** What parsing the body fills in. *)
Definition with_content (text html : string) (atts : list parsed_attachment) (m : parsed_message) : parsed_message :=
  ParsedMessage (pm_raw m) (pm_message_id m) (pm_from m) (pm_to m) (pm_cc m) (pm_subject m) (pm_date m) text html
    (pm_headers m) (pm_nostr_pubkey m) (pm_nostr_sig m) (pm_nostr_headers m) (pm_is_encrypted m)
    (pm_algorithm m) (pm_in_reply_to m) (pm_references m) atts.
Definition with_body (text : string) (m : parsed_message) : parsed_message :=
  with_content text (pm_html_body m) (pm_attachments m) m.
Definition with_html (html : string) (m : parsed_message) : parsed_message :=
  with_content (pm_body m) html (pm_attachments m) m.
Definition with_from (from : string) (m : parsed_message) : parsed_message :=
  ParsedMessage (pm_raw m) (pm_message_id m) from (pm_to m) (pm_cc m) (pm_subject m) (pm_date m) (pm_body m)
    (pm_html_body m) (pm_headers m) (pm_nostr_pubkey m) (pm_nostr_sig m) (pm_nostr_headers m)
    (pm_is_encrypted m) (pm_algorithm m) (pm_in_reply_to m) (pm_references m) (pm_attachments m).

(** ** Decoding *)

(** A byte of Latin-1 as UTF-8. *)
Definition latin1_rune (c : ascii) : string :=
  let n := char_code c in
  if (n <? 128)%nat then String c ""
  else String (ascii_of_nat (192 + n / 64)) (String (ascii_of_nat (128 + n mod 64)) "").
Fixpoint latin1 (b : string) : string :=
  match b with "" => "" | String c t => latin1_rune c +:+ latin1 t end.

Definition decode_charset (b charset : string) : string :=
  if existsb (String.eqb (to_lower (trim_space charset)))
       ["iso-8859-1"; "iso8859-1"; "latin1"; "latin-1"; "l1"]
  then latin1 b else b.

Definition is_blank (c : ascii) : bool :=
  Ascii.eqb c CR || Ascii.eqb c LF || Ascii.eqb c " " || Ascii.eqb c "009".

Section parsing.
Context (qp_decode : string -> option string).

(** [strings.Map] works on runes; a byte that is no ASCII character makes both
    decoders fail, as the rune that stands for it does. *)
Definition decode_transfer_encoding (raw encoding : string) : string :=
  let enc := to_lower (trim_space encoding) in
  if String.eqb enc "base64" then
    let clean := filter_chars (fun c => negb (is_blank c)) raw in
    match decode clean with
    | Some b => b
    | None => default raw (raw_decode (trim_right (Ascii.eqb pad) clean))
    end
  else if String.eqb enc "quoted-printable" then default raw (qp_decode raw)
  else raw.

(** ** MIME parts *)

Record reader := Reader { rd_bytes : string; rd_fails : bool }.
Record part := Part { pt_header : list (string * string); pt_body : reader }.

(** How NextPart stops: io.EOF, or an error, and then what is left unread. *)
Inductive parts_end := PartsDone | PartsBroken (unread : string).

(** [ParseMediaType]: the type, its parameters, and whether there was no error. *)
Record media := Media { md_type : string; md_params : gmap string string; md_ok : bool }.

Context (read_message : string -> option mail_message).
Context (parse_media_type : string -> media).
Context (mime_parts : string -> reader -> list part * parts_end).
(** The first of [ExtensionsByType], if any. *)
Context (extension : string -> option string).

Definition param (m : media) (name : string) : string := default "" (md_params m !! name).

Definition default_attachment_name (media_type : string) (n : Z) : string :=
  "attachment-" +:+ pretty n +:+ default "" (extension media_type).

Definition trim_angles (s : string) : string :=
  let angle c := Ascii.eqb c "<" || Ascii.eqb c ">" in trim_right angle (trim_left angle s).

(** One leaf part. *)
Definition take_part (p : part) (m : parsed_message) : parsed_message :=
  let ct := parse_media_type (header_get (pt_header p) "Content-Type") in
  if rd_fails (pt_body p) then m
  else
    let data := decode_transfer_encoding (rd_bytes (pt_body p)) (header_get (pt_header p) "Content-Transfer-Encoding") in
    let cd := parse_media_type (header_get (pt_header p) "Content-Disposition") in
    let filename := if String.eqb (param cd "filename") "" then param ct "name" else param cd "filename" in
    let plain := has_prefix (md_type ct) "text/plain" in
    let html := has_prefix (md_type ct) "text/html" in
    let is_attachment := String.eqb (md_type cd) "attachment" || negb (String.eqb filename "") ||
                         (negb plain && negb html) in
    if negb is_attachment then
      let text := decode_charset data (param ct "charset") in
      if plain && String.eqb (pm_body m) "" then with_body text m
      else if html && String.eqb (pm_html_body m) "" then with_html text m
      else m
    else
      let filename := if String.eqb filename ""
                      then default_attachment_name (md_type ct) (Z.of_nat (length (pm_attachments m)) + 1)
                      else filename in
      with_content (pm_body m) (pm_html_body m)
        (pm_attachments m ++ [ParsedAttachment filename (md_type ct)
           (trim_angles (header_get (pt_header p) "Content-ID")) (String.eqb (md_type cd) "inline") data]) m.

(** The outcome is [None] when the nesting exhausts [fuel].  A nested multipart
    that breaks off is only logged. *)
Fixpoint parse_multipart (fuel : nat) (boundary : string) (r : reader) (m : parsed_message)
    : option (parsed_message * parts_end) :=
  match fuel with
  | O => None
  | S k =>
      let '(parts, fin) := mime_parts boundary r in
      m' ← foldl (fun acc p =>
             m ← acc;
             let ct := parse_media_type (header_get (pt_header p) "Content-Type") in
             if has_prefix (md_type ct) "multipart/"
             then fst <$> parse_multipart k (param ct "boundary") (pt_body p) m
             else Some (take_part p m)) (Some m) parts;
      Some (m', fin)
  end.

(** A part is shorter than what it was cut from, so that this is fuel enough. *)
Definition multipart_fuel (r : reader) : nat := S (String.length (rd_bytes r)).

(** The parsed body and, for a body that could not be read to its end, what the
    fallback still finds unread. *)
Definition parse_body (msg : mail_message) (m : parsed_message) : parsed_message :=
  let ct0 := header_get (header msg) "Content-Type" in
  let ct := parse_media_type (if String.eqb ct0 "" then "text/plain" else ct0) in
  let whole := Reader (body msg) false in
  if negb (md_ok ct) then with_body (body msg) m
  else if has_prefix (md_type ct) "multipart/" then
    match default (m, PartsDone) (parse_multipart (multipart_fuel whole) (param ct "boundary") whole m) with
    | (m', PartsDone) => m'
    | (m', PartsBroken unread) => with_body unread m'
    end
  else
    let text := decode_charset (decode_transfer_encoding (body msg) (header_get (header msg) "Content-Transfer-Encoding"))
                  (param ct "charset") in
    if has_prefix (md_type ct) "text/html" then with_html text m else with_body text m.

(** ** Header fields *)

Context (parse_address : string -> option string).
Context (parse_address_list : string -> option (list string)).
Context (parse_date : string -> option Z).
Context (decode_words : string -> option string).

Definition parse_address_list_header (h : string) : list string :=
  match parse_address_list h with
  | Some l => l
  | None => List.filter (fun p => negb (String.eqb p "")) (map trim_space (split "," h))
  end.

Definition decode_header (h : string) : string := default h (decode_words h).

(** The header map: lower-case names, the first value of each. *)
Definition header_map (h : list (string * string)) : headers :=
  list_to_map (map (fun kv => (to_lower kv.1, header_get h kv.1)) h).

Definition optional {A} (get : string -> A) (none : A) (value : string) : A :=
  if String.eqb value "" then none else get value.

(** [now] is the clock; a date of the zero time counts as none. *)
Definition parse_message (now : Z) (data : string) : res parsed_message :=
  match read_message data with
  | None => Err (Wrapped "failed to parse message" (Sentinel "malformed"))
  | Some msg =>
      let get := header_get (header msg) in
      let date := optional (fun d => default 0 (parse_date d)) 0 (get "Date") in
      let algorithm := get "X-Nostr-Encryption" in
      Ok (parse_body msg (ParsedMessage data (get "Message-ID")
        (optional (fun f => default f (parse_address f)) "" (get "From"))
        (optional parse_address_list_header [] (get "To"))
        (optional parse_address_list_header [] (get "Cc"))
        (decode_header (get "Subject"))
        (if date =? 0 then now else date)
        "" "" (header_map (header msg))
        (get "X-Nostr-Pubkey") (get "X-Nostr-Sig")
        (optional (split ":") [] (get "X-Nostr-Signed-Headers"))
        (negb (String.eqb algorithm "")) algorithm
        (get "In-Reply-To") (optional fields [] (get "References")) []))
  end.

End parsing.

(** ** Storing *)

Definition nonempty_opt (s : string) : option string := if String.eqb s "" then None else Some s.

Definition received_record (now : Z) (m : parsed_message) (recipient pk : string) (v : option verification_result)
    : Emails.email :=
  let valid := match v with Some r => v_valid r | None => false end in
  Email "" pk (nonempty_opt (pm_message_id m)) (pm_from m) recipient
    (if bool_decide (pm_cc m = []) then None else Some (join ", " (pm_cc m))) None
    (pm_subject m) (pm_body m) (nonempty_opt (pm_html_body m)) (pm_is_encrypted m) None None
    (nonempty_opt (pm_nostr_pubkey m)) None "received" "active" None "INBOX" None
    (nonempty_opt (pm_in_reply_to m))
    (if bool_decide (pm_references m = []) then None else Some (join " " (pm_references m)))
    valid
    (match v with Some r => nonempty_opt (v_reason r) | None => None end)
    (if valid then Some now else None) 0 0 None.

Record stored_blob := StoredBlob { sb_sha256 : string; sb_url : string; sb_key : string }.

(** What storing for one recipient reads from outside: the database's answer to
    the mailbox statement and to the INSERT, the clock, and the ids generated
    for the row and the attachments. *)
Record run := Run {
  ru_mailbox : option error; ru_insert : option error; ru_now : Z; ru_id : string; ru_attachment_ids : nat -> string }.

Section storing.
Context (lookup : string -> res (option address)).
Context (uploader : option (string -> string -> res stored_blob)).

Definition attachment_record (id email_id : string) (a : parsed_attachment) : attachment :=
  let blob := match uploader with
              | Some up => match up id (pa_data a) with Ok b => Some b | Err _ => None end
              | None => None
              end in
  Attachment id email_id (pa_filename a) (Some (pa_content_type a)) (Some (str_len (pa_data a)))
    (sb_sha256 <$> blob) (b ← blob; nonempty_opt (sb_url b)) (sb_key <$> blob) 0.

(** A row that cannot be written is only logged. *)
Definition store_attachments (now : Z) (email_id : string) (atts : list (string * parsed_attachment))
    (d : database) : database :=
  fold_left (fun d x => (create_attachment x.1 now (attachment_record x.1 email_id x.2) d).1) atts d.

Definition store_for_recipient (r : run) (m : parsed_message) (v : option verification_result)
    (recipient : string) (d : database) : database * option error :=
  match resolve_recipient_pubkey lookup recipient with
  | Err e => (d, Some e)
  | Ok pk =>
      if String.eqb pk "" then (d, Some (no_such_recipient recipient))
      else
        match ensure_mailbox (ru_mailbox r) (ru_now r) pk (db_mailboxes d) with
        | (_, Err e) => (d, Some (Wrapped "failed to ensure mailbox" e))
        | (mbs, Ok _) =>
            let d := Database (db_emails d) (db_attachments d) mbs in
            match ru_insert r with
            | Some e => (d, Some (Wrapped "failed to store email" (Wrapped "failed to create email" e)))
            | None =>
                match create_email (ru_id r) (ru_now r) (received_record (ru_now r) m recipient pk v) d with
                | (d, Err e) => (d, Some (Wrapped "failed to store email" e))
                | (d, Ok id) => (store_attachments (ru_now r) id (imap (fun i a => (ru_attachment_ids r i, a)) (pm_attachments m)) d, None)
                end
            end
        end
  end.

(** A recipient whose copy cannot be stored is only logged. *)
Definition store_each (m : parsed_message) (v : option verification_result) (to : list (run * string))
    (d : database) : database :=
  fold_left (fun d x => (store_for_recipient x.1 m v x.2 d).1) to d.

(** The envelope sender stands in for a missing From. *)
Definition with_envelope_from (from : string) (m : parsed_message) : parsed_message :=
  if String.eqb (pm_from m) "" then with_from from m else m.

Definition verdict (verifier : option (verifiable_email -> verification_result)) (m : parsed_message)
    : option verification_result :=
  match verifier with
  | Some verify =>
      if String.eqb (pm_nostr_pubkey m) "" then None
      else Some (verify (VerifiableEmail (pm_headers m) (pm_body m) (pm_nostr_pubkey m)
             (pm_nostr_sig m) (join ";" (pm_nostr_headers m)) (pm_from m)))
  | None => None
  end.

(** [verifier] is absent when no NIP-05 resolver is configured; [runs i] is
    the run for the recipient at position [i]. *)
Definition handle_message (parse : string -> res parsed_message)
    (verifier : option (verifiable_email -> verification_result)) (runs : nat -> run) (from : string)
    (to : list string) (data : string) (d : database) : database * option handler_error :=
  match parse data with
  | Err e => (d, Some (PermanentError (Wrapped "invalid message format" e)))
  | Ok m =>
      let m := with_envelope_from from m in
      (store_each m (verdict verifier m) (imap (fun i a => (runs i, a)) to) d, None)
  end.

End storing.

(** * Properties *)

(** ** Plus tags *)

(** A local part that is a name and a tag. *)
Definition taggable (l : string) : Prop :=
  l <> "" /\ no_char "+" l = true /\ no_char "@" l = true /\ has_prefix l (String "034" "") = false.

Lemma strip_plus_tag_tagged l t d :
  taggable l -> no_char "@" t = true -> no_char "@" d = true ->
  strip_plus_tag (l +:+ "+" +:+ t +:+ "@" +:+ d) = l +:+ "@" +:+ d.
Proof.
  intros (Hl & Hp & Ha & Hq) Ht Hd. unfold strip_plus_tag.
  assert (l +:+ "+" +:+ t +:+ "@" +:+ d = (l +:+ String "+" t) +:+ String "@" d) as -> by by rewrite app_assoc_str.
  rewrite cut_last_app by done. destruct l as [|c l]; [done|].
  assert (has_prefix (String c l +:+ String "+" t) (String "034" "") = false) as ->.
  { revert Hq. change (String c l +:+ String "+" t) with (String c (l +:+ String "+" t)). rewrite !has_prefix_cons.
    rewrite !has_prefix_nil. done. }
  assert (has_char "@" (String c l +:+ String "+" t) = false) as ->.
  { unfold has_char. apply negb_false_iff. change (no_char "@" (String c l +:+ String "+" t) = true).
    by rewrite no_char_app, Ha, (no_char_cons _ "+"), Ht. }
  rewrite cut_app by done. done.
Qed.

Definition active_owner (o : option address) : option address :=
  match o with Some r => if a_active r then Some r else None | None => None end.

(** Plus addressing: mail to name+tag goes to whoever has registered exactly
    that address, and otherwise to the owner of the address without the tag; a
    failing lookup is an error and never redirects. *)
Theorem plus_tag_reaches_base lookup l t d
    (Hl : taggable l) (Ht : no_char "@" t = true) (Hd : no_char "@" d = true) :
  resolve_recipient_pubkey lookup (l +:+ "+" +:+ t +:+ "@" +:+ d) =
  match lookup (l +:+ "+" +:+ t +:+ "@" +:+ d) with
  | Err e => Err (Wrapped "recipient lookup failed" e)
  | Ok o =>
      match active_owner o with
      | Some r => Ok (a_pubkey r)
      | None => match lookup (l +:+ "@" +:+ d) with
                | Err e => Err (Wrapped "recipient lookup failed" e)
                | Ok o => Ok (match active_owner o with Some r => a_pubkey r | None => "" end)
                end
      end
  end.
Proof.
  unfold resolve_recipient_pubkey, resolve_base. rewrite strip_plus_tag_tagged by done.
  assert (String.eqb (l +:+ "@" +:+ d) (l +:+ "+" +:+ t +:+ "@" +:+ d) = false) as ->.
  { apply String.eqb_neq. by intros E%app_inv_head_str. }
  generalize (lookup (l +:+ "+" +:+ t +:+ "@" +:+ d)), (lookup (l +:+ "@" +:+ d)). intros exact base.
  destruct exact as [[r|]|]; simpl; [destruct (a_active r); [done|]|..|done];
    (destruct base as [[r'|]|]; simpl; [by destruct (a_active r')|done..]).
Qed.

(** ** Nested parts *)

Section nesting.
Context (qp_decode : string -> option string).
Context (parse_media_type : string -> media).
Context (mime_parts : string -> reader -> list part * parts_end).
Context (extension : string -> option string).
Abbreviation parse := (parse_multipart qp_decode parse_media_type mime_parts extension).

(** A part is cut out between two boundary lines. *)
Definition parts_shrink : Prop := forall b r,
  Forall (fun p => (String.length (rd_bytes (pt_body p)) < String.length (rd_bytes r))%nat) (mime_parts b r).1.

Lemma foldl_some {A B} (f g : A -> B -> option A) l a :
  (forall a b, b ∈ l -> exists a', f a b = Some a' /\ g a b = Some a') ->
  exists a', foldl (fun acc b => x ← acc; f x b) (Some a) l = Some a' /\
             foldl (fun acc b => x ← acc; g x b) (Some a) l = Some a'.
Proof.
  revert a. induction l as [|b l IH]; intros a Hf; simpl; [eauto|].
  destruct (Hf a b) as (a' & -> & ->); [by left|]. simpl. apply IH. intros. apply Hf. by right.
Qed.

(** C28. Parsing a message ends however its parts are nested: fuel for as many
    levels as the body has bytes is never exhausted, and more of it changes
    nothing. *)
Theorem multipart_parsing_terminates (Hs : parts_shrink) fuel boundary r m
    (Hf : (multipart_fuel r <= fuel)%nat) :
  exists out, parse (multipart_fuel r) boundary r m = Some out /\ parse fuel boundary r m = Some out.
Proof.
  assert (forall n k k' boundary r m, (String.length (rd_bytes r) < n)%nat -> (n <= k)%nat -> (n <= k')%nat ->
    exists out, parse k boundary r m = Some out /\ parse k' boundary r m = Some out) as H.
  { clear -Hs. induction n as [|n IH]; intros [|k] [|k'] boundary r m Hn Hk Hk'; try lia. simpl.
    pose proof (Hs boundary r) as Hp. destruct (mime_parts boundary r) as [parts fin]. simpl in Hp.
    destruct (foldl_some
      (fun m p => if has_prefix (md_type (parse_media_type (header_get (pt_header p) "Content-Type"))) "multipart/"
        then fst <$> parse k (param (parse_media_type (header_get (pt_header p) "Content-Type")) "boundary") (pt_body p) m
        else Some (take_part qp_decode parse_media_type extension p m))
      (fun m p => if has_prefix (md_type (parse_media_type (header_get (pt_header p) "Content-Type"))) "multipart/"
        then fst <$> parse k' (param (parse_media_type (header_get (pt_header p) "Content-Type")) "boundary") (pt_body p) m
        else Some (take_part qp_decode parse_media_type extension p m)) parts m) as (m' & -> & ->); [|simpl; eauto].
    intros m1 p Hin. apply (proj1 (Forall_forall _ _) Hp) in Hin.
    destruct (has_prefix _ _); [|eauto].
    destruct (IH k k' (param (parse_media_type (header_get (pt_header p) "Content-Type")) "boundary") (pt_body p) m1)
      as (o & -> & ->); [lia..|]. simpl. eauto. }
  unfold multipart_fuel in *. apply (H (S (String.length (rd_bytes r)))); lia.
Qed.

(** A multipart message that breaks off before its closing boundary is stored
    without text: the fallback overwrites the text that was parsed with what
    the reader has left unread, which is nothing. *)
Theorem truncated_mail_loses_text (msg : mail_message) (m m' : parsed_message)
    (Hok : md_ok (parse_media_type (header_get (header msg) "Content-Type")) = true)
    (Hmp : has_prefix (md_type (parse_media_type (header_get (header msg) "Content-Type"))) "multipart/" = true)
    (Hbroken : parse (multipart_fuel (Reader (body msg) false))
       (param (parse_media_type (header_get (header msg) "Content-Type")) "boundary") (Reader (body msg) false) m
     = Some (m', PartsBroken ""))
    (Hct : header_get (header msg) "Content-Type" <> "") :
  parse_body qp_decode parse_media_type mime_parts extension msg m = with_body "" m'.
Proof.
  unfold parse_body. rewrite (proj2 (String.eqb_neq _ _) Hct), Hok, Hmp. simpl negb. cbv iota.
  unfold multipart_fuel in *. by rewrite Hbroken.
Qed.

End nesting.

(** ** What is stored *)

Section stored.
Context (lookup : string -> res (option address)).
Context (uploader : option (string -> string -> res stored_blob)).

Lemma store_attachments_emails now id atts d :
  db_emails (store_attachments uploader now id atts d) = db_emails d.
Proof.
  unfold store_attachments. revert d. induction atts as [|x atts IH]; intros d; simpl; [done|]. rewrite IH.
  unfold create_attachment. by destruct (_ && _ && _).
Qed.

(** The row an accepted copy becomes. *)
Definition stored_row (r : run) (m : parsed_message) (v : option verification_result) (recipient pk : string) : Emails.email :=
  created_row (ru_id r) (ru_now r) (received_record (ru_now r) m recipient pk v).

Lemma store_for_recipient_spec r m v a d d' e :
  store_for_recipient lookup uploader r m v a d = (d', e) ->
  (db_emails d' = db_emails d /\ e <> None) \/
  exists pk, resolve_recipient_pubkey lookup a = Ok pk /\ pk <> "" /\ e = None /\
    columns_fit (stored_row r m v a pk) = true /\ db_emails d' = db_emails d ++ [stored_row r m v a pk].
Proof.
  unfold store_for_recipient. destruct (resolve_recipient_pubkey lookup a) as [pk|]; [|intros [= <- <-]; by left].
  destruct (String.eqb_spec pk ""); [intros [= <- <-]; by left|].
  destruct (ensure_mailbox _ _ _ _) as [mbs [mb|]]; [|intros [= <- <-]; by left].
  destruct (ru_insert r); [intros [= <- <-]; by left|]. unfold create_email.
  destruct (constraint_violated _ _) eqn:Ec; [intros [= <- <-]; by left|]. intros [= <- <-]. right.
  exists pk. repeat (split; [done|]). split; [|by rewrite store_attachments_emails].
  unfold constraint_violated in Ec. by destruct (columns_fit _).
Qed.

(** The rows one message adds, for the recipients of [to]. *)
Lemma store_each_adds m v to d :
  exists new, db_emails (store_each lookup uploader m v to d) = db_emails d ++ new /\
    Forall (fun e => exists r a pk, (r, a) ∈ to /\ resolve_recipient_pubkey lookup a = Ok pk /\ pk <> "" /\
                     columns_fit e = true /\ e = stored_row r m v a pk) new.
Proof.
  unfold store_each. revert d. induction to as [|[r a] to IH]; intros d; simpl; [exists []; by rewrite app_nil_r|].
  destruct (store_for_recipient lookup uploader r m v a d) as [d1 e] eqn:Es. simpl.
  destruct (IH d1) as (new & -> & Hnew).
  assert (Forall (fun e => exists r0 a0 pk, (r0, a0) ∈ (r, a) :: to /\ resolve_recipient_pubkey lookup a0 = Ok pk /\ pk <> "" /\
            columns_fit e = true /\ e = stored_row r0 m v a0 pk) new) as Hnew'.
  { eapply Forall_impl; [exact Hnew|]. intros x (r0 & a0 & pk & Hin & H). exists r0, a0, pk. split; [by right|done]. }
  apply store_for_recipient_spec in Es as [[-> _]|(pk & Hpk & Hne & _ & Hfit & ->)]; [by exists new|].
  exists (stored_row r m v a pk :: new). split; [by rewrite <- app_assoc|]. constructor; [|done].
  exists r, a, pk. split; [by left|done].
Qed.

(** Inbound mail reaches nobody else: whatever the handler is given, it only
    appends rows, each a received message in the INBOX of the owner of an
    active address that one of the envelope recipients names. *)
Theorem inbound_mail_reaches_recipients_only parse verifier runs from to data d d' r
    (Hh : handle_message lookup uploader parse verifier runs from to data d = (d', r)) :
  exists new, db_emails d' = db_emails d ++ new /\
    Forall (fun e => exists a, a ∈ to /\ resolve_recipient_pubkey lookup a = Ok (em_mailbox_pubkey e) /\
      em_mailbox_pubkey e <> "" /\ em_to_address e = a /\ em_direction e = "received" /\
      em_folder e = "INBOX" /\ em_status e = "active" /\ em_read_at e = None) new.
Proof.
  unfold handle_message in Hh. destruct (parse data) as [m|]; [|injection Hh as <- _; exists []; by rewrite app_nil_r].
  injection Hh as <- _. match goal with |- context [store_each _ _ ?m ?v ?to ?d] => destruct (store_each_adds m v to d) as (new & -> & Hnew) end.
  exists new. split; [done|]. eapply Forall_impl; [exact Hnew|].
  intros e (r0 & a & pk & Hin & Hpk & Hne & _ & ->). exists a.
  split; [by apply elem_of_lookup_imap in Hin as (i & a' & [= -> ->] & Hi); eapply list_elem_of_lookup_2|]. done.
Qed.

(** Mail the table has no room for is lost without notice: when the Cc header
    lists more than the column's 255 characters, no recipient gets the
    message, and the sender is told that it was delivered. *)
Theorem long_cc_mail_lost parse verifier runs from to data d m
    (Hm : parse data = Ok m) (Hcc : 255 < str_len (join ", " (pm_cc m))) :
  exists d', handle_message lookup uploader parse verifier runs from to data d = (d', None) /\
    db_emails d' = db_emails d.
Proof.
  unfold handle_message. rewrite Hm. eexists. split; [done|].
  match goal with |- context [store_each _ _ ?m ?v ?to ?d] => destruct (store_each_adds m v to d) as (new & -> & Hnew) end.
  destruct Hnew as [|e new (r0 & a & pk & _ & _ & _ & Hfit & ->) _]; [apply app_nil_r|]. exfalso.
  unfold columns_fit in Hfit. reflect_bools. simpl in *.
  assert (pm_cc (with_envelope_from from m) = pm_cc m) as Ecc by (unfold with_envelope_from; by destruct (String.eqb _ "")).
  rewrite Ecc in *. destruct (bool_decide_reflect (pm_cc m = [])) as [E|E].
  - rewrite E in Hcc. by vm_compute in Hcc.
  - simpl in *. unfold fits in *. reflect_bools. lia.
Qed.

(** *** What can be stored is stored *)

(** Nothing but the message itself may already be in the way. *)
Definition storable (r : run) (m : parsed_message) (v : option verification_result) (a pk : string)
    (taken : string -> Prop) : Prop :=
  ru_mailbox r = None /\ ru_insert r = None /\ columns_fit (stored_row r m v a pk) = true /\
  ru_id r <> "" /\ ~ taken (ru_id r).

(** The mailbox of [pk] holds the message: the row, or one received earlier with
    the same Message-ID. *)
Definition holds_message (row : Emails.email) (d : database) : Prop :=
  Exists (fun e => e = row \/ same_message row e = true) (db_emails d).

Lemma store_for_recipient_stores r m v a pk d :
  resolve_recipient_pubkey lookup a = Ok pk -> pk <> "" ->
  storable r m v a pk (fun i => Exists (fun e => em_id e = i) (db_emails d)) ->
  holds_message (stored_row r m v a pk) (store_for_recipient lookup uploader r m v a d).1.
Proof.
  intros Hpk Hne (Hm & Hi & Hfit & Hid & Hnew). unfold store_for_recipient.
  rewrite Hpk, (proj2 (String.eqb_neq _ _) Hne), Hm, Hi. simpl ensure_mailbox. cbv iota beta zeta.
  unfold create_email. fold (stored_row r m v a pk). unfold constraint_violated. rewrite Hfit. cbn [negb db_emails].
  assert (em_id (stored_row r m v a pk) = ru_id r) as Eid by done. rewrite Eid.
  destruct (existsb (fun x => String.eqb (em_id x) (ru_id r)) (db_emails d)) eqn:Ex.
  { destruct Hnew. apply existsb_exists in Ex as (x & Hx & E). apply Exists_exists. exists x.
    split; [by apply list_elem_of_In|]. by apply String.eqb_eq. }
  destruct (existsb (same_message (stored_row r m v a pk)) (db_emails d)) eqn:Es.
  { simpl. unfold holds_message. simpl. apply existsb_exists in Es as (x & Hx & E). apply Exists_exists. exists x.
    split; [by apply list_elem_of_In|]. by right. }
  assert (has_mailbox (Database (db_emails d) (db_attachments d)
     (<[pk:=match db_mailboxes d !! pk with Some m0 => touch_mailbox (ru_now r) m0 | None => fresh_mailbox (ru_now r) end]>
        (db_mailboxes d))) (em_mailbox_pubkey (stored_row r m v a pk)) = true) as ->.
  { unfold has_mailbox. cbn [db_mailboxes]. change (em_mailbox_pubkey (stored_row r m v a pk)) with pk. by rewrite lookup_insert_eq. }
  simpl. unfold holds_message. rewrite store_attachments_emails. simpl. apply Exists_app. right. constructor. by left.
Qed.

Lemma store_each_keeps m v to d row : holds_message row d -> holds_message row (store_each lookup uploader m v to d).
Proof.
  intros H. unfold holds_message. destruct (store_each_adds m v to d) as (new & -> & _). apply Exists_app. by left.
Qed.

(** The ids of the runs, and those in the table, are distinct. *)
Lemma store_each_stores m v to d r a pk :
  (r, a) ∈ to -> NoDup (map (fun x => ru_id x.1) to) ->
  Forall (fun x => ~ Exists (fun e => em_id e = ru_id x.1) (db_emails d)) to ->
  Forall (fun x => ru_id x.1 <> "") to ->
  resolve_recipient_pubkey lookup a = Ok pk -> pk <> "" ->
  ru_mailbox r = None -> ru_insert r = None -> columns_fit (stored_row r m v a pk) = true ->
  holds_message (stored_row r m v a pk) (store_each lookup uploader m v to d).
Proof.
  intros Hin Hnd Hfresh Hids Hpk Hne Hm Hi Hfit. revert d Hin Hfresh.
  induction to as [|[r0 a0] to IH]; intros d Hin Hfresh; [by apply elem_of_nil in Hin|].
  unfold store_each. simpl. fold (store_each lookup uploader m v to).
  apply NoDup_cons in Hnd as [Hn Hnd]. apply Forall_cons in Hfresh as [Hf0 Hfresh]. apply Forall_cons in Hids as [Hi0 Hids].
  apply elem_of_cons in Hin as [[= <- <-]|Hin].
  - apply store_each_keeps, store_for_recipient_stores; done.
  - apply IH; [done..|]. apply Forall_forall. intros x Hx. rewrite Forall_forall in Hfresh. specialize (Hfresh x Hx).
    destruct (store_for_recipient lookup uploader r0 m v a0 d) as [d1 e] eqn:Es. simpl.
    apply store_for_recipient_spec in Es as [[-> _]|(pk0 & _ & _ & _ & _ & ->)]; [done|].
    rewrite Exists_app. intros [H|H]; [done|]. apply Exists_cons in H as [H|H]; [|by apply Exists_nil in H].
    simpl in H. destruct Hn. simpl in H, Hi0 |- *. rewrite list_elem_of_In.
    unfold stored_row, created_row, or_else in H. simpl in H. rewrite H. 
    apply in_map_iff. exists x. split; [done|by apply list_elem_of_In].
Qed.

End stored.

(** ** The server and the processor together *)

Lemma run_ids_distinct (runs : nat -> run) (to : list string) :
  (forall j k, ru_id (runs j) = ru_id (runs k) -> j = k) ->
  NoDup (map (fun x : run * string => ru_id x.1) (imap (fun i a => (runs i, a)) to)).
Proof.
  intros Hinj. apply NoDup_alt. intros j k x Hj Hk. rewrite list_lookup_fmap, list_lookup_imap in Hj, Hk.
  destruct (to !! j), (to !! k); simplify_eq/=. apply Hinj. congruence.
Qed.

Section server.
Context (cfg : server_config).
Context (parse_address : string -> option string) (read_message : string -> option mail_message).
Context (lookup : string -> res (option address)).
Context (uploader : option (string -> string -> res stored_blob)).
Context (parse : string -> res parsed_message).
Context (verifier : option (verifiable_email -> verification_result)).

(** A server whose validator and handler are the processor. *)
Definition mail_components limits spf dkim bounce fbl (runs : nat -> run) : components database :=
  Components limits spf dkim bounce fbl (Some (fun _ => validate_recipient lookup))
    (Some (fun dc => handle_message lookup uploader parse verifier runs (dc_from dc) (dc_to dc) (dc_data dc))).

(** C24. From the SMTP dialog to the mailbox: when DATA is answered positively in
    a session reached by any commands, and the message is no report, every
    recipient that was accepted has the message in the mailbox of its owner
    afterwards, or had received it before under the same Message-ID, if the
    statements for that recipient succeed, the row fits its columns and the
    generated ids are new. *)
Theorem accepted_mail_is_delivered limits spf dkim bounce fbl runs remote s st st' now q fault sent m i a
    (comp := mail_components limits spf dkim bounce fbl runs)
    (Hs : reachable cfg comp parse_address read_message remote (s, st))
    (Hsize : 0 <= sc_max_message_size cfg)
    (Hd : data_cmd cfg comp read_message now q fault (BodyRead sent) s st = (st', None))
    (Hrep : presumed_report comp read_message (s_from s) sent = false)
    (Hm : parse sent = Ok m) (Ha : s_to s !! i = Some a)
    (Hids : forall j, ru_id (runs j) <> "") (Hinj : forall j k, ru_id (runs j) = ru_id (runs k) -> j = k)
    (Hfresh : forall j, Forall (fun e => em_id e <> ru_id (runs j)) (db_emails (sv_world st)))
    (Hmb : ru_mailbox (runs i) = None) (Hins : ru_insert (runs i) = None)
    (Hfit : forall pk from, columns_fit (stored_row (runs i) (with_envelope_from from m) (verdict verifier (with_envelope_from from m)) a pk) = true) :
  exists pk row, resolve_recipient_pubkey lookup a = Ok pk /\ pk <> "" /\
    holds_message row (sv_world st') /\ em_mailbox_pubkey row = pk /\ em_to_address row = a /\
    em_body row = pm_body m /\ em_subject row = pm_subject m /\ em_direction row = "received" /\ em_folder row = "INBOX".
Proof.
  destruct (reachable_envelope _ _ _ _ _ _ Hs) as [Hto _]. simpl in Hto.
  pose proof (proj1 (Forall_lookup _ _) Hto i a Ha) as [_ [w Hv]]. simpl in Hv. unfold validate_recipient in Hv.
  destruct (resolve_recipient_pubkey lookup a) as [pk|] eqn:Epk; [|done].
  destruct (String.eqb_spec pk "") as [|Hpk]; [done|].
  destruct (data_handed_over cfg comp read_message _ _ _ _ _ _ _ _ _ eq_refl Hsize Hd) as [[_ Hx]|[_ [[_ Hx]|(dc & e & He & Hr & Ed & Et & Ef)]]];
    [by rewrite Hx in Hrep..|].
  unfold handle_message in He. rewrite Ed, Et, Hm in He. injection He as He _.
  exists pk, (stored_row (runs i) (with_envelope_from (dc_from dc) m) (verdict verifier (with_envelope_from (dc_from dc) m)) a pk).
  split; [done|]. split; [done|]. split.
  - rewrite <- He. eapply (store_each_stores lookup uploader _ _ _ _ (runs i) a pk); try done.
    + apply (elem_of_lookup_imap_2 (fun j b => (runs j, b))). done.
    + by apply run_ids_distinct.
    + apply Forall_forall. intros x (j & b & -> & _)%elem_of_lookup_imap. simpl.
      rewrite Exists_exists. intros (e' & Hin & E). by apply (proj1 (Forall_forall _ _) (Hfresh j)) in Hin.
    + apply Forall_forall. intros x (j & b & -> & _)%elem_of_lookup_imap. exact (Hids j).
  - unfold with_envelope_from. by destruct (String.eqb _ "").
Qed.
End server.

(** ** Witnesses *)

Definition sample_owner : address := Address 1 "bob" "example.org" "bbkey" true true None None.
Definition sample_lookup (e : string) : res (option address) := get_address_by_email e [sample_owner].

(** A reader that cuts one text part off and then breaks off. *)
Definition sample_parts (_ : string) (r : reader) : list part * parts_end :=
  match rd_bytes r with
  | "" => ([], PartsDone)
  | String _ t => ([Part [("Content-Type", "text/plain")] (Reader t false)], PartsBroken "")
  end.
Definition plain_media (s : string) : media := Media s ∅ true.

Definition sample_parsed (cc : list string) : parsed_message :=
  ParsedMessage "" "m1" "ann@example.com" [] cc "hi" 0 "hello" "" ∅ "" "" [] false "" "" [] [].
Definition sample_run (i : nat) : run := Run None None 5 ("row" +:+ pretty (N.of_nat i)) (fun j => pretty (N.of_nat j)).
Definition empty_db : database := Database [] [] ∅.

Lemma plus_tag_reaches_base_witness :
  resolve_recipient_pubkey sample_lookup ("bob" +:+ "+" +:+ "news" +:+ "@" +:+ "example.org") = Ok "bbkey".
Proof.
  rewrite (plus_tag_reaches_base sample_lookup "bob" "news" "example.org"); [reflexivity|..|reflexivity|reflexivity].
  split; [discriminate|]. repeat split.
Defined.

Lemma multipart_parsing_terminates_witness :
  exists out, parse_multipart (fun _ => None) plain_media sample_parts (fun _ => None) 6 "b" (Reader "hello" false) (sample_parsed []) = Some out /\
    parse_multipart (fun _ => None) plain_media sample_parts (fun _ => None) 9 "b" (Reader "hello" false) (sample_parsed []) = Some out.
Proof.
  apply (multipart_parsing_terminates (fun _ => None) plain_media sample_parts (fun _ => None)).
  - intros b [[|c t] f]; simpl; repeat constructor; simpl; lia.
  - unfold multipart_fuel. simpl. lia.
Defined.

Definition sample_multipart : mail_message := MailMessage [("Content-Type", "multipart/mixed")] "-hello".

Lemma truncated_mail_loses_text_witness :
  parse_body (fun _ => None) plain_media sample_parts (fun _ => None) sample_multipart (with_body "" (sample_parsed []))
  = with_body "" (sample_parsed []).
Proof.
  exact (truncated_mail_loses_text (fun _ => None) plain_media sample_parts (fun _ => None) sample_multipart
    (with_body "" (sample_parsed [])) (sample_parsed []) eq_refl eq_refl eq_refl ltac:(discriminate)).
Defined.

Lemma inbound_mail_reaches_recipients_only_witness :
  let x := handle_message sample_lookup None (fun _ => Ok (sample_parsed [])) None sample_run "ann@example.com"
             ["bob@example.org"; "eve@example.org"] "" empty_db in
  length (db_emails x.1) = 1%nat /\
  exists new, db_emails x.1 = db_emails empty_db ++ new /\
    Forall (fun e => exists a, a ∈ ["bob@example.org"; "eve@example.org"] /\
      resolve_recipient_pubkey sample_lookup a = Ok (em_mailbox_pubkey e) /\
      em_mailbox_pubkey e <> "" /\ em_to_address e = a /\ em_direction e = "received" /\
      em_folder e = "INBOX" /\ em_status e = "active" /\ em_read_at e = None) new.
Proof.
  split; [vm_compute; reflexivity|].
  exact (inbound_mail_reaches_recipients_only sample_lookup None (fun _ => Ok (sample_parsed [])) None sample_run
    "ann@example.com" ["bob@example.org"; "eve@example.org"] "" empty_db _ _ (surjective_pairing _)).
Defined.

Definition long_cc : list string := List.repeat "someone@example.org" 20.

Lemma long_cc_mail_lost_witness :
  exists d', handle_message sample_lookup None (fun _ => Ok (sample_parsed long_cc)) None sample_run "ann@example.com"
     ["bob@example.org"] "" empty_db = (d', None) /\ db_emails d' = [].
Proof.
  exact (long_cc_mail_lost sample_lookup None (fun _ => Ok (sample_parsed long_cc)) None sample_run
    "ann@example.com" ["bob@example.org"] "" empty_db (sample_parsed long_cc) eq_refl eq_refl).
Defined.

Abbreviation sample_server := (mail_components sample_lookup None (fun _ => Ok (sample_parsed [])) None None None None false false sample_run).
Definition inbound_session : session := Session "192.0.2.1" "ann@example.com" "example.com" ["bob@example.org"] None.
Definition inbound_state : server_state database := ServerState ConnLimiter.new_limiter [] [] empty_db.

Lemma accepted_mail_is_delivered_witness :
  let x := data_cmd sample_config sample_server (fun _ => None) 0 [] None (BodyRead "hello") inbound_session inbound_state in
  exists pk row, resolve_recipient_pubkey sample_lookup "bob@example.org" = Ok pk /\ pk <> "" /\
    holds_message row (sv_world x.1) /\ em_mailbox_pubkey row = pk /\ em_to_address row = "bob@example.org" /\
    em_body row = "hello" /\ em_subject row = "hi" /\ em_direction row = "received" /\ em_folder row = "INBOX".
Proof.
  apply (accepted_mail_is_delivered sample_config sample_address (fun _ => None) sample_lookup None
    (fun _ => Ok (sample_parsed [])) None None None None false false sample_run "192.0.2.1:2525" inbound_session inbound_state
    _ 0 [] None "hello" (sample_parsed []) 0 "bob@example.org").
  - eapply (reach_step _ _ _ _ _ (CRcpt "bob@example.org")).
    + eapply (reach_step _ _ _ _ _ (CMail "ann@example.com")).
      * eapply (reach_new _ _ _ _ _ 0 inbound_state). vm_compute. reflexivity.
      * vm_compute. reflexivity.
    + vm_compute. reflexivity.
  - vm_compute. discriminate.
  - vm_compute. reflexivity.
  - reflexivity.
  - reflexivity.
  - reflexivity.
  - discriminate.
  - intros j k. simpl. intros E. by simplify_eq.
  - intros j. constructor.
  - reflexivity.
  - reflexivity.
  - intros pk from. vm_compute. reflexivity.
Defined.
