(* ===== verification/EndToEnd.v ===== *)
(** * What one Cloistr server sends, another receives

    [Mime]'s builder against [Inbound]'s parser: the text of a message arrives,
    and its encryption is not recognised.  Of net/mail the class [MailReader]
    states what is used; names and values of fields are those of [Mime]. *)

From S2P Require Import Prelude GoStrings Base64 Bounce Signing Encryption Emails MailOps Session Inbound Mime.
#[local] Open Scope Z_scope.

(** A field name without blanks and colons. *)
Definition token (s : string) : bool :=
  negb (String.eqb s "") && forall_chars (fun c => is_letter c || is_digit c || Ascii.eqb c "-") s.

(** [ReadMessage] on lines "Name: value": if it accepts them, it finds the first
    value of each name, blanks around it dropped, and everything after the
    empty line. *)
Class MailReader (read_message : string -> option mail_message) : Prop := {
  reads_fields : forall (fields : list field) content msg,
    Forall field_ok fields -> Forall (fun f => token f.1 = true) fields ->
    read_message (render fields content) = Some msg ->
    body msg = content /\
    forall n, header_get (header msg) n = trim_right blank_or_tab (trim_left blank_or_tab (header_get fields n)) }.

(** ** Looking fields up *)

Lemma header_get_skip n (a b : list field) :
  Forall (fun f => named n f = false) a -> header_get (a ++ b) n = header_get b n.
Proof. induction 1 as [|[k v] a Hf _ IH]; [done|]. unfold named in Hf. simpl in *. by rewrite Hf. Qed.

Lemma header_get_none n (a : list field) : Forall (fun f => named n f = false) a -> header_get a n = "".
Proof. intros H. by rewrite <- (app_nil_r a), header_get_skip. Qed.

(** The names the builder itself may write before the entity's own fields. *)
Definition envelope_names : list string :=
  ["Message-ID"; "Date"; "From"; "To"; "Cc"; "Subject"; "In-Reply-To"; "References"; "MIME-Version";
   header_nostr_encrypted; header_nostr_sender; header_nostr_recipient; header_nostr_algorithm;
   header_nostr_pubkey; header_nostr_sig; header_nostr_signed_headers].

Section sent.
Context {K : Type} `{Signer K}.
Context (sha256 : string -> string).
Context (check_signature : string -> string -> string -> bool).
Context `{!SignerLaws check_signature K}.
Context (encrypt_content : option (string -> string -> string -> res string)).
Context (quoted_printable : string -> string).
Context (order : gmap string string -> list field).
Context (order_walks : forall h, order h ≡ₚ map_to_list h).
Abbreviation build := (build_raw_email_report sha256 encrypt_content quoted_printable order).
Abbreviation safe := (header_safe_message order).

Definition envelope_field (m : message K) (f : field) : Prop :=
  f.1 ∈ envelope_names \/ exists k v, m_headers m !! k = Some v /\ f.1 = header_safe k.

Lemma in_names n : bool_decide (n ∈ envelope_names) = true -> forall m v, envelope_field m (n, v).
Proof. intros Hn%bool_decide_eq_true m v. by left. Qed.

Ltac own_names :=
  repeat match goal with
  | |- Forall _ (if ?b then _ else _) => destruct b
  | |- Forall _ [] => apply List.Forall_nil
  | |- Forall _ (_ :: _) => apply Forall_cons; split; [by apply in_names|]
  end.

Lemma message_fields_names (c : readings) (m : message K) :
  Forall (envelope_field m) (message_fields order c (safe m)).
Proof.
  assert (Forall (envelope_field m) (order (m_headers (safe m)))) as Hcustom.
  { apply (walk_forall order order_walks). intros k v (k0 & v0 & Hk & -> & _)%(custom_field_from order order_walks).
    right. eauto. }
  unfold message_fields. rewrite !Forall_app. split_and!; try exact Hcustom; own_names.
Qed.

Lemma encryption_fields_names (m m0 : message K) body ise to l :
  encryption_step encrypt_content m = Ok (body, ise, to, l) -> Forall (envelope_field m0) l.
Proof.
  unfold encryption_step. destruct (m_encryption_requested m && _).
  - destruct encrypt_content; [|done]. go_match. intros E; simplify_eq. own_names.
  - destruct (m_is_pre_encrypted m); intros E; simplify_eq/=; [|constructor].
    rewrite Forall_cons, !Forall_app. split_and!; [by apply in_names| |destruct (announced_key m)|]; own_names.
Qed.

Lemma signature_fields_names (c : readings) (m m0 : message K) body :
  Forall (envelope_field m0) (signature_fields sha256 order c m body).
Proof.
  unfold signature_fields, smtp_sign_email. destruct (m_signer m) as [k|]; [|constructor].
  destruct (sign_message sha256 k _); [|constructor].
  apply (walk_forall order order_walks). intros n v Hl. apply elem_of_list_to_map_2 in Hl.
  rewrite !elem_of_cons in Hl.
  destruct Hl as [[= -> ->]|[[= -> ->]|[[= -> ->]|Hl]]]; [by apply in_names..|by apply elem_of_nil in Hl].
Qed.

(** The fields that describe the entity, and the one the receiver looks for. *)
Definition entity_names : list string := ["Content-Type"; "Content-Transfer-Encoding"; "X-Nostr-Encryption"].

(** The custom headers are named like headers, and not like these. *)
Definition plain_custom (m : message K) : Prop :=
  map_Forall (fun k _ => token (header_safe k) = true /\
    Forall (fun n => equal_fold (header_safe k) n = false) entity_names) (m_headers m).

Lemma envelope_field_plain (m : message K) f :
  plain_custom m -> envelope_field m f ->
  token f.1 = true /\ Forall (fun n => named n f = false) entity_names.
Proof.
  intros Hc [Hin|(k & v & Hk & E)]; unfold named.
  - revert Hin. generalize f.1. apply (proj1 (Forall_forall _ envelope_names)).
    refine (proj1 (bool_decide_eq_true _) _). vm_compute. reflexivity.
  - rewrite E. exact (Hc _ _ Hk).
Qed.

(** A built message without attachments whose body is one text. *)
Lemma built_text (c : readings) (m : message K) raw to :
  single_line (r_date c) = true -> keys_single m -> plain_custom m -> m_attachments m = [] ->
  (m_html_body m = "" \/ m_encryption_requested m = true \/ m_is_pre_encrypted m = true) ->
  build c m = Ok (raw, to) ->
  exists body ise enc pre,
    encryption_step encrypt_content (safe (with_message_id c m)) = Ok (body, ise, to, enc) /\
    raw = render (pre ++ [("Content-Type", "text/plain; charset=utf-8"); ("Content-Transfer-Encoding", "base64")])
            (wrapped_base64 body) /\
    Forall field_ok pre /\ Forall (fun f => token f.1 = true /\ Forall (fun n => named n f = false) entity_names) pre.
Proof.
  intros Hdate Hkeys Hcustom Hatt Hone Hbuilt.
  unfold build_raw_email_report in Hbuilt. destruct (String.eqb (trim_space _) ""); [done|].
  destruct (with_id_same c m) as (_ & Eh & Ek). specialize (Ek Hkeys).
  assert (m_attachments (with_message_id c m) = [] /\ m_html_body (with_message_id c m) = m_html_body m /\
    m_encryption_requested (with_message_id c m) = m_encryption_requested m /\
    m_is_pre_encrypted (with_message_id c m) = m_is_pre_encrypted m) as (Ea & Ehtml & Ereq & Epre)
    by (unfold with_message_id; by destruct (negb _)).
  revert Hbuilt Eh Ek Ea Ehtml Ereq Epre. generalize (with_message_id c m). intros m' Hbuilt Eh Ek Ea Ehtml Ereq Epre.
  unfold build_entity in Hbuilt.
  destruct (encryption_step encrypt_content (safe m')) as [[[[body ise] t] enc]|] eqn:Ee; [|done]. cbn [res_bind] in Hbuilt.
  pose proof (encryption_fields_ok encrypt_content order _ _ _ _ _ Ek Ee) as Henc.
  pose proof (encryption_fields_names _ m _ _ _ _ Ee) as Hencn.
  pose proof (signature_fields_ok sha256 check_signature quoted_printable order order_walks c (safe m') body) as Hsig.
  pose proof (signature_fields_names c (safe m') m body) as Hsign.
  pose proof (safe_fields_ok order order_walks c m' Hdate) as Hmf.
  pose proof (message_fields_names c m') as Hmfn.
  assert (content_entity quoted_printable c (safe m') body ise =
    ([("Content-Type", "text/plain; charset=utf-8"); ("Content-Transfer-Encoding", "base64")], wrapped_base64 body)) as Hent.
  { unfold content_entity, body_entity. rewrite (bool_decide_eq_true_2 (m_attachments (safe m') = [])) by (simpl; by rewrite Ea).
    assert (negb (String.eqb (m_html_body (safe m')) "") && negb ise = false) as ->; [|done].
    destruct Hone as [Hh|Hx]; [simpl; by rewrite Ehtml, Hh|].
    assert (ise = true) as ->; [|apply andb_false_r]. revert Ee. unfold encryption_step. simpl. rewrite Ereq, Epre.
    destruct (m_encryption_requested m && negb (m_is_pre_encrypted m)) eqn:Eq.
    - destruct encrypt_content; [|done]. go_match. by intros E; simplify_eq.
    - destruct (m_is_pre_encrypted m); [by intros E; simplify_eq|]. destruct Hx as [Hx|]; [by rewrite Hx in Eq|done]. }
  rewrite Hent in Hbuilt. cbn [res_bind] in Hbuilt. clear Hent.
  revert Hbuilt Hsig Hsign Hmf Hmfn.
  generalize (message_fields order c (safe m')), (signature_fields sha256 order c (safe m') body).
  intros std sig Hbuilt Hsig Hsign Hmf Hmfn. injection Hbuilt as <- <-.
  exists body, ise, enc, (std ++ enc ++ sig).
  split; [done|]. split; [by rewrite <- !app_assoc|]. split.
  - rewrite !Forall_app. split_and!; [done|exact (own_ok _ Henc)|exact (own_ok _ Hsig)].
  - assert (Forall (envelope_field m) std) as Hmfn'.
    { eapply Forall_impl; [exact Hmfn|]. intros f [?|(k & v & Hk & E)]; [by left|]. right. rewrite Eh in Hk. eauto. }
    apply (Forall_impl (envelope_field m)); [|intros f; by apply envelope_field_plain].
    rewrite !Forall_app. by split_and!.
Qed.

(** ** Receiving it *)

Context (qp_decode : string -> option string).
Context (read_message : string -> option mail_message) `{!MailReader read_message}.
Context (parse_media_type : string -> media).
Context (mime_parts : string -> reader -> list part * parts_end).
Context (extension : string -> option string).
Context (parse_address : string -> option string).
Context (parse_address_list : string -> option (list string)).
Context (parse_date : string -> option Z).
Context (decode_words : string -> option string).
Context (plain_text : parse_media_type "text/plain; charset=utf-8" = Media "text/plain" {[ "charset" := "utf-8" ]} true).

Abbreviation receive := (parse_message qp_decode read_message parse_media_type mime_parts extension
  parse_address parse_address_list parse_date decode_words).

Lemma encode_no_blank s : forall_chars (fun c => negb (is_blank c)) (encode s) = true.
Proof. by apply encode_chars. Qed.

Lemma wrapped_decodes qp b : decode_transfer_encoding qp (wrapped_base64 b) "base64" = b.
Proof.
  unfold decode_transfer_encoding. change (String.eqb (to_lower (trim_space "base64")) "base64") with true. cbv iota.
  destruct (wrap_loop_lines (S (String.length (encode b))) (encode b)) as (lines & El & _ & Hc & _); [lia|].
  assert (filter_chars (fun c => negb (is_blank c)) (wrapped_base64 b) = encode b) as ->.
  { rewrite <- (filter_all _ _ (encode_no_blank b)), <- Hc. unfold wrapped_base64. rewrite El. simpl default.
    clear. induction lines as [|l lines IH]; [done|].
    change (concat_str (l :: lines)) with (l +:+ concat_str lines).
    destruct lines as [|l' lines]; [by rewrite app_nil_r_str|]. rewrite join_cons by done.
    by rewrite !filter_app_chars, IH. }
  unfold decode. rewrite filter_all by apply encode_no_newline. by rewrite decode_groups_encode.
Qed.

(** The fields of the one text part, as the receiver sees them. *)
Lemma received_fields pre body msg :
  let fields := pre ++ [("Content-Type", "text/plain; charset=utf-8"); ("Content-Transfer-Encoding", "base64")] in
  Forall field_ok pre -> Forall (fun f => token f.1 = true /\ Forall (fun n => named n f = false) entity_names) pre ->
  read_message (render fields (wrapped_base64 body)) = Some msg ->
  Bounce.body msg = wrapped_base64 body /\ header_get (header msg) "Content-Type" = "text/plain; charset=utf-8" /\
  header_get (header msg) "Content-Transfer-Encoding" = "base64" /\ header_get (header msg) "X-Nostr-Encryption" = "".
Proof.
  intros fields Hok Hn Hread. unfold fields in *.
  assert (forall n, n ∈ entity_names -> Forall (fun f => named n f = false) pre) as Hpre.
  { intros n Hin. eapply Forall_impl; [exact Hn|]. intros f [_ Hf]. exact (proj1 (Forall_forall _ _) Hf n Hin). }
  apply reads_fields in Hread as [Hb Hh].
  - rewrite Hb, !Hh, !header_get_skip by (apply Hpre; unfold entity_names; set_solver). done.
  - rewrite Forall_app. split; [done|]. by repeat constructor.
  - rewrite Forall_app. split; [|by repeat constructor]. eapply Forall_impl; [exact Hn|]. by intros f [].
Qed.

(** A received text part. *)
Lemma receive_text now pre body raw msg :
  raw = render (pre ++ [("Content-Type", "text/plain; charset=utf-8"); ("Content-Transfer-Encoding", "base64")])
          (wrapped_base64 body) ->
  Forall field_ok pre -> Forall (fun f => token f.1 = true /\ Forall (fun n => named n f = false) entity_names) pre ->
  read_message raw = Some msg ->
  exists pm, receive now raw = Ok pm /\ pm_body pm = body /\ pm_html_body pm = "" /\ pm_attachments pm = [] /\
    pm_is_encrypted pm = false.
Proof.
  intros -> Hok Hn Hread. destruct (received_fields _ _ _ Hok Hn Hread) as (Hb & Hct & Hcte & Hx).
  unfold parse_message. rewrite Hread. eexists. split; [reflexivity|].
  unfold parse_body. rewrite Hct, Hcte, Hx, Hb. simpl String.eqb. cbv iota.
  rewrite plain_text. cbn [md_ok md_type negb]. simpl has_prefix. cbv iota.
  rewrite wrapped_decodes. done.
Qed.

(** C27. What one Cloistr server sends in the clear another one reads: a text
    message that the builder made and the mail parser accepts is received with
    exactly its text, and nothing else as body or attachment. *)
Theorem sent_text_is_received (c : readings) (m : message K) raw to msg now
    (Hdate : single_line (r_date c) = true) (Hkeys : keys_single m) (Hcustom : plain_custom m)
    (Hatt : m_attachments m = []) (Hhtml : m_html_body m = "")
    (Hreq : m_encryption_requested m = false) (Hpre : m_is_pre_encrypted m = false)
    (Hbuilt : build c m = Ok (raw, to)) (Hread : read_message raw = Some msg) :
  exists pm, receive now raw = Ok pm /\ pm_body pm = m_body m /\ pm_html_body pm = "" /\ pm_attachments pm = [].
Proof.
  destruct (built_text c m raw to Hdate Hkeys Hcustom Hatt (or_introl Hhtml) Hbuilt)
    as (body & ise & enc & pre & Ee & Eraw & Hok & Hn).
  assert (body = m_body m) as ->.
  { assert (m_encryption_requested (with_message_id c m) = false /\ m_is_pre_encrypted (with_message_id c m) = false /\
      m_body (with_message_id c m) = m_body m) as (Er & Ep & Eb) by (unfold with_message_id; by destruct (negb _)).
    unfold encryption_step in Ee. simpl in Ee. rewrite Er, Ep in Ee. simpl in Ee. by simplify_eq. }
  destruct (receive_text now _ _ _ _ Eraw Hok Hn Hread) as (pm & ? & ? & ? & ? & _). by exists pm.
Qed.

(** The encryption of a message is lost on the way: a message sent encrypted,
    by the client or by the server, arrives as its ciphertext but is not
    recognised as encrypted, because the receiver looks for a header the
    builder does not write; its row is stored as unencrypted, and reading it
    answers the ciphertext as the text of the mail. *)
Theorem sealed_mail_arrives_unmarked (c : readings) (m : message K) raw to msg now
    (Hdate : single_line (r_date c) = true) (Hkeys : keys_single m) (Hcustom : plain_custom m)
    (Hatt : m_attachments m = [])
    (Hsealed : m_encryption_requested m = true \/ m_is_pre_encrypted m = true)
    (Hbuilt : build c m = Ok (raw, to)) (Hread : read_message raw = Some msg) :
  exists pm ciphertext, receive now raw = Ok pm /\ pm_body pm = ciphertext /\
    (exists fields, encryption_step encrypt_content (safe (with_message_id c m)) = Ok (ciphertext, true, to, fields) /\
       In (header_nostr_encrypted, "true") fields) /\
    forall decrypt user r v a pk from,
      let row := stored_row r (with_envelope_from from pm) v a pk in
      stored_mode row = ModeNone /\ opened_body decrypt user row (stored_mode row) = (ciphertext, "", false).
Proof.
  destruct (built_text c m raw to Hdate Hkeys Hcustom Hatt (or_intror Hsealed) Hbuilt)
    as (body & ise & enc & pre & Ee & Eraw & Hok & Hn).
  destruct (receive_text now _ _ _ _ Eraw Hok Hn Hread) as (pm & Hrec & Hb & _ & _ & Hx).
  exists pm, body. split; [done|]. split; [done|]. split.
  - assert (ise = true /\ In (header_nostr_encrypted, "true") enc) as [-> Hin]; [|by exists enc].
    assert (m_encryption_requested (with_message_id c m) = m_encryption_requested m /\
      m_is_pre_encrypted (with_message_id c m) = m_is_pre_encrypted m) as (Er & Ep)
      by (unfold with_message_id; by destruct (negb _)).
    revert Ee. unfold encryption_step. simpl. rewrite Er, Ep.
    destruct (m_encryption_requested m && negb (m_is_pre_encrypted m)) eqn:Eq.
    + destruct encrypt_content; [|done]. go_match. intros E; simplify_eq. split; [done|by left].
    + destruct (m_is_pre_encrypted m); [intros E; simplify_eq; split; [done|by left]|].
      destruct Hsealed as [Hs|]; [by rewrite Hs in Eq|done].
  - intros decrypt user r v a pk from row.
    assert (stored_mode row = ModeNone) as Emode.
    { unfold stored_mode, row, stored_row, with_envelope_from. simpl. destruct (String.eqb _ ""); simpl; by rewrite Hx. }
    split; [done|]. rewrite Emode. unfold opened_body. simpl. unfold row, stored_row, with_envelope_from.
    destruct (String.eqb _ ""); simpl; by rewrite Hb.
Qed.

End sent.

(** * A reader of the builder's format *)

Definition trim_blank (v : string) : string := trim_right blank_or_tab (trim_left blank_or_tab v).

Definition split_line (l : string) : string * string :=
  match cut ":" l with Some (k, v) => (k, trim_blank v) | None => (l, "") end.

Definition read_mail (s : string) : option mail_message :=
  r ← read_header (S (String.length s)) s; Some (MailMessage (map split_line r.1) r.2).

Lemma read_header_more k k' s r : (k <= k')%nat -> read_header k s = Some r -> read_header k' s = Some r.
Proof.
  revert k' s r. induction k as [|k IH]; intros [|k'] s r Hk; try done; [lia|]. simpl.
  destruct (cut_line s) as [[l rest]|]; [|done]. destruct (String.eqb l ""); [done|].
  intros (x & Ex & ->)%fmap_Some. by rewrite (IH k' _ x) by (done || lia).
Qed.

Lemma render_length (fields : list field) content : (length fields <= String.length (render fields content))%nat.
Proof.
  unfold render. induction fields as [|f fields IH]; [simpl; lia|].
  change (concat_str (map hdr (f :: fields))) with (hdr f +:+ concat_str (map hdr fields)).
  rewrite app_assoc_str, length_app_str. revert IH. generalize (concat_str (map hdr fields) +:+ CRLF +:+ content).
  intros rest IH. unfold hdr. rewrite !length_app_str. simpl. lia.
Qed.

Lemma split_field_line f : token f.1 = true -> split_line (field_line f) = (f.1, trim_blank f.2).
Proof.
  intros Ht. unfold split_line, field_line.
  change (f.1 +:+ ": " +:+ f.2) with (f.1 +:+ String ":" (String " " f.2)).
  rewrite cut_app; [done|]. unfold token in Ht. reflect_bools. eapply forall_chars_impl; [|done].
  intros c Hc. destruct (Ascii.eqb_spec ":" c) as [<-|]; done.
Qed.

#[export] Instance read_mail_reads : MailReader read_mail.
Proof.
  constructor. intros fields content msg Hok Ht. unfold read_mail.
  rewrite (read_header_more (S (length fields)) _ _ (map field_line fields, content));
    [|pose proof (render_length fields content); lia|by apply read_render].
  intros [= <-]. simpl. split; [done|]. intros n. clear Hok. induction Ht as [|[k v] fields Hf _ IH]; [done|].
  cbn [map]. rewrite split_field_line by done. simpl. destruct (equal_fold k n); [done|]. exact IH.
Qed.

(** ** Witnesses *)

Definition text_message (sealed : bool) : message unit :=
  Message "alice@cloistr.xyz" ["bob@example.com"] [] [] "aa" {[ "bob@example.com" := "bb" ]} "lunch"
    "the plan" "" false ∅ sealed "id@cloistr.xyz" "" [] ∅ (Some tt) [].

Definition text_raw (sealed : bool) : string :=
  match build_raw_email_report sample_digest sample_cipher (fun s => s) map_to_list sample_clock (text_message sealed) with
  | Ok (raw, _) => raw
  | Err _ => ""
  end.
Definition text_read (sealed : bool) : mail_message := default (MailMessage [] "") (read_mail (text_raw sealed)).

Definition sample_media (s : string) : media :=
  if String.eqb s "text/plain; charset=utf-8" then Media "text/plain" {[ "charset" := "utf-8" ]} true else Media s ∅ true.

Abbreviation sample_receive := (parse_message (fun _ => None) read_mail sample_media (fun _ _ => ([], PartsDone))
  (fun _ => None) (fun _ => None) (fun _ => None) (fun _ => None) (fun _ => None)).

Lemma sent_text_is_received_witness :
  exists pm, sample_receive 7 (text_raw false) = Ok pm /\ pm_body pm = "the plan" /\ pm_html_body pm = "" /\
    pm_attachments pm = [].
Proof.
  apply (sent_text_is_received sample_digest sample_check sample_cipher (fun s => s) map_to_list
    (fun h => Permutation_refl _) (fun _ => None) read_mail sample_media (fun _ _ => ([], PartsDone))
    (fun _ => None) (fun _ => None) (fun _ => None) (fun _ => None) (fun _ => None) eq_refl
    sample_clock (text_message false) (text_raw false) "" (text_read false) 7).
  - reflexivity.
  - split; [reflexivity|]. refine (proj1 (bool_decide_eq_true _) _). vm_compute. reflexivity.
  - refine (proj1 (bool_decide_eq_true _) _). vm_compute. reflexivity.
  - reflexivity.
  - reflexivity.
  - reflexivity.
  - reflexivity.
  - vm_compute. reflexivity.
  - vm_compute. reflexivity.
Defined.

Lemma sealed_mail_arrives_unmarked_witness :
  exists pm ciphertext, sample_receive 7 (text_raw true) = Ok pm /\ pm_body pm = ciphertext /\
    (exists fields, encryption_step sample_cipher (header_safe_message map_to_list (with_message_id sample_clock (text_message true)))
       = Ok (ciphertext, true, "bob@example.com", fields) /\ In (header_nostr_encrypted, "true") fields) /\
    forall decrypt user r v a pk from,
      let row := stored_row r (with_envelope_from from pm) v a pk in
      stored_mode row = ModeNone /\ opened_body decrypt user row (stored_mode row) = (ciphertext, "", false).
Proof.
  apply (sealed_mail_arrives_unmarked sample_digest sample_check sample_cipher (fun s => s) map_to_list
    (fun h => Permutation_refl _) (fun _ => None) read_mail sample_media (fun _ _ => ([], PartsDone))
    (fun _ => None) (fun _ => None) (fun _ => None) (fun _ => None) (fun _ => None) eq_refl
    sample_clock (text_message true) (text_raw true) "bob@example.com" (text_read true) 7).
  - reflexivity.
  - split; [reflexivity|]. refine (proj1 (bool_decide_eq_true _) _). vm_compute. reflexivity.
  - refine (proj1 (bool_decide_eq_true _) _). vm_compute. reflexivity.
  - reflexivity.
  - by left.
  - vm_compute. reflexivity.
  - vm_compute. reflexivity.
Defined.
