(* ===== verification/Blobseal.v ===== *)
(** * Sealed attachment blobs: internal/blobseal/blobseal.go

    XChaCha20-Poly1305 is the library's: the class [AEAD], of which [AEADLaws]
    states that opening inverts sealing, and only what was sealed under the same
    key, nonce and associated data opens (an ideal cipher).  The random bytes of
    a call are explicit. *)

From S2P Require Import Prelude GoStrings Base64.
#[local] Open Scope Z_scope.

Class AEAD := {
  aead_seal : string -> string -> string -> string -> string;
  aead_open : string -> string -> string -> string -> option string }.

Class AEADLaws `{AEAD} : Prop := {
  aead_opens : forall k n p a, aead_open k n (aead_seal k n p a) a = Some p;
  aead_tag : forall k n p a, (16 <= String.length (aead_seal k n p a))%nat;
  aead_authentic : forall k n c a p, aead_open k n c a = Some p -> c = aead_seal k n p a;
  aead_binds : forall k n p a p' a', aead_seal k n p a = aead_seal k n p' a' -> a = a' }.

Definition KEKSize : nat := 32.
Definition nonce_size : nat := 24.
Definition overhead : nat := 16.
Definition key_prefix : string := "v1.".
Definition blob_aad : string := "cloistr-email/attachment-blob/v1".
Definition key_aad : string := "cloistr-email/attachment-key/v1".
Definition nul : ascii := "000".

Definition ErrOpen : error := Sentinel "sealed blob could not be opened".
Definition ErrNoBinding : error := Sentinel "sealing requires the attachment row id".

(** What [rand.Read] gives for the blob's key and the two nonces. *)
Record entropy := Entropy { en_key : res string; en_blob_nonce : res string; en_key_nonce : res string }.

Definition new_sealer (kek_base64 : string) : res string :=
  match decode (trim_space kek_base64) with
  | None => Err (Sentinel "attachment KEK is not valid base64")
  | Some kek =>
      if negb (Nat.eqb (String.length kek) KEKSize) then Err (Sentinel "attachment KEK has the wrong length")
      else if forall_chars (Ascii.eqb nul) kek then Err (Sentinel "attachment KEK is all zero")
      else Ok kek
  end.

Definition key_aad_for (binding : string) : string := key_aad +:+ String nul binding.

Section sealing.
Context `{AEAD}.

Definition bad_key : error := Sentinel "chacha20poly1305: bad key length".

Definition seal (key plaintext aad : string) (nonce : res string) : res string :=
  if negb (Nat.eqb (String.length key) KEKSize) then Err bad_key
  else
    let! n := wrap "generate nonce" nonce in
    Ok (n +:+ aead_seal key n plaintext aad).

Definition open (key sealed aad : string) : res string :=
  if negb (Nat.eqb (String.length key) KEKSize) then Err bad_key
  else if Nat.ltb (String.length sealed) (nonce_size + overhead) then Err (Sentinel "ciphertext too short")
  else match aead_open key (take_str nonce_size sealed) (drop_str nonce_size sealed) aad with
       | Some p => Ok p
       | None => Err (Sentinel "message authentication failed")
       end.

(** The blob to upload and the wrapped key. *)
Definition seal_blob (kek plaintext binding : string) (e : entropy) : res (string * string) :=
  if String.eqb binding "" then Err ErrNoBinding
  else
    let! key := wrap "generate blob key" (en_key e) in
    let! blob := seal key plaintext blob_aad (en_blob_nonce e) in
    let! wrapped := seal kek key (key_aad_for binding) (en_key_nonce e) in
    Ok (blob, key_prefix +:+ raw_url_encode wrapped).

Definition cannot_open {A} (why : string) : res A := Err (Wrapped why ErrOpen).

Definition open_blob (kek wrapped_key blob binding : string) : res string :=
  if String.eqb binding "" then cannot_open "no row binding"
  else if negb (has_prefix wrapped_key key_prefix) then cannot_open "missing or unknown key format"
  else match raw_url_decode (drop_str (String.length key_prefix) wrapped_key) with
       | None => cannot_open "malformed key"
       | Some wrapped =>
           match open kek wrapped (key_aad_for binding) with
           | Err _ => cannot_open "key does not unwrap"
           | Ok key => match open key blob blob_aad with
                       | Err _ => cannot_open "blob does not decrypt"
                       | Ok plaintext => Ok plaintext
                       end
           end
       end.

(** * Properties *)

Lemma new_sealer_size kek64 kek : new_sealer kek64 = Ok kek -> String.length kek = KEKSize.
Proof.
  unfold new_sealer. destruct (decode _) as [k|]; [|done].
  destruct (Nat.eqb_spec (String.length k) KEKSize); [|done]. simpl. destruct (forall_chars _ k); [done|]. by intros [= <-].
Qed.

Lemma take_app_str a b : take_str (String.length a) (a +:+ b) = a.
Proof. unfold take_str. induction a as [|c a IH]; [by destruct b|]. simpl. by rewrite IH. Qed.
Lemma drop_app_str a b : drop_str (String.length a) (a +:+ b) = b.
Proof. by induction a. Qed.

Lemma open_blob_errors kek w blob b e : open_blob kek w blob b = Err e -> errors_is e ErrOpen = true.
Proof. unfold open_blob, cannot_open. go_match; by intros [= <-]. Qed.

Context `{!AEADLaws}.

Lemma open_seal key p a a' n s :
  String.length key = KEKSize -> String.length n = nonce_size -> seal key p a (Ok n) = Ok s ->
  match open key s a' with
  | Ok p' => a' = a /\ p' = p
  | Err _ => a' <> a
  end.
Proof.
  intros Hk Hn. unfold seal, open. rewrite Hk. simpl negb. cbv iota. intros [= <-].
  rewrite length_app_str, Hn. pose proof (aead_tag key n p a).
  destruct (Nat.ltb_spec (nonce_size + String.length (aead_seal key n p a)) (nonce_size + overhead)) as [Hl|_];
    [unfold overhead in Hl; lia|].
  rewrite <- Hn, take_app_str, drop_app_str.
  destruct (aead_open key n (aead_seal key n p a) a') as [p'|] eqn:E.
  - apply aead_authentic in E as E'. apply aead_binds in E'. subst a'. rewrite aead_opens in E. by injection E.
  - intros ->. by rewrite aead_opens in E.
Qed.

Lemma key_aad_inj b b' : key_aad_for b = key_aad_for b' -> b = b'.
Proof. unfold key_aad_for. intros E%app_inv_head_str. by injection E. Qed.

(** What opening a sealed blob comes down to. *)
Lemma sealed_shape kek plaintext row key n1 n2 blob w :
  String.length kek = KEKSize -> String.length key = KEKSize ->
  String.length n1 = nonce_size -> String.length n2 = nonce_size ->
  seal_blob kek plaintext row (Entropy (Ok key) (Ok n1) (Ok n2)) = Ok (blob, w) ->
  row <> "" /\ exists wrapped, w = key_prefix +:+ raw_url_encode wrapped /\
    open key blob blob_aad = Ok plaintext /\ open kek wrapped (key_aad_for row) = Ok key /\
    forall other k, open kek wrapped (key_aad_for other) = Ok k -> other = row.
Proof.
  intros Hk Hkey Hn1 Hn2 Hseal.
  unfold seal_blob in Hseal. destruct (String.eqb_spec row "") as [|Hrow]; [done|]. split; [done|].
  cbn [wrap en_key en_blob_nonce en_key_nonce res_bind] in Hseal.
  destruct (seal key plaintext blob_aad (Ok n1)) as [blob'|] eqn:Eb; [|done]. cbn [res_bind] in Hseal.
  destruct (seal kek key (key_aad_for row) (Ok n2)) as [wrapped|] eqn:Ew; [|done]. cbn [res_bind] in Hseal.
  injection Hseal as <- <-. exists wrapped. split; [done|].
  pose proof (open_seal key plaintext blob_aad blob_aad n1 blob' Hkey Hn1 Eb) as Hb.
  pose proof (open_seal kek key (key_aad_for row) (key_aad_for row) n2 wrapped Hk Hn2 Ew) as Hw. split; [|split].
  - destruct (open key blob' blob_aad); [|done]. by destruct Hb as [_ ->].
  - destruct (open kek wrapped (key_aad_for row)); [|done]. by destruct Hw as [_ ->].
  - intros other k Ho. pose proof (open_seal kek key (key_aad_for row) (key_aad_for other) n2 wrapped Hk Hn2 Ew) as Hx.
    rewrite Ho in Hx. destruct Hx as [E _]. by apply key_aad_inj in E.
Qed.

Lemma open_blob_unfold kek wrapped blob b :
  b <> "" -> open_blob kek (key_prefix +:+ raw_url_encode wrapped) blob b =
  match open kek wrapped (key_aad_for b) with
  | Err _ => cannot_open "key does not unwrap"
  | Ok key => match open key blob blob_aad with
              | Err _ => cannot_open "blob does not decrypt"
              | Ok plaintext => Ok plaintext
              end
  end.
Proof.
  intros Hb. unfold open_blob. rewrite (proj2 (String.eqb_neq _ _) Hb).
  rewrite (proj2 (has_prefix_spec _ key_prefix)) by eauto. cbn [negb]. by rewrite drop_app_str, raw_url_round_trip.
Qed.

Lemma sealed_opens kek plaintext row key n1 n2 blob w :
  String.length kek = KEKSize -> String.length key = KEKSize ->
  String.length n1 = nonce_size -> String.length n2 = nonce_size ->
  seal_blob kek plaintext row (Entropy (Ok key) (Ok n1) (Ok n2)) = Ok (blob, w) ->
  w <> "" /\ open_blob kek w blob row = Ok plaintext.
Proof.
  intros Hk Hkey Hn1 Hn2 Hseal.
  destruct (sealed_shape _ _ _ _ _ _ _ _ Hk Hkey Hn1 Hn2 Hseal) as (Hrow & wrapped & -> & Hb & Hw & _).
  split; [done|]. by rewrite open_blob_unfold, Hw, Hb.
Qed.

(** A sealed attachment opens for its own row and for no other: with the
    wrapped key and the blob that sealing returned, opening under the row id
    that was sealed gives the bytes back, and under any other id it fails with
    [ErrOpen], so that a key copied to another row is useless. *)
Theorem sealed_blob_opens_for_its_row kek kek64 plaintext row blob w key n1 n2 other
    (Hkek : new_sealer kek64 = Ok kek)
    (Hkey : String.length key = KEKSize) (Hn1 : String.length n1 = nonce_size) (Hn2 : String.length n2 = nonce_size)
    (Hseal : seal_blob kek plaintext row (Entropy (Ok key) (Ok n1) (Ok n2)) = Ok (blob, w)) :
  open_blob kek w blob row = Ok plaintext /\
  (other <> row -> exists e, open_blob kek w blob other = Err e /\ errors_is e ErrOpen = true).
Proof.
  apply new_sealer_size in Hkek as Hk.
  split; [by apply (sealed_opens kek plaintext row key n1 n2)|]. intros Ho.
  destruct (sealed_shape _ _ _ _ _ _ _ _ Hk Hkey Hn1 Hn2 Hseal) as (_ & wrapped & -> & _ & _ & Honly).
  assert (exists e, open_blob kek (key_prefix +:+ raw_url_encode wrapped) blob other = Err e) as [e He].
  { destruct (String.eqb_spec other "") as [->|Hne]; [eexists; reflexivity|]. rewrite open_blob_unfold by done.
    destruct (open kek wrapped (key_aad_for other)) as [k|] eqn:E; [|eexists; reflexivity]. by apply Honly in E. }
  exists e. split; [done|]. by eapply open_blob_errors.
Qed.

End sealing.

(** ** A cipher with the laws, for witnesses *)

Definition toy_head (a : string) : string := "0123456789abcdef" +:+ encode a +:+ ".".
#[export] Instance toy_aead : AEAD := {
  aead_seal _ _ p a := toy_head a +:+ p;
  aead_open _ _ c a := if has_prefix c (toy_head a) then Some (drop_str (String.length (toy_head a)) c) else None }.

Lemma encode_no_dot s : no_char "." (encode s) = true.
Proof. by apply encode_chars. Qed.

#[export] Instance toy_aead_laws : AEADLaws.
Proof.
  split; unfold aead_seal, aead_open, toy_aead.
  - intros _ _ p a. rewrite (proj2 (has_prefix_spec _ (toy_head a))) by eauto. by rewrite drop_app_str.
  - intros _ _ p a. unfold toy_head. rewrite !length_app_str. simpl. lia.
  - intros _ _ c a p. destruct (has_prefix c (toy_head a)) eqn:E; [|done]. apply has_prefix_spec in E as [t ->].
    rewrite drop_app_str. by intros [= ->].
  - intros _ _ p a p' a' E. unfold toy_head in E. rewrite !app_assoc_str in E. apply app_inv_head_str in E.
    change ("." +:+ p) with (String "." p) in E. change ("." +:+ p') with (String "." p') in E.
    apply sep_inj_l in E as [E _]; [|apply encode_no_dot..].
    apply (f_equal decode_groups) in E. rewrite !decode_groups_encode in E. by injection E.
Qed.

Definition sample_kek : string := "12345678901234567890123456789012".
Definition sample_entropy : entropy :=
  Entropy (Ok "abcdefghijklmnopqrstuvwxyzabcdef") (Ok "nonce-nonce-nonce-nonce-") (Ok "other-other-other-other-").

Lemma sealed_blob_opens_for_its_row_witness :
  exists blob w, seal_blob sample_kek "report.pdf" "row1" sample_entropy = Ok (blob, w) /\
    open_blob sample_kek w blob "row1" = Ok "report.pdf" /\
    ("row2" <> "row1" -> exists e, open_blob sample_kek w blob "row2" = Err e /\ errors_is e ErrOpen = true).
Proof.
  eexists _, _. split; [vm_compute; reflexivity|].
  apply (sealed_blob_opens_for_its_row sample_kek (encode sample_kek) "report.pdf" "row1" _ _
    "abcdefghijklmnopqrstuvwxyzabcdef" "nonce-nonce-nonce-nonce-" "other-other-other-other-" "row2").
  all: vm_compute; reflexivity.
Defined.
