(* ===== verification/Blossom.v ===== *)
(** * The Blossom client: internal/blossom/client.go and auth.go

    A server's answer to a request is an oracle, asked with the position of the
    attempt.  SHA-256, the JSON of an event and go-nostr's signature check are
    parameters.  Operations return the requests they made. *)

From S2P Require Import Prelude GoStrings Nostr Base64.
#[local] Open Scope Z_scope.

(** ** Authorization events *)

Definition auth_event_kind : Z := 24242.

Record auth_signer := AuthSigner {
  as_sign : string -> list string -> Z -> res nostr_event;
  as_pubkey : string }.

Definition build_auth_event (now : Z) (pk verb : string) (hashes : list string) (expiration : Z) : nostr_event :=
  NostrEvent "" pk (unix now) auth_event_kind
    ([["t"; verb]; ["expiration"; pretty (unix expiration)]] ++ map (fun h => ["x"; h]) hashes)
    (verb +:+ " blob") "".

(** [sign] signs a prepared event: a local key or the user's bunker. *)
Definition event_auth_signer (now : Z) (pk : string) (sign : nostr_event -> res nostr_event) : auth_signer :=
  AuthSigner (fun verb hashes exp => wrap "signing auth event failed" (sign (build_auth_event now pk verb hashes exp))) pk.

Definition local_auth_signer (now : Z) (public_key : string -> res string)
    (sign : string -> nostr_event -> res nostr_event) (private_key : string) : res auth_signer :=
  if negb (str_len private_key =? 64)
  then Err (Sentinel ("invalid private key length: expected 64 hex chars, got " +:+ pretty (str_len private_key)))
  else
    let! pk := wrap "failed to derive public key" (public_key private_key) in
    Ok (event_auth_signer now pk (sign private_key)).

Definition presigned_auth_signer (ev : nostr_event) (hash : string) : auth_signer :=
  AuthSigner (fun verb hashes _ =>
    if negb (String.eqb verb "upload") || negb (bool_decide (hashes = [hash]))
    then Err (Sentinel ("blossom: client authorization covers only uploading " +:+ hash))
    else Ok ev) (ev_pubkey ev).

(** [Sscanf(s, "%d", &i)]: blanks, a sign and digits; what follows is not read. *)
Fixpoint scan_digits (acc : option Z) (s : string) : option Z :=
  match s with
  | String c t => if is_digit c then scan_digits (Some (default 0 acc * 10 + (Z.of_nat (char_code c) - 48))) t else acc
  | "" => acc
  end.
Definition sscan_int (s : string) : option Z :=
  let s := trim_left (fun c => is_space c && negb (Ascii.eqb c LF)) s in
  v ← match s with
      | String "-" t => Z.opp <$> scan_digits None t
      | String "+" t => scan_digits None t
      | _ => scan_digits None s
      end;
  if (i64_min <=? v) && (v <=? i64_max) then Some v else None.

(** A tag that says [name]: its second element. *)
Definition tag_values (name : string) (ev : nostr_event) : list string :=
  omap (fun t => match t with k :: v :: _ => if String.eqb k name then Some v else None | _ => None end) (ev_tags ev).

Definition not_expired (now : Z) (v : string) : bool :=
  match sscan_int v with Some e => unix now <? e | None => false end.

Definition refused (why : string) : option error := Some (Sentinel ("blossom: " +:+ why)).

Definition validate_upload_auth (check_event : nostr_event -> bool) (ev : option nostr_event) (pk hash : string)
    (now : Z) : option error :=
  match ev with
  | None => refused "no upload authorization"
  | Some ev =>
      if negb (ev_kind ev =? auth_event_kind) then refused "upload authorization has another kind"
      else if negb (String.eqb (ev_pubkey ev) pk) then refused "upload authorization is signed by another key"
      else if negb (check_event ev) then refused "upload authorization signature is invalid"
      else if negb (existsb (String.eqb "upload") (tag_values "t" ev)) then refused "upload authorization is not for upload"
      else if negb (existsb (String.eqb hash) (tag_values "x" ev)) then refused "upload authorization does not cover this blob"
      else if negb (existsb (not_expired now) (tag_values "expiration" ev))
      then refused "upload authorization is expired or has no expiration"
      else None
  end.

(** ** Servers *)

Record server := Server { sv_url : string; sv_priority : Z }.

(** [sort.SliceStable]: insertion keeps the order of equal priorities. *)
Fixpoint insert_server (s : server) (l : list server) : list server :=
  match l with
  | [] => [s]
  | x :: t => if sv_priority s <=? sv_priority x then s :: l else x :: insert_server s t
  end.
Definition sorted_servers (l : list server) : list server := foldr insert_server [] l.

Definition normalize_url (u : string) : string := trim_right (Ascii.eqb "/") u.

Definition is_hash (s : string) : bool :=
  (str_len s =? 64) && forall_chars (fun c => is_digit c || between "a" "f" c) s.

Record blob_descriptor := BlobDescriptor {
  bd_sha256 : string; bd_size : Z; bd_type : string; bd_servers : list string }.

Inductive http_method := PUT | GET | DELETE.
Record http_request := HttpRequest {
  rq_method : http_method; rq_url : string; rq_auth : string; rq_type : string; rq_body : string }.
(** The status and the body, which may fail to arrive. *)
Record http_response := HttpResponse { rs_status : Z; rs_body : string; rs_broken : bool }.

Definition max_blob_size : Z := Z.shiftl 50 20.
Definition default_auth_ttl : Z := 5 * minute.
Definition ErrNoServers : error := Sentinel "blossom: no servers configured".
Definition ErrBlobTooLarge : error := Sentinel "blossom: blob exceeds 52428800 bytes".

Section client.
Context (sha256 : string -> string).
Context (json_event : nostr_event -> res string).
Context (ask : nat -> http_request -> res http_response).
Context (signer : auth_signer).

Definition blob_hash (data : string) : string := hex_encode (sha256 data).

Definition authorization_header (ev : nostr_event) : res string :=
  let! raw := wrap "marshaling auth event" (json_event ev) in
  Ok ("Nostr " +:+ encode raw).

Definition upload_request (data content_type header url : string) : http_request :=
  HttpRequest PUT (normalize_url url +:+ "/upload") header content_type data.

Definition upload_to (i : nat) (data content_type header url : string) : option error :=
  match ask i (upload_request data content_type header url) with
  | Err e => Some e
  | Ok r => if (rs_status r =? 200) || (rs_status r =? 201) then None
            else Some (Sentinel ("upload returned status " +:+ pretty (rs_status r)))
  end.

(** The loop of Upload: the requests, the servers that took the blob, the last
    error. *)
Fixpoint upload_loop (i : nat) (redundancy : Z) (data content_type header : string) (servers : list server)
    (stored : list string) (last : option error) : list http_request * (list string * option error) :=
  match servers with
  | [] => ([], (stored, last))
  | s :: rest =>
      if redundancy <=? Z.of_nat (length stored) then ([], (stored, last))
      else
        let '(stored, last) := match upload_to i data content_type header (sv_url s) with
                               | Some e => (stored, Some e)
                               | None => (stored ++ [normalize_url (sv_url s)], last)
                               end in
        let '(sent, r) := upload_loop (S i) redundancy data content_type header rest stored last in
        (upload_request data content_type header (sv_url s) :: sent, r)
  end.

Definition all_failed (what : string) (last : option error) : error :=
  match last with Some e => Wrapped what e | None => Sentinel what end.

Definition upload (now : Z) (data content_type : string) (servers : list server) (redundancy : Z)
    : list http_request * res blob_descriptor :=
  match servers with
  | [] => ([], Err ErrNoServers)
  | _ =>
      let redundancy := if redundancy <? 1 then 1 else redundancy in
      let hash := blob_hash data in
      match (let! ev := wrap "blossom: sign upload auth" (as_sign signer "upload" [hash] (now + default_auth_ttl)) in
             authorization_header ev) with
      | Err e => ([], Err e)
      | Ok header =>
          let '(sent, (stored, last)) := upload_loop 0 redundancy data content_type header (sorted_servers servers) [] None in
          (sent, match stored with
                 | [] => Err (all_failed "blossom: all uploads failed" last)
                 | _ => Ok (BlobDescriptor hash (str_len data) content_type stored)
                 end)
      end
  end.

(** ** Downloads *)

Definition download_from (i : nat) (url hash : string) : res string :=
  match ask i (HttpRequest GET (normalize_url url +:+ "/" +:+ hash) "" "" "") with
  | Err e => Err e
  | Ok r =>
      if negb (rs_status r =? 200) then Err (Sentinel ("download returned status " +:+ pretty (rs_status r)))
      else
        let data := limit_str (max_blob_size + 1) (rs_body r) in
        if rs_broken r && (str_len (rs_body r) <=? max_blob_size) then Err (Sentinel "unexpected EOF")
        else if max_blob_size <? str_len data then Err ErrBlobTooLarge
        else Ok data
  end.

Fixpoint download_loop (i : nat) (hash : string) (servers : list server) (last : option error) : res string :=
  match servers with
  | [] => Err (all_failed ("blossom: blob " +:+ hash +:+ " unavailable") last)
  | s :: rest =>
      match download_from i (sv_url s) hash with
      | Err e => download_loop (S i) hash rest (Some e)
      | Ok data =>
          if String.eqb (blob_hash data) hash then Ok data
          else download_loop (S i) hash rest (Some (Sentinel ("hash mismatch from " +:+ sv_url s)))
      end
  end.

Definition download (hash : string) (servers : list server) : res string :=
  match servers with
  | [] => Err ErrNoServers
  | _ =>
      if negb (is_hash hash) then Err (Sentinel "blossom: invalid blob hash")
      else download_loop 0 hash (sorted_servers servers) None
  end.

(** ** Deletion *)

Definition delete_from (i : nat) (url hash header : string) : option error :=
  match ask i (HttpRequest DELETE (normalize_url url +:+ "/" +:+ hash) header "" "") with
  | Err e => Some e
  | Ok r => if (rs_status r =? 200) || (rs_status r =? 404) then None
            else Some (Sentinel ("delete returned status " +:+ pretty (rs_status r)))
  end.

Fixpoint delete_loop (i : nat) (hash header : string) (servers : list server) (deleted : Z) (last : option error)
    : Z * option error :=
  match servers with
  | [] => (deleted, last)
  | s :: rest =>
      match delete_from i (sv_url s) hash header with
      | Some e => delete_loop (S i) hash header rest deleted (Some e)
      | None => delete_loop (S i) hash header rest (deleted + 1) last
      end
  end.

Definition delete (now : Z) (hash : string) (servers : list server) : option error :=
  match servers with
  | [] => Some ErrNoServers
  | _ =>
      if negb (is_hash hash) then Some (Sentinel "blossom: invalid blob hash")
      else
        match (let! ev := wrap "blossom: sign delete auth" (as_sign signer "delete" [hash] (now + default_auth_ttl)) in
               authorization_header ev) with
        | Err e => Some e
        | Ok header =>
            let '(deleted, last) := delete_loop 0 hash header (sorted_servers servers) 0 None in
            if deleted =? 0 then Some (all_failed "blossom: all deletes failed" last) else None
        end
  end.

(** * Properties *)

(** The servers that would take the blob, asked in turn. *)
Fixpoint accepting (i : nat) (data content_type header : string) (servers : list server) : list string :=
  match servers with
  | [] => []
  | s :: rest =>
      match upload_to i data content_type header (sv_url s) with
      | None => normalize_url (sv_url s) :: accepting (S i) data content_type header rest
      | Some _ => accepting (S i) data content_type header rest
      end
  end.

Lemma upload_loop_spec data content_type header servers : forall i r stored last,
  let x := upload_loop i r data content_type header servers stored last in
  x.2.1 = stored ++ take (Z.to_nat r - length stored) (accepting i data content_type header servers) /\
  Forall (fun q => rq_method q = PUT /\ rq_body q = data /\ rq_auth q = header /\ rq_type q = content_type) x.1.
Proof.
  induction servers as [|s rest IH]; intros i r stored last; simpl; [by rewrite take_nil, app_nil_r|].
  destruct (Z.leb_spec r (Z.of_nat (length stored))) as [Hr|Hr].
  { assert (Z.to_nat r - length stored = 0)%nat as -> by lia. by rewrite take_0, app_nil_r. }
  destruct (upload_to i data content_type header (sv_url s)) as [e|].
  - specialize (IH (S i) r stored (Some e)). destruct (upload_loop _ _ _ _ _ _ _ _) as [sent x]. simpl in *.
    destruct IH as [-> Hf]. split; [done|]. by constructor.
  - specialize (IH (S i) r (stored ++ [normalize_url (sv_url s)]) last).
    destruct (upload_loop _ _ _ _ _ _ _ _) as [sent x]. simpl in *. destruct IH as [-> Hf]. split; [|by constructor].
    rewrite <- app_assoc. simpl. rewrite length_app. simpl.
    assert (Z.to_nat r - length stored = S (Z.to_nat r - (length stored + 1)))%nat as -> by lia. done.
Qed.

Lemma upload_sends now data content_type servers redundancy :
  Forall (fun q => rq_method q = PUT /\ rq_body q = data /\ rq_type q = content_type) (upload now data content_type servers redundancy).1.
Proof.
  unfold upload. destruct servers as [|s0 rest]; [constructor|]. destruct (res_bind _ _) as [header|]; [|constructor].
  pose proof (upload_loop_spec data content_type header (sorted_servers (s0 :: rest)) 0
    (if redundancy <? 1 then 1 else redundancy) [] None) as [_ Hf].
  destruct (upload_loop _ _ _ _ _ _ _ _) as [sent [stored last]]. simpl in *.
  eapply Forall_impl; [exact Hf|]. simpl. tauto.
Qed.

Lemma upload_describes now data content_type servers redundancy sent d :
  upload now data content_type servers redundancy = (sent, Ok d) -> bd_sha256 d = blob_hash data.
Proof.
  unfold upload. destruct servers; [done|]. destruct (res_bind _ _); [|done].
  destruct (upload_loop _ _ _ _ _ _ _ _) as [x [[|y stored] last]]; intros E; by simplify_eq.
Qed.

(** An upload stores the blob on the first servers, in order of priority, that
    take it, as many as the redundancy asks for (at least one), and fails
    exactly when none takes it; what it sends is the blob and nothing else. *)
Theorem upload_meets_redundancy now data content_type servers redundancy ev raw
    (Hservers : servers <> [])
    (Hsign : as_sign signer "upload" [blob_hash data] (now + default_auth_ttl) = Ok ev)
    (Hjson : json_event ev = Ok raw) :
  let taken := accepting 0 data content_type ("Nostr " +:+ encode raw) (sorted_servers servers) in
  let '(sent, r) := upload now data content_type servers redundancy in
  Forall (fun q => rq_method q = PUT /\ rq_body q = data) sent /\
  match r with
  | Ok d => bd_sha256 d = blob_hash data /\ bd_servers d = take (Z.to_nat (Z.max 1 redundancy)) taken /\ taken <> []
  | Err _ => taken = []
  end.
Proof.
  intros taken. unfold upload. destruct servers as [|s0 rest]; [done|]. rewrite Hsign. cbn [wrap res_bind].
  unfold authorization_header. rewrite Hjson. cbn [wrap res_bind].
  assert ((if redundancy <? 1 then 1 else redundancy) = Z.max 1 redundancy) as -> by (destruct (Z.ltb_spec redundancy 1); lia).
  pose proof (upload_loop_spec data content_type ("Nostr " +:+ encode raw) (sorted_servers (s0 :: rest)) 0
    (Z.max 1 redundancy) [] None) as [Hs Hf]. revert Hs Hf. fold taken. clearbody taken.
  generalize (upload_loop 0 (Z.max 1 redundancy) data content_type ("Nostr " +:+ encode raw) (sorted_servers (s0 :: rest)) [] None).
  intros [sent [stored last]]. simpl. rewrite Nat.sub_0_r. intros -> Hf. split.
  - eapply Forall_impl; [exact Hf|]. simpl. tauto.
  - destruct taken as [|t taken]; [by rewrite take_nil|].
    assert (exists k, Z.to_nat (Z.max 1 redundancy) = S k) as [k ->] by (exists (pred (Z.to_nat (Z.max 1 redundancy))); lia).
    done.
Qed.

(** A server that serves the right bytes. *)
Definition serves (i : nat) (s : server) (hash data : string) : Prop :=
  download_from i (sv_url s) hash = Ok data /\ blob_hash data = hash.

Lemma download_loop_spec hash servers : forall i last,
  match download_loop i hash servers last with
  | Ok data => exists j s, servers !! j = Some s /\ serves (i + j) s hash data
  | Err _ => forall j s data, servers !! j = Some s -> ~ serves (i + j) s hash data
  end.
Proof.
  induction servers as [|s rest IH]; intros i last; simpl; [by intros j s data Hj|].
  assert (forall l, ~ (exists data, serves i s hash data) ->
    match download_loop (S i) hash rest l with
    | Ok data => exists j s', (s :: rest) !! j = Some s' /\ serves (i + j) s' hash data
    | Err _ => forall j s' data, (s :: rest) !! j = Some s' -> ~ serves (i + j) s' hash data
    end) as Hnext.
  { intros l Hno. specialize (IH (S i) l). destruct (download_loop (S i) hash rest l) as [data|].
    - destruct IH as (j & s' & Hj & Hs). exists (S j), s'. split; [done|]. by rewrite Nat.add_succ_r.
    - intros [|j] s' data Hj Hs; simpl in Hj.
      + injection Hj as <-. rewrite Nat.add_0_r in Hs. eauto.
      + apply (IH j s' data Hj). by rewrite Nat.add_succ_r in Hs. }
  destruct (download_from i (sv_url s) hash) as [data|e] eqn:Ed.
  - destruct (String.eqb_spec (blob_hash data) hash) as [Eh|Hne].
    + exists 0%nat, s. rewrite Nat.add_0_r. done.
    + apply Hnext. intros (d & Hd & Hh). rewrite Ed in Hd. by injection Hd as <-.
  - apply Hnext. intros (d & Hd & _). congruence.
Qed.

Lemma download_hash hash servers data : download hash servers = Ok data -> blob_hash data = hash.
Proof.
  unfold download. destruct servers as [|s0 rest]; [done|]. destruct (negb _); [done|]. intros Hd.
  pose proof (download_loop_spec hash (sorted_servers (s0 :: rest)) 0 None) as Hs. rewrite Hd in Hs.
  by destruct Hs as (_ & _ & _ & _ & Hh).
Qed.

(** A download is what was asked for: the bytes returned have the requested
    hash, came from one of the servers and are no larger than the limit,
    whatever the servers answer; and as long as one of them serves such bytes,
    the download succeeds. *)
Theorem download_is_verified hash servers (Hservers : servers <> []) (Hhash : is_hash hash = true) :
  match download hash servers with
  | Ok data => blob_hash data = hash /\ str_len data <= max_blob_size /\
      exists i s, sorted_servers servers !! i = Some s /\ download_from i (sv_url s) hash = Ok data
  | Err _ => forall i s data, sorted_servers servers !! i = Some s -> ~ serves i s hash data
  end.
Proof.
  unfold download. destruct servers as [|s0 rest]; [done|]. rewrite Hhash. cbn [negb].
  pose proof (download_loop_spec hash (sorted_servers (s0 :: rest)) 0 None) as Hd.
  destruct (download_loop _ _ _ _) as [data|]; [|exact Hd].
  destruct Hd as (i & s & Hi & Hf & Hh). simpl in Hf. split; [done|]. split; [|eauto].
  unfold download_from in Hf. destruct (ask _ _) as [r|]; [|done]. destruct (negb _); [done|].
  destruct (_ && _); [done|]. destruct (Z.ltb_spec max_blob_size (str_len (limit_str (max_blob_size + 1) (rs_body r)))); [done|].
  by injection Hf as <-.
Qed.

End client.

Lemma existsb_eq s l : existsb (String.eqb s) l = true <-> s ∈ l.
Proof.
  rewrite existsb_exists, list_elem_of_In. split; [|by exists s; rewrite String.eqb_refl].
  intros (x & Hx & E%String.eqb_eq). by subst x.
Qed.

(** A client's upload authorization is accepted exactly when it is a
    kind-24242 event with a good signature by that very key which has a tag for
    uploading, a tag for this blob and an expiration that is still to come. *)
Theorem upload_auth_accepted_iff check_event ev pk hash now :
  validate_upload_auth check_event (Some ev) pk hash now = None <->
  ev_kind ev = auth_event_kind /\ ev_pubkey ev = pk /\ check_event ev = true /\
  "upload" ∈ tag_values "t" ev /\ hash ∈ tag_values "x" ev /\
  exists v e, v ∈ tag_values "expiration" ev /\ sscan_int v = Some e /\ unix now < e.
Proof.
  unfold validate_upload_auth, refused. rewrite <- !existsb_eq.
  assert (existsb (not_expired now) (tag_values "expiration" ev) = true <->
    exists v e, v ∈ tag_values "expiration" ev /\ sscan_int v = Some e /\ unix now < e) as <-.
  { rewrite existsb_exists. unfold not_expired. split.
    - intros (v & Hv & Hx). destruct (sscan_int v) as [e|] eqn:E; [|done]. exists v, e. rewrite list_elem_of_In. by apply Z.ltb_lt in Hx.
    - intros (v & e & Hv & E & Hx). exists v. rewrite E, <- list_elem_of_In. split; [done|]. by apply Z.ltb_lt. }
  destruct (Z.eqb_spec (ev_kind ev) auth_event_kind), (String.eqb_spec (ev_pubkey ev) pk), (check_event ev),
    (existsb _ (tag_values "t" ev)), (existsb _ (tag_values "x" ev)), (existsb _ (tag_values "expiration" ev));
    simpl; split; intros Hx; repeat match goal with H : _ /\ _ |- _ => destruct H end; try done; by repeat split.
Qed.

(** ** Witnesses *)

Definition sample_sha (s : string) : string := "0123456789abcdef0123456789abcdef".
Definition sample_servers : list server := [Server "https://b.example/" 2; Server "https://a.example" 1].

(** The first server is down, the second takes and serves the blob. *)
Definition sample_ask (i : nat) (q : http_request) : res http_response :=
  match i with O => Err (Sentinel "connection refused") | _ => Ok (HttpResponse 200 "blob" false) end.
Definition sample_event : nostr_event := NostrEvent "" "aa" 0 auth_event_kind [] "" "".
Definition sample_signer : auth_signer := AuthSigner (fun _ _ _ => Ok sample_event) "aa".

Lemma upload_meets_redundancy_witness :
  let '(sent, r) := upload sample_sha (fun _ => Ok "{}") sample_ask sample_signer 0 "blob" "" sample_servers 2 in
  r = Ok (BlobDescriptor (blob_hash sample_sha "blob") 4 "" ["https://b.example"]) /\
  Forall (fun q => rq_method q = PUT /\ rq_body q = "blob") sent.
Proof.
  pose proof (upload_meets_redundancy sample_sha (fun _ => Ok "{}") sample_ask sample_signer 0 "blob" "" sample_servers 2
    sample_event "{}" ltac:(discriminate) eq_refl eq_refl) as H.
  destruct (upload _ _ _ _ _ _ _ _ _) as [sent r] eqn:E. destruct H as [Hf _]. split; [|exact Hf].
  apply (f_equal snd) in E. cbn [snd] in E. rewrite <- E. vm_compute. reflexivity.
Defined.

Lemma download_is_verified_witness :
  exists data, download sample_sha sample_ask (blob_hash sample_sha "blob") sample_servers = Ok data /\
    blob_hash sample_sha data = blob_hash sample_sha "blob".
Proof.
  pose proof (download_is_verified sample_sha sample_ask (blob_hash sample_sha "blob") sample_servers
    ltac:(discriminate) eq_refl) as H.
  assert (download sample_sha sample_ask (blob_hash sample_sha "blob") sample_servers = Ok "blob") as E.
  { vm_compute. reflexivity. }
  rewrite E in H. exists "blob". split; [exact E|]. exact (proj1 H).
Defined.
