(* ===== verification/SendService.v ===== *)
(** * Sending: [Service.Send] and the attachments of internal/email/service.go

    Send is composed as the code composes it: the sender's address from
    [Identity], the gate of [SendGate], the shape checks of [Envelope], the
    transport manager of [Delivery], the sender's copy in [Emails], attachments
    on [Blossom] under the seals of [Blobseal].  Go's walk of a map is [order]. *)

From S2P Require Import Prelude GoStrings Nostr Base64 Identity SendGate Mailboxes Signing Emails Encryption Envelope.
From S2P Require Import MailOps Mime Delivery Blobseal Blossom Inbound.
#[local] Open Scope Z_scope.

Record attachment_input := AttachmentInput {
  ai_filename : string; ai_content_type : string; ai_data : string; ai_upload_auth : option nostr_event }.

Record send_request := SendRequest {
  sr_sender : string; sr_from : string; sr_to : list string; sr_cc : list string; sr_bcc : list string;
  sr_subject : string; sr_body : string; sr_html_body : string; sr_mode : string; sr_pre_encrypted : string;
  sr_keys : gmap string string; sr_in_reply_to : string; sr_references : list string;
  sr_preferred : option transport_type; sr_attachments : list attachment_input }.

Record recipient_send_result := RecipientSendResult {
  rs_email : string; rs_success : bool; rs_encrypted : bool; rs_error : option error }.
Record send_result := SendResult {
  se_success : bool; se_message_id : string; se_email_id : string;
  se_recipients : list recipient_send_result; se_error : option error }.

(** An error of a component, a refusal by the gate, or a Go panic. *)
Inductive send_error := SendError (e : error) | SendDenied (e : gate_error) | SendPanic (why : string).

Definition is_client (r : send_request) : bool := String.eqb (sr_mode r) ModeClientSide.
Definition is_server (r : send_request) : bool := String.eqb (sr_mode r) ModeServerSide.

Definition outer_subject (r : send_request) : string :=
  if is_client r then encrypted_subject_placeholder else sr_subject r.

(** ** Client mode *)

Definition ErrClientAttachmentNotEncrypted : error :=
  Sentinel "client-side encryption requires every attachment to be encrypted by the client".
Definition ErrClientRecipientNotEncrypted : error :=
  Sentinel "client-side encryption needs a key for every recipient".
Definition ErrClientBCCUnsupported : error :=
  Sentinel "BCC is not supported with end-to-end encryption yet: every recipient could see who was BCC'd".
Definition ErrClientRecipientKeyMismatch : error :=
  Sentinel "client-side encryption used a key that is not the recipient's".
Definition ErrInvalidUploadAuth : error := Sentinel "attachment upload authorization is invalid".

Definition norm (s : string) : string := to_lower (trim_space s).

(** First occurrences only. *)
Fixpoint distinct (seen : list string) (l : list string) : list string :=
  match l with
  | [] => []
  | a :: l => if bool_decide (a ∈ seen) then distinct seen l else a :: distinct (a :: seen) l
  end.

Section checks.
Context `{JSON}.
Context (order : gmap string string -> list (string * string)).
Context (sha256 : string -> string) (check_event : nostr_event -> bool).

Definition check_client_attachments_encrypted (atts : list attachment_input) : option error :=
  (fun a => Wrapped (ai_filename a) ErrClientAttachmentNotEncrypted) <$>
  List.find (fun a => negb (is_encrypted_attachment (ai_data a))) atts.

Definition check_client_body_encrypted (body : string) : option error :=
  if is_encrypted_body body || is_nip44_payload body then None else Some ErrClientBodyNotEncrypted.

Definition check_client_no_bcc (r : send_request) : option error :=
  match sr_bcc r with [] => None | _ => Some ErrClientBCCUnsupported end.

Fixpoint check_client_upload_auth (pk : string) (atts : list attachment_input) (now : Z) : option error :=
  match atts with
  | [] => None
  | a :: rest =>
      match ai_upload_auth a with
      | None => check_client_upload_auth pk rest now
      | Some ev =>
          match validate_upload_auth check_event (Some ev) pk (blob_hash sha256 (ai_data a)) now with
          | Some _ => Some (Wrapped (ai_filename a) ErrInvalidUploadAuth)
          | None => check_client_upload_auth pk rest now
          end
      end
  end.

(** The keys of the request by normalized address. *)
Definition keys_by (f : string -> string) (keys : gmap string string) : gmap string string :=
  fold_left (fun h kv => <[norm kv.1 := f kv.2]> h) (order keys) ∅.

Definition claimed_key (r : send_request) (addr : string) : string :=
  default "" (keys_by to_lower (sr_keys r) !! norm addr).

Definition client_recipients (r : send_request) : list string := distinct [] (sr_to r ++ sr_cc r ++ sr_bcc r).

Definition uncovered (who : list string) : error :=
  Wrapped ("no key for " +:+ join ", " who) ErrClientRecipientNotEncrypted.

(** Whose keys the body holds, the older format trusted for one recipient. *)
Definition body_holders (r : send_request) : res (list string) :=
  match body_key_holders (sr_pre_encrypted r) with
  | Some h => Ok h
  | None =>
      match client_recipients r with
      | [a] => if String.eqb (claimed_key r a) "" then Err (uncovered [a]) else Ok [claimed_key r a]
      | all => Err (uncovered all)
      end
  end.

Definition attachment_holders (r : send_request) : list (list string) :=
  map (fun a => default [] (attachment_key_holders (ai_data a))) (sr_attachments r).

Definition covered_by (holders : list string) (r : send_request) (addr : string) : bool :=
  let pk := claimed_key r addr in
  negb (String.eqb pk "") && bool_decide (pk ∈ holders) &&
  forallb (fun h => bool_decide (pk ∈ h)) (attachment_holders r).

Definition check_client_recipients_covered (r : send_request) : res (gmap string bool) :=
  let! holders := body_holders r in
  match List.filter (fun a => negb (covered_by holders r a)) (client_recipients r) with
  | [] => Ok (list_to_map (map (fun a => (a, true)) (client_recipients r)))
  | missing => Err (uncovered missing)
  end.

Definition check_client_keys_match_resolved (r : send_request) (resolved : gmap string string) : option error :=
  let claimed := keys_by norm (sr_keys r) in
  match List.filter (fun addr =>
          let want := norm (default "" (resolved !! addr)) in
          String.eqb want "" || negb (String.eqb (default "" (claimed !! norm addr)) want)) (sr_to r ++ sr_cc r) with
  | [] => None
  | bad => Some (Wrapped (join ", " bad) ErrClientRecipientKeyMismatch)
  end.

(** The checks before recipients are resolved; their result is who can decrypt. *)
Definition check_client (now : Z) (r : send_request) : res (gmap string bool) :=
  if negb (is_client r) then Ok ∅
  else
    match check_client_body_encrypted (sr_pre_encrypted r) with Some e => Err e | None =>
    match check_client_attachments_encrypted (sr_attachments r) with Some e => Err e | None =>
    match check_client_upload_auth (sr_sender r) (sr_attachments r) now with Some e => Err e | None =>
    match check_client_no_bcc r with Some e => Err e | None =>
      check_client_recipients_covered r
    end end end end.

(** ** Server mode *)

Definition ErrServerModeOneRecipient : error :=
  Sentinel "server-side encryption can send to exactly one recipient; remove the others or send without encryption".
Definition ErrServerRecipientNoKey : error :=
  Sentinel "server-side encryption needs the recipient's Nostr key, and none was found; send without encryption instead".
Definition ErrServerModeAttachments : error :=
  Sentinel "server-side encryption cannot encrypt attachments; remove them or send without encryption".

Definition check_server_mode_sendable (r : send_request) (resolved : gmap string string) : option error :=
  match sr_to r, sr_cc r, sr_bcc r with
  | [a], [], [] =>
      match sr_attachments r with
      | [] => if String.eqb (default "" (resolved !! a)) "" then Some (Wrapped ("(" +:+ a +:+ ")") ErrServerRecipientNoKey) else None
      | _ => Some ErrServerModeAttachments
      end
  | _, _, _ => Some ErrServerModeOneRecipient
  end.

(** ** The message and the stored copy *)

Definition nonempty_keys (keys : gmap string string) : gmap string string :=
  omap (fun k => if String.eqb k "" then None else Some k) keys.

(** Resolved keys, overridden by the client's. *)
Definition recipient_pubkeys (r : send_request) (resolved : gmap string external_recipient) : gmap string string :=
  nonempty_keys (sr_keys r) ∪ nonempty_keys (r_npub <$> resolved).

Definition to_transport_attachments (atts : list attachment_input) : list mime_attachment :=
  map (fun a => MimeAttachment (ai_filename a) (ai_content_type a) (ai_data a)) atts.

Definition transport_message {K} (r : send_request) (from : string) (keys : gmap string string)
    (covered : gmap string bool) : message K :=
  Message from (sr_to r) (sr_cc r) (sr_bcc r) (sr_sender r) keys (outer_subject r)
    (if is_client r then sr_pre_encrypted r else sr_body r) (sr_html_body r) (is_client r) covered (is_server r)
    "" (sr_in_reply_to r) (sr_references r) ∅ None (to_transport_attachments (sr_attachments r)).

Context (signer_store : option (string -> res enc_signer)).

(** The body to store, and the mode recorded with it. *)
Definition body_at_rest (r : send_request) : string * string :=
  if is_client r then (sr_pre_encrypted r, ModeClientSide)
  else if is_server r then
    match signer_store with
    | None => ("", ModeServerSide)
    | Some store =>
        match encrypt_for_recipient store (EncryptionRequest (sr_body r) "" (sr_sender r) (sr_sender r) ModeServerSide) with
        | Err _ => ("", ModeServerSide)
        | Ok c => (en_ciphertext c, ModeServerSide)
        end
    end
  else (sr_body r, ModeNone).

Definition sent_record (r : send_request) (from : string) (keys : gmap string string) (message_id first : string) : Emails.email :=
  let '(stored, mode) := body_at_rest r in
  Email "" (sr_sender r) (nonempty_opt message_id) from first None None (outer_subject r) stored None
    (negb (String.eqb mode ModeNone)) None (Some mode) (Some (sr_sender r)) (keys !! first) "sent" "active" None "sent" None
    (nonempty_opt (sr_in_reply_to r))
    (match sr_references r with [] => None | l => Some (join " " l) end)
    false None None 0 0 None.

(** ** Attachments on Blossom *)

Definition ErrAttachmentNotSealable : error :=
  Sentinel "attachment sealing is not configured; not storing the file on Blossom".

Definition sealed_blob_content_type : string := "application/octet-stream".

(** What storing one attachment reads from outside: the row's id, the random
    bytes of a seal, the servers' answers. *)
Record attachment_run := AttachmentRun {
  ar_id : string; ar_entropy : entropy; ar_ask : nat -> http_request -> res http_response }.

Context `{AEAD}.
Context (json_event : nostr_event -> res string).
(** The sealer's KEK, Mail's service key, and the user's remote signer. *)
Context (sealer : option string) (service_auth : option auth_signer) (server_auth : auth_signer).
Context (servers : list server) (redundancy : Z).

(** The bytes to upload and the wrapped key, empty unless the server sealed them. *)
Definition attachment_blob (sender mode : string) (a : attachment_input) (row : string) (e : entropy)
    : res (string * string) :=
  if String.eqb mode ModeClientSide then
    if is_encrypted_attachment (ai_data a) then Ok (ai_data a, "")
    else Err (Wrapped (ai_filename a) ErrClientAttachmentNotEncrypted)
  else if String.eqb mode ModeServerSide then
    match signer_store with
    | None => Err (Sentinel "no encryption service")
    | Some store =>
        let! c := encrypt_for_recipient store (EncryptionRequest (encode (ai_data a)) "" sender sender ModeServerSide) in
        Ok (en_ciphertext c, "")
    end
  else match sealer with
       | None => Err ErrAttachmentNotSealable
       | Some kek => seal_blob kek (ai_data a) row e
       end.

Definition upload_auth_for (mode : string) (a : attachment_input) (blob : string) : option auth_signer :=
  if String.eqb mode ModeServerSide then Some server_auth
  else if String.eqb mode ModeClientSide then
    match ai_upload_auth a with
    | None => None
    | Some ev => Some (presigned_auth_signer ev (blob_hash sha256 blob))
    end
  else service_auth.

(** One attachment: the requests made, and the row to record. *)
Definition upload_attachment (now : Z) (sender mode email_id : string) (a : attachment_input) (u : attachment_run)
    : list http_request * option attachment :=
  match attachment_blob sender mode a (ar_id u) (ar_entropy u) with
  | Err _ => ([], None)
  | Ok (blob, key) =>
      match upload_auth_for mode a blob with
      | None => ([], None)
      | Some auth =>
          let ty := if String.eqb key "" then ai_content_type a else sealed_blob_content_type in
          let '(sent, r) := upload sha256 json_event (ar_ask u) auth now blob ty servers redundancy in
          (sent, match r with
                 | Err _ => None
                 | Ok d => Some (Attachment (ar_id u) email_id (ai_filename a) (Some (ai_content_type a))
                     (Some (str_len (ai_data a))) (Some (bd_sha256 d))
                     (Some (match bd_servers d with [] => "" | s :: _ => s +:+ "/" +:+ bd_sha256 d end))
                     (nonempty_opt key) 0)
                 end)
      end
  end.

Fixpoint upload_attachments (now : Z) (sender mode email_id : string) (atts : list (attachment_run * attachment_input))
    (d : database) : list http_request * database :=
  match atts with
  | [] => ([], d)
  | (u, a) :: rest =>
      let '(sent, row) := upload_attachment now sender mode email_id a u in
      let d := match row with Some x => (create_attachment (ar_id u) now x d).1 | None => d end in
      let '(sent', d) := upload_attachments now sender mode email_id rest d in
      (sent ++ sent', d)
  end.

(** *** Reading an attachment back *)

Record get_attachment_result := GetAttachmentResult {
  ga_filename : string; ga_content_type : string; ga_data : string; ga_ciphertext : string; ga_client : bool }.

Definition blossom_enabled : bool :=
  negb (bool_decide (length servers = O)) && match signer_store with Some _ => true | None => false end.

Definition opened_attachment (user : string) (e : Emails.email) (a : attachment) (blob : string)
    : res get_attachment_result :=
  let out := GetAttachmentResult (at_filename a) (default "" (at_content_type a)) in
  match at_blob_key a with
  | Some key =>
      match sealer with
      | None => Err (Sentinel "attachment is sealed but sealing is not configured")
      | Some kek =>
          let! data := wrap "attachment cannot be opened" (open_blob kek key blob (at_id a)) in
          Ok (out data "" false)
      end
  | None =>
      if String.eqb (stored_mode e) ModeClientSide then Ok (out "" blob true)
      else if String.eqb (stored_mode e) ModeServerSide then
        match signer_store with
        | None => Err (Sentinel "no encryption service")
        | Some store =>
            let! dec := wrap "failed to decrypt attachment" (decrypt_for_recipient store
              (DecryptionRequest blob user (default "" (em_sender_npub e)) ModeServerSide)) in
            if de_client dec then Ok (out "" (de_ciphertext dec) true)
            else match decode (de_plaintext dec) with
                 | None => Err (Sentinel "failed to decode attachment bytes")
                 | Some data => Ok (out data "" false)
                 end
        end
      else Err (Sentinel "attachment blob is not sealed; refusing to serve it")
  end.

Definition svc_get_attachment (ask : nat -> http_request -> res http_response) (user email_id attachment_id : string)
    (d : database) : res get_attachment_result :=
  if negb blossom_enabled then Err (Sentinel "blossom storage is not configured")
  else
    let! e := own_email user email_id d in
    match List.find (fun a => String.eqb (at_id a) attachment_id) (get_attachments_by_email email_id d) with
    | None => Err (Sentinel "attachment not found")
    | Some a =>
        let hash := default "" (at_blossom_sha256 a) in
        if String.eqb hash "" then Err (Sentinel "attachment has no Blossom reference")
        else
          let! blob := wrap "failed to fetch attachment from Blossom" (download sha256 ask hash servers) in
          opened_attachment user e a blob
    end.

(** ** Send *)

Context {K : Type}.
Context {St : Type} `{AddressStore St}.
Context (verifier : option (string -> string -> res bool)) (resolver : option (string -> res string)).
Context (served : list string) (st : St).
Context {G W : Type}.
(** [SendGate.check] at a time, or no gate; the manager's Send. *)
Context (gate : option (Z -> string -> Z -> Z -> G -> G * option gate_error)).
Context (deliver : option transport_type -> message K -> W -> W * (option delivery_result * option error)).

Definition recipient_count (r : send_request) : Z := Z.of_nat (length (sr_to r) + length (sr_cc r) + length (sr_bcc r)).
Definition send_size (r : send_request) : Z :=
  foldr (fun a n => str_len (ai_data a) + n) (str_len (sr_body r) + str_len (sr_html_body r) + str_len (sr_pre_encrypted r))
    (sr_attachments r).

(** The clock and the faults of the two statements, the row's id, and the runs
    of the attachments. *)
Record send_run := SendRun {
  sn_now : Z; sn_mailbox : option error; sn_insert : option error; sn_id : string;
  sn_attachments : nat -> attachment_run }.

(** The sender's address, and the gate. *)
Definition authorize (now : Z) (r : send_request) (g : G) : G * (unified_address + send_error) :=
  match resolve_from_address verifier (sr_sender r) (sr_from r) st with
  | Err e => (g, inr (SendError (Wrapped "sender validation failed" e)))
  | Ok a =>
      if str_len (sr_sender r) <? 16 then (g, inr (SendPanic "slice bounds out of range"))
      else match gate with
           | None => (g, inl a)
           | Some check =>
               match check now (sr_sender r) (recipient_count r) (send_size r) g with
               | (g, None) => (g, inl a)
               | (g, Some e) => (g, inr (SendDenied e))
               end
           end
  end.

Definition resolved_keys (resolved : gmap string external_recipient) : gmap string string := r_npub <$> resolved.

Definition refuse_if {A} (o : option error) (k : res A) : res A := match o with Some e => Err e | None => k end.

(** Everything between the gate and the transport: the message to deliver, and
    the recipients' keys. *)
Definition prepare (now : Z) (r : send_request) (from : string) : res (message K * gmap string string) :=
  let! covered := check_client now r in
  let! resolved := wrap "recipient resolution failed" (resolve_recipients resolver served (sr_to r ++ sr_cc r ++ sr_bcc r) st ∅) in
  refuse_if (if is_client r then check_client_keys_match_resolved r (resolved_keys resolved) else None) (
  let keys := recipient_pubkeys r resolved in
  refuse_if (if is_server r then check_server_mode_sendable r keys else None) (
  if is_client r && String.eqb (sr_pre_encrypted r) ""
  then Err (Sentinel "pre-encrypted body required for client-side encryption mode")
  else Ok (transport_message r from keys covered, keys))).

Definition send_outcome (d : delivery_result) (email_id : string) : send_result :=
  SendResult (dr_success d) (dr_message_id d) email_id
    (map (fun x => RecipientSendResult (rr_address x) (rr_success x) (rr_encrypted x) (rr_error x)) (dr_recipients d))
    (dr_error d).

(** The sender's copy; its failure is only logged. *)
Definition store_sent (u : send_run) (r : send_request) (from : string) (keys : gmap string string)
    (message_id first : string) (d : database) : database * (list http_request * string) :=
  let mbs := (ensure_mailbox (sn_mailbox u) (sn_now u) (sr_sender r) (db_mailboxes d)).1 in
  let d := Database (db_emails d) (db_attachments d) mbs in
  match sn_insert u with
  | Some _ => (d, ([], ""))
  | None =>
      match create_email (sn_id u) (sn_now u) (sent_record r from keys message_id first) d with
      | (d, Err _) => (d, ([], ""))
      | (d, Ok id) =>
          if blossom_enabled && negb (bool_decide (length (sr_attachments r) = O)) then
            let '(sent, d) := upload_attachments (sn_now u) (sr_sender r) (sr_mode r) id
                                (imap (fun i a => (sn_attachments u i, a)) (sr_attachments r)) d in
            (d, (sent, id))
          else (d, ([], id))
      end
  end.

(** What a Send leaves behind: the gate's counters, the network, the database,
    the requests to Blossom, and its answer. *)
Record world := World { ss_gate : G; ss_net : W; ss_db : database; ss_requests : list http_request }.

(** After the gate: preparation, delivery and the sender's copy. *)
Definition transmit (u : send_run) (r : send_request) (from : string) (s : world) : world * (send_result + send_error) :=
  let '(World g w d q) := s in
  match prepare (sn_now u) r from with
  | Err e => (s, inr (SendError e))
  | Ok (m, keys) =>
      match deliver (sr_preferred r) m w with
      | (w, (_, Some e)) => (World g w d q, inr (SendError (Wrapped "delivery failed" e)))
      | (w, (None, None)) => (World g w d q, inr (SendPanic "nil delivery result"))
      | (w, (Some res, None)) =>
          if dr_success res then
            match sr_to r with
            | [] => (World g w d q, inr (SendPanic "index out of range"))
            | first :: _ =>
                let '(d, (sent, id)) := store_sent u r from keys (dr_message_id res) first d in
                (World g w d (q ++ sent), inl (send_outcome res id))
            end
          else (World g w d q, inl (send_outcome res ""))
      end
  end.

Definition svc_send (u : send_run) (r : send_request) (s : world) : world * (send_result + send_error) :=
  match authorize (sn_now u) r (ss_gate s) with
  | (g, inr e) => (World g (ss_net s) (ss_db s) (ss_requests s), inr e)
  | (g, inl from) => transmit u r (Identity.email from) (World g (ss_net s) (ss_db s) (ss_requests s))
  end.

(** * Properties *)

Lemma refuse_if_ok {A} o (k : res A) x : refuse_if o k = Ok x -> o = None /\ k = Ok x.
Proof. by destruct o. Qed.

Lemma prepare_inv now r from m keys :
  prepare now r from = Ok (m, keys) ->
  exists covered resolved,
    check_client now r = Ok covered /\
    resolve_recipients resolver served (sr_to r ++ sr_cc r ++ sr_bcc r) st ∅ = Ok resolved /\
    (is_client r = true -> check_client_keys_match_resolved r (resolved_keys resolved) = None) /\
    (is_server r = true -> check_server_mode_sendable r keys = None) /\
    keys = recipient_pubkeys r resolved /\ m = transport_message r from keys covered.
Proof.
  unfold prepare. destruct (check_client now r) as [covered|]; [|done]. simpl.
  destruct (resolve_recipients _ _ _ _ _) as [resolved|]; [|done]. simpl.
  intros [Hk [Hs Hp]%refuse_if_ok]%refuse_if_ok. destruct (is_client r && _); [done|]. injection Hp as <- <-.
  exists covered, resolved. split; [done|]. split; [done|].
  split; [intros Hc; by rewrite Hc in Hk|]. split; [intros Hc; by rewrite Hc in Hs|]. done.
Qed.

Lemma check_client_inv now r covered :
  is_client r = true -> check_client now r = Ok covered ->
  check_client_body_encrypted (sr_pre_encrypted r) = None /\
  check_client_attachments_encrypted (sr_attachments r) = None /\
  sr_bcc r = [] /\ check_client_recipients_covered r = Ok covered.
Proof.
  unfold check_client. intros ->. simpl. destruct (check_client_body_encrypted _); [done|].
  destruct (check_client_attachments_encrypted _); [done|]. destruct (check_client_upload_auth _ _ _); [done|].
  unfold check_client_no_bcc. by destruct (sr_bcc r).
Qed.

Lemma attachments_encrypted atts :
  check_client_attachments_encrypted atts = None -> Forall (fun a => is_encrypted_attachment (ai_data a) = true) atts.
Proof.
  unfold check_client_attachments_encrypted. intros Hf%fmap_None. induction atts as [|a atts IH]; [done|]. simpl in Hf.
  destruct (is_encrypted_attachment (ai_data a)) eqn:E; [|done]. constructor; auto.
Qed.

(** C11. Nothing leaves before the checks: a Send either leaves the network, the
    database and Blossom as they were and answers an error, or the sender owns
    the address it sends from, the gate let the message pass, and the message
    that the checks produced for this request was handed to the transport,
    once. *)
Theorem sends_only_what_was_checked u r (s s' : world) x (Hs : svc_send u r s = (s', x)) :
  (ss_net s' = ss_net s /\ ss_db s' = ss_db s /\ ss_requests s' = ss_requests s /\ exists e, x = inr e) \/
  exists from m keys,
    resolve_from_address verifier (sr_sender r) (sr_from r) st = Ok from /\
    match gate with
    | Some check => check (sn_now u) (sr_sender r) (recipient_count r) (send_size r) (ss_gate s) = (ss_gate s', None)
    | None => True
    end /\
    prepare (sn_now u) r (Identity.email from) = Ok (m, keys) /\
    ss_net s' = (deliver (sr_preferred r) m (ss_net s)).1.
Proof.
  assert (forall from s0, transmit u r from s0 = (s', x) -> ss_gate s' = ss_gate s0 /\
    ((ss_net s' = ss_net s0 /\ ss_db s' = ss_db s0 /\ ss_requests s' = ss_requests s0 /\ exists e, x = inr e) \/
     exists m keys, prepare (sn_now u) r from = Ok (m, keys) /\ ss_net s' = (deliver (sr_preferred r) m (ss_net s0)).1)) as Htransmit.
  { intros from [g w d q] Hx. unfold transmit in Hx. destruct (prepare _ _ _) as [[m keys]|]; [|simplify_eq; eauto 7].
    assert (ss_gate s' = g /\ ss_net s' = (deliver (sr_preferred r) m w).1) as [Eg En]; [|by eauto 6].
    destruct (deliver (sr_preferred r) m w) as [w' [[res|] [e|]]]; try by simplify_eq.
    destruct (dr_success res); [|by simplify_eq]. destruct (sr_to r); [by simplify_eq|].
    destruct (store_sent _ _ _ _ _ _ _) as [db [sent id]]. by simplify_eq. }
  unfold svc_send, authorize in Hs.
  destruct (resolve_from_address _ _ _ _) as [from|] eqn:Ef; [|left; simplify_eq; eauto 6].
  destruct (_ <? _); [left; simplify_eq; eauto 6|].
  destruct gate as [check|].
  - destruct (check _ _ _ _ _) as [g [e|]] eqn:Eg; [left; simplify_eq; eauto 6|].
    apply Htransmit in Hs as [Egate [?|(m & keys & ? & ?)]]; [by left|]. right. exists from, m, keys.
    simpl in Egate. by rewrite Egate.
  - apply Htransmit in Hs as [_ [?|(m & keys & ? & ?)]]; [by left|]. right. by exists from, m, keys.
Qed.

(** *** Client mode *)

Section client_bytes.
Context `{!Signer K}.
Context (encrypt_content : option (string -> string -> string -> res string)) (quoted_printable : string -> string).
Abbreviation build := (build_raw_email_report sha256 encrypt_content quoted_printable order).

Lemma pre_encrypted_html_unused c (m : message K) h :
  m_encryption_requested m = false -> m_is_pre_encrypted m = true -> build c (with_text (m_body m) h m) = build c m.
Proof.
  intros Hreq Hpre. unfold build_raw_email_report. change (m_from (with_text (m_body m) h m)) with (m_from m).
  destruct (String.eqb (trim_space (m_from m)) ""); [done|].
  assert (with_message_id c (with_text (m_body m) h m) = with_text (m_body (with_message_id c m)) h (with_message_id c m)
    /\ m_encryption_requested (with_message_id c m) = false /\ m_is_pre_encrypted (with_message_id c m) = true) as (-> & Hr & Hp).
  { unfold with_message_id. simpl. by destruct (negb _). }
  clear Hreq Hpre. revert Hr Hp. generalize (with_message_id c m). clear m. intros m Hr Hp. unfold build_entity.
  assert (encryption_step encrypt_content (header_safe_message order (with_text (m_body m) h m))
          = encryption_step encrypt_content (header_safe_message order m)) as -> by done.
  destruct (encryption_step encrypt_content (header_safe_message order m)) as [[[[b ise] to] l]|] eqn:Ee; [|done].
  assert (ise = true) as ->.
  { unfold encryption_step in Ee. simpl in Ee. rewrite Hr, Hp in Ee. simpl in Ee. by simplify_eq. }
  assert (content_entity quoted_printable c (header_safe_message order (with_text (m_body m) h m)) b true
          = content_entity quoted_printable c (header_safe_message order m) b true) as Ec.
  { unfold content_entity, body_entity. by rewrite !andb_false_r. }
  cbn [res_bind]. by rewrite Ec.
Qed.

(** The same request with other text outside its ciphertext. *)
Definition with_plain (subject text html : string) (r : send_request) : send_request :=
  SendRequest (sr_sender r) (sr_from r) (sr_to r) (sr_cc r) (sr_bcc r) subject text html (sr_mode r)
    (sr_pre_encrypted r) (sr_keys r) (sr_in_reply_to r) (sr_references r) (sr_preferred r) (sr_attachments r).

(** C12. Client mode shows the server's outputs nothing but ciphertext: a message
    that is prepared has a body and attachments that are client envelopes (or
    a NIP-44 payload as body), no BCC and the placeholder subject; and a request
    that differs in the plain subject, body or HTML gives the same bytes on the
    wire and the same stored copy. *)
Theorem client_mode_sends_only_ciphertext now r from m keys
    (Hc : is_client r = true) (Hp : prepare now r from = Ok (m, keys)) :
  is_encrypted_body (m_body m) || is_nip44_payload (m_body m) = true /\
  Forall (fun a => is_encrypted_attachment (ma_data a) = true) (m_attachments m) /\
  m_bcc m = [] /\ m_subject m = encrypted_subject_placeholder /\
  forall subject text html, exists m',
    prepare now (with_plain subject text html r) from = Ok (m', keys) /\
    (forall c, build c m' = build c m) /\
    forall mid first, sent_record (with_plain subject text html r) from keys mid first = sent_record r from keys mid first.
Proof.
  pose proof Hp as Hp'. apply prepare_inv in Hp' as (covered & resolved & Hcheck & _ & _ & _ & Ekeys & ->).
  apply check_client_inv in Hcheck as (Hbody & Hatt & Hbcc & _); [|done].
  unfold transport_message. simpl. rewrite Hc. unfold outer_subject. rewrite Hc.
  split; [unfold check_client_body_encrypted in Hbody; by destruct (_ || _)|].
  split. { apply attachments_encrypted in Hatt. unfold to_transport_attachments. apply Forall_map. exact Hatt. }
  split; [done|]. split; [done|]. intros subject text html.
  exists (transport_message (with_plain subject text html r) from keys covered). split; [|split].
  - unfold prepare in *. change (check_client now (with_plain subject text html r)) with (check_client now r).
    destruct (check_client now r) as [cov|]; [|done]. cbn [res_bind] in Hp |- *.
    change (is_client (with_plain subject text html r)) with (is_client r).
    change (is_server (with_plain subject text html r)) with (is_server r).
    change (sr_to (with_plain subject text html r) ++ sr_cc (with_plain subject text html r) ++ sr_bcc (with_plain subject text html r))
      with (sr_to r ++ sr_cc r ++ sr_bcc r).
    destruct (wrap _ (resolve_recipients _ _ _ _ _)) as [res|]; [|done]. cbn [res_bind] in Hp |- *.
    change (recipient_pubkeys (with_plain subject text html r) res) with (recipient_pubkeys r res).
    change (check_client_keys_match_resolved (with_plain subject text html r) (resolved_keys res))
      with (check_client_keys_match_resolved r (resolved_keys res)).
    change (check_server_mode_sendable (with_plain subject text html r) (recipient_pubkeys r res))
      with (check_server_mode_sendable r (recipient_pubkeys r res)).
    apply refuse_if_ok in Hp as [Hm1 [Hm2 Hp]%refuse_if_ok]. rewrite Hm1, Hm2. simpl.
    destruct (is_client r && _); [done|]. injection Hp as Ek Et Em. subst. done.
  - intros c. unfold transport_message, outer_subject. change (is_client (with_plain subject text html r)) with (is_client r).
    change (is_server (with_plain subject text html r)) with (is_server r). rewrite Hc.
    assert (is_server r = false) as Hs.
    { unfold is_server, is_client in *. apply String.eqb_eq in Hc. rewrite Hc. done. }
    rewrite Hs.
    match goal with |- _ = build c ?m => exact (pre_encrypted_html_unused c m html eq_refl eq_refl) end.
  - intros mid first. unfold sent_record, body_at_rest, outer_subject.
    change (is_client (with_plain subject text html r)) with (is_client r). by rewrite Hc.
Qed.

End client_bytes.

(** *** Whose keys *)

Lemma keys_by_fmap f keys : keys_by f keys = f <$> keys_by (fun v => v) keys.
Proof.
  unfold keys_by. rewrite <- (fmap_empty f) at 1. generalize (∅ : gmap string string).
  induction (order keys) as [|kv l IH]; intros h; simpl; [done|]. by rewrite <- IH, fmap_insert.
Qed.

Lemma distinct_elem seen l a : a ∈ distinct seen l <-> a ∈ l /\ a ∉ seen.
Proof.
  clear. revert seen. induction l as [|b l IH]; intros seen; simpl; [by rewrite !elem_of_nil; intuition|].
  case_bool_decide as Hb; rewrite !elem_of_cons, IH; rewrite ?elem_of_cons;
    destruct (decide (a = b)) as [->|]; tauto.
Qed.

Lemma covered_inv r covered addr :
  check_client_recipients_covered r = Ok covered -> addr ∈ sr_to r ++ sr_cc r ++ sr_bcc r ->
  exists holders, body_holders r = Ok holders /\ covered_by holders r addr = true.
Proof.
  unfold check_client_recipients_covered. destruct (body_holders r) as [holders|]; [|done]. simpl. intros Hc Ha.
  exists holders. split; [done|]. destruct (covered_by holders r addr) eqn:E; [done|].
  destruct (List.filter _ _) as [|x l] eqn:Ef; [|done]. assert (In addr []) as []. rewrite <- Ef.
  apply filter_In. rewrite E. split; [|done]. apply list_elem_of_In. unfold client_recipients.
  apply distinct_elem. split; [done|]. by apply not_elem_of_nil.
Qed.

Lemma keys_match_inv r resolved addr :
  check_client_keys_match_resolved r resolved = None -> addr ∈ sr_to r ++ sr_cc r ->
  norm (default "" (resolved !! addr)) <> "" /\
  default "" (keys_by norm (sr_keys r) !! norm addr) = norm (default "" (resolved !! addr)).
Proof.
  unfold check_client_keys_match_resolved. destruct (List.filter _ _) as [|x l] eqn:Ef; [|done]. intros _ Ha.
  destruct (String.eqb_spec (norm (default "" (resolved !! addr))) "") as [E|E].
  - assert (In addr []) as []. rewrite <- Ef. apply filter_In. rewrite <- list_elem_of_In. split; [done|].
    by rewrite E.
  - split; [done|]. destruct (String.eqb_spec (default "" (keys_by norm (sr_keys r) !! norm addr)) (norm (default "" (resolved !! addr)))) as [|Hn]; [done|].
    assert (In addr []) as []. rewrite <- Ef. apply filter_In. rewrite <- list_elem_of_In. split; [done|].
    rewrite (proj2 (String.eqb_neq _ _) E), (proj2 (String.eqb_neq _ _) Hn). done.
Qed.

(** Every recipient of a client-encrypted message can open it with the key the
    server itself resolves for the address: that key is among the body
    envelope's (unless the body is the older format, which is accepted for a
    single recipient alone) and among those of every attachment. *)
Theorem client_recipients_hold_the_keys `{!JSONLaws} now r from m keys addr
    (Hc : is_client r = true) (Hp : prepare now r from = Ok (m, keys)) (Ha : addr ∈ m_to m ++ m_cc m) :
  exists resolved pk,
    resolve_recipients resolver served (sr_to r ++ sr_cc r ++ sr_bcc r) st ∅ = Ok resolved /\
    pk = norm (default "" (resolved_keys resolved !! addr)) /\ pk <> "" /\
    match body_key_holders (m_body m) with
    | Some holders => pk ∈ holders
    | None => client_recipients r = [addr]
    end /\
    Forall (fun a => exists holders, attachment_key_holders (ma_data a) = Some holders /\ pk ∈ holders) (m_attachments m).
Proof.
  apply prepare_inv in Hp as (covered & resolved & Hcheck & Hres & Hmatch & _ & _ & ->). specialize (Hmatch Hc).
  apply check_client_inv in Hcheck as (_ & _ & _ & Hcov); [|done].
  unfold transport_message in *. simpl in *. rewrite Hc in *.
  destruct (keys_match_inv _ _ _ Hmatch Ha) as [Hne Hmk].
  destruct (covered_inv r covered addr Hcov) as (holders & Hh & Hby); [rewrite !elem_of_app in *; tauto|].
  exists resolved, (norm (default "" (resolved_keys resolved !! addr))).
  repeat (split; [done|]).
  unfold covered_by in Hby. apply andb_true_iff in Hby as [[Hpk Hbody]%andb_true_iff Hatt].
  assert (hex_decodes (claimed_key r addr) = true ->
          claimed_key r addr = norm (default "" (resolved_keys resolved !! addr))) as Hsame.
  { rewrite <- Hmk. unfold claimed_key. rewrite (keys_by_fmap to_lower), (keys_by_fmap norm), !lookup_fmap.
    destruct (keys_by (fun v => v) (sr_keys r) !! norm addr) as [v|]; [|done]. simpl. unfold norm.
    intros Hx%hex_trim. by rewrite Hx. }
  apply bool_decide_eq_true in Hbody. split.
  - unfold body_holders in Hh. destruct (body_key_holders (sr_pre_encrypted r)) as [h|] eqn:Eb.
    + injection Hh as ->. rewrite <- Hsame; [done|]. by eapply body_holders_hex.
    + destruct (client_recipients r) as [|a []] eqn:Ec; try done.
      assert (addr ∈ client_recipients r) as Hin.
      { unfold client_recipients. apply distinct_elem. split; [rewrite !elem_of_app in *; tauto|apply not_elem_of_nil]. }
      rewrite Ec in Hin. by apply list_elem_of_singleton in Hin as ->.
  - unfold to_transport_attachments. apply Forall_map, Forall_forall. intros a Hin. simpl.
    rewrite forallb_forall in Hatt. specialize (Hatt (default [] (attachment_key_holders (ai_data a)))).
    assert (In (default [] (attachment_key_holders (ai_data a))) (attachment_holders r)) as Hi.
    { unfold attachment_holders. apply in_map_iff. exists a. split; [done|]. by apply list_elem_of_In. }
    apply Hatt, bool_decide_eq_true in Hi. destruct (attachment_key_holders (ai_data a)) as [h|] eqn:Eh.
    + exists h. split; [done|]. rewrite <- Hsame; [done|]. by eapply attachment_holders_hex.
    + by apply not_elem_of_nil in Hi.
Qed.

(** *** Attachments *)

(** What may be uploaded for an attachment. *)
Definition opaque_body (sender mode : string) (u : attachment_run) (a : attachment_input) (body : string) : Prop :=
  if String.eqb mode ModeClientSide then body = ai_data a /\ is_encrypted_attachment body = true
  else if String.eqb mode ModeServerSide then
    exists store s, signer_store = Some store /\ store sender = Ok s /\ sg_encrypt s (encode (ai_data a)) sender = Ok body
  else exists kek key, sealer = Some kek /\ seal_blob kek (ai_data a) (ar_id u) (ar_entropy u) = Ok (body, key).

Lemma server_encrypts store sender text c :
  encrypt_for_recipient store (EncryptionRequest text "" sender sender ModeServerSide) = Ok c ->
  exists s, store sender = Ok s /\ sg_encrypt s text sender = Ok (en_ciphertext c).
Proof.
  unfold encrypt_for_recipient. simpl. destruct (store sender) as [s|]; [|done]. simpl.
  destruct (negb (sg_can_encrypt s)); [done|]. destruct (sg_encrypt s text sender) as [x|] eqn:E; [|done].
  simpl. intros [= <-]. by exists s.
Qed.

Lemma attachment_blob_opaque sender mode a u blob key :
  attachment_blob sender mode a (ar_id u) (ar_entropy u) = Ok (blob, key) -> opaque_body sender mode u a blob.
Proof.
  unfold attachment_blob, opaque_body. destruct (String.eqb mode ModeClientSide).
  - destruct (is_encrypted_attachment (ai_data a)) eqn:E; [|done]. by intros [= <- <-].
  - destruct (String.eqb mode ModeServerSide).
    + destruct signer_store as [store|]; [|done]. destruct (encrypt_for_recipient _ _) as [c|] eqn:E; [|done].
      simpl. intros [= <- <-]. apply server_encrypts in E as (s & ? & ?). eauto.
    + destruct sealer as [kek|]; [|done]. eauto.
Qed.

Lemma upload_attachment_sends now sender mode email_id a u :
  Forall (fun q => opaque_body sender mode u a (rq_body q)) (upload_attachment now sender mode email_id a u).1.
Proof.
  unfold upload_attachment. destruct (attachment_blob _ _ _ _ _) as [[blob key]|] eqn:E; [|constructor].
  destruct (upload_auth_for mode a blob) as [auth|]; [|constructor].
  pose proof (upload_sends sha256 json_event (ar_ask u) auth now blob
    (if String.eqb key "" then ai_content_type a else sealed_blob_content_type) servers redundancy) as Hf.
  destruct (upload _ _ _ _ _ _ _ _ _) as [sent r]. simpl in *. eapply Forall_impl; [exact Hf|].
  intros q (_ & -> & _). by eapply attachment_blob_opaque.
Qed.

(** No readable file reaches Blossom: whatever is uploaded for the attachments
    of a message is the client's own encrypted envelope in client mode, a
    ciphertext made by the sender's signer in server mode, and a blob sealed
    under the server's key for that very row otherwise. *)
Theorem nothing_readable_reaches_blossom now sender mode email_id atts d sent d'
    (Hu : upload_attachments now sender mode email_id atts d = (sent, d')) :
  Forall (fun q => exists u a, (u, a) ∈ atts /\ opaque_body sender mode u a (rq_body q)) sent.
Proof.
  revert d sent d' Hu. induction atts as [|[u a] atts IH]; intros d sent d' Hu; simpl in Hu; [injection Hu as <- _; constructor|].
  pose proof (upload_attachment_sends now sender mode email_id a u) as Hone.
  destruct (upload_attachment now sender mode email_id a u) as [sent1 row]. simpl in Hone.
  destruct (upload_attachments now sender mode email_id atts _) as [sent2 d2] eqn:Er. injection Hu as <- _.
  apply Forall_app. split.
  - eapply Forall_impl; [exact Hone|]. intros q Hq. exists u, a. split; [by left|done].
  - eapply Forall_impl; [exact (IH _ _ _ Er)|]. intros q (u' & a' & Hin & Hq). exists u', a'. split; [by right|done].
Qed.

(** The sealer's key and the random bytes have the sizes the cipher wants. *)
Definition good_entropy (e : entropy) : Prop :=
  exists key n1 n2, e = Entropy (Ok key) (Ok n1) (Ok n2) /\
    String.length key = KEKSize /\ String.length n1 = nonce_size /\ String.length n2 = nonce_size.

(** An attachment that was stored comes back: when the servers return the blob
    that the recorded hash names, opening the recorded row gives the sender the
    bytes that were attached, through the seal or the signer, and in client
    mode the client its own envelope. *)
Theorem stored_attachment_comes_back `{!AEADLaws} now sender mode email_id a u sent row e blob ask
    (Hup : upload_attachment now sender mode email_id a u = (sent, Some row))
    (Hdown : download sha256 ask (default "" (at_blossom_sha256 row)) servers = Ok blob)
    (Hhash : forall b key, attachment_blob sender mode a (ar_id u) (ar_entropy u) = Ok (b, key) ->
       blob_hash sha256 blob = blob_hash sha256 b -> blob = b)
    (Hmode : stored_mode e = mode) (Hsender : em_sender_npub e = Some sender)
    (Hkek : forall kek, sealer = Some kek -> String.length kek = KEKSize)
    (Hent : good_entropy (ar_entropy u))
    (Hcipher : forall store s p c, signer_store = Some store -> store sender = Ok s ->
       sg_encrypt s p sender = Ok c -> sg_can_decrypt s = true /\ sg_decrypt s c sender = Ok p)
    (Hknown : mode = ModeClientSide \/ mode = ModeServerSide \/ mode = ModeNone) :
  opened_attachment sender e row blob =
  Ok (if String.eqb mode ModeClientSide
      then GetAttachmentResult (ai_filename a) (ai_content_type a) "" (ai_data a) true
      else GetAttachmentResult (ai_filename a) (ai_content_type a) (ai_data a) "" false).
Proof.
  unfold upload_attachment in Hup.
  destruct (attachment_blob sender mode a (ar_id u) (ar_entropy u)) as [[b key]|] eqn:Eb; [|done].
  destruct (upload_auth_for mode a b) as [auth|]; [|done].
  destruct (upload _ _ _ _ _ _ _ _ _) as [sent' [desc|]] eqn:Eup; [|done]. injection Hup as <- <-.
  simpl in Hdown. apply upload_describes in Eup. rewrite Eup in Hdown.
  apply download_hash in Hdown. apply (Hhash b key eq_refl) in Hdown. subst blob.
  unfold opened_attachment. simpl. rewrite Hmode, Hsender. unfold attachment_blob in Eb.
  destruct Hknown as [-> | [-> | ->]]; simpl in Eb |- *.
  - destruct (is_encrypted_attachment (ai_data a)); [|done]. by injection Eb as <- <-.
  - destruct signer_store as [store|]; [|done]. destruct (encrypt_for_recipient _ _) as [c|] eqn:Ec; [|done].
    simpl in Eb. injection Eb as <- <-. simpl. apply server_encrypts in Ec as (sg & Hst & Henc).
    destruct (Hcipher store sg _ _ eq_refl Hst Henc) as [Hcan Hdec]. unfold decrypt_for_recipient. simpl.
    rewrite Hst. simpl. rewrite Hcan, Hdec. simpl.
    unfold decode. rewrite filter_all by apply encode_no_newline. by rewrite decode_groups_encode.
  - destruct sealer as [kek|] eqn:Esl; [|done]. destruct Hent as (k & n1 & n2 & Ee & Hk & Hn1 & Hn2). rewrite Ee in Eb.
    destruct (sealed_opens _ _ _ _ _ _ _ _ (Hkek kek eq_refl) Hk Hn1 Hn2 Eb) as [Hne Hopen].
    unfold nonempty_opt. rewrite (proj2 (String.eqb_neq _ _) Hne). by rewrite Hopen.
Qed.

End checks.

(** ** Witnesses *)

Definition sample_accounts : address_table :=
  [Address 1 "alice" "cloistr.xyz" (sample_key "a") true true (Some true) None;
   Address 2 "bob" "cloistr.xyz" (sample_key "b") true true (Some true) None].

Definition sample_request : send_request :=
  SendRequest (sample_key "a") "" ["bob@cloistr.xyz"] [] [] "secret subject" "" "" ModeClientSide "envelope"
    {[ "Bob@cloistr.xyz" := sample_key "B" ]} "" [] None [AttachmentInput "f" "text/plain" "file" None].

Definition no_events (ev : nostr_event) : bool := false.
Abbreviation sample_prepare := (prepare map_to_list sample_sha no_events (K := unit) None (["cloistr.xyz"]) sample_accounts).

Definition sample_prepared : message unit * gmap string string :=
  match sample_prepare 0 sample_request "alice@cloistr.xyz" with
  | Ok x => x
  | Err _ => (transport_message sample_request "" ∅ ∅, ∅)
  end.

Lemma sample_prepares : sample_prepare 0 sample_request "alice@cloistr.xyz" = Ok (sample_prepared.1, sample_prepared.2).
Proof. vm_compute. reflexivity. Qed.

Lemma client_mode_sends_only_ciphertext_witness :
  m_subject sample_prepared.1 = encrypted_subject_placeholder /\
  Forall (fun a => is_encrypted_attachment (ma_data a) = true) (m_attachments sample_prepared.1).
Proof.
  destruct (client_mode_sends_only_ciphertext map_to_list sample_sha no_events None None ["cloistr.xyz"] sample_accounts
    None (fun s => s) 0 sample_request "alice@cloistr.xyz" sample_prepared.1 sample_prepared.2 eq_refl sample_prepares)
    as (_ & Ha & _ & Hs & _).
  split; [exact Hs|exact Ha].
Defined.

Lemma client_recipients_hold_the_keys_witness :
  exists pk, pk = sample_key "b" /\
    match body_key_holders (m_body sample_prepared.1) with
    | Some holders => pk ∈ holders
    | None => client_recipients sample_request = ["bob@cloistr.xyz"]
    end.
Proof.
  destruct (client_recipients_hold_the_keys map_to_list sample_sha no_events None ["cloistr.xyz"] sample_accounts
    0 sample_request "alice@cloistr.xyz" sample_prepared.1 sample_prepared.2 "bob@cloistr.xyz" eq_refl sample_prepares)
    as (resolved & pk & Hr & Hpk & _ & Hb & _).
  - refine (proj1 (bool_decide_eq_true _) _). vm_compute. reflexivity.
  - exists pk. split; [|exact Hb].
    assert (resolve_recipients None ["cloistr.xyz"] ["bob@cloistr.xyz"] sample_accounts ∅ =
            Ok {[ "bob@cloistr.xyz" := ExternalRecipient "bob@cloistr.xyz" (sample_key "b") "internal" true ]}) as E.
    { vm_compute. reflexivity. }
    change (sr_to sample_request ++ sr_cc sample_request ++ sr_bcc sample_request) with ["bob@cloistr.xyz"] in Hr.
    rewrite E in Hr. injection Hr as <-. rewrite Hpk. vm_compute. reflexivity.
Defined.

(** A transport that keeps what it is given, and a gate that lets everything pass. *)
Definition keep_message (_ : option transport_type) (m : message unit) (w : list (message unit))
    : list (message unit) * (option delivery_result * option error) :=
  (w ++ [m], (Some (DeliveryResult true "mid" TransportSMTP [] None), None)).
Definition open_gate (_ : Z) (_ : string) (_ _ : Z) (n : nat) : nat * option gate_error := (S n, None).
Definition sample_attachment_run (i : nat) : attachment_run := AttachmentRun "row1" sample_entropy sample_ask.
Definition sample_send_run : send_run := SendRun 0 None None "mail1" sample_attachment_run.
Abbreviation sample_send := (svc_send map_to_list sample_sha no_events None (fun _ => Ok "{}") None None sample_signer
  sample_servers 2 None None (["cloistr.xyz"]) sample_accounts (Some open_gate) keep_message).
Definition before_sending : world (G := nat) (W := list (message unit)) := World 0%nat [] (Database [] [] ∅) [].

Lemma sends_only_what_was_checked_witness :
  let '(s', x) := sample_send sample_send_run sample_request before_sending in
  ss_net s' = [sample_prepared.1] /\ length (db_emails (ss_db s')) = 1%nat /\
  (ss_net s' = [] \/ exists from m keys,
     resolve_from_address None (sample_key "a") "" sample_accounts = Ok from /\
     sample_prepare 0 sample_request (Identity.email from) = Ok (m, keys)).
Proof.
  pose proof (sends_only_what_was_checked map_to_list sample_sha no_events None (fun _ => Ok "{}") None None sample_signer
    sample_servers 2 None None ["cloistr.xyz"] sample_accounts (Some open_gate) keep_message sample_send_run sample_request
    before_sending) as Hs.
  destruct (sample_send sample_send_run sample_request before_sending) as [s' x] eqn:E.
  specialize (Hs s' x eq_refl).
  assert (ss_net s' = [sample_prepared.1] /\ length (db_emails (ss_db s')) = 1%nat) as [En Ed].
  { apply (f_equal fst) in E. cbn [fst] in E. rewrite <- E. split; vm_compute; reflexivity. }
  split; [exact En|]. split; [exact Ed|].
  destruct Hs as [[Hn _]|(from & m & keys & Hf & _ & Hp & _)]; [left; exact Hn|right]. exists from, m, keys. split; [exact Hf|exact Hp].
Defined.

(** An unencrypted message with one attachment, sealed for its row. *)
Definition sample_file_input : attachment_input := AttachmentInput "report.pdf" "application/pdf" "report" None.
Abbreviation sample_uploads := (upload_attachments sample_sha None (fun _ => Ok "{}") (Some sample_kek)
  (Some Blossom.sample_signer) Blossom.sample_signer sample_servers 1).
Definition sealed_report : string :=
  match seal_blob sample_kek "report" "row1" sample_entropy with Ok (b, _) => b | Err _ => "" end.

Lemma nothing_readable_reaches_blossom_witness :
  let '(sent, d') := sample_uploads 0 "alice" ModeNone "mail1" [(sample_attachment_run 0, sample_file_input)] sample_db in
  map rq_body sent = [sealed_report; sealed_report] /\
  Forall (fun q => exists u a, (u, a) ∈ [(sample_attachment_run 0, sample_file_input)] /\
    opaque_body None (Some sample_kek) "alice" ModeNone u a (rq_body q)) sent.
Proof.
  pose proof (nothing_readable_reaches_blossom sample_sha None (fun _ => Ok "{}") (Some sample_kek)
    (Some Blossom.sample_signer) Blossom.sample_signer sample_servers 1 0 "alice" ModeNone "mail1"
    [(sample_attachment_run 0, sample_file_input)] sample_db) as Hs.
  destruct (sample_uploads 0 "alice" ModeNone "mail1" [(sample_attachment_run 0, sample_file_input)] sample_db) as [sent d'] eqn:E.
  split; [|exact (Hs sent d' eq_refl)].
  apply (f_equal fst) in E. cbn [fst] in E. rewrite <- E. vm_compute. reflexivity.
Defined.

Definition sample_mail : Emails.email :=
  Email "mail1" "alice" None "a@x" "b@y" None None "s" "b" None false None (Some ModeNone) (Some "alice") None
    "sent" "active" None "sent" None None None false None None 0 0 None.

(** A server that serves the sealed report. *)
Definition serving (i : nat) (q : http_request) : res http_response := Ok (HttpResponse 200 sealed_report false).

Lemma stored_attachment_comes_back_witness :
  exists sent row, upload_attachment sample_sha None (fun _ => Ok "{}") (Some sample_kek) (Some Blossom.sample_signer)
      Blossom.sample_signer sample_servers 1 0 "alice" ModeNone "mail1" sample_file_input (sample_attachment_run 0) = (sent, Some row) /\
    opened_attachment None (Some sample_kek) "alice" sample_mail row sealed_report =
      Ok (GetAttachmentResult "report.pdf" "application/pdf" "report" "" false).
Proof.
  eexists _, _. split; [vm_compute; reflexivity|].
  eapply (stored_attachment_comes_back sample_sha None (fun _ => Ok "{}") (Some sample_kek) (Some Blossom.sample_signer)
    Blossom.sample_signer sample_servers 1 0 "alice" ModeNone "mail1" sample_file_input (sample_attachment_run 0) _ _
    sample_mail sealed_report serving).
  - vm_compute. reflexivity.
  - vm_compute. reflexivity.
  - intros b key. vm_compute. intros [= <- _] _. reflexivity.
  - reflexivity.
  - reflexivity.
  - intros kek [= <-]. reflexivity.
  - exists "abcdefghijklmnopqrstuvwxyzabcdef", "nonce-nonce-nonce-nonce-", "other-other-other-other-". repeat split.
  - discriminate.
  - right. right. reflexivity.
Defined.
