(* ===== verification/InboundStore.v ===== *)
(** * Storing what arrives: internal/email/inbound_attachments.go, and cmd/email/main.go

    The uploader that [Inbound] takes as a parameter: it seals the file for its
    row under the configured key and hands the sealed blob to Blossom.  The
    configuration decides whether there is one.  The random bytes and the
    servers' answers of an upload are functions of the row's id. *)

From stdpp Require Import sorting.
From S2P Require Import Prelude GoStrings Nostr Base64 Emails Encryption Blobseal Blossom MailOps Inbound SendService Config.
#[local] Open Scope Z_scope.

Section uploader.
Context `{AEAD} (sha256 : string -> string) (json_event : nostr_event -> res string).

Record blossom_attachment_uploader := BlossomAttachmentUploader {
  up_auth : auth_signer; up_sealer : string; up_servers : list server; up_redundancy : Z }.

Definition new_blossom_attachment_uploader (auth : option auth_signer) (sealer : option string) (servers : list server)
    (redundancy : Z) : option blossom_attachment_uploader :=
  match auth, sealer, servers with
  | Some auth, Some sealer, _ :: _ => Some (BlossomAttachmentUploader auth sealer servers redundancy)
  | _, _, _ => None
  end.

Section one_upload.
Context (up : blossom_attachment_uploader) (now : Z).
Context (random : string -> entropy) (ask : string -> nat -> http_request -> res http_response).

(** The requests made, and where the blob went. *)
Definition upload_for (id data : string) : list http_request * res stored_blob :=
  match wrap "seal attachment" (seal_blob (up_sealer up) data id (random id)) with
  | Err e => ([], Err e)
  | Ok (blob, key) =>
      let '(sent, r) := upload sha256 json_event (ask id) (up_auth up) now blob sealed_blob_content_type
                          (up_servers up) (up_redundancy up) in
      (sent, let! desc := r in
             Ok (StoredBlob (bd_sha256 desc)
                   (match bd_servers desc with [] => "" | s :: _ => s +:+ "/" +:+ bd_sha256 desc end) key))
  end.

Definition uploader_of : option (string -> string -> res stored_blob) := Some (fun id data => (upload_for id data).2).

End one_upload.

(** ** Configuration *)

(** [nip19_decode]: the prefix, and the value where it is a string.
    [public_key], [sign]: of the Nostr library, at the time [now]. *)
Context (nip19_decode : string -> res (string * option string)).
Context (public_key : string -> res string) (sign : string -> nostr_event -> res nostr_event) (now : Z).

Definition bad_signing_key : error := Sentinel "MAIL_BLOSSOM_SIGNING_KEY is invalid (want 64 hex chars or nsec)".

Definition signing_key (configured : string) : res string :=
  let key := trim_space configured in
  if has_prefix key "nsec" then
    match nip19_decode key with
    | Ok (prefix, Some hex) => if String.eqb prefix "nsec" then Ok hex else Err bad_signing_key
    | _ => Err bad_signing_key
    end
  else Ok key.

Definition new_attachment_sealing (c : configuration) : res (string * auth_signer) :=
  if String.eqb (attachment_kek c) "" || String.eqb (blossom_signing_key c) ""
  then Err (Sentinel "ATTACHMENT_KEK and MAIL_BLOSSOM_SIGNING_KEY must both be set")
  else
    match new_sealer (attachment_kek c) with
    | Err _ => Err (Sentinel "ATTACHMENT_KEK is invalid (must be base64 of 32 random bytes)")
    | Ok sealer =>
        let! key := signing_key (blossom_signing_key c) in
        match local_auth_signer now public_key sign key with
        | Err _ => Err bad_signing_key
        | Ok auth => Ok (sealer, auth)
        end
    end.

Definition blossom_servers (c : configuration) : list server :=
  imap (fun i url => Server url (Z.of_nat i)) (cfg_blossom_servers c).

Definition configured_sealing (c : configuration) : option (string * auth_signer) :=
  if bool_decide (blossom_servers c = []) then None
  else match new_attachment_sealing c with Ok s => Some s | Err _ => None end.

Definition configured_uploader (c : configuration) : option blossom_attachment_uploader :=
  new_blossom_attachment_uploader (snd <$> configured_sealing c) (fst <$> configured_sealing c)
    (blossom_servers c) (blossom_redundancy c).

(** * Properties *)

Lemma sealing_has_key c sealer auth : configured_sealing c = Some (sealer, auth) -> String.length sealer = KEKSize.
Proof.
  unfold configured_sealing, new_attachment_sealing. destruct (bool_decide _); [done|]. destruct (_ || _); [done|].
  destruct (new_sealer (attachment_kek c)) as [kek|] eqn:Ek; [|done]. destruct (signing_key _); [|done]. simpl.
  destruct (local_auth_signer _ _ _ _); [|done]. intros [= <- _]. by apply new_sealer_size in Ek.
Qed.

Lemma uploader_sealer c up : configured_uploader c = Some up ->
  (exists auth, configured_sealing c = Some (up_sealer up, auth)) /\ up_servers up = blossom_servers c /\ blossom_servers c <> [].
Proof.
  unfold configured_uploader, new_blossom_attachment_uploader. destruct (configured_sealing c) as [[k auth]|]; [|done]. simpl.
  destruct (blossom_servers c); [done|]. intros [= <-]. simpl. eauto.
Qed.

Section stored.
Context (uploader : option (string -> string -> res stored_blob)) (t : Z) (email_id : string).

(** The row of one attachment, as the table holds it. *)
Definition stored_attachment (x : string * parsed_attachment) : attachment :=
  attachment_row x.1 t (attachment_record uploader x.1 email_id x.2).

Lemma one_more x d : exists new, (create_attachment x.1 t (attachment_record uploader x.1 email_id x.2) d).1 =
    Database (db_emails d) (db_attachments d ++ new) (db_mailboxes d) /\ (new = [] \/ new = [stored_attachment x]).
Proof.
  unfold create_attachment. destruct (_ && _); [by exists [stored_attachment x]; auto|].
  exists []. rewrite app_nil_r. destruct d. auto.
Qed.

(** What storing adds are rows of the attachments. *)
Lemma store_adds atts d : exists new, store_attachments uploader t email_id atts d =
    Database (db_emails d) (db_attachments d ++ new) (db_mailboxes d) /\ incl new (map stored_attachment atts).
Proof.
  revert d. induction atts as [|x atts IH]; intros d; simpl.
  - exists []. rewrite app_nil_r. split; [by destruct d|apply incl_nil_l].
  - destruct (one_more x d) as (n1 & E1 & Hn1). unfold store_attachments in *. simpl. rewrite E1.
    destruct (IH (Database (db_emails d) (db_attachments d ++ n1) (db_mailboxes d))) as (n2 & E2 & Hn2).
    rewrite E2. simpl. exists (n1 ++ n2). rewrite app_assoc. split; [done|].
    apply incl_app; [destruct Hn1 as [->| ->]; [apply incl_nil_l|apply incl_cons; [by left|apply incl_nil_l]]|by apply incl_tl].
Qed.

Lemma row_id x : x.1 <> "" -> at_id (stored_attachment x) = x.1.
Proof. intros Hx. unfold stored_attachment, attachment_row, attachment_record, or_else. cbn [at_id]. by destruct (String.eqb_spec x.1 ""). Qed.

Lemma store_keeps_row atts x d : x ∈ atts -> NoDup (map fst atts) -> Forall (fun y => y.1 <> "") atts ->
  x.1 ∉ map at_id (db_attachments d) -> attachment_fits (stored_attachment x) = true -> existsb (has_id email_id) (db_emails d) = true ->
  stored_attachment x ∈ db_attachments (store_attachments uploader t email_id atts d).
Proof.
  intros Hx Hnd Hne Hfresh Hfits He. apply list_elem_of_split in Hx as (l1 & l2 & ->).
  unfold store_attachments. rewrite fold_left_app. fold (store_attachments uploader t email_id l1 d).
  destruct (store_adds l1 d) as (n1 & -> & Hn1). simpl.
  rewrite map_app in Hnd. apply NoDup_app in Hnd as (_ & Hd & _). apply Forall_app in Hne as [Hne1 Hne2].
  assert (create_attachment x.1 t (attachment_record uploader x.1 email_id x.2) (Database (db_emails d) (db_attachments d ++ n1) (db_mailboxes d)) =
    (Database (db_emails d) ((db_attachments d ++ n1) ++ [stored_attachment x]) (db_mailboxes d), None)) as ->.
  { unfold create_attachment. fold (stored_attachment x). change (at_email_id (stored_attachment x)) with email_id.
    cbn [db_emails db_attachments db_mailboxes]. apply Forall_inv in Hne2. rewrite row_id, Hfits, He by done. cbn [andb].
    destruct (existsb _ (db_attachments d ++ n1)) eqn:E; [|done]. exfalso. apply existsb_exists in E as (r & Hr & E%String.eqb_eq).
    apply list_elem_of_In, elem_of_app in Hr as [Hr|Hr].
    - apply Hfresh. rewrite <- E. apply list_elem_of_fmap. by exists r.
    - apply list_elem_of_In, Hn1, in_map_iff in Hr as (y & <- & Hy). apply list_elem_of_In in Hy.
      rewrite Forall_forall in Hne1. rewrite row_id in E by by apply Hne1. apply (Hd x.1); [|left].
      rewrite <- E. apply list_elem_of_fmap. by exists y. }
  cbn [fst]. destruct (store_adds l2 (Database (db_emails d) ((db_attachments d ++ n1) ++ [stored_attachment x]) (db_mailboxes d))) as (n2 & E2 & _).
  unfold store_attachments in E2. rewrite E2. simpl. apply elem_of_app. left. apply elem_of_app. right. by left.
Qed.

Lemma nodup_by {A B} (f : A -> B) l x y : NoDup (map f l) -> x ∈ l -> y ∈ l -> f x = f y -> x = y.
Proof.
  induction l as [|z l IH]; simpl; [by intros _ ?%not_elem_of_nil|]. intros [Hz Hl]%NoDup_cons Hx Hy E.
  apply elem_of_cons in Hx as [->|Hx], Hy as [->|Hy]; [done| | |by apply IH]; destruct Hz; apply list_elem_of_fmap; eauto.
Qed.

Lemma found_row id l r : (forall r', r' ∈ l -> at_id r' = id -> r' = r) -> r ∈ l -> at_id r = id ->
  List.find (fun a => String.eqb (at_id a) id) l = Some r.
Proof.
  intros Hu Hr Hid. destruct (List.find _ l) as [r'|] eqn:E.
  - apply find_some in E as [Hin E%String.eqb_eq]. f_equal. apply Hu; [by apply list_elem_of_In|done].
  - apply list_elem_of_In in Hr. apply (find_none _ _ E) in Hr. by rewrite Hid, String.eqb_refl in Hr.
Qed.

(** The attachment is found under its id among those of the mail. *)
Lemma stored_is_found atts x d : x ∈ atts -> NoDup (map fst atts) -> Forall (fun y => y.1 <> "") atts ->
  x.1 ∉ map at_id (db_attachments d) -> attachment_fits (stored_attachment x) = true -> existsb (has_id email_id) (db_emails d) = true ->
  List.find (fun a => String.eqb (at_id a) x.1) (get_attachments_by_email email_id (store_attachments uploader t email_id atts d)) =
  Some (stored_attachment x).
Proof.
  intros Hx Hnd Hne Hfresh Hfits He. rewrite Forall_forall in Hne. apply found_row; [| |by apply row_id, Hne].
  - intros r Hr Hid. unfold get_attachments_by_email in Hr. rewrite merge_sort_Permutation in Hr.
    apply list_elem_of_In, filter_In in Hr as [Hr _]. apply list_elem_of_In in Hr.
    destruct (store_adds atts d) as (new & E & Hn). rewrite E in Hr. apply elem_of_app in Hr as [Hr|Hr].
    + destruct Hfresh. rewrite <- Hid. apply list_elem_of_fmap. by exists r.
    + apply list_elem_of_In, Hn, in_map_iff in Hr as (y & <- & Hy). apply list_elem_of_In in Hy.
      rewrite row_id in Hid by by apply Hne. f_equal. by eapply nodup_by.
  - unfold get_attachments_by_email. rewrite merge_sort_Permutation. apply list_elem_of_In, filter_In. split; [|apply String.eqb_refl].
    apply list_elem_of_In. apply store_keeps_row; try done. by apply Forall_forall.
Qed.

End stored.

Lemma upload_for_sends up random ask id data :
  Forall (fun q => rq_method q = PUT /\ rq_type q = sealed_blob_content_type /\
    exists key, seal_blob (up_sealer up) data id (random id) = Ok (rq_body q, key)) (upload_for up now random ask id data).1.
Proof.
  unfold upload_for. destruct (seal_blob _ _ _ _) as [[blob key]|]; [|constructor]. cbn [wrap].
  pose proof (upload_sends sha256 json_event (ask id) (up_auth up) now blob sealed_blob_content_type (up_servers up) (up_redundancy up)) as Hs.
  destruct (upload _ _ _ _ _ _ _ _ _) as [sent r]. simpl in *. eapply Forall_impl; [exact Hs|]. intros q (-> & -> & ->). eauto.
Qed.

Lemma upload_for_stores up random ask id data b : (upload_for up now random ask id data).2 = Ok b ->
  exists blob, seal_blob (up_sealer up) data id (random id) = Ok (blob, sb_key b) /\ sb_sha256 b = blob_hash sha256 blob.
Proof.
  unfold upload_for. destruct (seal_blob _ _ _ _) as [[blob key]|]; [|done]. cbn [wrap].
  destruct (upload _ _ _ _ _ _ _ _ _) as [sent [desc|]] eqn:E; [|done]. cbn [snd res_bind]. intros [= <-].
  apply upload_describes in E. eauto.
Qed.

Lemma own_exists user email_id d e : own_email user email_id d = Ok e -> existsb (has_id email_id) (db_emails d) = true.
Proof.
  unfold own_email, get_email. destruct (List.find _ _) as [r|] eqn:E; [|done]. intros _.
  apply find_some in E as [Hr [Hid _]%andb_true_iff]. apply existsb_exists. eauto.
Qed.

(** C38. An attachment that arrived opens to its bytes.  Let the configuration give
    an uploader, and let the files of a received message be stored with it.  A
    file whose upload succeeded and whose row fits its columns opens for the
    owner of the message, once the servers return the blob of the recorded
    hash, to exactly the bytes that arrived.  Whatever is sent to the servers
    for any file is its sealed blob, declared as bytes of no particular type. *)
Theorem received_attachment_comes_back `{!AEADLaws} c up random ask t user email_id e atts d id a b store ask' blob
    (Hup : configured_uploader c = Some up)
    (Hown : own_email user email_id d = Ok e)
    (Hids : NoDup (map fst atts) /\ Forall (fun y => y.1 <> "") atts /\ id ∉ map at_id (db_attachments d))
    (Ha : (id, a) ∈ atts)
    (Hfits : attachment_fits (stored_attachment (uploader_of up now random ask) t email_id (id, a)) = true)
    (Hstored : (upload_for up now random ask id (pa_data a)).2 = Ok b)
    (Hdown : download sha256 ask' (sb_sha256 b) (blossom_servers c) = Ok blob)
    (Hhash : forall x key, seal_blob (up_sealer up) (pa_data a) id (random id) = Ok (x, key) ->
       blob_hash sha256 blob = blob_hash sha256 x -> blob = x)
    (Hrandom : good_entropy (random id)) :
  svc_get_attachment sha256 (Some store) (fst <$> configured_sealing c) (blossom_servers c) ask' user email_id id
    (store_attachments (uploader_of up now random ask) t email_id atts d) =
    Ok (GetAttachmentResult (pa_filename a) (pa_content_type a) (pa_data a) "" false) /\
  forall x, Forall (fun q => rq_type q = sealed_blob_content_type /\
    exists key, seal_blob (up_sealer up) (pa_data x.2) x.1 (random x.1) = Ok (rq_body q, key))
    (upload_for up now random ask x.1 (pa_data x.2)).1.
Proof.
  split; [|intros x; eapply Forall_impl; [apply upload_for_sends|]; tauto].
  destruct Hids as (Hnd & Hne & Hfresh). destruct (uploader_sealer c up Hup) as ([auth Hs] & _ & Hsv). rewrite Hs.
  unfold svc_get_attachment, blossom_enabled, own_email, get_email. rewrite bool_decide_false by by destruct (blossom_servers c).
  rewrite store_attachments_emails. fold (get_email email_id d). fold (own_email user email_id d). rewrite Hown. cbn [negb andb res_bind].
  rewrite (stored_is_found _ _ _ _ (id, a)) by first [done|by eapply own_exists].
  destruct (upload_for_stores _ _ _ _ _ _ Hstored) as (x & Hx & Hsha).
  assert (stored_attachment (uploader_of up now random ask) t email_id (id, a) = Attachment id email_id (pa_filename a)
    (Some (pa_content_type a)) (Some (str_len (pa_data a))) (Some (sb_sha256 b)) (nonempty_opt (sb_url b)) (Some (sb_key b)) t) as ->.
  { unfold stored_attachment, attachment_row, attachment_record, uploader_of, or_else. cbn [fst snd at_id]. rewrite Hstored.
    by destruct (String.eqb id ""). }
  cbn [at_blossom_sha256 default from_option Datatypes.id].
  destruct (String.eqb_spec (sb_sha256 b) "") as [E|_].
  { unfold download in Hdown. rewrite E in Hdown. by destruct (blossom_servers c). }
  rewrite Hdown. cbn [wrap res_bind]. rewrite Hsha in Hdown. apply download_hash in Hdown. apply (Hhash x _ Hx) in Hdown as ->.
  destruct Hrandom as (k & n1 & n2 & Er & Hk & Hn1 & Hn2). rewrite Er in Hx. pose proof (sealing_has_key _ _ _ Hs) as Hkek.
  destruct (sealed_opens _ _ _ _ _ _ _ _ Hkek Hk Hn1 Hn2 Hx) as [_ Hopen].
  unfold opened_attachment. cbn [at_blob_key at_id fmap option_fmap option_map fst]. by rewrite Hopen.
Qed.

End uploader.

(** ** Witnesses *)

(** A configuration of which only the attachment variables are set. *)
Definition attachments_with (kek : string) : configuration :=
  Configuration "" "" "" "" "" 0 "" "" "" [] false "" "" [] "" "" "" "" "" ["https://a.example"; "https://b.example"] 1
    kek (sample_key "c") "" "" "" "" "" "" false 0 false 0 "" "" "" "".
Definition sample_attachments : configuration := attachments_with (encode sample_kek).
Definition sample_uploader (c : configuration) : option blossom_attachment_uploader :=
  configured_uploader (fun _ => Err (Sentinel "no nsec")) (fun _ => Ok (sample_key "d")) (fun _ ev => Ok ev) 0 c.
Definition sample_random (id : string) : entropy := sample_entropy.
Definition sample_arrived : parsed_attachment := ParsedAttachment "report.pdf" "application/pdf" "" false "report".
Definition sample_store (pubkey : string) : res enc_signer := Err (Sentinel "offline").

Example no_key_no_uploads : sample_uploader (attachments_with "") = None.
Proof. reflexivity. Qed.

Definition sample_up : blossom_attachment_uploader :=
  match sample_uploader sample_attachments with
  | Some up => up
  | None => BlossomAttachmentUploader (AuthSigner (fun _ _ _ => Err (Sentinel "none")) "") "" [] 0
  end.
Definition all_take (id : string) (i : nat) (q : http_request) : res http_response := Ok (HttpResponse 201 "" false).
Definition sample_stored : database :=
  store_attachments (uploader_of sample_sha (fun _ => Ok "{}") sample_up 0 sample_random all_take) 0 "m1"
    [("row1", sample_arrived)] Emails.sample_db.

Lemma received_attachment_comes_back_witness :
  svc_get_attachment sample_sha (Some sample_store) (Some sample_kek) (blossom_servers sample_attachments) serving "alice" "m1" "row1"
    sample_stored = Ok (GetAttachmentResult "report.pdf" "application/pdf" "report" "" false).
Proof.
  refine (proj1 (received_attachment_comes_back sample_sha (fun _ => Ok "{}") (fun _ => Err (Sentinel "no nsec"))
    (fun _ => Ok (sample_key "d")) (fun _ ev => Ok ev) 0 sample_attachments sample_up sample_random all_take 0 "alice" "m1" _
    [("row1", sample_arrived)] Emails.sample_db "row1" sample_arrived _ sample_store serving sealed_report _ _ _ _ _ _ _ _ _)).
  - reflexivity.
  - vm_compute. reflexivity.
  - split; [apply NoDup_singleton|]. split; [apply Forall_singleton; discriminate|apply not_elem_of_nil].
  - apply list_elem_of_here.
  - vm_compute. reflexivity.
  - vm_compute. reflexivity.
  - vm_compute. reflexivity.
  - intros x key. vm_compute. intros [= <- _] _. reflexivity.
  - exists "abcdefghijklmnopqrstuvwxyzabcdef", "nonce-nonce-nonce-nonce-", "other-other-other-other-". repeat split.
Defined.
