(* ===== verification/Nip05.v ===== *)
(** * NIP-05 lookups (internal/encryption/nip05.go, nip05_guard.go)

    The resolver fetches a JSON document from a domain that strangers choose:
    the guard on domains and addresses, the dialer that applies it to the
    address it connects to, the lookup, its bounded cache, and the composite
    resolver.  DNS, connections, TLS and encoding/json are parameters; a pooled
    connection is one dialled earlier for the same host. *)

From S2P Require Import Prelude GoStrings GoNet GoUrl.
#[local] Open Scope Z_scope.

(** ** Which names and addresses are public *)

Definition errNIP05Internal : error := Sentinel "NIP-05 domain is not a public address".

Definition internal_suffixes : list string :=
  [".local"; ".localhost"; ".internal"; ".svc"; ".cluster.local"; ".lan"; ".home.arpa"].

Definition trim_suffix (s suf : string) : string :=
  if has_suffix s suf then take_str (String.length s - String.length suf) s else s.

Definition check_nip05_domain (domain : string) : option error :=
  let d := to_lower (trim_suffix (trim_space domain) ".") in
  let refuse why := Some (Wrapped why errNIP05Internal) in
  if String.eqb d "" || negb (forall_chars (fun c => negb (one_of ":[]/\@?#% " c)) d) then refuse domain
  else if bool_decide (is_Some (parse_ip d)) then refuse "is an IP address"
  else
    let labels := split "." d in
    if (length labels <? 2)%nat then refuse "is a single-label name"
    else
      let final := List.last labels "" in
      if forall_chars is_digit final || has_prefix final "0x" then refuse "looks like an IP address"
      else if existsb (has_suffix ("." +:+ d)) internal_suffixes then refuse "is an internal name"
      else None.

(** netip's classes of addresses. *)
Definition v4_byte (i z : Z) : Z := Z.land (Z.shiftr z (24 - 8 * i)) 255.
Definition v6_byte (z : Z) : Z := Z.land (Z.shiftr z 120) 255.
Definition v6_u16 (z : Z) : Z := Z.land (Z.shiftr z 112) 65535.

Definition is_unspecified (a : ip) : bool := match a with V4 z | V6 z => z =? 0 end.
Definition is_loopback (a : ip) : bool :=
  match a with V4 z => v4_byte 0 z =? 127 | V6 z => z =? 1 end.
Definition is_multicast (a : ip) : bool :=
  match a with V4 z => Z.land (v4_byte 0 z) 240 =? 224 | V6 z => v6_byte z =? 255 end.
Definition is_link_local_unicast (a : ip) : bool :=
  match a with
  | V4 z => (v4_byte 0 z =? 169) && (v4_byte 1 z =? 254)
  | V6 z => Z.land (v6_u16 z) 65472 =? 65152
  end.
Definition is_link_local_multicast (a : ip) : bool :=
  match a with
  | V4 z => (v4_byte 0 z =? 224) && (v4_byte 1 z =? 0) && (v4_byte 2 z =? 0)
  | V6 z => Z.land (v6_u16 z) 65295 =? 65282
  end.
Definition is_interface_local_multicast (a : ip) : bool :=
  match a with V4 _ => false | V6 z => Z.land (v6_u16 z) 65295 =? 65281 end.
Definition is_private (a : ip) : bool :=
  match a with
  | V4 z => (v4_byte 0 z =? 10) || (v4_byte 0 z =? 172) && (Z.land (v4_byte 1 z) 240 =? 16)
            || (v4_byte 0 z =? 192) && (v4_byte 1 z =? 168)
  | V6 z => Z.land (v6_byte z) 254 =? 252
  end.
Definition is_global_unicast (a : ip) : bool :=
  negb (match a with V4 z => (z =? 0) || (z =? Z.ones 32) | V6 _ => false end)
  && negb (is_unspecified a) && negb (is_loopback a) && negb (is_multicast a) && negb (is_link_local_unicast a).

Definition nets (l : list string) : list ip_net := omap parse_cidr l.

Definition non_public_prefixes : list ip_net := Eval vm_compute in
  nets ["0.0.0.0/8"; "100.64.0.0/10"; "192.0.0.0/24"; "192.0.2.0/24"; "198.18.0.0/15"; "198.51.100.0/24";
        "203.0.113.0/24"; "240.0.0.0/4"; "64:ff9b::/96"; "100::/64"; "2001:db8::/32"].

Definition is_public_ip (a : ip) : bool :=
  negb (negb (is_global_unicast a) || is_private a || is_loopback a || is_link_local_unicast a
        || is_link_local_multicast a || is_interface_local_multicast a || is_multicast a || is_unspecified a)
  && negb (existsb (fun n => net_contains n a) non_public_prefixes).

(** ** The dialer *)

(** [net.SplitHostPort]. *)
Definition split_host_port (s : string) : res (string * string) :=
  match cut_last ":" s with
  | None => Err (Sentinel "missing port in address")
  | Some (before, port) =>
      match before with
      | String "[" t =>
          match cut "]" t with
          | None => Err (Sentinel "missing ']' in address")
          | Some (host, "") =>
              if negb (no_char "[" (host +:+ port)) then Err (Sentinel "unexpected '[' in address")
              else if negb (no_char "]" port) then Err (Sentinel "unexpected ']' in address")
              else Ok (host, port)
          | Some (_, String ":" _) => Err (Sentinel "too many colons in address")
          | Some _ => Err (Sentinel "missing port in address")
          end
      | _ =>
          if negb (no_char ":" before) then Err (Sentinel "too many colons in address")
          else if negb (no_char "[" s) then Err (Sentinel "unexpected '[' in address")
          else if negb (no_char "]" s) then Err (Sentinel "unexpected ']' in address")
          else Ok (before, port)
      end
  end.

Record cache_entry := CacheEntry { ce_pubkey : string; ce_expires_at : Z }.

Record nip05_resolver := Nip05Resolver {
  nr_cache : gmap string cache_entry; nr_ttl : Z; nr_max : Z;
  nr_allow : ip -> string -> bool; nr_port : string }.

Definition nip05_default_cache_ttl : Z := 24 * hour.
Definition nip05_max_response_size : Z := Z.shiftl 256 10.
Definition nip05_max_cache_entries : Z := 10000.

Definition default_allow_addr (a : ip) (_ : string) : bool := is_public_ip a.

Definition new_nip05_resolver : nip05_resolver :=
  Nip05Resolver ∅ nip05_default_cache_ttl nip05_max_cache_entries default_allow_addr "".

Record http_answer := HttpAnswer { ha_status : Z; ha_location : option string; ha_body : string }.

Section resolver.
(** A connection; names to ASCII; Go's walk of a map; the JSON document's names. *)
Context {C : Type}.
Context (idna : string -> string).
Context (order : gmap string string -> list (string * string)).
Context (decode_names : string -> res (gmap string string)).

(** What the outside world does during one lookup, and the clock's readings:
    before the cache, on eviction, on insertion. *)
Record lookup_run := LookupRun {
  lr_check : Z; lr_evict : Z; lr_store : Z;
  lr_idle : option C;
  lr_dns : string -> res (list ip);
  lr_connect : ip -> string -> res C;
  lr_exchange : C -> string -> string -> res http_answer }.

(** The addresses tried, and the connection or the last error. *)
Fixpoint dial_each (r : nip05_resolver) (u : lookup_run) (host port : string) (last : error) (ips : list ip)
    : list (ip * string) * res C :=
  match ips with
  | [] => ([], Err last)
  | a :: ips =>
      if negb (nr_allow r a port) then dial_each r u host port (Wrapped host errNIP05Internal) ips
      else match lr_connect u a port with
           | Ok c => ([(a, port)], Ok c)
           | Err e => let '(tried, x) := dial_each r u host port e ips in ((a, port) :: tried, x)
           end
  end.

Definition dial_public (r : nip05_resolver) (u : lookup_run) (addr : string) : list (ip * string) * res C :=
  match split_host_port addr with
  | Err e => ([], Err e)
  | Ok (host, port) =>
      let port := if String.eqb (nr_port r) "" then port else nr_port r in
      match lr_dns u host with
      | Err e => ([], Err e)
      | Ok ips => dial_each r u host port (Wrapped (host +:+ " has no addresses") errNIP05Internal) ips
      end
  end.

(** ** The lookup *)

(** The characters that survive [URL.String] and the parser of NewRequest. *)
Definition host_char (c : ascii) : bool :=
  (128 <=? char_code c)%nat || is_letter c || is_digit c || one_of ("!$&'()*+,;=:[]<>-_.~" +:+ String "034" "") c.

Definition lookup_target (name : string) : string := "/.well-known/nostr.json?name=" +:+ query_escape name.

(** A redirect with a target is an error of the client. *)
Definition is_redirect (a : http_answer) : bool :=
  existsb (Z.eqb (ha_status a)) [301; 302; 303; 307; 308] && bool_decide (is_Some (ha_location a)).

(** [client.Do]: a pooled connection or a new one. *)
Definition client_do (r : nip05_resolver) (u : lookup_run) (domain name : string)
    : list (ip * string) * res http_answer :=
  if negb (forall_chars host_char domain) then ([], Err (Sentinel "failed to create request"))
  else
    let '(tried, conn) := match lr_idle u with
                          | Some c => ([], Ok c)
                          | None => dial_public r u (idna domain +:+ ":443")
                          end in
    (tried,
     wrap "NIP-05 lookup failed" (
     let! c := conn in
     let! a := lr_exchange u c domain (lookup_target name) in
     if is_redirect a then Err (Sentinel "NIP-05 endpoint redirected; redirects are not followed") else Ok a)).

Definition find_name (name : string) (names : gmap string string) : string :=
  match List.find (fun kv => equal_fold kv.1 name) (order names) with Some (_, p) => p | None => "" end.

(** The checks on an answer. *)
Definition read_answer (name : string) (a : http_answer) : res string :=
  if ha_status a =? 404 then Err (Sentinel "no NIP-05 record found")
  else if negb (ha_status a =? 200) then Err (Sentinel ("NIP-05 lookup returned status " +:+ pretty (ha_status a)))
  else
    let! names := wrap "failed to parse NIP-05 response" (decode_names (limit_str nip05_max_response_size (ha_body a))) in
    let pubkey := find_name name names in
    if String.eqb pubkey "" then Err (Sentinel "no pubkey found in NIP-05 response")
    else if negb (str_len pubkey =? 64) then Err (Sentinel "invalid pubkey length in NIP-05 response")
    else if negb (hex_decodes pubkey) then Err (Sentinel "invalid pubkey format in NIP-05 response")
    else Ok pubkey.

Definition fetch (r : nip05_resolver) (u : lookup_run) (domain name : string) : list (ip * string) * res string :=
  let '(tried, a) := client_do r u domain name in
  (tried, let! a := a in read_answer name a).

(** ** The cache *)

Definition with_cache (c : gmap string cache_entry) (r : nip05_resolver) : nip05_resolver :=
  Nip05Resolver c (nr_ttl r) (nr_max r) (nr_allow r) (nr_port r).

Definition cache_size (r : nip05_resolver) : Z := Z.of_nat (size (nr_cache r)).

Definition evict_locked (now : Z) (r : nip05_resolver) : nip05_resolver :=
  let r := with_cache (filter (fun kv => ce_expires_at kv.2 >= now) (nr_cache r)) r in
  if nr_max r <=? cache_size r then with_cache ∅ r else r.

Definition cache_get (now : Z) (key : string) (r : nip05_resolver) : option string :=
  match nr_cache r !! key with
  | Some e => if now <? ce_expires_at e then Some (ce_pubkey e) else None
  | None => None
  end.

Definition cache_put (u : lookup_run) (key pubkey : string) (r : nip05_resolver) : nip05_resolver :=
  let r := if nr_max r <=? cache_size r then evict_locked (lr_evict u) r else r in
  with_cache (<[key := CacheEntry pubkey (lr_store u + nr_ttl r)]> (nr_cache r)) r.

Definition clear_cache (r : nip05_resolver) : nip05_resolver := with_cache ∅ r.
Definition cache_stats (r : nip05_resolver) : Z := cache_size r.
Definition set_cache_ttl (ttl : Z) (r : nip05_resolver) : nip05_resolver :=
  Nip05Resolver (nr_cache r) ttl (nr_max r) (nr_allow r) (nr_port r).

Definition resolve_pubkey (r : nip05_resolver) (u : lookup_run) (email : string)
    : nip05_resolver * (list (ip * string) * res string) :=
  match cut "@" email with
  | None => (r, ([], Err (Sentinel ("invalid email format: " +:+ email))))
  | Some (name, domain) =>
      match check_nip05_domain domain with
      | Some e => (r, ([], Err e))
      | None =>
          let name := if String.eqb name "" then "_" else name in
          let key := name +:+ "@" +:+ domain in
          match cache_get (lr_check u) key r with
          | Some pubkey => (r, ([], Ok pubkey))
          | None =>
              match fetch r u domain name with
              | (tried, Ok pubkey) => (cache_put u key pubkey r, (tried, Ok pubkey))
              | (tried, Err e) => (r, (tried, Err e))
              end
          end
      end
  end.

(** Lookups of several requests interleave: the cache is read and written under
    the lock, the fetch in between is not, and may use an older state's policy. *)
Inductive cache_step (r : nip05_resolver) : nip05_resolver -> Prop :=
| step_put u key domain name tried pubkey :
    fetch r u domain name = (tried, Ok pubkey) -> cache_step r (cache_put u key pubkey r)
| step_clear : cache_step r (clear_cache r)
| step_ttl ttl : cache_step r (set_cache_ttl ttl r).

End resolver.

(** ** Several resolvers *)

Fixpoint composite_loop (resolvers : list (string -> res string)) (last : option error) (email : string) : res string :=
  match resolvers with
  | [] => Err (match last with Some e => Wrapped "all resolvers failed" e | None => Sentinel "no resolvers available" end)
  | f :: rest => match f email with Ok p => Ok p | Err e => composite_loop rest (Some e) email end
  end.
Definition composite_resolve (resolvers : list (string -> res string)) : string -> res string :=
  composite_loop resolvers None.

(** * Properties *)

(** ** Public addresses *)

(** The networks that are not the public internet. *)
Definition reserved_nets : list ip_net := Eval vm_compute in
  nets ["0.0.0.0/8"; "10.0.0.0/8"; "100.64.0.0/10"; "127.0.0.0/8"; "169.254.0.0/16"; "172.16.0.0/12";
        "192.0.0.0/24"; "192.0.2.0/24"; "192.168.0.0/16"; "198.18.0.0/15"; "198.51.100.0/24"; "203.0.113.0/24";
        "224.0.0.0/4"; "240.0.0.0/4"; "::/128"; "::1/128"; "64:ff9b::/96"; "100::/64"; "2001:db8::/32"; "fc00::/7";
        "fe80::/10"; "ff00::/8"].

Definition wf_ip (a : ip) : Prop := match a with V4 z => 0 <= z < 2 ^ 32 | V6 z => 0 <= z < 2 ^ 128 end.

Definition within (lo hi z : Z) : bool := (lo <=? z) && (z <=? hi).

Lemma within_spec lo hi z b : (b = true <-> lo <= z <= hi) -> b = within lo hi z.
Proof. intros H. apply eq_true_iff_eq. rewrite H. unfold within. lia. Qed.

Lemma mask_within w k z : 0 <= k -> w mod 2 ^ k = 0 -> (w =? Z.shiftl (Z.shiftr z k) k) = within w (w + 2 ^ k - 1) z.
Proof.
  intros Hk Hw. apply within_spec. rewrite Z.shiftr_div_pow2, Z.shiftl_mul_pow2, Z.eqb_eq by done.
  pose proof (Z.pow_pos_nonneg 2 k). pose proof (Z.div_mod w (2 ^ k)). pose proof (Z.div_mod z (2 ^ k)).
  pose proof (Z.mod_pos_bound z (2 ^ k)). split; [lia|]. intros Hz.
  assert (z / 2 ^ k = w / 2 ^ k) as ->; [|lia]. symmetry. apply (Z.div_unique _ _ _ (z - w)); lia.
Qed.

Lemma land_run x j k : 0 <= j <= k -> 0 <= x < 2 ^ k ->
  Z.land x (Z.shiftl (Z.ones (k - j)) j) = x / 2 ^ j * 2 ^ j.
Proof.
  intros Hj Hx. rewrite <- Z.shiftr_div_pow2, <- Z.shiftl_mul_pow2 by lia.
  apply Z.bits_inj'. intros n Hn. rewrite Z.land_spec, !Z.shiftl_spec by done.
  destruct (Z.ltb_spec n j) as [Hlt|Hge].
  { rewrite !(Z.testbit_neg_r _ (n - j)) by lia. by rewrite andb_false_r. }
  rewrite Z.shiftr_spec by lia. replace (n - j + j) with n by lia.
  rewrite Z.testbit_ones by lia. destruct (Z.ltb_spec (n - j) (k - j)) as [|Hhi].
  { rewrite (proj2 (Z.leb_le 0 (n - j))) by lia. apply andb_true_r. }
  rewrite <- (Z.mod_small x (2 ^ k)), Z.mod_pow2_bits_high by lia. done.
Qed.

(** The fields of an address, as numbers. *)
Lemma v4_byte_eq i z : 0 <= i <= 3 -> v4_byte i z = z / 2 ^ (24 - 8 * i) mod 256.
Proof.
  intros. unfold v4_byte. change 255 with (Z.ones 8). rewrite Z.land_ones, Z.shiftr_div_pow2 by lia. done.
Qed.

Lemma v6_top k z : 0 <= k <= 128 -> 0 <= z < 2 ^ 128 -> Z.land (Z.shiftr z k) (Z.ones (128 - k)) = z / 2 ^ k.
Proof.
  intros. rewrite Z.land_ones, Z.shiftr_div_pow2 by lia. apply Z.mod_small. split; [apply Z.div_pos; lia|].
  apply Z.div_lt_upper_bound; [lia|]. rewrite <- Z.pow_add_r by lia. replace (k + (128 - k)) with 128 by lia. lia.
Qed.

Lemma v6_byte_eq z : 0 <= z < 2 ^ 128 -> v6_byte z = z / 2 ^ 120.
Proof. apply (v6_top 120). lia. Qed.
Lemma v6_u16_eq z : 0 <= z < 2 ^ 128 -> v6_u16 z = z / 2 ^ 112.
Proof. apply (v6_top 112). lia. Qed.

(** Every test of netip is a range of addresses. *)
Ltac bytes := rewrite ?v4_byte_eq by lia; apply within_spec; rewrite ?andb_true_iff, ?Z.eqb_eq; simpl (2 ^ _) in *;
  Z.to_euclidean_division_equations; lia.

Lemma v4_byte_bound i z : 0 <= i <= 3 -> 0 <= v4_byte i z < 2 ^ 8.
Proof. intros. rewrite v4_byte_eq by done. by apply Z.mod_pos_bound. Qed.

Lemma high_nibble x : 0 <= x < 2 ^ 8 -> Z.land x 240 = x / 16 * 16.
Proof. apply (land_run x 4 8). lia. Qed.

Section v4.
Context (z : Z) (Hz : 0 <= z < 2 ^ 32).

Lemma v4_loopback : is_loopback (V4 z) = within 2130706432 2147483647 z.
Proof using Hz. unfold is_loopback. bytes. Qed.
Lemma v4_link_local : is_link_local_unicast (V4 z) = within 2851995648 2852061183 z.
Proof using Hz. unfold is_link_local_unicast. bytes. Qed.
Lemma v4_multicast : is_multicast (V4 z) = within 3758096384 4026531839 z.
Proof using Hz. unfold is_multicast. rewrite high_nibble by (apply v4_byte_bound; lia). bytes. Qed.
Lemma v4_link_local_multicast : is_link_local_multicast (V4 z) = within 3758096384 3758096639 z.
Proof using Hz. unfold is_link_local_multicast. bytes. Qed.
Lemma v4_private : is_private (V4 z) =
  within 167772160 184549375 z || within 2886729728 2887778303 z || within 3232235520 3232301055 z.
Proof using Hz.
  unfold is_private. rewrite high_nibble by (apply v4_byte_bound; lia). f_equal; [f_equal|]; bytes.
Qed.
End v4.

Section v6.
Context (z : Z) (Hz : 0 <= z < 2 ^ 128).

Lemma v6_multicast : is_multicast (V6 z) = within (65280 * 2 ^ 112) (2 ^ 128 - 1) z.
Proof using Hz. unfold is_multicast. rewrite v6_byte_eq by done. bytes. Qed.
Lemma v6_private : is_private (V6 z) = within (64512 * 2 ^ 112) (65024 * 2 ^ 112 - 1) z.
Proof using Hz.
  unfold is_private. rewrite v6_byte_eq by done. change 254 with (Z.shiftl (Z.ones (8 - 1)) 1).
  rewrite land_run by (Z.to_euclidean_division_equations; lia). bytes.
Qed.
Lemma v6_link_local : is_link_local_unicast (V6 z) = within (65152 * 2 ^ 112) (65216 * 2 ^ 112 - 1) z.
Proof using Hz.
  unfold is_link_local_unicast. rewrite v6_u16_eq by done. change 65472 with (Z.shiftl (Z.ones (16 - 6)) 6).
  rewrite land_run by (Z.to_euclidean_division_equations; lia). bytes.
Qed.
(** The scoped classes of multicast are multicast. *)
Lemma v6_scoped v : Z.land v 65280 = 65280 -> Z.land (v6_u16 z) 65295 = v -> is_multicast (V6 z) = true.
Proof using Hz.
  intros Hv Hs. assert (Z.land (v6_u16 z) 65280 = 65280) as Hh.
  { rewrite <- Hv at 2. rewrite <- Hs, <- Z.land_assoc. done. }
  rewrite v6_u16_eq in Hh by done. change 65280 with (Z.shiftl (Z.ones (16 - 8)) 8) in Hh at 1.
  rewrite land_run in Hh by (Z.to_euclidean_division_equations; lia).
  unfold is_multicast. rewrite v6_byte_eq by done. apply Z.eqb_eq. simpl (2 ^ _) in *.
  Z.to_euclidean_division_equations; lia.
Qed.
End v6.

Lemma within_sub lo hi lo' hi' z : lo' <= lo -> hi <= hi' -> within lo' hi' z = false -> within lo hi z = false.
Proof. unfold within. lia. Qed.

Lemma eqb_within v lo hi z : lo <= v <= hi -> within lo hi z = false -> (z =? v) = false.
Proof. unfold within. lia. Qed.

Lemma eqb_is_within v z : (z =? v) = within v v z.
Proof. unfold within. lia. Qed.

Ltac literal_bounds := repeat match goal with
  | |- context [within ?a ?b _] =>
      let a' := eval vm_compute in a in let b' := eval vm_compute in b in progress change (within a b) with (within a' b')
  end.

(** C30. The guard is a block list, and exactly this one: an address is dialled
    exactly when it is in none of the private, shared, loopback, link-local,
    documentation, benchmark, multicast, reserved and unspecified networks of
    IPv4 and IPv6, an IPv4-mapped address counting as its IPv4 address. *)
Theorem public_ip_is_outside_reserved a (Ha : wf_ip a) :
  is_public_ip a = negb (existsb (fun n => net_contains n a) reserved_nets).
Proof.
  unfold is_public_ip, is_global_unicast, is_unspecified, is_interface_local_multicast. apply eq_true_iff_eq.
  destruct a as [z|z]; simpl in Ha;
    rewrite ?andb_true_iff, !negb_true_iff, ?orb_false_iff, ?negb_false_iff, ?andb_true_iff, ?negb_true_iff, ?orb_false_iff;
    unfold non_public_prefixes, reserved_nets; cbn [existsb net_contains net_ip net_bits]; unfold mask_to;
    rewrite !mask_within, ?orb_false_iff by done.
  - rewrite v4_loopback, v4_link_local, v4_multicast, v4_link_local_multicast, v4_private, ?orb_false_iff by done.
    literal_bounds.
    assert (within 3758096384 4026531839 z = false -> within 3758096384 3758096639 z = false) by (by apply within_sub).
    assert (within 0 16777215 z = false -> (z =? 0) = false) by (by apply eqb_within).
    assert (within 4026531840 4294967295 z = false -> (z =? Z.ones 32) = false) by (by apply eqb_within).
    tauto.
  - rewrite v6_link_local, v6_private by done.
    assert (forall v, Z.land v 65280 = 65280 -> is_multicast (V6 z) = false -> (Z.land (v6_u16 z) 65295 =? v) = false) as Hscoped.
    { intros v Hv Hm. apply Z.eqb_neq. intros Hs. apply (v6_scoped z Ha v Hv) in Hs. congruence. }
    generalize (Hscoped 65282 eq_refl) (Hscoped 65281 eq_refl). rewrite v6_multicast by done.
    change (is_loopback (V6 z)) with (z =? 1). rewrite (eqb_is_within 0 z), (eqb_is_within 1 z). literal_bounds. tauto.
Qed.

(** ** The resolver *)

Section resolver_properties.
Context {C : Type}.
Context (idna : string -> string).
Context (order : gmap string string -> list (string * string)).
Context (decode_names : string -> res (gmap string string)).
Abbreviation fetches := (fetch (C := C) idna order decode_names).
Abbreviation resolves := (resolve_pubkey (C := C) idna order decode_names).

(** States a resolver of the program can be in. *)
Definition reachable : nip05_resolver -> Prop := rtc (cache_step (C := C) idna order decode_names) new_nip05_resolver.

Lemma reachable_ind (P : nip05_resolver -> Prop) :
  P new_nip05_resolver ->
  (forall r r', reachable r -> cache_step (C := C) idna order decode_names r r' -> P r -> P r') ->
  forall r, reachable r -> P r.
Proof. intros H0 Hs. exact (rtc_ind_r P new_nip05_resolver H0 Hs). Qed.

Lemma policy_kept r r' : cache_step (C := C) idna order decode_names r r' -> nr_allow r' = nr_allow r /\ nr_port r' = nr_port r /\ nr_max r' = nr_max r.
Proof. intros []; try done. unfold cache_put, evict_locked. by repeat case_match. Qed.

Lemma reachable_policy r : reachable r -> nr_allow r = default_allow_addr /\ nr_port r = "" /\ nr_max r = nip05_max_cache_entries.
Proof.
  revert r. apply reachable_ind; [done|]. intros r r' _ Hs IH. apply policy_kept in Hs as (-> & -> & ->). exact IH.
Qed.

Lemma dial_each_allowed r (u : lookup_run (C := C)) host port ips : forall last,
  Forall (fun ap => nr_allow r ap.1 ap.2 = true /\ ap.2 = port) (dial_each r u host port last ips).1.
Proof.
  induction ips as [|a ips IH]; intros last; simpl; [constructor|].
  destruct (nr_allow r a port) eqn:Ea; simpl; [|apply IH].
  destruct (lr_connect u a port) as [c|e]; simpl; [by repeat constructor|].
  specialize (IH e). destruct (dial_each r u host port e ips) as [tried x]. by constructor.
Qed.

Lemma split_443 host h p : split_host_port (host +:+ ":443") = Ok (h, p) -> p = "443".
Proof.
  unfold split_host_port. rewrite (cut_last_app ":" host "443") by done. intros Hx.
  repeat (case_match; simplify_eq; try done).
Qed.

Lemma client_do_allowed r (u : lookup_run (C := C)) domain name tried a :
  nr_port r = "" -> client_do idna r u domain name = (tried, a) ->
  Forall (fun ap => nr_allow r ap.1 ap.2 = true /\ ap.2 = "443") tried.
Proof.
  intros Hp Hd. unfold client_do in Hd. destruct (negb _); [by injection Hd as <- _|].
  destruct (lr_idle u) as [c|]; [by injection Hd as <- _|]. unfold dial_public in Hd. rewrite Hp in Hd.
  destruct (split_host_port _) as [[h p]|e] eqn:Es; [|by injection Hd as <- _]. apply split_443 in Es as ->. simpl in Hd.
  destruct (lr_dns u h) as [ips|]; [|by injection Hd as <- _].
  pose proof (dial_each_allowed r u h "443" ips (Wrapped (h +:+ " has no addresses") errNIP05Internal)) as Hf.
  destruct (dial_each _ _ _ _ _ _) as [tried' conn]. by injection Hd as <- _.
Qed.

Lemma resolve_cases r u email r' tried x :
  resolves r u email = (r', (tried, x)) ->
  (r' = r /\ tried = [] /\ (forall p, x = Ok p -> exists key, cache_get (lr_check u) key r = Some p)) \/
  exists name domain, cut "@" email = Some (name, domain) /\ check_nip05_domain domain = None /\
    cache_get (lr_check u) ((if String.eqb name "" then "_" else name) +:+ "@" +:+ domain) r = None /\
    fetches r u domain (if String.eqb name "" then "_" else name) = (tried, x) /\
    r' = match x with Ok p => cache_put u ((if String.eqb name "" then "_" else name) +:+ "@" +:+ domain) p r | Err _ => r end.
Proof.
  unfold resolve_pubkey. intros Hr. destruct (cut "@" email) as [[name domain]|]; [|left; by simplify_eq].
  destruct (check_nip05_domain domain) eqn:Ec; [left; by simplify_eq|].
  destruct (cache_get _ _ _) as [p|] eqn:Eg.
  - left. simplify_eq. split; [done|]. split; [done|]. intros p' [= <-]. eauto.
  - right. exists name, domain. destruct (fetch _ _ _ _) as [t [p|e]] eqn:Ef; simplify_eq; by rewrite Eg.
Qed.

(** C29. A stranger's address cannot make the server connect inside its own
    network: whatever states the resolver has been through, whatever the DNS
    answers, and however names re-resolve, every address a lookup connects to
    is public and on port 443, and nothing is dialled at all for a domain the
    guard refuses. *)
Theorem lookups_dial_public_addresses_only r u email r' tried x
    (Hreach : reachable r) (Hrun : resolves r u email = (r', (tried, x))) :
  Forall (fun ap => is_public_ip ap.1 = true /\ ap.2 = "443") tried /\
  (tried <> [] -> exists name domain, cut "@" email = Some (name, domain) /\ check_nip05_domain domain = None).
Proof.
  apply reachable_policy in Hreach as (Ha & Hp & _).
  apply resolve_cases in Hrun as [(_ & -> & _)|(name & domain & Hc & Hd & _ & Hf & _)]; [by split|].
  split; [|by eauto]. unfold fetch in Hf. destruct (client_do _ _ _ _ _) as [tried' a] eqn:Edo. injection Hf as <- _.
  apply client_do_allowed in Edo; [|done]. eapply Forall_impl; [exact Edo|]. intros [a' p]. by rewrite Ha.
Qed.

(** What the program takes for a public key. *)
Definition is_pubkey (p : string) : Prop := str_len p = 64 /\ hex_decodes p = true.

Lemma read_answer_pubkey name a p : read_answer order decode_names name a = Ok p -> is_pubkey p.
Proof.
  unfold read_answer. destruct (_ =? 404); [done|]. destruct (negb (_ =? 200)); [done|].
  destruct (wrap _ _) as [names|]; [|done]. cbn [res_bind]. generalize (find_name order name names). intros q.
  destruct (String.eqb q ""); [done|]. destruct (Z.eqb_spec (str_len q) 64); [|done].
  destruct (hex_decodes q) eqn:Eh; [|done]. intros Hx. injection Hx as <-. done.
Qed.

Lemma fetch_pubkey r u domain name tried p : fetches r u domain name = (tried, Ok p) -> is_pubkey p.
Proof.
  unfold fetch. destruct (client_do _ _ _ _ _) as [t [a|e]]; [|done]. cbn [res_bind]. intros Hf.
  injection Hf as _ Hf. by eapply read_answer_pubkey.
Qed.

Definition wf_cache (r : nip05_resolver) : Prop :=
  nr_max r = nip05_max_cache_entries /\ cache_size r <= nip05_max_cache_entries /\
  map_Forall (fun _ e => is_pubkey (ce_pubkey e)) (nr_cache r).

Lemma size_insert_le {A} (m : gmap string A) k a : Z.of_nat (size (<[k := a]> m)) <= Z.of_nat (size m) + 1.
Proof. destruct (m !! k) eqn:E; [rewrite map_size_insert_Some by done|rewrite map_size_insert_None by done]; lia. Qed.

Lemma wf_put (u : lookup_run (C := C)) key p r : wf_cache r -> is_pubkey p -> wf_cache (cache_put u key p r).
Proof.
  intros (Hm & Hs & Hk) Hp.
  assert (exists r1, cache_put u key p r = with_cache (<[key := CacheEntry p (lr_store u + nr_ttl r)]> (nr_cache r1)) r1 /\
    nr_max r1 = nip05_max_cache_entries /\ cache_size r1 < nip05_max_cache_entries /\
    map_Forall (fun _ e => is_pubkey (ce_pubkey e)) (nr_cache r1)) as (r1 & -> & Hm1 & Hs1 & Hk1).
  { unfold cache_put. destruct (Z.leb_spec (nr_max r) (cache_size r)); [|exists r; split; [done|]; split; [done|]; split; [lia|done]].
    unfold evict_locked. cbn [nr_max nr_cache with_cache nr_ttl].
    destruct (Z.leb_spec (nr_max r) (cache_size (with_cache (filter (fun kv => ce_expires_at kv.2 >= lr_evict u) (nr_cache r)) r))).
    - exists (with_cache ∅ r). split; [done|]. split; [done|]. split; [done|]. apply map_Forall_empty.
    - eexists. split; [reflexivity|]. cbn [nr_max nr_cache with_cache]. split; [done|]. split; [lia|].
      intros k e He. apply map_lookup_filter_Some in He as [He _]. by apply (Hk k). }
  split; [done|]. unfold cache_size, with_cache in *. simpl. split.
  - pose proof (size_insert_le (nr_cache r1) key (CacheEntry p (lr_store u + nr_ttl r))). lia.
  - by apply map_Forall_insert_2.
Qed.

Lemma wf_reachable r : reachable r -> wf_cache r.
Proof.
  revert r. apply reachable_ind; [by split; [|split; [|apply map_Forall_empty]]|]. intros r r' _ Hs IH.
  destruct Hs as [u key domain name tried p Hf| |ttl]; [|split; [apply IH|split; [done|apply map_Forall_empty]]|exact IH].
  apply wf_put; [done|]. by eapply fetch_pubkey.
Qed.

(** The cache stays bounded and holds keys only: in every state the resolver
    can reach, lookups interleaving as they may, it has at most the configured
    number of entries and each is 64 hexadecimal digits; a lookup leads to such
    a state, and what it answers, from the cache or the network, is a key. *)
Theorem lookup_cache_bounded_and_typed r u email r' tried x
    (Hreach : reachable r) (Hrun : resolves r u email = (r', (tried, x))) :
  reachable r' /\ cache_stats r' <= nip05_max_cache_entries /\
  map_Forall (fun _ e => is_pubkey (ce_pubkey e)) (nr_cache r') /\
  match x with Ok p => is_pubkey p | Err _ => True end.
Proof.
  pose proof (wf_reachable r Hreach) as (_ & _ & Hk).
  assert (reachable r' /\ match x with Ok p => is_pubkey p | Err _ => True end) as [Hr' Hx].
  { apply resolve_cases in Hrun as [(-> & _ & Hx)|(name & domain & _ & _ & _ & Hf & ->)].
    - split; [done|]. destruct x as [p|]; [|done]. destruct (Hx p eq_refl) as [key Hg]. unfold cache_get in Hg.
      destruct (nr_cache r !! key) as [e|] eqn:E; [|done]. destruct (_ <? _); [|done]. injection Hg as <-. by apply (Hk key).
    - destruct x as [p|]; [|done]. split; [|by eapply fetch_pubkey].
      eapply rtc_r; [exact Hreach|]. by econstructor. }
  pose proof (wf_reachable r' Hr') as (_ & Hs & Hk'). done.
Qed.

(** An answer is reused until it expires and never after. *)
Lemma cached_until_expiry (u : lookup_run (C := C)) key p r now :
  cache_get now key (cache_put u key p r) = if now <? lr_store u + nr_ttl r then Some p else None.
Proof.
  unfold cache_put. set (r1 := if _ <=? _ then _ else _). assert (nr_ttl r1 = nr_ttl r) as Ht.
  { unfold r1, evict_locked. by repeat case_match. }
  unfold cache_get. simpl. rewrite lookup_insert. simpl. by rewrite Ht, decide_True.
Qed.

End resolver_properties.

Lemma composite_first_success (resolvers : list (string -> res string)) email p :
  composite_resolve resolvers email = Ok p <->
  exists i f, resolvers !! i = Some f /\ f email = Ok p /\
    forall j g, (j < i)%nat -> resolvers !! j = Some g -> exists e, g email = Err e.
Proof.
  unfold composite_resolve. generalize (@None error). induction resolvers as [|f rest IH]; intros last; simpl.
  { split; [done|]. by intros (i & f & Hi & _). }
  destruct (f email) as [q|e] eqn:Ef.
  - split.
    + intros [= ->]. exists 0%nat, f. repeat split; [done|]. intros j g Hj. lia.
    + intros ([|i] & g & Hi & Hg & Hprev); simpl in Hi; [injection Hi as <-; congruence|].
      destruct (Hprev 0%nat f) as [e He]; [lia|done|congruence].
  - rewrite (IH (Some e)). split.
    + intros (i & g & Hi & Hg & Hprev). exists (S i), g. repeat split; try done.
      intros [|j] h Hj Hh; simpl in Hh; [injection Hh as <-; eauto|]. apply (Hprev j); [lia|done].
    + intros ([|i] & g & Hi & Hg & Hprev); simpl in Hi; [injection Hi as <-; congruence|].
      exists i, g. repeat split; try done. intros j h Hj Hh. apply (Hprev (S j)); [lia|done].
Qed.

(** The networks above are not all that is not global: translated and local-use
    addresses that can stand for private ones are accepted. *)
Example local_nat64_is_accepted :
  (is_public_ip <$> parse_ip "64:ff9b:1::a00:1") = Some true /\ (is_public_ip <$> parse_ip "2002:a00:1::1") = Some true.
Proof. vm_compute. done. Qed.

Example nip05_domains :
  check_nip05_domain "Example.com." = None /\ check_nip05_domain "mail.cloistr.xyz" = None /\
  map (fun d => bool_decide (is_Some (check_nip05_domain d)))
    [""; "localhost"; "127.0.0.1"; "127.1"; "0x7f.0x1"; "x.internal"; "db.svc.cluster.local"; "a.com:80"; "u@a.com"; "a.com/x"] =
  repeat true 10.
Proof. vm_compute. done. Qed.

(** ** Witnesses *)

Definition sample_nip05_key : string := "0123456789abcdef0123456789abcdef0123456789abcdef0123456789abcdef".
Definition sample_run : lookup_run (C := unit) :=
  LookupRun 0 0 0 None
    (fun _ => Ok [V4 167772161; V4 1572395042])
    (fun _ _ => Ok ()) (fun _ _ _ => Ok (HttpAnswer 200 None "{}")).
Definition sample_lookup : nip05_resolver * (list (ip * string) * res string) :=
  resolve_pubkey (fun d => d) map_to_list (fun _ => Ok {[ "Alice" := sample_nip05_key ]}) new_nip05_resolver sample_run
    "alice@example.com".

Lemma pair_eta {A B D} (p : A * (B * D)) : p = (p.1, (p.2.1, p.2.2)).
Proof. by destruct p as [? [? ?]]. Qed.

Lemma public_ip_is_outside_reserved_witness :
  parse_ip "::ffff:169.254.169.254" = Some (V4 2852039166) /\
  is_public_ip (V4 2852039166) = negb (existsb (fun n => net_contains n (V4 2852039166)) reserved_nets).
Proof. split; [vm_compute; reflexivity|]. apply public_ip_is_outside_reserved. simpl. lia. Defined.

Lemma lookups_dial_public_addresses_only_witness :
  sample_lookup.2 = ([(V4 1572395042, "443")], Ok sample_nip05_key) /\
  Forall (fun ap => is_public_ip ap.1 = true /\ ap.2 = "443") sample_lookup.2.1.
Proof.
  split; [vm_compute; reflexivity|].
  refine (proj1 (lookups_dial_public_addresses_only (C := unit) (fun d => d) map_to_list (fun _ => Ok {[ "Alice" := sample_nip05_key ]})
    new_nip05_resolver sample_run "alice@example.com" sample_lookup.1 sample_lookup.2.1 sample_lookup.2.2 (rtc_refl _ _) _)).
  exact (pair_eta sample_lookup).
Defined.

Lemma lookup_cache_bounded_and_typed_witness :
  cache_stats sample_lookup.1 = 1 /\ cache_stats sample_lookup.1 <= nip05_max_cache_entries.
Proof.
  split; [vm_compute; reflexivity|].
  refine (proj1 (proj2 (lookup_cache_bounded_and_typed (C := unit) (fun d => d) map_to_list (fun _ => Ok {[ "Alice" := sample_nip05_key ]})
    new_nip05_resolver sample_run "alice@example.com" sample_lookup.1 sample_lookup.2.1 sample_lookup.2.2 (rtc_refl _ _) _))).
  exact (pair_eta sample_lookup).
Defined.
