(* ===== verification/Http.v ===== *)
(** * Replies of the HTTP handlers

    A handler answers with a status and a body, or with an error of
    cloistr-common, whose constructor names the status and which carries a code
    and a message, for some with the seconds after which to try again. *)

From S2P Require Import Prelude GoStrings.
#[local] Open Scope Z_scope.

Inductive http_reply (B : Type) :=
| Reply (status : Z) (body : B)
| Failure (status : Z) (code message : string)
| RetryLater (status : Z) (code message : string) (after : Z).
Arguments Reply {B} _ _.
Arguments Failure {B} _ _ _.
Arguments RetryLater {B} _ _ _ _.

Section replies.
Context {B : Type}.

Definition bad_request : string -> string -> http_reply B := Failure 400.
Definition unauthorized : string -> string -> http_reply B := Failure 401.
Definition forbidden : string -> string -> http_reply B := Failure 403.
Definition not_found : string -> string -> http_reply B := Failure 404.
Definition conflict : string -> string -> http_reply B := Failure 409.
Definition internal_error (message : string) : http_reply B := Failure 500 "INTERNAL_ERROR" message.

Definition too_many_requests : string -> string -> Z -> http_reply B := RetryLater 429.
Definition service_unavailable : string -> string -> Z -> http_reply B := RetryLater 503.

Definition status_of (r : http_reply B) : Z := match r with Reply s _ | Failure s _ _ | RetryLater s _ _ _ => s end.

End replies.

(** ["Bearer <token>"]. *)
Definition bearer_token (header : string) : option string :=
  match cut " " header with
  | Some (scheme, token) => if String.eqb (to_lower scheme) "bearer" then Some token else None
  | None => None
  end.

(** [err.Error()] of an error that wraps its cause after a colon.  Errors that
    name the cause first ('%w: ...') are modelled without that order. *)
Fixpoint error_text (e : error) : string :=
  match e with Sentinel m => m | Wrapped c e => c +:+ ": " +:+ error_text e end.
