(* ===== verification/Prog.v ===== *)
(** * Requests as programs over shared state

    Handlers of different requests interleave at their calls to Redis and at the
    sections that a lock protects.  A handler is therefore a program: a tree of
    commands, whose continuation takes the answer.  One semantics runs a program
    alone against an oracle; the other is that of a trace, in which the programs
    of many requests take turns and a command that fails may have been
    performed or not.  Redis is an interface with the documented behaviour of
    the four commands the code uses. *)

From S2P Require Import Prelude GoStrings.
#[local] Open Scope Z_scope.

Class Redis (R : Type) := {
  rd_get : Z -> string -> R -> option string;
  rd_set : Z -> string -> string -> Z -> R -> R;
  rd_del : string -> R -> R }.

Definition millisecond : Z := 1000000.

(** Keys are independent, a key lives for its time to live (in milliseconds;
    zero means for ever), and an expired key does not come back. *)
Class RedisLaws (R : Type) `{Redis R} : Prop := {
  rd_get_set now now' k v ttl r : 0 <= ttl -> now <= now' -> ttl = 0 \/ now' + millisecond <= now + ttl ->
    rd_get now' k (rd_set now k v ttl r) = Some v;
  rd_get_set_late now now' k v ttl r : millisecond <= ttl -> now + ttl <= now' -> rd_get now' k (rd_set now k v ttl r) = None;
  rd_get_set_ne now now' k k' v ttl r : k <> k' -> rd_get now' k' (rd_set now k v ttl r) = rd_get now' k' r;
  rd_get_del now k r : rd_get now k (rd_del k r) = None;
  rd_get_del_ne now k k' r : k <> k' -> rd_get now k' (rd_del k r) = rd_get now k' r;
  rd_get_just_set now k v d ttl r : rd_get now k (rd_set now k v ttl r) = Some d -> d = v;
  rd_get_mono now now' k v r : now <= now' -> rd_get now' k r = Some v -> rd_get now k r = Some v }.

Section programs.
(** What the process keeps in memory, and its requests to the outside. *)
Context {M : Type} {Q : Type -> Type}.

Inductive cmd : Type -> Type :=
| Get (key : string) : cmd (res (option string))
| Store (key value : string) (ttl : Z) : cmd (option error)
| Del (key : string) : cmd (option error)
| GetDel (key : string) : cmd (res (option string))
| Now : cmd Z
| Random (bytes : nat) : cmd (res string)
| Uuid : cmd string
| Shared {X : Type} (f : M -> M * X) : cmd X
| Outside {X : Type} (q : Q X) : cmd X.

Inductive prog (A : Type) : Type :=
| Ret (a : A)
| Crash
| Step {X : Type} (c : cmd X) (k : X -> prog A).
#[local] Arguments Ret {A} a.
#[local] Arguments Crash {A}.
#[local] Arguments Step {A X} c k.

Fixpoint bind {A B} (p : prog A) (f : A -> prog B) : prog B :=
  match p with
  | Ret a => f a
  | Crash => Crash
  | Step c k => Step c (fun x => bind (k x) f)
  end.

Definition call {X} (c : cmd X) : prog X := Step c Ret.

(** The rest of a function that returns on error. *)
Definition bind_res {A B} (p : prog (res A)) (f : A -> prog (res B)) : prog (res B) :=
  bind p (fun r => match r with Ok a => f a | Err e => Ret (Err e) end).

Inductive event : Type :=
| Event {X : Type} (c : cmd X) (x : X).

(** [runs p tr o]: with the answers in [tr] the program returns [o]; [None] is
    one that has crashed or has not finished. *)
Fixpoint runs {A} (p : prog A) (tr : list event) (o : option A) : Prop :=
  match p with
  | Ret a => tr = [] /\ (o = Some a \/ o = None)
  | Crash => tr = [] /\ o = None
  | Step c k => (tr = [] /\ o = None) \/ exists x rest, tr = Event c x :: rest /\ runs (k x) rest o
  end.

Lemma runs_bind {A B} (p : prog A) (f : A -> prog B) tr b : runs (bind p f) tr (Some b) ->
  exists a before after, tr = before ++ after /\ runs p before (Some a) /\ runs (f a) after (Some b).
Proof.
  revert tr. induction p as [a| |X c k IH]; intros tr; simpl.
  - intros Hf. exists a, [], tr. auto.
  - by intros [_ ?].
  - intros [[_ ?]|(x & rest & -> & (a & before & after & -> & Hk & Hf)%IH)]; [done|].
    exists a, (Event c x :: before), after. split; [done|]. split; [|done]. right. eauto.
Qed.

(** A call whose answer is lost has happened or has not. *)
Inductive outcome := Done | Lost (e : error) | Late (e : error).

Section world.
Context {R : Type} `{Redis R}.

Record world := World { w_redis : R; w_memory : M }.

Definition write (o : outcome) (f : R -> R) (r : R) : R * option error :=
  match o with Done => (f r, None) | Lost e => (r, Some e) | Late e => (f r, Some e) end.
Definition read (now : Z) (o : outcome) (k : string) (r : R) : res (option string) :=
  match o with Done => Ok (rd_get now k r) | Lost e | Late e => Err e end.

(** One command at a time, its answer and its effect. *)
Definition answers (now : Z) (s : world) {X} (c : cmd X) (x : X) (s' : world) : Prop :=
  match c in cmd Y return Y -> Prop with
  | Get k => fun x => s' = s /\ exists o, x = read now o k (w_redis s)
  | Store k v ttl => fun x => exists o, (w_redis s', x) = write o (rd_set now k v ttl) (w_redis s) /\ w_memory s' = w_memory s
  | Del k => fun x => exists o, (w_redis s', x) = write o (rd_del k) (w_redis s) /\ w_memory s' = w_memory s
  | GetDel k => fun x => exists o, x = read now o k (w_redis s) /\ w_redis s' = (write o (rd_del k) (w_redis s)).1 /\
                         w_memory s' = w_memory s
  | Now => fun x => s' = s /\ x = now
  | Shared f => fun x => (w_memory s', x) = f (w_memory s) /\ w_redis s' = w_redis s
  | Random _ | Uuid | Outside _ => fun _ => s' = s
  end x.

(** A history: the commands in the order in which they took effect, each with
    its time and the request that made it. *)
Definition history : Type := list (Z * nat * event).

Fixpoint happens (t : Z) (s : world) (h : history) (s' : world) : Prop :=
  match h with
  | [] => s' = s
  | (now, _, Event c x) :: h => t <= now /\ exists s1, answers now s c x s1 /\ happens now s1 h s'
  end.

Definition of_request (i : nat) (h : history) : list event :=
  omap (fun e => if (e.1.2 =? i)%nat then Some e.2 else None) h.

(** Requests that are served together, in any interleaving. *)
Definition concurrent {A} (pool : list (prog A)) (t : Z) (s : world) (h : history) (s' : world) (out : nat -> option A) : Prop :=
  happens t s h s' /\ forall i p, pool !! i = Some p -> runs p (of_request i h) (out i).

(** The program alone: each command has its time, its outcome and its answers
    from outside. *)
Record oracle := Oracle {
  or_now : Z; or_outcome : outcome; or_random : nat -> res string; or_uuid : string; or_outside : forall X, Q X -> X }.

Definition perform {X} (o : oracle) (c : cmd X) (s : world) : world * X :=
  match c in cmd Y return world * Y with
  | Get k => (s, read (or_now o) (or_outcome o) k (w_redis s))
  | Store k v ttl => let '(r, x) := write (or_outcome o) (rd_set (or_now o) k v ttl) (w_redis s) in (World r (w_memory s), x)
  | Del k => let '(r, x) := write (or_outcome o) (rd_del k) (w_redis s) in (World r (w_memory s), x)
  | GetDel k => (World (write (or_outcome o) (rd_del k) (w_redis s)).1 (w_memory s),
                 read (or_now o) (or_outcome o) k (w_redis s))
  | Now => (s, or_now o)
  | Random n => (s, or_random o n)
  | Uuid => (s, or_uuid o)
  | Shared f => let '(m, x) := f (w_memory s) in (World (w_redis s) m, x)
  | Outside q => (s, or_outside o _ q)
  end.

(** The number of commands it took, the world after it, and its result. *)
Fixpoint run {A} (os : nat -> oracle) (i : nat) (p : prog A) (s : world) : nat * world * option A :=
  match p with
  | Ret a => (i, s, Some a)
  | Crash => (i, s, None)
  | Step c k => let '(s, x) := perform (os i) c s in run os (S i) (k x) s
  end.

Lemma perform_answers {X} (o : oracle) (c : cmd X) s : answers (or_now o) s c (perform o c s).2 (perform o c s).1.
Proof.
  destruct c as [k|k v ttl|k|k| | | |X f|X q]; simpl; try done.
  - eauto.
  - exists (or_outcome o). by destruct (write _ _ _).
  - exists (or_outcome o). by destruct (write _ _ _).
  - exists (or_outcome o). done.
  - by destruct (f (w_memory s)).
Qed.

(** What a program does alone is one of the histories. *)
Lemma run_happens {A} os (p : prog A) t : (forall i, t <= or_now (os i)) -> (forall i, or_now (os i) <= or_now (os (S i))) ->
  forall i s j, exists h, happens (if (i =? 0)%nat then t else or_now (os (pred i))) s h (run os i p s).1.2 /\
    runs p (of_request j h) (run os i p s).2.
Proof.
  intros Ht Hmono. induction p as [a| |X c k IH]; intros i s j.
  - exists []. simpl. auto.
  - exists []. done.
  - simpl. pose proof (perform_answers (os i) c s) as Ha. destruct (perform (os i) c s) as [s1 x]. simpl in *.
    destruct (IH x (S i) s1 j) as (h & Hh & Hr). exists ((or_now (os i), j, Event c x) :: h). simpl. split.
    + split; [destruct i; simpl; [apply Ht|apply Hmono]|]. exists s1. done.
    + right. exists x, (of_request j h). rewrite Nat.eqb_refl. done.
Qed.

(** Several programs by a schedule of their turns; a turn of one that has
    ended is skipped. *)
Fixpoint interleave {A} (os : nat -> oracle) (n : nat) (turns : list nat) (pool : list (prog A)) (w : world)
    : history * (world * list (prog A)) :=
  match turns with
  | [] => ([], (w, pool))
  | i :: turns =>
      match pool !! i with
      | Some (Step c k) =>
          let '(w1, x) := perform (os n) c w in
          let '(h, r) := interleave os (S n) turns (<[i := k x]> pool) w1 in
          ((or_now (os n), i, Event c x) :: h, r)
      | _ => interleave os n turns pool w
      end
  end.

Definition result {A} (p : prog A) : option A := match p with Ret a => Some a | _ => None end.
Definition results {A} (pool : list (prog A)) (i : nat) : option A := p ← pool !! i; result p.

Lemma interleave_concurrent {A} os : (forall n, or_now (os n) <= or_now (os (S n))) ->
  forall turns n (pool : list (prog A)) t w, t <= or_now (os n) ->
  let '(h, (w', pool')) := interleave os n turns pool w in concurrent pool t w h w' (results pool').
Proof.
  intros Hmono. induction turns as [|i turns IH]; intros n pool t w Ht; simpl.
  - split; [done|]. intros j p Hp. unfold results. rewrite Hp. simpl. destruct p; simpl; auto.
  - destruct (pool !! i) as [[v| |X c k]|] eqn:Hi; [by apply IH..| |by apply IH].
    pose proof (perform_answers (os n) c w) as Ha. destruct (perform (os n) c w) as [w1 x]. simpl in Ha.
    pose proof (Hmono n) as Hn. specialize (IH (S n) (<[i := k x]> pool) (or_now (os n)) w1 Hn).
    destruct (interleave os (S n) turns (<[i := k x]> pool) w1) as [h [w' pool']]. destruct IH as [Hh Hr].
    split; [split; [done|]; by exists w1|]. intros j p Hp. unfold of_request. simpl.
    destruct (Nat.eqb_spec i j) as [<-|Hne].
    + assert (p = Step c k) as -> by congruence. right. eexists x, _. split; [done|]. apply Hr.
      apply list_lookup_insert_eq. by eapply lookup_lt_Some.
    + apply Hr. by rewrite list_lookup_insert_ne.
Qed.

(** Every command of the history belongs to one of [n] requests. *)
Definition made_by (n : nat) (h : history) : bool := forallb (fun e => (e.1.2 <? n)%nat) h.

Lemma made_by_requests n h : made_by n h = true -> Forall (fun e => (e.1.2 < n)%nat) h.
Proof.
  unfold made_by. rewrite forallb_forall. intros Hall. apply Forall_forall. intros e He.
  apply Nat.ltb_lt, Hall. by apply list_elem_of_In.
Qed.

(** ** Rely and guarantee

    [keeps a g q p]: as long as the answers satisfy [a], the program makes only
    calls that satisfy [g], and what it returns satisfies [q]. *)
Fixpoint keeps {A} (a : event -> Prop) (g : forall X, cmd X -> Prop) (q : A -> Prop) (p : prog A) : Prop :=
  match p with
  | Ret v => q v
  | Crash => True
  | Step c k => g _ c /\ forall x, a (Event c x) -> keeps a g q (k x)
  end.

Lemma keeps_bind {A B} a g (q : A -> Prop) (q' : B -> Prop) (p : prog A) (f : A -> prog B) :
  keeps a g q p -> (forall v, q v -> keeps a g q' (f v)) -> keeps a g q' (bind p f).
Proof.
  intros Hp Hf. induction p as [v| |X c k IH]; simpl in *; [by apply Hf|done|].
  destruct Hp as [Hg Hk]. split; [done|]. intros x Hx. by apply IH, Hk.
Qed.

Lemma keeps_mono {A} a g (q q' : A -> Prop) (p : prog A) :
  keeps a g q p -> (forall v, q v -> q' v) -> keeps a g q' p.
Proof.
  intros Hp Hq. induction p as [v| |X c k IH]; simpl in *; [by apply Hq|done|].
  destruct Hp as [Hg Hk]. split; [done|]. intros x Hx. by apply IH, Hk.
Qed.

(** An invariant of the world that every permitted call preserves, and under
    which the answers are as the programs rely on, holds throughout every
    interleaving. *)
Lemma interleaved {A} (inv : Z -> world -> Prop) (a : nat -> event -> Prop) (g : nat -> forall X, cmd X -> Prop)
    (q : nat -> A -> Prop) h :
  (forall now now' s, now <= now' -> inv now s -> inv now' s) ->
  (forall now i X (c : cmd X) x s s', (now, i, Event c x) ∈ h -> inv now s -> g i X c -> answers now s c x s' ->
     a i (Event c x) /\ inv now s') ->
  forall (pool : list (prog A)) t s s' (out : nat -> option A),
  concurrent pool t s h s' out ->
  (forall i p, pool !! i = Some p -> keeps (a i) (g i) (q i) p) ->
  Forall (fun e => (e.1.2 < length pool)%nat) h -> inv t s ->
  (exists now, inv now s') /\ forall i v, is_Some (pool !! i) -> out i = Some v -> q i v.
Proof.
  intros Hmono Hstep. induction h as [|[[now j] e] h IH]; intros pool t s s' out [Hh Hruns] Hkeeps Hlen Hinv.
  - split; [exists t; by rewrite Hh|]. intros i v [p Hp] Hv. specialize (Hruns i p Hp). specialize (Hkeeps i p Hp).
    rewrite Hv in Hruns.
    destruct p as [w| |X c k]; simpl in Hruns, Hkeeps.
    + destruct Hruns as [_ [Hw|Hw]]; [|done]. by injection Hw as ->.
    + by destruct Hruns.
    + destruct Hruns as [[_ Hw]|(x & rest & Hw & _)]; done.
  - apply Forall_cons in Hlen as [Hj Hlen]. simpl in Hj. apply lookup_lt_is_Some in Hj as [pj Hpj].
    pose proof (Hruns j pj Hpj) as Hrj. pose proof (Hkeeps j pj Hpj) as Hkj.
    cbn [of_request omap list_omap] in Hrj. simpl in Hrj. rewrite Nat.eqb_refl in Hrj.
    destruct pj as [w| |X c k]; simpl in Hrj, Hkj; [by destruct Hrj|by destruct Hrj|].
    destruct Hrj as [[Hw _]|(x & rest & Hw & Hrest)]; [done|]. injection Hw as -> Hw.
    destruct Hkj as [Hg Hk]. destruct Hh as [Ht (s1 & Ha & Hh)].
    destruct (Hstep now j X c x s s1) as [Hax Hinv1]; [by left|by eapply Hmono|done|done|].
    enough ((exists now, inv now s') /\ forall i v, is_Some (<[j := k x]> pool !! i) -> out i = Some v -> q i v) as [Hend Hq].
    { split; [done|]. intros i v Hi. apply Hq. apply lookup_lt_is_Some. rewrite length_insert. by apply lookup_lt_is_Some. }
    eapply (IH ltac:(intros; eapply Hstep; [by right|done..]) (<[j := k x]> pool) now s1 s' out); [split; [done|]| | |done].
    + intros i' p' Hp'. destruct (decide (i' = j)) as [->|Hne].
      * rewrite list_lookup_insert_eq in Hp' by (by eapply lookup_lt_Some). injection Hp' as <-. subst rest. exact Hrest.
      * rewrite list_lookup_insert_ne in Hp' by done. specialize (Hruns i' p' Hp'). simpl in Hruns.
        destruct (Nat.eqb_spec j i'); [congruence|done].
    + intros i' p' Hp'. destruct (decide (i' = j)) as [->|Hne].
      * rewrite list_lookup_insert_eq in Hp' by (by eapply lookup_lt_Some). injection Hp' as <-. by apply Hk.
      * rewrite list_lookup_insert_ne in Hp' by done. by apply Hkeeps.
    + by rewrite length_insert.
Qed.

(** ** An invariant of the process memory

    Statements on a shared store are [Shared] commands, each of which may be
    lost on the way; the programs rely on what they compute from a memory with
    the invariant, and on the answers from outside that the history has. *)
Definition statement {A} (database : Q outcome) (f : M -> M * A) : prog (res A) :=
  bind (call (Outside database)) (fun o =>
    match o with
    | Done => bind (call (Shared f)) (fun a => Ret (Ok a))
    | Lost e => Ret (Err e)
    | Late e => bind (call (Shared f)) (fun _ => Ret (Err e))
    end).

Section memory.
Context (good : M -> Prop) (h : history).

Definition sees_good (i : nat) (e : event) : Prop :=
  match e with
  | Event c x =>
      match c in cmd Y return Y -> Prop with
      | Shared f => fun x => exists m, good m /\ x = (f m).2
      | Outside q => fun x => exists now, (now, i, Event (Outside q) x) ∈ h
      | _ => fun _ => True
      end x
  end.

Definition keeps_good (X : Type) (c : cmd X) : Prop :=
  match c with Shared f => forall m, good m -> good (f m).1 | _ => True end.

Lemma calls_keep_good now i {X} (c : cmd X) x s s' :
  (now, i, Event c x) ∈ h -> good (w_memory s) -> keeps_good X c -> answers now s c x s' ->
  sees_good i (Event c x) /\ good (w_memory s').
Proof.
  intros Hin Hg Hc Ha. destruct c as [k|k v ttl|k|k| | | |X f|X q]; simpl in Ha, Hc |- *.
  - destruct Ha as [-> _]. done.
  - by destruct Ha as (o & _ & ->).
  - by destruct Ha as (o & _ & ->).
  - by destruct Ha as (o & _ & _ & ->).
  - by destruct Ha as [-> _].
  - by subst.
  - by subst.
  - destruct Ha as [Hf _]. split.
    + exists (w_memory s). by rewrite <- Hf.
    + pose proof (Hc _ Hg) as Hg'. by rewrite <- Hf in Hg'.
  - subst. eauto.
Qed.

Lemma good_throughout {A} (pool : list (prog A)) (q : nat -> A -> Prop) t s s' (out : nat -> option A) :
  concurrent pool t s h s' out -> Forall (fun e => (e.1.2 < length pool)%nat) h ->
  (forall i p, pool !! i = Some p -> keeps (sees_good i) keeps_good (q i) p) -> good (w_memory s) ->
  good (w_memory s') /\ forall i v, is_Some (pool !! i) -> out i = Some v -> q i v.
Proof.
  intros Hrun Hlen Hkeeps Hgood.
  destruct (interleaved (fun _ s => good (w_memory s)) sees_good (fun _ => keeps_good) q h) with (pool := pool) (t := t) (s := s)
    (s' := s') (out := out) as [[_ Hend] Hq]; try done.
  intros. by eapply calls_keep_good.
Qed.

Lemma keeps_statement {A} database (f : M -> M * A) i (q : A -> Prop) :
  (forall m, good m -> good (f m).1 /\ q (f m).2) ->
  keeps (sees_good i) keeps_good (fun r => forall a, r = Ok a -> q a) (statement database f).
Proof.
  intros Hf. split; [done|]. intros o _. destruct o as [|e|e]; simpl; [|done|].
  - split; [intros m Hm; by apply Hf|]. intros x (m & Hm & ->) a [= <-]. by apply Hf.
  - split; [intros m Hm; by apply Hf|]. done.
Qed.

End memory.

(** ** One-time keys *)

Definition hit (k : string) (e : event) : nat :=
  match e with
  | Event c x =>
      match c in cmd Y return Y -> nat with
      | GetDel k' => fun x => match x with Ok (Some _) => if String.eqb k k' then 1%nat else 0%nat | _ => 0%nat end
      | _ => fun _ => 0%nat
      end x
  end.
Definition stores (k : string) (e : event) : nat :=
  match e with Event (Store k' _ _) _ => if String.eqb k k' then 1%nat else 0%nat | _ => 0%nat end.

Definition total (f : event -> nat) (h : history) : nat := list_sum (map (fun e => f e.2) h).

Lemma total_cons f e h : total f (e :: h) = (f e.2 + total f h)%nat.
Proof. reflexivity. Qed.

(** The same over the commands of one request. *)
Definition total_of (f : event -> nat) (tr : list event) : nat := list_sum (map f tr).

Lemma total_of_cons f e tr : total_of f (e :: tr) = (f e + total_of f tr)%nat.
Proof. reflexivity. Qed.

Lemma hit_getdel k d : hit k (Event (GetDel k) (Ok (Some d))) = 1%nat.
Proof. unfold hit. by rewrite String.eqb_refl. Qed.

Lemma charge_one (v j : nat) (g : nat -> nat) ids : NoDup ids ->
  (list_sum (map (fun i => (if (j =? i)%nat then v else 0) + g i) ids) <= v + list_sum (map g ids))%nat.
Proof.
  assert (forall ids, j ∉ ids -> list_sum (map (fun i => (if (j =? i)%nat then v else 0) + g i)%nat ids) = list_sum (map g ids)) as Hne.
  { clear ids. induction ids as [|i ids IH]; intros Hj; [done|]. apply not_elem_of_cons in Hj as [Hj Hids]. cbn [map].
    change (list_sum (?a :: ?l)) with (a + list_sum l)%nat. rewrite (IH Hids). by destruct (Nat.eqb_spec j i). }
  induction 1 as [|i ids Hi Hnd IH]; [simpl; lia|]. cbn [map].
  change (list_sum (?a :: ?l)) with (a + list_sum l)%nat.
  destruct (Nat.eqb_spec j i) as [->|]; [rewrite Hne by done; lia|lia].
Qed.

Lemma total_of_requests f h ids : NoDup ids ->
  (list_sum (map (fun i => total_of f (of_request i h)) ids) <= total f h)%nat.
Proof.
  intros Hnd. induction h as [|[[now j] e] h IH].
  - unfold of_request. simpl. clear Hnd. induction ids as [|i ids IH']; [done|exact IH'].
  - transitivity (list_sum (map (fun i => (if (j =? i)%nat then f e else 0) + total_of f (of_request i h))%nat ids)).
    + apply Nat.eq_le_incl. f_equal. apply map_ext. intros i. unfold of_request. simpl. by destruct (Nat.eqb_spec j i).
    + pose proof (charge_one (f e) j (fun i => total_of f (of_request i h)) ids Hnd). rewrite total_cons. simpl. lia.
Qed.

Context `{!RedisLaws R}.

Definition present (now : Z) (k : string) (s : world) : nat :=
  match rd_get now k (w_redis s) with Some _ => 1%nat | None => 0%nat end.

Lemma present_mono now now' k s : now <= now' -> (present now' k s <= present now k s)%nat.
Proof.
  intros Hn. unfold present. destruct (rd_get now' k (w_redis s)) as [v|] eqn:E; [|lia].
  by rewrite (rd_get_mono now now' k v).
Qed.

Lemma present_le_one now k s : (present now k s <= 1)%nat.
Proof. unfold present. case_match; lia. Qed.

Lemma write_other f k now o r r' x :
  (forall r, rd_get now k (f r) = rd_get now k r) -> (r', x) = write o f r -> rd_get now k r' = rd_get now k r.
Proof. intros Hf Hw. destruct o; simpl in Hw; simplify_eq; auto. Qed.

(** A command consumes a key only if it is there, and only [Store] brings a key. *)
Lemma answers_hit now s {X} (c : cmd X) x s' k :
  answers now s c x s' ->
  (hit k (Event c x) + present now k s' <= present now k s + stores k (Event c x))%nat.
Proof.
  intros Ha. destruct c as [k'|k' v ttl|k'|k'| | | |X f|X q]; simpl in *.
  - destruct Ha as [-> _]. lia.
  - destruct Ha as (o & Hw & _). destruct (String.eqb_spec k k') as [->|Hne]; [pose proof (present_le_one now k' s'); lia|].
    unfold present. rewrite (write_other _ k now o _ _ _ (fun r => rd_get_set_ne _ _ _ _ _ _ _ (not_eq_sym Hne)) Hw). lia.
  - destruct Ha as (o & Hw & _). unfold present. destruct (String.eqb_spec k k') as [->|Hne].
    + destruct o; simpl in Hw; injection Hw as Hr _; rewrite Hr, ?rd_get_del; lia.
    + rewrite (write_other _ k now o _ _ _ (fun r => rd_get_del_ne _ _ _ _ (not_eq_sym Hne)) Hw). lia.
  - destruct Ha as (o & -> & Hw & _). unfold present. rewrite Hw. destruct (String.eqb_spec k k') as [->|Hne].
    + destruct o; simpl; rewrite ?rd_get_del; repeat case_match; simplify_eq; lia.
    + assert (rd_get now k (write o (rd_del k') (w_redis s)).1 = rd_get now k (w_redis s)) as ->.
      { destruct o; simpl; rewrite ?rd_get_del_ne; congruence. }
      destruct o; simpl; repeat case_match; simplify_eq; lia.
  - destruct Ha as [-> _]. lia.
  - subst. lia.
  - subst. lia.
  - destruct Ha as [_ Hr]. unfold present. rewrite Hr. lia.
  - subst. lia.
Qed.

(** However requests interleave and whatever fails, a key is consumed no more
    often than it was stored. *)
Lemma consumed_once_per_store k h : forall t s s', happens t s h s' ->
  (total (hit k) h <= present t k s + total (stores k) h)%nat.
Proof.
  induction h as [|[[now i] [X c x]] h IH]; intros t s s' Hh; [simpl; unfold total; simpl; lia|].
  destruct Hh as [Ht (s1 & Ha & Hh)]. apply (answers_hit now s c x s1 k) in Ha. apply IH in Hh.
  pose proof (present_mono t now k s Ht). rewrite !total_cons. cbn [snd]. lia.
Qed.

End world.
End programs.

Arguments cmd M Q : clear implicits.
Arguments prog M Q : clear implicits.
Arguments Ret {M Q A} a.
Arguments Crash {M Q A}.
Arguments Step {M Q A X} c k.
Arguments world M R : clear implicits.
Arguments World {M R} _ _.
Arguments oracle Q : clear implicits.
Arguments Oracle {Q} _ _ _ _ _.

Declare Scope prog_scope.
Delimit Scope prog_scope with prog.
Notation "'do' x '<-' p ';' k" := (bind p (fun x => k)) (at level 100, x pattern, p at level 99, k at level 200, right associativity) : prog_scope.
Notation "'try' x '<-' p ';' k" := (bind_res p (fun x => k)) (at level 100, x pattern, p at level 99, k at level 200, right associativity) : prog_scope.

(** ** An instance: a map of values with their deadlines *)

Definition kv : Type := gmap string (string * option Z).

#[export] Instance kv_redis : Redis kv := {
  rd_get now k r := match r !! k with
                    | Some (v, Some d) => if now <? d then Some v else None
                    | Some (v, None) => Some v
                    | None => None
                    end;
  rd_set now k v ttl r := <[k := (v, if ttl =? 0 then None else Some (now + Z.max millisecond (ttl - ttl mod millisecond)))]> r;
  rd_del k r := delete k r }.

#[export] Instance kv_redis_laws : RedisLaws kv.
Proof.
  constructor; simpl; unfold millisecond, kv; intros.
  - rewrite lookup_insert, decide_True by done. destruct (Z.eqb_spec ttl 0); [done|].
    pose proof (Z.mod_pos_bound ttl 1000000). destruct (Z.ltb_spec now' (now + Z.max 1000000 (ttl - ttl mod 1000000))); [done|lia].
  - rewrite lookup_insert, decide_True by done. destruct (Z.eqb_spec ttl 0); [lia|].
    pose proof (Z.mod_pos_bound ttl 1000000). destruct (Z.ltb_spec now' (now + Z.max 1000000 (ttl - ttl mod 1000000))); [|done].
    assert (1000000 <= ttl - ttl mod 1000000) by (Z.to_euclidean_division_equations; lia). lia.
  - by rewrite lookup_insert_ne.
  - by rewrite lookup_delete, decide_True.
  - by rewrite lookup_delete_ne.
  - rewrite lookup_insert, decide_True in H by done. repeat case_match; congruence.
  - destruct (r !! k) as [[v' [d|]]|]; [|done|done].
    destruct (Z.ltb_spec now' d); [|done]. destruct (Z.ltb_spec now d); [done|lia].
Qed.
