(* ===== verification/SessionStore.v ===== *)
(** * Sessions and challenges in Redis: internal/storage/redis.go, and the types of
    internal/auth/nip46.go they store

    Every call to Redis is a command of [Prog]: it may fail before or after it
    took effect, and other requests may run in between.  encoding/json is a
    pair of functions per type, of which [SessionJSONLaws] says what a session
    keeps. *)

From S2P Require Import Prelude GoStrings GoRunes GoUrl Prog.
#[local] Open Scope Z_scope.
#[local] Open Scope prog_scope.

Record auth_session := AuthSession {
  se_id : string; se_user_id : string; se_email : string; se_token : string; se_expires_at : Z; se_created_at : Z }.

Record challenge_data := ChallengeData {
  cd_challenge : string; cd_bunker_pubkey : string; cd_relay_url : string; cd_client_private_key : string;
  cd_created_at : Z }.

Class SessionJSON := {
  enc_session : auth_session -> string; dec_session : string -> res auth_session;
  enc_challenge : challenge_data -> string; dec_challenge : string -> res challenge_data }.

(** A session that is read back has the strings that were written, up to
    invalid UTF-8.  (A time outside the years 0 to 9999 is not written at all:
    nothing is said of such a session.) *)
Class SessionJSONLaws `{SessionJSON} : Prop := {
  session_read_back s s' : dec_session (enc_session s) = Ok s' ->
    se_id s' = valid_utf8 (se_id s) /\ se_user_id s' = valid_utf8 (se_user_id s) }.

Definition session_prefix : string := "session:".
Definition session_token_prefix : string := "session:token:".
Definition nip46_challenge_prefix : string := "nip46:challenge:".
Definition session_key (id : string) : string := session_prefix +:+ id.
Definition token_key (token : string) : string := session_token_prefix +:+ token.
Definition challenge_key (id : string) : string := nip46_challenge_prefix +:+ id.

(** The store's own time to live. *)
Definition session_ttl : Z := 24 * hour.

Section store.
Context {M : Type} {Q : Type -> Type} `{SessionJSON}.
Abbreviation P := (prog M Q).

Definition save_session (s : auth_session) : P (option error) :=
  do now <- call Now;
  let ttl := time_sub (se_expires_at s) now in
  let ttl := if ttl <? 0 then session_ttl else ttl in
  do e <- call (Store (session_key (se_id s)) (enc_session s) ttl);
  match e with
  | Some e => Ret (Some (Wrapped "failed to save session" e))
  | None =>
      do e <- call (Store (token_key (se_token s)) (se_id s) ttl);
      match e with
      | Some e =>
          do _ <- call (Del (session_key (se_id s)));
          Ret (Some (Wrapped "failed to save session token index" e))
      | None => Ret None
      end
  end.

(** A stored JSON value: absent, unreadable or there. *)
Definition decoded {A} (what : string) (dec : string -> res A) (r : res (option string)) : res (option A) :=
  match r with
  | Err e => Err (Wrapped what e)
  | Ok None => Ok None
  | Ok (Some d) => match dec d with Ok a => Ok (Some a) | Err e => Err (Wrapped "failed to unmarshal" e) end
  end.

Definition get_session (id : string) : P (res (option auth_session)) :=
  do r <- call (Get (session_key id));
  Ret (decoded "failed to get session" dec_session r).

Definition get_session_by_token (token : string) : P (res (option auth_session)) :=
  do r <- call (Get (token_key token));
  match r with
  | Err e => Ret (Err (Wrapped "failed to get session by token" e))
  | Ok None => Ret (Ok None)
  | Ok (Some id) => get_session id
  end.

Definition delete_session (id : string) : P (option error) :=
  do s <- get_session id;
  match s with
  | Err e => Ret (Some e)
  | Ok s =>
      do e <- call (Del (session_key id));
      match e with
      | Some e => Ret (Some (Wrapped "failed to delete session" e))
      | None =>
          match s with
          | Some s => if String.eqb (se_token s) "" then Ret None else do _ <- call (Del (token_key (se_token s))); Ret None
          | None => Ret None
          end
      end
  end.

Definition set_nip46_challenge (id : string) (data : challenge_data) (ttl : Z) : P (option error) :=
  do e <- call (Store (challenge_key id) (enc_challenge data) ttl);
  Ret (match e with Some e => Some (Wrapped "failed to save challenge" e) | None => None end).

Definition get_nip46_challenge (id : string) : P (res (option challenge_data)) :=
  do r <- call (Get (challenge_key id));
  Ret (decoded "failed to get challenge" dec_challenge r).

Definition consume_nip46_challenge (id : string) : P (res (option challenge_data)) :=
  do r <- call (GetDel (challenge_key id));
  Ret (decoded "failed to consume challenge" dec_challenge r).

Definition delete_nip46_challenge (id : string) : P (option error) :=
  do e <- call (Del (challenge_key id));
  Ret (match e with Some e => Some (Wrapped "failed to delete challenge" e) | None => None end).

End store.

(** ** An instance: the fields, escaped and joined *)

Fixpoint enc_pos (p : positive) : string :=
  match p with xI p => String "1" (enc_pos p) | xO p => String "0" (enc_pos p) | xH => "" end.
Fixpoint dec_pos (s : string) : positive :=
  match s with String "1" s => xI (dec_pos s) | String _ s => xO (dec_pos s) | "" => xH end.
Definition enc_int (z : Z) : string :=
  match z with 0 => "z" | Z.pos p => String "p" (enc_pos p) | Z.neg p => String "n" (enc_pos p) end.
Definition dec_int (s : string) : Z :=
  match s with String "p" s => Z.pos (dec_pos s) | String "n" s => Z.neg (dec_pos s) | _ => 0 end.

Lemma dec_enc_int z : dec_int (enc_int z) = z.
Proof. destruct z as [|p|p]; simpl; [done|f_equal..]; induction p as [p IH|p IH|]; simpl; by rewrite ?IH. Qed.

Lemma enc_int_free z : no_char "&" (enc_int z) = true.
Proof. destruct z as [|p|p]; simpl; [done| |]; unfold no_char; simpl; induction p; simpl; auto. Qed.

Definition bad_json : error := Sentinel "malformed".
Definition unescaped (s : string) : string := match query_unescape s with Ok s => s | Err _ => "" end.
Definition json_field (s : string) : string := query_escape (valid_utf8 s).
Definition record_of (fields : list string) : string := join "&" fields.

#[export] Instance joined_json : SessionJSON := {
  enc_session s := record_of [json_field (se_id s); json_field (se_user_id s); json_field (se_email s);
                              json_field (se_token s); enc_int (se_expires_at s); enc_int (se_created_at s)];
  dec_session d := match split "&" d with
                   | [a; b; c; t; e; f] =>
                       Ok (AuthSession (unescaped a) (unescaped b) (unescaped c) (unescaped t) (dec_int e) (dec_int f))
                   | _ => Err bad_json
                   end;
  enc_challenge c := record_of [json_field (cd_challenge c); json_field (cd_bunker_pubkey c); json_field (cd_relay_url c);
                                json_field (cd_client_private_key c); enc_int (cd_created_at c)];
  dec_challenge d := match split "&" d with
                     | [a; b; c; k; e] =>
                         Ok (ChallengeData (unescaped a) (unescaped b) (unescaped c) (unescaped k) (dec_int e))
                     | _ => Err bad_json
                     end }.

Lemma unescaped_escape s : unescaped (query_escape s) = s.
Proof. unfold unescaped. by rewrite query_unescape_escape. Qed.

#[export] Instance joined_json_laws : SessionJSONLaws.
Proof.
  constructor; intros [] s'. unfold enc_session, dec_session, joined_json, record_of, json_field. simpl (se_id _).
  rewrite (split_join "&").
  - rewrite !unescaped_escape, !dec_enc_int. by intros [= <-].
  - done.
  - repeat constructor; first [apply enc_int_free | by apply query_escape_free].
Qed.
