(* ===== verification/RedisMarks.v ===== *)
(** * The abuse ladder over Redis: internal/abuse/marks.go

    The mark store that all replicas share.  A mark is a JSON value under a key
    that expires by itself; a call to Redis may fail before or after it took
    effect.  The ladder of [Abuse] runs over it unchanged, and the theorem here
    is that it then does what it does over the in-process store, so that what
    [Abuse] proves holds for the store that is deployed.  encoding/json is a
    pair of functions. *)

From S2P Require Import Prelude GoStrings GoUrl Queue Mailboxes Abuse Prog SessionStore.
#[local] Open Scope Z_scope.

Class MarkJSON := { enc_mark : mark -> res string; dec_mark : string -> res mark }.

Definition ascii_text (s : string) : Prop := forall_chars (fun c => (char_code c <? 128)%nat) s = true.
(** The years 1 to 9999. *)
Definition json_time (t : Z) : Prop := 0 <= t < 315537897600 * second.
Definition storable (m : mark) : Prop := ascii_text (m_reason m) /\ in_i64 (m_rung m) /\ json_time (m_at m).

(** 64-bit numbers, times up to the year 9999 and ASCII text come back. *)
Class MarkJSONLaws `{MarkJSON} : Prop := {
  mark_round_trip m : storable m -> exists raw, enc_mark m = Ok raw /\ dec_mark raw = Ok m }.

Definition mark_key (pubkey : string) : string := "abuse:mark:" +:+ pubkey.

Section marks.
Context {R : Type} `{Redis R} `{MarkJSON}.

(** [o]: what becomes of the call. *)
Definition redis_mark_get (now : Z) (o : outcome) (pk : string) (r : R) : res (option mark) :=
  match wrap "abuse mark get" (read now o (mark_key pk) r) with
  | Err e => Err e
  | Ok None => Ok None
  | Ok (Some raw) => let! m := wrap "abuse mark decode" (dec_mark raw) in Ok (Some m)
  end.

Definition written (what : string) (x : R * option error) : R * res unit :=
  (x.1, match x.2 with Some e => Err (Wrapped what e) | None => Ok () end).

Definition redis_mark_set (now : Z) (o : outcome) (pk : string) (m : mark) (ttl : Z) (r : R) : R * res unit :=
  match enc_mark m with
  | Err e => (r, Err (Wrapped "abuse mark encode" e))
  | Ok raw => written "abuse mark set" (write o (rd_set now (mark_key pk) raw ttl) r)
  end.

Definition redis_mark_clear (o : outcome) (pk : string) (r : R) : R * res unit :=
  written "abuse mark clear" (write o (rd_del (mark_key pk)) r).

Definition redis_throttled (now : Z) (o : outcome) (pk : string) (r : R) : res bool :=
  throttled_mark (redis_mark_get now o pk r).

(** ** The stores of the deployed service, while they answer *)

Record redis_world := RedisWorld { rw_redis : R; rw_mailboxes : mailbox_table; rw_queue : list queued_message }.

(** The gate and the queue are those of [Abuse.world]. *)
Definition in_database {A} (f : Abuse.world -> Abuse.world * A) (w : redis_world) : redis_world * A :=
  let '(w', x) := f (Abuse.World ∅ (rw_mailboxes w) (rw_queue w)) in
  (RedisWorld (rw_redis w) (w_mailboxes w') (w_queue w'), x).
Definition in_redis {A} (x : R * A) (w : redis_world) : redis_world * A :=
  (RedisWorld x.1 (rw_mailboxes w) (rw_queue w), x.2).

#[export] Instance redis_world_stores : LadderStores redis_world := {
  get_mark now pk w := redis_mark_get now Done pk (rw_redis w);
  set_mark now pk m ttl w := in_redis (redis_mark_set now Done pk m ttl (rw_redis w)) w;
  clear_mark pk w := in_redis (redis_mark_clear Done pk (rw_redis w)) w;
  set_send_enabled now pk b at_ := in_database (set_send_enabled now pk b at_);
  park_queue pk := in_database (park_queue pk);
  unpark_queue now pk := in_database (unpark_queue now pk) }.

End marks.
Arguments redis_world : clear implicits.

(** One operation with what it returns, over any stores. *)
Definition ladder_do {W} `{LadderStores W} (cfg : ladder_config) (op : ladder_op) (w : W) : W * (Z * option error) :=
  match op with
  | LApply now pk warranted reason => apply cfg now pk warranted reason w
  | LRelease now pk => let '(w, e) := release_manual cfg now pk w in (w, (RungNone, e))
  end.

Fixpoint ladder_all {W} `{LadderStores W} (cfg : ladder_config) (ops : list ladder_op) (w : W) : W * list (Z * option error) :=
  match ops with
  | [] => (w, [])
  | op :: ops => let '(w, x) := ladder_do cfg op w in let '(w, xs) := ladder_all cfg ops w in (w, x :: xs)
  end.

Definition op_time (op : ladder_op) : Z := match op with LApply now _ _ _ | LRelease now _ => now end.

(** * Properties *)

Lemma mark_key_inj pk pk' : mark_key pk = mark_key pk' -> pk = pk'.
Proof. unfold mark_key. by intros E%app_inv_head_str. Qed.

(** Away from the last millisecond of a mark, where the two stores round differently. *)
Definition settled (now : Z) (e : option memory_mark) : Prop :=
  match e with Some (MemoryMark _ (Some x)) => now + millisecond <= x \/ x < now | _ => True end.

Definition good_ttl (ttl : Z) : Prop := ttl = 0 \/ millisecond <= ttl.

Section simulation.
Context {R : Type} `{RedisLaws R} `{MarkJSONLaws}.

Record sim (t : Z) (a : redis_world R) (b : Abuse.world) : Prop := Sim {
  sim_marks : forall pk now, t <= now -> settled now (mark_entry pk b) ->
    redis_mark_get now Done pk (rw_redis a) = Ok (mark_get now pk (w_marks b));
  sim_storable : map_Forall (fun _ e => storable (mm_mark e)) (w_marks b);
  sim_mailboxes : rw_mailboxes a = w_mailboxes b;
  sim_queue : rw_queue a = w_queue b }.

(** Related states and the same result. *)
Definition same {A} (t : Z) (x : redis_world R * A) (y : Abuse.world * A) : Prop := x.2 = y.2 /\ sim t x.1 y.1.

Lemma sim_later t t' a b : t <= t' -> sim t a b -> sim t' a b.
Proof. intros Ht [Hm Hs Hmb Hq]. split; try done. intros pk now Hn. apply Hm. lia. Qed.

Lemma same_set t now pk m ttl a b : sim t a b -> t <= now -> good_ttl ttl -> storable m ->
  same now (set_mark now pk m ttl a) (set_mark now pk m ttl b).
Proof.
  intros [Hm Hs Hmb Hq] Ht Httl Hst. destruct (mark_round_trip m Hst) as (raw & Henc & Hdec).
  unfold same. simpl. unfold redis_mark_set. rewrite Henc. simpl. split; [done|]. split; try done; simpl.
  - intros pk' now' Hn Hsettled. unfold mark_entry in Hsettled. cbn [w_marks] in *. unfold mark_get, mark_set in *.
    unfold redis_mark_get. cbn [read wrap]. destruct (decide (pk = pk')) as [<-|Hne].
    + rewrite lookup_insert_eq in *. cbn [mm_expires_at mm_mark] in *. destruct (Z.ltb_spec 0 ttl) as [Hpos|Hz].
      * simpl in Hsettled. destruct Hsettled as [Hl|Hl].
        -- rewrite rd_get_set by lia. rewrite Hdec. cbn [wrap res_bind].
           destruct (Z.ltb_spec (now + ttl) now'); [unfold millisecond in *; lia|done].
        -- destruct Httl as [->|Httl]; [lia|]. rewrite rd_get_set_late by lia.
           by destruct (Z.ltb_spec (now + ttl) now'); [|lia].
      * rewrite rd_get_set by (destruct Httl; unfold millisecond in *; lia). by rewrite Hdec.
    + rewrite lookup_insert_ne in * by done. rewrite rd_get_set_ne by (intros E; by apply mark_key_inj in E).
      apply (Hm pk' now'); [lia|done].
  - by apply map_Forall_insert_2.
Qed.

Lemma same_clear t pk a b : sim t a b -> same t (clear_mark pk a) (clear_mark pk b).
Proof.
  intros [Hm Hs Hmb Hq]. split; [done|]. split; try done; simpl.
  - intros pk' now' Hn Hsettled. unfold mark_entry in Hsettled. cbn [w_marks] in *. unfold mark_get, mark_clear in *.
    unfold redis_mark_get. cbn [read wrap]. destruct (decide (pk = pk')) as [<-|Hne].
    + by rewrite lookup_delete_eq, rd_get_del.
    + rewrite lookup_delete_ne in * by done. rewrite rd_get_del_ne by (intros E; by apply mark_key_inj in E).
      by apply (Hm pk' now').
  - by apply map_Forall_delete.
Qed.

Lemma same_gate t now pk open at_ a b : sim t a b ->
  same t (set_send_enabled now pk open at_ a) (set_send_enabled now pk open at_ b).
Proof.
  intros [Hm Hs Hmb Hq]. unfold same. cbn [set_send_enabled redis_world_stores world_stores in_database w_mailboxes w_marks w_queue].
  unfold in_database. cbn [w_mailboxes w_queue]. rewrite Hmb.
  destruct (set_mailbox_send_enabled _ _ _ _ _ _) as [mbs r]. simpl. by split.
Qed.

Lemma same_park t pk a b : sim t a b -> same t (park_queue pk a) (park_queue pk b).
Proof.
  intros [Hm Hs Hmb Hq]. unfold same. cbn [park_queue redis_world_stores world_stores].
  unfold in_database. cbn [w_mailboxes w_queue]. rewrite Hq.
  destruct (hold_for_sender _ _) as [q n]. simpl. by split.
Qed.

Lemma same_unpark t now pk a b : sim t a b -> same t (unpark_queue now pk a) (unpark_queue now pk b).
Proof.
  intros [Hm Hs Hmb Hq]. unfold same. cbn [unpark_queue redis_world_stores world_stores].
  unfold in_database. cbn [w_mailboxes w_queue]. rewrite Hq.
  destruct (release_for_sender _ _ _) as [q n]. simpl. by split.
Qed.

(** Both sides of a call return the same; then the rest. *)
#[local] Ltac lockstep L :=
  let Hs := fresh in pose proof L as Hs;
  match type of Hs with
  | same _ ?x ?y => let a := fresh "a" in let b := fresh "b" in destruct x as [a ?], y as [b ?]
  end;
  destruct Hs as [? ?]; cbn [fst snd] in *; subst.

Section ladder.
Context (cfg : ladder_config) (Hwarn : good_ttl (warn_ttl cfg)) (Hthrottle : good_ttl (throttle_ttl cfg)).

Lemma rung_ttl_good r : good_ttl (rung_ttl cfg r).
Proof. unfold rung_ttl. repeat case_match; try done. by left. Qed.
#[local] Hint Resolve rung_ttl_good : core.

Lemma same_release t now pk a b : sim t a b -> same t (release cfg now pk a) (release cfg now pk b).
Proof.
  intros Hsim. unfold release. lockstep (same_gate t now pk true None a b Hsim). destruct r0; [|done].
  destruct (has_queue cfg); [|done]. by lockstep (same_unpark t now pk a0 b0 ltac:(done)).
Qed.

Lemma same_renew t now pk m reason a b : sim t a b -> t <= now -> storable m -> ascii_text reason ->
  same now (renew cfg now pk m reason a) (renew cfg now pk m reason b).
Proof.
  intros Hsim Ht (Hr & Hrung & Hat) Hreason. unfold renew. cbv zeta.
  assert (storable (if String.eqb reason "" then m else Mark (m_rung m) reason (m_at m))) as Hst by by case_match.
  lockstep (same_set t now pk _ (rung_ttl cfg (m_rung m)) a b Hsim Ht (rung_ttl_good _) Hst). by destruct r0.
Qed.

Lemma same_enforce t now pk rung a b : sim t a b -> same t (enforce cfg now pk rung a) (enforce cfg now pk rung b).
Proof.
  intros Hsim. unfold enforce. destruct (_ || _); [|done].
  lockstep (same_gate t now pk false (Some now) a b Hsim). destruct r0; [|done].
  destruct (has_queue cfg); [|done]. by lockstep (same_park t pk a0 b0 ltac:(done)).
Qed.

Lemma same_escalate t now pk rung reason a b : sim t a b -> t <= now -> storable (Mark rung reason now) ->
  same now (escalate cfg now pk rung reason a) (escalate cfg now pk rung reason b).
Proof.
  intros Hsim Ht Hst. unfold escalate. lockstep (same_enforce t now pk rung a b Hsim).
  destruct o0; [by split; [|eapply sim_later]|].
  lockstep (same_set t now pk _ (rung_ttl cfg rung) a0 b0 ltac:(done) Ht (rung_ttl_good _) Hst). by destruct r0.
Qed.

Lemma same_remark t now pk m rung a b : sim t a b -> t <= now -> storable (Mark rung (m_reason m) now) ->
  same now (remark cfg now pk m rung a) (remark cfg now pk m rung b).
Proof.
  intros Hsim Ht Hst. unfold remark. destruct (rung =? RungNone).
  - lockstep (same_clear t pk a b Hsim). destruct r0; split; try done; by eapply sim_later.
  - lockstep (same_set t now pk _ (rung_ttl cfg rung) a b Hsim Ht (rung_ttl_good _) Hst). by destruct r0.
Qed.

Lemma same_deescalate t now pk m rung a b : sim t a b -> t <= now -> storable (Mark rung (m_reason m) now) ->
  same now (deescalate cfg now pk m rung a) (deescalate cfg now pk m rung b).
Proof.
  intros Hsim Ht Hst. pose proof (sim_later _ _ _ _ Ht Hsim) as Hl. unfold deescalate.
  destruct (RungSuspend <=? m_rung m); [done|]. destruct (RungHold <=? m_rung m); [|by eapply same_remark].
  destruct (negb _); [done|]. destruct (_ <? _); [done|].
  lockstep (same_release now now pk a b Hl). destruct o0; [done|]. by eapply same_remark.
Qed.

Lemma clamp_i64 r : in_i64 r -> in_i64 (clamp cfg r).
Proof. unfold clamp. by case_match. Qed.

Lemma same_apply t now pk rung reason a b : sim t a b -> t <= now -> settled now (mark_entry pk b) ->
  json_time now -> in_i64 rung -> ascii_text reason ->
  same now (apply cfg now pk rung reason a) (apply cfg now pk rung reason b).
Proof.
  intros Hsim Ht Hset Hnow Hrung Hreason. pose proof (sim_later _ _ _ _ Ht Hsim) as Hl. pose proof (clamp_i64 rung Hrung) as Hc.
  unfold apply. cbn [get_mark redis_world_stores world_stores]. rewrite (sim_marks _ _ _ Hsim pk now Ht Hset).
  destruct (mark_get now pk (w_marks b)) as [m|] eqn:Em; cbv zeta.
  - assert (storable m) as Hm.
    { unfold mark_get in Em. pose proof (sim_storable _ _ _ Hsim pk) as Hall. simpl in Hall.
      destruct (w_marks b !! pk) as [e|]; [|done]. specialize (Hall e eq_refl). simpl in Hall.
      destruct (mm_expires_at e); [case_match; [done|]|]; by simplify_eq. }
    destruct (_ <? _); [apply same_deescalate with t; try done; by split; [apply Hm|]|].
    destruct (_ =? RungNone); [done|]. destruct (_ =? m_rung m).
    + by lockstep (same_renew t now pk m reason a b Hsim Ht Hm Hreason).
    + by lockstep (same_escalate t now pk (clamp cfg rung) reason a b Hsim Ht ltac:(done)).
  - destruct (_ =? RungNone); [done|]. by lockstep (same_escalate t now pk (clamp cfg rung) reason a b Hsim Ht ltac:(done)).
Qed.

Lemma same_release_manual t now pk a b : sim t a b ->
  same t (release_manual cfg now pk a) (release_manual cfg now pk b).
Proof.
  intros Hsim. unfold release_manual. lockstep (same_release t now pk a b Hsim). destruct o0; [done|].
  lockstep (same_clear t pk a0 b0 ltac:(done)). by destruct r0.
Qed.

End ladder.

End simulation.

Definition op_storable (op : ladder_op) : Prop :=
  json_time (op_time op) /\ match op with LApply _ _ r reason => in_i64 r /\ ascii_text reason | LRelease _ _ => True end.

(** The operations come one after another from [t] on, and none judges an
    account in the last millisecond of its mark. *)
Fixpoint quiet (cfg : ladder_config) (t : Z) (ops : list ladder_op) (b : Abuse.world) : Prop :=
  match ops with
  | [] => True
  | op :: ops =>
      t <= op_time op /\
      match op with LApply now pk _ _ => settled now (mark_entry pk b) | LRelease _ _ => True end /\
      quiet cfg (op_time op) ops (ladder_do cfg op b).1
  end.

Fixpoint end_time (t : Z) (ops : list ladder_op) : Z :=
  match ops with [] => t | op :: ops => end_time (op_time op) ops end.

Lemma ladder_all_run cfg ops b : (ladder_all cfg ops b).1 = ladder_run cfg b ops.
Proof.
  revert b. induction ops as [|op ops IH]; intros b; [done|]. cbn [ladder_all].
  change (ladder_run cfg b (op :: ops)) with (ladder_run cfg (ladder_step cfg b op) ops).
  assert ((ladder_do cfg op b).1 = ladder_step cfg b op) as <-.
  { destruct op; [done|]. cbn [ladder_do ladder_step]. by destruct (release_manual _ _ _ _). }
  destruct (ladder_do cfg op b) as [b1 x]. specialize (IH b1). by destruct (ladder_all cfg ops b1).
Qed.

Lemma same_all {R} `{RedisLaws R} `{MarkJSONLaws} cfg (Hwarn : good_ttl (warn_ttl cfg)) (Hthrottle : good_ttl (throttle_ttl cfg)) ops :
  forall t a b, sim t a b -> Forall op_storable ops -> quiet cfg t ops b ->
  same (end_time t ops) (ladder_all cfg ops a) (ladder_all cfg ops b).
Proof.
  induction ops as [|op ops IH]; intros t a b Hsim Hst Hq; [done|]. apply Forall_cons in Hst as [[Hnow Hop] Hst].
  cbn [quiet] in Hq. destruct Hq as (Ht & Hset & Hq). cbn [ladder_all end_time].
  assert (same (op_time op) (ladder_do cfg op a) (ladder_do cfg op b)) as Hone.
  { destruct op as [now pk rung reason|now pk]; cbn [ladder_do op_time] in *.
    - apply same_apply with t; try done; apply Hop.
    - pose proof (same_release_manual cfg t now pk a b Hsim) as [E Hs].
      destruct (release_manual cfg now pk a), (release_manual cfg now pk b). cbn [fst snd] in *. subst.
      split; [done|by eapply sim_later]. }
  destruct (ladder_do cfg op a) as [a1 x], (ladder_do cfg op b) as [b1 y]. destruct Hone as [Hx Hsim1]. cbn [fst snd] in *. subst x.
  pose proof (IH (op_time op) a1 b1 Hsim1 Hst Hq) as [E Hs].
  destruct (ladder_all cfg ops a1), (ladder_all cfg ops b1). cbn [fst snd] in *. subst. by split.
Qed.

(** C37. The deployed ladder is the modelled one.  Start the ladder over Redis and
    over the in-process store in states that agree, and run the same scans and
    releases over both, none in the last millisecond of the mark it judges:
    every operation returns the same, the mailboxes and the queue come out the
    same, and from then on every read of a mark, and the throttle that the send
    gate asks for, answers as the in-process store would. *)
Theorem redis_ladder_refines_memory {R} `{RedisLaws R} `{MarkJSONLaws} cfg ops t (a : redis_world R) b
    (Hwarn : good_ttl (warn_ttl cfg)) (Hthrottle : good_ttl (throttle_ttl cfg))
    (Hsim : sim t a b) (Hops : Forall op_storable ops) (Hquiet : quiet cfg t ops b) :
  let '(a', returned) := ladder_all cfg ops a in
  let b' := ladder_run cfg b ops in
  returned = (ladder_all cfg ops b).2 /\
  rw_mailboxes a' = w_mailboxes b' /\ rw_queue a' = w_queue b' /\
  forall pk now, end_time t ops <= now -> settled now (mark_entry pk b') ->
    redis_mark_get now Done pk (rw_redis a') = Ok (mark_get now pk (w_marks b')) /\
    redis_throttled now Done pk (rw_redis a') = throttled_mark (Ok (mark_get now pk (w_marks b'))).
Proof.
  pose proof (same_all cfg Hwarn Hthrottle ops t a b Hsim Hops Hquiet) as [E Hs]. rewrite <- ladder_all_run.
  destruct (ladder_all cfg ops a) as [a' xs], (ladder_all cfg ops b) as [b' ys]. cbn [fst snd] in *. subst.
  split; [done|]. split; [apply Hs|]. split; [apply Hs|]. intros pk now Hn Hset.
  unfold redis_throttled. by rewrite (sim_marks _ _ _ Hs pk now Hn Hset).
Qed.

(** ** Witnesses *)

#[export] Instance joined_mark_json : MarkJSON := {
  enc_mark m := Ok (record_of [enc_int (m_rung m); query_escape (m_reason m); enc_int (m_at m)]);
  dec_mark d := match split "&" d with
                | [r; why; t] => Ok (Mark (dec_int r) (unescaped why) (dec_int t))
                | _ => Err bad_json
                end }.

#[export] Instance joined_mark_json_laws : MarkJSONLaws.
Proof.
  constructor. intros [r why t] _. eexists. split; [reflexivity|].
  unfold dec_mark, joined_mark_json, record_of. rewrite (split_join "&").
  - by rewrite unescaped_escape, !dec_enc_int.
  - done.
  - repeat constructor; first [apply enc_int_free | by apply query_escape_free].
Qed.

Lemma sim_empty t mailboxes queue : sim t (RedisWorld (∅ : kv) mailboxes queue) (Abuse.World ∅ mailboxes queue).
Proof. by split. Qed.

Definition sample_redis : redis_world kv := RedisWorld ∅ (w_mailboxes (sample_world RungWarn 0)) (w_queue (sample_world RungWarn 0)).
Definition sample_memory : Abuse.world := Abuse.World ∅ (w_mailboxes (sample_world RungWarn 0)) (w_queue (sample_world RungWarn 0)).
(** A throttle that expires, a hold, and its release. *)
Definition sample_day : list ladder_op :=
  [LApply 0 alice RungThrottle "hard bounce rate"; LApply (7 * hour) alice RungWarn "velocity";
   LApply (8 * hour) alice RungHold "complaints"; LRelease (9 * hour) alice].

Lemma redis_ladder_refines_memory_witness :
  (ladder_all default_ladder_config sample_day sample_redis).2 = [(RungThrottle, None); (RungWarn, None); (RungHold, None); (RungNone, None)] /\
  (let '(a', returned) := ladder_all default_ladder_config sample_day sample_redis in
   let b' := ladder_run default_ladder_config sample_memory sample_day in
   returned = (ladder_all default_ladder_config sample_day sample_memory).2 /\
   rw_mailboxes a' = w_mailboxes b' /\ rw_queue a' = w_queue b' /\
   forall pk now, end_time 0 sample_day <= now -> settled now (mark_entry pk b') ->
     redis_mark_get now Done pk (rw_redis a') = Ok (mark_get now pk (w_marks b')) /\
     redis_throttled now Done pk (rw_redis a') = throttled_mark (Ok (mark_get now pk (w_marks b')))).
Proof.
  split; [vm_compute; reflexivity|].
  apply (redis_ladder_refines_memory default_ladder_config sample_day 0 sample_redis sample_memory).
  - right. vm_compute. discriminate.
  - right. vm_compute. discriminate.
  - apply sim_empty.
  - repeat (constructor; [repeat split; vm_compute; first [discriminate | reflexivity]|]). constructor.
  - vm_compute. repeat split; first [discriminate | right; reflexivity | left; discriminate].
Defined.
