(* ===== verification/Auth.v ===== *)
(** * Authentication by remote signers: internal/auth/nip46.go, encryption_signer.go

    Challenges, sessions and the requests to a user's bunker, as programs of
    [Prog] over Redis ([SessionStore]) and the handler's memory.  A wait on a
    subscription answers with the events that arrived before it ended and how it
    ended.  Keys, signatures and ciphers of go-nostr, HTTP and encoding/json are
    parameters. *)

From S2P Require Import Prelude GoStrings GoUrl Nostr Prog SessionStore Encryption.
#[local] Open Scope Z_scope.
#[local] Open Scope prog_scope.

Record bunker_connection := BunkerConnection {
  bc_bunker_pubkey : string; bc_user_pubkey : string; bc_relay_url : string; bc_secret : string;
  bc_client_private_key : string; bc_connected : bool; bc_last_activity : Z }.

Record signer_session_entry := SignerSessionEntry { sn_pubkey : string; sn_expires : Z }.

(** The handler's maps, each behind its lock. *)
Record memory := Memory {
  connections : gmap string bunker_connection; session_cache : gmap string signer_session_entry }.

Inductive wait_end := Closed | TimedOut | Cancelled (e : error).

(** The signer service, and a relay. *)
Inductive outside : Type -> Type :=
| SignerMe (url token : string) : outside (res (Z * string))
| RelayConnect (url : string) : outside (option error)
| Subscribe (author to : string) (since : Z) : outside (option error)
| Publish (ev : nostr_event) : outside (option error)
| Await (timeout : Z) : outside (list nostr_event * wait_end)
| GenerateKey : outside string.

Abbreviation P := (prog memory outside).

(** ** Bunker URLs *)

Record bunker_url := BunkerURL { bu_pubkey : string; bu_relay : string; bu_secret : string }.

Definition parse_bunker_url (s : string) : res bunker_url :=
  if negb (has_prefix s "bunker://") then Err (Sentinel "invalid bunker URL: must start with bunker://")
  else
    match cut "?" (drop_str 9 s) with
    | None => Err (Sentinel "invalid bunker URL: missing query parameters")
    | Some (pubkey, q) =>
        if negb (str_len pubkey =? 64) then Err (Sentinel "invalid bunker pubkey: must be 64 hex characters")
        else
          let! vs := wrap "invalid query parameters" (parse_query q) in
          if String.eqb (query_get "relay" vs) "" then Err (Sentinel "invalid bunker URL: missing relay parameter")
          else Ok (BunkerURL pubkey (query_get "relay" vs) (query_get "secret" vs))
    end.

Record nip46_response := Nip46Response { rp_id : string; rp_result : string; rp_error : string }.
Record auth_challenge := AuthChallenge {
  ac_id : string; ac_challenge : string; ac_bunker_pubkey : string; ac_relay_url : string;
  ac_created_at : Z; ac_expires_at : Z }.

Fixpoint zeros (n : nat) : string := match n with O => "" | S n => String zero (zeros n) end.

(** [generateRandomHex] does not look at the error of the generator. *)
Definition generate_random_hex (n : nat) : P string :=
  do r <- call (Random n);
  Ret (hex_encode (match r with Ok b => b | Err _ => zeros n end)).
Definition generate_secure_token : P string := generate_random_hex 32.

(** [time.Unix]. *)
Definition of_unix (u : Z) : Z := wrap64 (u + 62135596800) * second.

Section auth.
Context `{SessionJSON}.
(** Schnorr signatures: check, sign, derive. *)
Context (check_event : nostr_event -> bool) (sign_event_with : string -> nostr_event -> res nostr_event)
  (public_key : string -> res string).
(** NIP-44's conversation key of a public and a private key, and its cipher
    under a nonce; NIP-04. *)
Context (conversation_key : string -> string -> res string)
  (nip44_encrypt : string -> string -> string -> res string) (nip44_decrypt : string -> string -> res string)
  (shared_secret : string -> string -> res string) (nip04_decrypt : string -> string -> res string).
(** JSON. *)
Context (request_json : string -> string -> list string -> string) (unsigned_json : nostr_event -> string)
  (parse_response : string -> res nip46_response) (parse_event : string -> res nostr_event)
  (parse_me : string -> res string).
Context (signer_url : string).

(** ** Challenges *)

Definition create_auth_challenge (url : string) : P (res auth_challenge) :=
  match parse_bunker_url url with
  | Err e => Ret (Err (Wrapped "invalid bunker URL" e))
  | Ok b =>
      do id <- call Uuid;
      do challenge <- generate_random_hex 32;
      do now <- call Now;
      do sk <- call (Outside GenerateKey);
      do e <- set_nip46_challenge id (ChallengeData challenge (bu_pubkey b) (bu_relay b) sk (unix now)) (5 * minute);
      match e with
      | Some e => Ret (Err e)
      | None => Ret (Ok (AuthChallenge id challenge (bu_pubkey b) (bu_relay b) (unix now) (unix (now + 5 * minute))))
      end
  end.

(** The fields of a fresh session, in the order Go evaluates them. *)
Definition fresh_session (user : string) : P auth_session :=
  do id <- call Uuid;
  do token <- generate_secure_token;
  do expires <- call Now;
  do created <- call Now;
  Ret (AuthSession id user "" token (expires + 24 * hour) created).

Definition verify_auth_signature (challenge_id signed_event_json : string) : P (res auth_session) :=
  do data <- get_nip46_challenge challenge_id;
  match data with
  | Err e => Ret (Err (Wrapped "challenge retrieval failed" e))
  | Ok None => Ret (Err (Sentinel "challenge not found or expired"))
  | Ok (Some data) =>
      match parse_event signed_event_json with
      | Err e => Ret (Err (Wrapped "invalid event JSON" e))
      | Ok ev =>
          if negb (check_event ev) then Ret (Err (Sentinel "invalid signature"))
          else if negb (String.eqb (ev_content ev) (cd_challenge data)) then Ret (Err (Sentinel "challenge mismatch"))
          else
            do now <- call Now;
            if 5 * minute <? time_sub now (of_unix (ev_created_at ev)) then Ret (Err (Sentinel "event too old"))
            else
              do s <- fresh_session (ev_pubkey ev);
              do e <- save_session s;
              match e with
              | Some e => Ret (Err (Wrapped "failed to save session" e))
              | None => do _ <- delete_nip46_challenge challenge_id; Ret (Ok s)
              end
      end
  end.

(** ** Sessions *)

Definition cached_signer_session (token : string) (m : memory) : memory * option signer_session_entry :=
  (m, session_cache m !! token).
Definition cache_signer_session (token : string) (e : signer_session_entry) (m : memory) : memory * unit :=
  (Memory (connections m) (<[token := e]> (session_cache m)), ()).

Definition ask_signer (token : string) : P (option auth_session) :=
  do r <- call (Outside (SignerMe (signer_url +:+ "/api/v1/users/me") token));
  match r with
  | Err _ => Ret None
  | Ok (status, body) =>
      if negb (status =? 200) then Ret None
      else
        match parse_me body with
        | Err _ | Ok "" => Ret None
        | Ok pubkey =>
            do now <- call Now;
            do _ <- call (Shared (cache_signer_session token (SignerSessionEntry pubkey (now + 2 * minute))));
            Ret (Some (AuthSession "" pubkey "" token (now + 15 * minute) now))
        end
  end.

Definition validate_signer_session (token : string) : P (option auth_session) :=
  if String.eqb signer_url "" || String.eqb token "" then Ret None
  else
    do e <- call (Shared (cached_signer_session token));
    match e with
    | Some e =>
        do now <- call Now;
        if now <? sn_expires e
        then do now <- call Now; Ret (Some (AuthSession "" (sn_pubkey e) "" token (sn_expires e) now))
        else ask_signer token
    | None => ask_signer token
    end.

Definition validate_session (token : string) : P (res auth_session) :=
  do s <- get_session_by_token token;
  match s with
  | Err e => Ret (Err (Wrapped "session lookup failed" e))
  | Ok None =>
      do s <- validate_signer_session token;
      Ret (match s with Some s => Ok s | None => Err (Sentinel "invalid session token") end)
  | Ok (Some s) =>
      do now <- call Now;
      if se_expires_at s <? now
      then do _ <- delete_session (se_id s); Ret (Err (Sentinel "session expired"))
      else Ret (Ok s)
  end.

(** ** Connections *)

Definition connect_user (user : string) (c : bunker_connection) (m : memory) : memory * unit :=
  (Memory (<[user := c]> (connections m)) (session_cache m), ()).
Definition disconnect_user (user : string) (m : memory) : memory * unit :=
  (Memory (delete user (connections m)) (session_cache m), ()).
Definition connection_of (user : string) (m : memory) : memory * option bunker_connection :=
  (m, connections m !! user).

Definition logout (session_id : string) : P (option error) :=
  do s <- get_session session_id;
  do _ <- match s with
          | Ok (Some s) => call (Shared (disconnect_user (se_user_id s)))
          | _ => Ret tt
          end;
  delete_session session_id.

Definition has_bunker_connection (user : string) : P bool :=
  do c <- call (Shared (connection_of user));
  Ret (match c with Some c => bc_connected c | None => false end).

(** ** Requests to a bunker *)

(** The calls that ignore an error use what Go returns beside it: the zero key
    of 32 bytes, the empty string. *)
Definition zero_key : string := zeros 32.
Definition or_default (d : string) (r : res string) : string := match r with Ok a => a | Err _ => d end.

Definition encrypt (text key : string) : P (res string) :=
  do n <- call (Random 32);
  Ret (let! n := n in nip44_encrypt n text key).

(** The first event that decrypts, parses and is [accept]ed. *)
Fixpoint first_answer {A} (key : string) (accept : nip46_response -> option A) (evs : list nostr_event) : option A :=
  match evs with
  | [] => None
  | ev :: evs =>
      match nip44_decrypt (ev_content ev) key with
      | Err _ => first_answer key accept evs
      | Ok text =>
          match parse_response text with
          | Err _ => first_answer key accept evs
          | Ok r => match accept r with Some a => Some a | None => first_answer key accept evs end
          end
      end
  end.

(** A request and the wait for its answer, as each method writes it out.  A
    failed subscription is used all the same, and a closed one answers with a
    nil event: both end in a nil dereference. *)
Definition rpc {A} (sk bunker relay method : string) (params : list string) (sign_label : string) (timeout : Z)
    (timeout_label : string) (accept : string -> nip46_response -> option (res A)) : P (res A) :=
  do e <- call (Outside (RelayConnect relay));
  match e with
  | Some e => Ret (Err (Wrapped "failed to connect to relay" e))
  | None =>
      let client := or_default "" (public_key sk) in
      do id <- generate_random_hex 16;
      let key := or_default zero_key (conversation_key sk bunker) in
      do content <- encrypt (request_json id method params) key;
      do now <- call Now;
      match sign_event_with sk (NostrEvent "" client (unix now) 24133 [["p"; bunker]] (or_default "" content) "") with
      | Err e => Ret (Err (Wrapped sign_label e))
      | Ok ev =>
          do sub <- call (Outside (Subscribe bunker client (ev_created_at ev)));
          do e <- call (Outside (Publish ev));
          match sub, e with
          | Some _, _ => Crash
          | None, Some e => Ret (Err (Wrapped "failed to publish request to relay" e))
          | None, None =>
              do w <- call (Outside (Await timeout));
              match first_answer key (accept id) w.1, w.2 with
              | Some a, _ => Ret a
              | None, Closed => Crash
              | None, TimedOut => Ret (Err (Sentinel timeout_label))
              | None, Cancelled e => Ret (Err e)
              end
          end
      end
  end.

Definition get_user_pubkey_from_bunker (d : challenge_data) : P (res string) :=
  rpc (cd_client_private_key d) (cd_bunker_pubkey d) (cd_relay_url d) "get_public_key" [] "failed to sign event"
    (10 * second) "timeout waiting for public key"
    (fun id r => if String.eqb (rp_id r) id && negb (String.eqb (rp_result r) "") then Some (Ok (rp_result r)) else None).

(** An answer to the request: its error, or what [k] makes of its result. *)
Definition answered {A} (k : string -> res A) (id : string) (r : nip46_response) : option (res A) :=
  if negb (String.eqb (rp_id r) id) then None
  else if negb (String.eqb (rp_error r) "") then Some (Err (Sentinel ("bunker error: " +:+ rp_error r)))
  else Some (k (rp_result r)).

Definition with_connection {A} (user : string) (f : bunker_connection -> P (res A)) : P (res A) :=
  do c <- call (Shared (connection_of user));
  match c with
  | Some c => if bc_connected c then f c else Ret (Err ErrNoSignerConnection)
  | None => Ret (Err ErrNoSignerConnection)
  end.

Definition signed_fields (ev signed : nostr_event) : nostr_event :=
  NostrEvent (ev_id signed) (ev_pubkey signed) (ev_created_at ev) (ev_kind ev) (ev_tags ev) (ev_content ev) (ev_sig signed).

Definition nip46_sign_event (user : string) (ev : nostr_event) : P (res nostr_event) :=
  with_connection user (fun c =>
    rpc (bc_client_private_key c) (bc_bunker_pubkey c) (bc_relay_url c) "sign_event" [unsigned_json ev]
      "failed to sign request event" (30 * second) "timeout waiting for signature"
      (answered (fun result => let! s := wrap "failed to parse signed event" (parse_event result) in Ok (signed_fields ev s)))).

Definition encrypt_content (user recipient plaintext : string) : P (res string) :=
  with_connection user (fun c =>
    rpc (bc_client_private_key c) (bc_bunker_pubkey c) (bc_relay_url c) "nip44_encrypt" [recipient; plaintext]
      "failed to sign request event" (30 * second) "timeout waiting for encryption" (answered Ok)).

Definition decrypt_content (user sender ciphertext : string) : P (res string) :=
  with_connection user (fun c =>
    rpc (bc_client_private_key c) (bc_bunker_pubkey c) (bc_relay_url c) "nip44_decrypt" [sender; ciphertext]
      "failed to sign request event" (30 * second) "timeout waiting for decryption" (answered Ok)).

(** ** Logging in through a bunker *)

(** NIP-44, or NIP-04 where that fails. *)
Definition decrypt_any (key : string) (secret : res string) (content : string) : res string :=
  match nip44_decrypt content key with
  | Ok t => Ok t
  | Err _ =>
      let! s := wrap "failed to compute shared secret" secret in
      wrap "failed to decrypt response" (nip04_decrypt content s)
  end.

Definition handle_connect_response (ev : nostr_event) (d : challenge_data) (request_id : string) : P (res auth_session) :=
  if negb (check_event ev) then Ret (Err (Sentinel "invalid event signature"))
  else
    match wrap "failed to generate conversation key" (conversation_key (cd_client_private_key d) (cd_bunker_pubkey d)) with
    | Err e => Ret (Err e)
    | Ok key =>
        match
          let! text := decrypt_any key (shared_secret (cd_client_private_key d) (cd_bunker_pubkey d)) (ev_content ev) in
          wrap "failed to parse response" (parse_response text)
        with
        | Err e => Ret (Err e)
        | Ok r =>
            if negb (String.eqb (rp_error r) "") then Ret (Err (Sentinel ("bunker error: " +:+ rp_error r)))
            else if negb (String.eqb (rp_id r) request_id) then Ret (Err (Sentinel "response ID mismatch"))
            else
              do user <- get_user_pubkey_from_bunker d;
              match user with
              | Err e => Ret (Err (Wrapped "failed to get user pubkey" e))
              | Ok user =>
                  do now <- call Now;
                  do _ <- call (Shared (connect_user user
                            (BunkerConnection (cd_bunker_pubkey d) user (cd_relay_url d) "" (cd_client_private_key d) true now)));
                  do s <- fresh_session user;
                  do e <- save_session s;
                  match e with
                  | Some e => Ret (Err (Wrapped "failed to save session" e))
                  | None => do _ <- delete_nip46_challenge request_id; Ret (Ok s)
                  end
              end
        end
    end.

Definition connect_to_bunker (challenge_id : string) : P (res auth_session) :=
  do data <- get_nip46_challenge challenge_id;
  match data with
  | Err e => Ret (Err (Wrapped "challenge retrieval failed" e))
  | Ok None => Ret (Err (Sentinel "challenge not found or expired"))
  | Ok (Some d) =>
      do e <- call (Outside (RelayConnect (cd_relay_url d)));
      match e with
      | Some e => Ret (Err (Wrapped "failed to connect to relay" e))
      | None =>
          try client <- Ret (wrap "failed to derive client pubkey" (public_key (cd_client_private_key d)));
          do id <- generate_random_hex 16;
          try key <- Ret (wrap "failed to generate conversation key" (conversation_key (cd_client_private_key d) (cd_bunker_pubkey d)));
          do content <- encrypt (request_json id "connect" [client; cd_challenge d]) key;
          try content <- Ret (wrap "failed to encrypt request" content);
          do now <- call Now;
          try ev <- Ret (wrap "failed to sign event" (sign_event_with (cd_client_private_key d)
                      (NostrEvent "" client (unix now) 24133 [["p"; cd_bunker_pubkey d]] content "")));
          do e <- call (Outside (Subscribe (cd_bunker_pubkey d) client (ev_created_at ev)));
          match e with
          | Some e => Ret (Err (Wrapped "failed to subscribe" e))
          | None =>
              do e <- call (Outside (Publish ev));
              match e with
              | Some e => Ret (Err (Wrapped "failed to publish event" e))
              | None =>
                  do w <- call (Outside (Await (30 * second)));
                  match w with
                  | (r :: _, _) => handle_connect_response r d id
                  | ([], Cancelled e) => Ret (Err e)
                  | ([], _) => Ret (Err (Sentinel "timeout waiting for bunker response"))
                  end
              end
          end
      end
  end.

(** ** The nostrconnect bootstrap *)

Record bootstrap := Bootstrap {
  bs_nonce : string; bs_user : string; bs_relay : string; bs_client_private_key : string; bs_client_pubkey : string;
  bs_secret : string }.

Definition nostrconnect_uri (client relay secret app : string) : string :=
  "nostrconnect://" +:+ client +:+ "?relay=" +:+ query_escape relay +:+ "&secret=" +:+ secret +:+ "&name=" +:+ query_escape app.

(** The URI, the nonce, and what the background goroutine is started with. *)
Definition initiate_nostr_connect (user relay app : string) : P (res (string * string * bootstrap)) :=
  do sk <- call (Outside GenerateKey);
  match public_key sk with
  | Err e => Ret (Err (Wrapped "failed to derive client public key" e))
  | Ok client =>
      do secret <- generate_random_hex 16;
      do nonce <- generate_random_hex 16;
      do now <- call Now;
      do e <- set_nip46_challenge ("nc:" +:+ nonce) (ChallengeData secret user relay sk (unix now)) (90 * second);
      match e with
      | Some e => Ret (Err (Wrapped "failed to persist nostrconnect bootstrap state" e))
      | None => Ret (Ok (nostrconnect_uri client relay secret app, nonce, Bootstrap nonce user relay sk client secret))
      end
  end.

Definition cleanup_bootstrap_state (nonce : string) : P unit :=
  do _ <- delete_nip46_challenge ("nc:" +:+ nonce);
  Ret ().

(** An event the bootstrap takes for the signer's acknowledgement. *)
Definition is_ack (b : bootstrap) (key : string) (ev : nostr_event) : bool :=
  check_event ev &&
  match
    let! text := decrypt_any key (shared_secret (bs_client_private_key b) (bs_user b)) (ev_content ev) in
    parse_response text
  with
  | Ok r => String.eqb (rp_result r) (bs_secret b) || String.eqb (rp_result r) "ack" || String.eqb (rp_result r) "pong"
  | Err _ => false
  end.

Definition await_nostr_connect_ack (b : bootstrap) : P unit :=
  do e <- call (Outside (RelayConnect (bs_relay b)));
  match e with
  | Some _ => cleanup_bootstrap_state (bs_nonce b)
  | None =>
      do now <- call Now;
      do e <- call (Outside (Subscribe (bs_user b) (bs_client_pubkey b) (unix now)));
      match e with
      | Some _ => cleanup_bootstrap_state (bs_nonce b)
      | None =>
          match conversation_key (bs_user b) (bs_client_private_key b) with
          | Err _ => cleanup_bootstrap_state (bs_nonce b)
          | Ok key =>
              do w <- call (Outside (Await (90 * second)));
              if existsb (is_ack b key) w.1 then
                do now <- call Now;
                do _ <- call (Shared (connect_user (bs_user b)
                          (BunkerConnection (bs_user b) (bs_user b) (bs_relay b) "" (bs_client_private_key b) true now)));
                cleanup_bootstrap_state (bs_nonce b)
              else cleanup_bootstrap_state (bs_nonce b)
          end
      end
  end.

End auth.

(** * Properties *)

(** A bunker URL as its format says. *)
Definition format_bunker_url (b : bunker_url) : string :=
  "bunker://" +:+ bu_pubkey b +:+ "?relay=" +:+ query_escape (bu_relay b) +:+ "&secret=" +:+ query_escape (bu_secret b).

Lemma two_fields k1 v1 k2 v2 :
  query_escape k1 = k1 -> query_escape k2 = k2 -> k1 <> "" -> k2 <> "" ->
  parse_query (k1 +:+ "=" +:+ query_escape v1 +:+ "&" +:+ k2 +:+ "=" +:+ query_escape v2) = Ok [(k1, v1); (k2, v2)].
Proof.
  intros E1 E2 N1 N2.
  assert (forall k v, query_escape k = k -> k <> "" -> query_field (k +:+ String "=" (query_escape v)) = Ok [(k, v)]) as Hfield.
  { intros k v Ek Nk. unfold query_field.
    assert (has_char ";" (k +:+ String "=" (query_escape v)) = false) as ->.
    { unfold has_char. apply negb_false_iff. change (no_char ";" (k +:+ String "=" (query_escape v)) = true).
      rewrite no_char_app, no_char_cons, (query_escape_free ";" v) by done. rewrite <- Ek. by rewrite (query_escape_free ";" k). }
    destruct (String.eqb_spec (k +:+ String "=" (query_escape v)) ""); [by destruct k|].
    rewrite cut_app by (rewrite <- Ek; by apply query_escape_free).
    rewrite query_unescape_escape. rewrite <- Ek at 1. by rewrite query_unescape_escape. }
  unfold parse_query.
  change (k1 +:+ "=" +:+ query_escape v1 +:+ "&" +:+ k2 +:+ "=" +:+ query_escape v2)
    with (k1 +:+ String "=" (query_escape v1 +:+ String "&" (k2 +:+ String "=" (query_escape v2)))).
  replace (k1 +:+ String "=" (query_escape v1 +:+ String "&" (k2 +:+ String "=" (query_escape v2))))
    with ((k1 +:+ String "=" (query_escape v1)) +:+ String "&" (k2 +:+ String "=" (query_escape v2)))
    by (by rewrite app_assoc_str).
  assert (forall k v, query_escape k = k -> no_char "&" (k +:+ String "=" (query_escape v)) = true) as Hamp.
  { intros k v Ek. rewrite no_char_app, no_char_cons, (query_escape_free "&" v) by done.
    rewrite <- Ek. by rewrite (query_escape_free "&" k). }
  rewrite split_app_sep, split_single by (by apply Hamp). cbn [query_fields]. rewrite !Hfield by done. done.
Qed.

(** What the format describes is read back. *)
Lemma bunker_url_round_trip b :
  str_len (bu_pubkey b) = 64 -> no_char "?" (bu_pubkey b) = true -> bu_relay b <> "" ->
  parse_bunker_url (format_bunker_url b) = Ok b.
Proof.
  intros Hlen Hq Hr. unfold parse_bunker_url, format_bunker_url.
  assert (has_prefix ("bunker://" +:+ bu_pubkey b +:+ "?relay=" +:+ query_escape (bu_relay b) +:+ "&secret=" +:+ query_escape (bu_secret b))
    "bunker://" = true) as -> by (apply has_prefix_spec; eauto).
  simpl negb. cbn iota.
  change (drop_str 9 ("bunker://" +:+ ?x)) with x.
  change (bu_pubkey b +:+ "?relay=" +:+ ?x) with (bu_pubkey b +:+ String "?" ("relay" +:+ "=" +:+ x)).
  rewrite cut_app by done. rewrite Hlen. cbn [Z.eqb negb]. simpl (negb (64 =? 64)). cbn iota.
  pose proof (two_fields "relay" (bu_relay b) "secret" (bu_secret b) eq_refl eq_refl) as Hf.
  change ("&secret=" +:+ query_escape (bu_secret b)) with ("&" +:+ "secret" +:+ "=" +:+ query_escape (bu_secret b)).
  rewrite Hf by done. cbn [wrap res_bind query_get find fst String.eqb Ascii.eqb Bool.eqb snd].
  simpl. destruct (String.eqb_spec (bu_relay b) ""); [done|]. by destruct b.
Qed.

(** The events a program publishes. *)
Definition published (e : event (M := memory) (Q := outside)) : option nostr_event :=
  match e with
  | Event c _ => match c with Outside q => match q with Publish ev => Some ev | _ => None end | _ => None end
  end.

Section remote_encryption.
Context (sign_event_with : string -> nostr_event -> res nostr_event) (public_key : string -> res string)
  (conversation_key : string -> string -> res string)
  (nip44_encrypt : string -> string -> string -> res string) (nip44_decrypt : string -> string -> res string)
  (request_json : string -> string -> list string -> string) (parse_response : string -> res nip46_response).

Abbreviation ask_encrypt := (encrypt_content sign_event_with public_key conversation_key nip44_encrypt nip44_decrypt request_json
  parse_response).

Ltac nothing := match goal with He : _ ∈ omap published _ |- _ => by (cbn in He; apply not_elem_of_nil in He) end.
Ltac turn Hr x := let tr := fresh "tr" in destruct Hr as [[-> Hr]|(x & tr & -> & Hr)]; [try nothing|].

(** What [rpc] publishes is what was signed, over the request under its key. *)
Lemma rpc_published {A} sk bunker relay method params l1 timeout l2 (accept : string -> nip46_response -> option (res A)) tr o ev :
  runs (rpc sign_event_with public_key conversation_key nip44_encrypt nip44_decrypt request_json parse_response
    sk bunker relay method params l1 timeout l2 accept) tr o ->
  ev ∈ omap published tr ->
  exists id content now n,
    content = or_default "" (let! n := n in
      nip44_encrypt n (request_json id method params) (or_default zero_key (conversation_key sk bunker))) /\
    sign_event_with sk (NostrEvent "" (or_default "" (public_key sk)) (unix now) 24133 [["p"; bunker]] content "") = Ok ev.
Proof.
  unfold rpc. intros Hr Hev. cbn [bind call runs] in Hr. turn Hr e. destruct e as [e|]; cbn [bind runs] in Hr.
  { destruct Hr as [-> _]. nothing. }
  unfold generate_random_hex, encrypt in Hr. cbn [bind call runs] in Hr. turn Hr r. turn Hr n. turn Hr now.
  destruct (sign_event_with sk _) as [ev'|e] eqn:Es; [|destruct Hr as [-> _]; nothing].
  assert (ev = ev') as ->; [|by eexists _, _, now, n].
  cbn [bind call runs] in Hr. turn Hr sub. turn Hr e.
  cbn in Hev. apply elem_of_cons in Hev as [->|Hev]; [done|]. exfalso.
  destruct sub as [s|]; [destruct Hr as [-> _]; nothing|].
  destruct e as [e|]; cbn [runs] in Hr; [destruct Hr as [-> _]; nothing|].
  cbn [bind call runs] in Hr. turn Hr w.
  destruct (first_answer _ _ _ _); [destruct Hr as [-> _]; nothing|]. destruct (w.2); destruct Hr as [-> _]; nothing.
Qed.

(** C17. The text of a mail can leave under a key that everybody knows.  Asked to
    encrypt by a remote signer, the server sends it the plaintext in a request
    encrypted under the conversation key of its connection, whose two arguments
    are swapped and whose error is dropped: wherever the derivation fails on
    them, whatever is published is empty, or is decrypted by the key of 32 zero
    bytes, to the request with the plaintext in it. *)
Theorem remote_plaintext_under_zero_key user recipient plaintext tr o ev
    (Hsign : forall sk ev ev', sign_event_with sk ev = Ok ev' -> ev_content ev' = ev_content ev)
    (Hcipher : forall n text key c, nip44_encrypt n text key = Ok c -> nip44_decrypt c key = Ok text)
    (Hr : runs (ask_encrypt user recipient plaintext) tr o)
    (Hev : ev ∈ omap published tr) :
  exists c, Event (Shared (connection_of user)) (Some c) ∈ tr /\
    forall e, conversation_key (bc_client_private_key c) (bc_bunker_pubkey c) = Err e ->
    ev_content ev = "" \/
    exists id, nip44_decrypt (ev_content ev) zero_key = Ok (request_json id "nip44_encrypt" [recipient; plaintext]).
Proof.
  unfold encrypt_content, with_connection in Hr. cbn [bind call runs] in Hr. turn Hr c.
  destruct c as [c|]; cbn [bind runs] in Hr; [|destruct Hr as [-> _]; nothing].
  destruct (bc_connected c); [|destruct Hr as [-> _]; nothing].
  exists c. split; [by left|]. intros e He. apply (rpc_published _ _ _ _ _ _ _ _ _ _ _ _ Hr) in Hev as (id & content & now & n & Hc & Hs).
  apply Hsign in Hs. rewrite Hs, Hc, He. simpl. destruct n as [n|]; [simpl|by left].
  destruct (nip44_encrypt _ _ _) as [s|] eqn:En; [|by left]. right. exists id. by eapply Hcipher.
Qed.

End remote_encryption.
