(* ===== verification/ClientAuth.v ===== *)
(** * The authentication endpoints: internal/api/auth_clientside.go, and the
    authentication part of internal/api/handler.go and nostrconnect_handler.go

    Each handler is a program of [Prog] that ends in a reply.  An error reply
    has the status its constructor in cloistr-common names; of the replies that
    give an instant twice, as a number and as text, the number is kept. *)

From S2P Require Import Prelude GoStrings Nostr Http Prog SessionStore Auth.
#[local] Open Scope Z_scope.
#[local] Open Scope prog_scope.

Inductive auth_body :=
| NewChallenge (challenge nonce : string)
| Granted (token pubkey : string) (expires_at : Z)
| Refreshed (token : string) (expires_at : Z)
| TokenInfo (valid : option (string * Z))
| BunkerChallenge (c : auth_challenge)
| SessionInfo (user email : string) (expires_at : Z)
| LoggedOut
| ConnectURI (uri nonce : string)
| Connected (live : bool).

Abbreviation reply := (http_reply auth_body).

Definition is_some {A} (o : option A) : bool := match o with Some _ => true | None => false end.

Definition cs_gen_hex (n : nat) : P (res string) :=
  do r <- call (Random n);
  Ret (let! b := r in Ok (hex_encode b)).

Section endpoints.
Context `{SessionJSON}.
Context (check_event : nostr_event -> bool) (parse_event : string -> res nostr_event) (parse_me : string -> res string).
(** The challenge and the nonce in an event's content. *)
Context (parse_content : string -> res (string * string)).
Context (signer_url nostr_connect_relay : string) (public_key : string -> res string).

Abbreviation validate := (validate_session parse_me signer_url).

(** ** Logging in with a signed challenge *)

Definition start_challenge : P reply :=
  do c <- cs_gen_hex 32;
  match c with
  | Err _ => Ret (internal_error "failed to generate challenge")
  | Ok challenge =>
      do n <- cs_gen_hex 16;
      match n with
      | Err _ => Ret (internal_error "failed to generate nonce")
      | Ok nonce =>
          do now <- call Now;
          do e <- set_nip46_challenge nonce (ChallengeData challenge "" "" "" (unix now)) (5 * minute);
          Ret (match e with
               | Some _ => internal_error "failed to create challenge"
               | None => Reply 200 (NewChallenge challenge nonce)
               end)
      end
  end.

(** The value of the first challenge tag. *)
Definition challenge_tag (ev : nostr_event) : string :=
  match List.find (fun t => match t with n :: _ :: _ => String.eqb n "challenge" | _ => false end) (ev_tags ev) with
  | Some (_ :: v :: _) => v
  | _ => ""
  end.

Definition skew (now : Z) (ev : nostr_event) : Z := wrap64 (unix now - ev_created_at ev).

(** [body]: the signedEvent field, or the error of decoding the request. *)
Definition verify_challenge (body : res string) : P reply :=
  match body with
  | Err _ => Ret (bad_request "INVALID_INPUT" "invalid request body")
  | Ok "" => Ret (bad_request "VALIDATION_FAILED" "signedEvent is required")
  | Ok raw =>
      match parse_event raw with
      | Err _ => Ret (bad_request "INVALID_INPUT" "invalid signedEvent JSON")
      | Ok ev =>
          if negb (check_event ev) then Ret (unauthorized "AUTH_INVALID" "invalid event signature")
          else if negb (ev_kind ev =? 27235) then Ret (unauthorized "AUTH_INVALID" "unexpected event kind")
          else
            match parse_content (ev_content ev) with
            | Err _ => Ret (unauthorized "AUTH_INVALID" "invalid event content")
            | Ok (challenge, nonce) =>
                if String.eqb challenge "" || String.eqb nonce ""
                then Ret (unauthorized "AUTH_INVALID" "event content missing challenge or nonce")
                else
                  do data <- consume_nip46_challenge nonce;
                  match data with
                  | Err _ => Ret (internal_error "challenge lookup failed")
                  | Ok None => Ret (unauthorized "AUTH_INVALID" "challenge not found, expired, or already used")
                  | Ok (Some data) =>
                      if negb (String.eqb (cd_challenge data) challenge) then Ret (unauthorized "AUTH_INVALID" "challenge mismatch")
                      else if negb (String.eqb (challenge_tag ev) challenge)
                      then Ret (unauthorized "AUTH_INVALID" "challenge tag mismatch")
                      else
                        do now <- call Now;
                        if (skew now ev <? -300) || (300 <? skew now ev)
                        then Ret (unauthorized "AUTH_INVALID" "event timestamp out of acceptable range")
                        else
                          do token <- cs_gen_hex 32;
                          match token with
                          | Err _ => Ret (internal_error "failed to mint session token")
                          | Ok token =>
                              do now <- call Now;
                              do id <- call Uuid;
                              do e <- save_session (AuthSession id (ev_pubkey ev) "" token (now + 24 * hour) now);
                              Ret (match e with
                                   | Some _ => internal_error "failed to create session"
                                   | None => Reply 200 (Granted token (ev_pubkey ev) (unix (now + 24 * hour)))
                                   end)
                          end
                  end
            end
      end
  end.

(** ** Sessions *)

Definition refresh_token (header : string) : P reply :=
  if String.eqb header "" then Ret (unauthorized "AUTH_REQUIRED" "missing authorization header")
  else
    match bearer_token header with
    | None => Ret (unauthorized "AUTH_INVALID" "invalid authorization header format")
    | Some old =>
        do s <- validate old;
        match s with
        | Err _ => Ret (unauthorized "AUTH_INVALID" "invalid or expired session")
        | Ok s =>
            do token <- cs_gen_hex 32;
            match token with
            | Err _ => Ret (internal_error "failed to mint new token")
            | Ok token =>
                do e <- delete_session (se_id s);
                match e with
                | Some _ => Ret (internal_error "session refresh failed")
                | None =>
                    do now <- call Now;
                    do e <- save_session (AuthSession (se_id s) (se_user_id s) (se_email s) token (now + 24 * hour) (se_created_at s));
                    Ret (match e with
                         | Some _ => internal_error "session refresh failed"
                         | None => Reply 200 (Refreshed token (unix (now + 24 * hour)))
                         end)
                end
            end
        end
    end.

Definition token_info (header : string) : P reply :=
  match bearer_token header with
  | None => Ret (Reply 401 (TokenInfo None))
  | Some token =>
      do s <- validate token;
      Ret (match s with
           | Err _ => Reply 401 (TokenInfo None)
           | Ok s => Reply 200 (TokenInfo (Some (se_user_id s, unix (se_expires_at s))))
           end)
  end.

(** [AuthMiddleware]: the header, or else the cookie; then the handler runs with
    the session in its context.  [refuse] is what a refusal that is written out
    is to the caller. *)
Definition auth_middleware {A} (refuse : reply -> A) (header : string) (cookie : option string)
    (next : auth_session -> P A) : P A :=
  let with_token token :=
    do s <- validate token;
    match s with
    | Err _ => Ret (refuse (unauthorized "AUTH_INVALID" "invalid or expired session"))
    | Ok s => next s
    end in
  if String.eqb header "" then
    match cookie with
    | Some (String _ _ as token) => with_token token
    | _ => Ret (refuse (unauthorized "AUTH_REQUIRED" "missing authorization"))
    end
  else
    match bearer_token header with
    | None => Ret (refuse (unauthorized "AUTH_INVALID" "invalid authorization header format"))
    | Some token => with_token token
    end.

(** ** The endpoints of the older flow *)

Definition start_nip46_auth (body : res string) : P reply :=
  match body with
  | Err _ => Ret (bad_request "INVALID_INPUT" "invalid request body")
  | Ok "" => Ret (bad_request "VALIDATION_FAILED" "bunker_url is required")
  | Ok url =>
      do c <- create_auth_challenge url;
      Ret (match c with
           | Err e => bad_request "VALIDATION_FAILED" (error_text e)
           | Ok c => Reply 200 (BunkerChallenge c)
           end)
  end.

Definition granted_session (s : auth_session) : reply := Reply 200 (Granted (se_token s) (se_user_id s) (unix (se_expires_at s))).

Definition verify_nip46_auth (body : res (string * string)) : P reply :=
  match body with
  | Err _ => Ret (bad_request "INVALID_INPUT" "invalid request body")
  | Ok (challenge_id, signed_event) =>
      if String.eqb challenge_id "" || String.eqb signed_event ""
      then Ret (bad_request "VALIDATION_FAILED" "challenge_id and signed_event are required")
      else
        do s <- verify_auth_signature check_event parse_event challenge_id signed_event;
        Ret (match s with Err e => unauthorized "AUTH_INVALID" (error_text e) | Ok s => granted_session s end)
  end.

(** The handlers behind [auth_middleware] find a session; [Logout] is routed
    without it. *)
Definition logout_endpoint (s : option auth_session) : P reply :=
  match s with
  | None => Ret (unauthorized "AUTH_REQUIRED" "not authenticated")
  | Some s =>
      do e <- logout (se_id s);
      Ret (match e with Some _ => internal_error "logout failed" | None => Reply 200 LoggedOut end)
  end.

Definition get_session_endpoint (s : option auth_session) : P reply :=
  Ret (match s with
       | None => unauthorized "AUTH_REQUIRED" "not authenticated"
       | Some s => Reply 200 (SessionInfo (se_user_id s) (se_email s) (unix (se_expires_at s)))
       end).

(** The reply, and the goroutine to start. *)
Definition init_nostr_connect (user : string) : P (reply * option bootstrap) :=
  if String.eqb user "" then Ret (unauthorized "AUTH_REQUIRED" "not authenticated", None)
  else
    do r <- initiate_nostr_connect public_key user nostr_connect_relay "Cloistr Mail";
    Ret (match r with
         | Err _ => (internal_error "failed to initiate nostrconnect bootstrap", None)
         | Ok (uri, nonce, b) => (Reply 200 (ConnectURI uri nonce), Some b)
         end).

Definition nip46_status (user : string) : P reply :=
  if String.eqb user "" then Ret (unauthorized "AUTH_REQUIRED" "not authenticated")
  else do live <- has_bunker_connection user; Ret (Reply 200 (Connected live)).

End endpoints.

(** * Properties *)

Section properties.
Context `{SessionJSON}.
Context (check_event : nostr_event -> bool) (parse_event : string -> res nostr_event) (parse_me : string -> res string)
  (parse_content : string -> res (string * string)) (signer_url : string).
Context {R : Type} `{Redis R} `{!RedisLaws R}.

Abbreviation verify_login := (verify_challenge check_event parse_event parse_content).

Definition granted (o : option reply) : bool := match o with Some (Reply _ (Granted _ _ _)) => true | _ => false end.

(** The event a login presents, and the nonce it answers. *)
Definition presented (body : res string) : option nostr_event :=
  match body with Ok raw => match parse_event raw with Ok ev => Some ev | Err _ => None end | Err _ => None end.
Definition answered_nonce (body : res string) : option string :=
  match presented body with
  | Some ev => match parse_content (ev_content ev) with Ok (_, nonce) => Some nonce | Err _ => None end
  | None => None
  end.

Ltac one_step Hr x := let tr := fresh "tr" in destruct Hr as [[_ Hr]|(x & tr & -> & Hr)]; [by subst|].

Lemma verify_hit body nonce tr o :
  runs (verify_login body) tr o -> granted o = true -> answered_nonce body = Some nonce ->
  (1 <= total_of (hit (challenge_key nonce)) tr)%nat.
Proof.
  intros Hr Hg Hn. unfold answered_nonce, presented in Hn. destruct body as [raw|]; [|done].
  destruct (parse_event raw) as [ev|] eqn:Ep; [|done]. destruct (parse_content (ev_content ev)) as [[c n]|] eqn:Ec; [|done].
  injection Hn as ->. unfold verify_challenge in Hr. destruct raw as [|a raw]; [by destruct Hr as [-> [-> | ->]]|].
  rewrite Ep, Ec in Hr.
  destruct (negb (check_event ev)); [by destruct Hr as [-> [-> | ->]]|].
  destruct (negb (ev_kind ev =? 27235)); [by destruct Hr as [-> [-> | ->]]|].
  destruct (_ || _); [by destruct Hr as [-> [-> | ->]]|].
  simpl in Hr. one_step Hr x. destruct x as [[d|]|e]; simpl in Hr; [|by destruct Hr as [-> [-> | ->]]..].
  rewrite total_of_cons, hit_getdel. lia.
Qed.

Lemma sum_ge_length {A} (f : A -> nat) l : (forall x, x ∈ l -> (1 <= f x)%nat) -> (length l <= list_sum (map f l))%nat.
Proof.
  induction l as [|x l IH]; intros Hf; [simpl; lia|]. cbn [map length]. change (list_sum (?a :: ?b)) with (a + list_sum b)%nat.
  pose proof (Hf x ltac:(by left)). assert (length l <= list_sum (map f l))%nat by (apply IH; intros y Hy; apply Hf; by right). lia.
Qed.

(** C13. A challenge logs in once: however many requests present events that
    answer a nonce, in whatever order their calls and everybody else's
    interleave and whatever calls fail, no more of them get a session than
    times a challenge was stored under that nonce. *)
Theorem one_session_per_challenge pool t s h s' out nonce (ids : list nat)
    (Hrun : concurrent (M := memory) (Q := outside) (R := R) pool t s h s' out)
    (Hids : NoDup ids)
    (Hlogins : forall i, i ∈ ids -> granted (out i) = true /\
       exists body, pool !! i = Some (verify_login body) /\ answered_nonce body = Some nonce) :
  (length ids <= present t (challenge_key nonce) s + total (stores (challenge_key nonce)) h)%nat.
Proof.
  destruct Hrun as [Hh Hruns].
  transitivity (total (hit (challenge_key nonce)) h); [|by eapply consumed_once_per_store].
  transitivity (list_sum (map (fun i => total_of (hit (challenge_key nonce)) (of_request i h)) ids)); [|by apply total_of_requests].
  apply sum_ge_length. intros i Hi. destruct (Hlogins i Hi) as [Hg (body & Hp & Hn)].
  exact (verify_hit body nonce _ _ (Hruns i _ Hp) Hg Hn).
Qed.

Ltac in_trace := repeat (first [by left | right]).

Ltac ended Hr := destruct Hr as [-> [Hr | Hr]]; [first [discriminate Hr | injection Hr as Hr] | discriminate Hr].

Lemma save_session_ok s0 (k : option error -> P reply) tr o :
  (forall e tr', runs (k (Some e)) tr' o -> False) ->
  runs (bind (save_session s0) k) tr o -> o <> None ->
  exists ttl rest, Event (Store (session_key (se_id s0)) (enc_session s0) ttl) None ∈ tr /\
    Event (Store (token_key (se_token s0)) (se_id s0) ttl) None ∈ tr /\ runs (k None) rest o.
Proof.
  intros Hk Hr Ho. unfold save_session in Hr. simpl in Hr.
  destruct Hr as [[_ Hx]|(now & tr1 & -> & Hr)]; [done|].
  destruct Hr as [[_ Hx]|(e1 & tr2 & -> & Hr)]; [done|].
  destruct e1 as [e1|]; [simpl in Hr; exfalso; by eapply Hk|]. simpl in Hr.
  destruct Hr as [[_ Hx]|(e2 & tr3 & -> & Hr)]; [done|].
  destruct e2 as [e2|]; simpl in Hr.
  { destruct Hr as [[_ Hx]|(e3 & tr4 & -> & Hr)]; [done|]. exfalso. by eapply Hk. }
  eexists _, tr3. split; [in_trace|]. split; [in_trace|done].
Qed.

(** C14. Nobody logs in without the key: a request that is granted a session for a
    key presented an event of kind 27235 which that key signed, over a
    challenge that the server had stored under the event's nonce and that this
    very request took away, within five minutes of the server's clock; and the
    session that was stored, and indexed by the token in the reply, is that
    key's. *)
Theorem login_needs_signed_challenge body tr token pk expires
    (Hr : runs (verify_login body) tr (Some (Reply 200 (Granted token pk expires)))) :
  exists ev challenge nonce d data now s ttl,
    presented body = Some ev /\ check_event ev = true /\ ev_pubkey ev = pk /\ ev_kind ev = 27235 /\
    parse_content (ev_content ev) = Ok (challenge, nonce) /\ challenge <> "" /\ challenge_tag ev = challenge /\
    Event (GetDel (challenge_key nonce)) (Ok (Some d)) ∈ tr /\ dec_challenge d = Ok data /\ cd_challenge data = challenge /\
    Event Now now ∈ tr /\ -300 <= skew now ev <= 300 /\
    se_user_id s = pk /\ se_token s = token /\
    Event (Store (session_key (se_id s)) (enc_session s) ttl) None ∈ tr /\
    Event (Store (token_key token) (se_id s) ttl) None ∈ tr.
Proof.
  unfold verify_challenge in Hr. destruct body as [[|a raw]|]; [ended Hr| |ended Hr].
  unfold presented. destruct (parse_event (String a raw)) as [ev|]; [|ended Hr].
  destruct (check_event ev) eqn:Eck; [|ended Hr]. destruct (Z.eqb_spec (ev_kind ev) 27235) as [Ek|]; [|ended Hr]. cbn [negb] in Hr.
  destruct (parse_content (ev_content ev)) as [[challenge nonce]|] eqn:Ec; [|ended Hr].
  destruct (String.eqb_spec challenge "") as [|Hne]; [ended Hr|]. destruct (String.eqb_spec nonce ""); [ended Hr|].
  cbn [orb consume_nip46_challenge bind call runs] in Hr. one_step Hr x. destruct x as [[d|]|]; cbn [decoded bind] in Hr; [|ended Hr..].
  destruct (dec_challenge d) as [data|] eqn:Ed; cbn [bind] in Hr; [|ended Hr].
  destruct (String.eqb_spec (cd_challenge data) challenge) as [Ech|]; [|ended Hr].
  destruct (String.eqb_spec (challenge_tag ev) challenge) as [Etag|]; [|ended Hr].
  cbn [negb bind call runs] in Hr. one_step Hr now.
  destruct (Z.ltb_spec (skew now ev) (-300)); [ended Hr|]. destruct (Z.ltb_spec 300 (skew now ev)); [ended Hr|].
  cbn [orb cs_gen_hex bind call runs] in Hr. one_step Hr x. destruct x as [bytes|]; cbn [res_bind bind] in Hr; [|ended Hr].
  cbn [bind call runs] in Hr. one_step Hr minted. one_step Hr sid.
  apply save_session_ok in Hr as (ttl & rest & Hs & Ht & Hr); [|by intros e tr' Hx; ended Hx|done].
  cbn [runs] in Hr. ended Hr. simplify_eq.
  exists ev, (cd_challenge data), nonce, d, data, now. eexists _, ttl. do 7 (split; [done|]).
  split; [in_trace|]. do 2 (split; [done|]). split; [in_trace|]. split; [lia|].
  split; [|split; [|split; [do 5 right; exact Hs|do 5 right; exact Ht]]]; done.
Qed.

End properties.
