(* ===== verification/AuthHistory.v ===== *)
(** * Histories of the authentication endpoints

    The endpoints of [ClientAuth] as requests of one server, served together:
    whose session a token opens, whatever the interleaving; and what goes wrong
    where the code relies on more than it checks. *)

From S2P Require Import Prelude GoStrings GoRunes GoUrl Nostr Http Prog SessionStore Auth ClientAuth.
#[local] Open Scope Z_scope.
#[local] Open Scope prog_scope.

(** The requests that are routed (cmd/email/main.go), [Logout] without the middleware
    that would find its session; [WhoamiR] stands for a route behind
    [AuthMiddleware], with the handler that shows the session it was given. *)
Inductive auth_request :=
| StartChallengeR
| VerifyR (body : res string)
| RefreshR (header : string)
| TokenInfoR (header : string)
| StartNip46R (body : res string)
| VerifyNip46R (body : res (string * string))
| LogoutR
| WhoamiR (header : string) (cookie : option string).

Section server.
Context `{SessionJSON}.
Context (check_event : nostr_event -> bool) (parse_event : string -> res nostr_event) (parse_me : string -> res string)
  (parse_content : string -> res (string * string)) (signer_url : string).

Definition serve (r : auth_request) : P reply :=
  match r with
  | StartChallengeR => start_challenge
  | VerifyR body => verify_challenge check_event parse_event parse_content body
  | RefreshR header => refresh_token parse_me signer_url header
  | TokenInfoR header => token_info parse_me signer_url header
  | StartNip46R body => start_nip46_auth body
  | VerifyNip46R body => verify_nip46_auth check_event parse_event body
  | LogoutR => logout_endpoint None
  | WhoamiR header cookie => auth_middleware parse_me signer_url id header cookie (fun s => get_session_endpoint (Some s))
  end.

(** The event that a login request presents. *)
Definition login_event (r : auth_request) : option nostr_event :=
  match r with
  | VerifyR body => presented parse_event body
  | VerifyNip46R (Ok (_, raw)) => presented parse_event (Ok raw)
  | _ => None
  end.

(** The token a request authenticates with. *)
Definition used_token (r : auth_request) : option string :=
  match r with
  | TokenInfoR header | RefreshR header => bearer_token header
  | WhoamiR header cookie => if String.eqb header "" then cookie else bearer_token header
  | _ => None
  end.

(** The user a reply treats the request as coming from. *)
Definition authenticated (rp : reply) : option string :=
  match rp with
  | Reply _ (TokenInfo (Some (u, _))) | Reply _ (SessionInfo u _ _) => Some u
  | _ => None
  end.

Context {R : Type} `{Redis R} `{!RedisLaws R} `{!SessionJSONLaws}.
(** A signature checks only under a hexadecimal key; encoding/json decodes to
    valid UTF-8. *)
Context (checked_hex : forall ev, check_event ev = true -> hex_decodes (ev_pubkey ev) = true)
  (me_text : forall body pk, parse_me body = Ok pk -> valid_utf8 pk = pk).

(** A name that JSON keeps and that has no colon, and one that is not empty:
    such are UUIDs. *)
Definition plain (id : string) : Prop := no_char ":" id = true /\ valid_utf8 id = id.
Definition uuid_like (id : string) : Prop := plain id /\ id <> "".

Lemma plain_empty : plain "".
Proof. done. Qed.

Lemma hex_text k : hex_decodes k = true -> valid_utf8 k = k.
Proof.
  unfold hex_decodes. intros [_ Hk]%andb_true_iff. apply runes_ascii. induction k as [|c k IH]; [done|]. simpl in *.
  apply andb_true_iff in Hk as [Hc Hk]. rewrite IH by done. rewrite andb_true_r.
  revert Hc. destruct c as [[] [] [] [] [] [] [] []]; (done || vm_compute; congruence).
Qed.

Section history.
Context (reqs : list auth_request) (h : history (M := memory) (Q := outside)).

(** A session id that a login of [user] drew. *)
Definition created (id user : string) : Prop :=
  exists now i r ev, (now, i, Event Uuid id) ∈ h /\ reqs !! i = Some r /\ login_event r = Some ev /\
    check_event ev = true /\ ev_pubkey ev = user.

(** A token that was indexed for a session id. *)
Definition bound (token id : string) : Prop :=
  exists now i ttl e, (now, i, Event (Store (token_key token) id ttl) e) ∈ h.

(** A token of which the signer service said that it is [user]'s. *)
Definition vouched (token user : string) : Prop :=
  exists now i url body, (now, i, Event (Outside (SignerMe url token)) (Ok (200, body))) ∈ h /\ parse_me body = Ok user.

(** The users a stored session can be of: a session of a login has the id it
    drew, one the signer service vouched for has none. *)
Definition owned (id user : string) : Prop :=
  (id <> "" /\ created id user) \/ (id = "" /\ exists token, vouched token user).

Definition stored_ok (id d : string) : Prop :=
  forall s, dec_session d = Ok s -> se_id s = id /\ owned id (se_user_id s).

Definition cache_ok (m : memory) : Prop :=
  forall token e, session_cache m !! token = Some e -> vouched token (sn_pubkey e).

Definition inv (now : Z) (w : world memory R) : Prop :=
  (forall id d, plain id -> rd_get now (session_key id) (w_redis w) = Some d -> stored_ok id d) /\
  (forall token id, rd_get now (token_key token) (w_redis w) = Some id -> plain id /\ bound token id) /\
  cache_ok (w_memory w).

Definition relies (i : nat) (e : event (M := memory) (Q := outside)) : Prop :=
  match e with
  | Event c x =>
      match c in cmd _ _ Y return Y -> Prop with
      | Get k => fun x => forall d, x = Ok (Some d) ->
          (forall id, plain id -> k = session_key id -> stored_ok id d) /\
          (forall token, k = token_key token -> plain d /\ bound token d)
      | Uuid => fun id => uuid_like id /\ exists now, (now, i, Event Uuid id) ∈ h
      | Outside q => fun x => exists now, (now, i, Event (Outside q) x) ∈ h
      | Shared f => fun x => exists m, cache_ok m /\ x = (f m).2
      | _ => fun _ => True
      end x
  end.

Definition guarantees (X : Type) (c : cmd memory outside X) : Prop :=
  match c with
  | Store k v _ =>
      (forall id, plain id -> k = session_key id -> stored_ok id v) /\ (forall token, k = token_key token -> plain v)
  | Shared f => forall m, cache_ok m -> cache_ok (f m).1
  | _ => True
  end.

Lemma session_key_inj a b : session_key a = session_key b -> a = b.
Proof. unfold session_key. apply app_inv_head_str. Qed.
Lemma token_key_inj a b : token_key a = token_key b -> a = b.
Proof. unfold token_key. apply app_inv_head_str. Qed.

Lemma session_not_token id token : plain id -> session_key id <> token_key token.
Proof.
  unfold session_key, token_key. change (session_token_prefix +:+ token) with (session_prefix +:+ ("token:" +:+ token)).
  intros [Hp _] E%app_inv_head_str. by subst id.
Qed.

Lemma inv_mono now now' w : now <= now' -> inv now w -> inv now' w.
Proof.
  intros Hn (Hs & Ht & Hc). split; [|split; [|exact Hc]].
  - intros id d Hp Hd. apply (Hs id d Hp). by eapply rd_get_mono.
  - intros token id Hd. apply (Ht token id). by eapply rd_get_mono.
Qed.

Lemma owned_text id user : owned id user -> valid_utf8 user = user.
Proof.
  intros [[_ (now & i & r & ev & _ & _ & _ & Hc & <-)]|[_ (token & now & i & url & body & _ & Hb)]].
  - by apply hex_text, checked_hex.
  - by eapply me_text.
Qed.

Lemma may_store_session s ttl : plain (se_id s) -> owned (se_id s) (se_user_id s) ->
  guarantees _ (Store (session_key (se_id s)) (enc_session s) ttl).
Proof.
  intros Hp Ho. split.
  - intros id _ E%session_key_inj s' Hd%session_read_back. destruct Hd as [Hid Hu].
    rewrite (proj2 Hp) in Hid. rewrite (owned_text _ _ Ho) in Hu. rewrite Hid, Hu. by subst id.
  - intros token E. by apply session_not_token in E.
Qed.

Lemma may_store_token token id ttl : plain id -> guarantees _ (Store (token_key token) id ttl).
Proof. intros Hp. split; [|done]. intros id' Hp' E. symmetry in E. by apply session_not_token in E. Qed.

Lemma may_store_challenge id v ttl : guarantees _ (Store (challenge_key id) v ttl).
Proof. by split. Qed.

Section request.
Context (i : nat).
Abbreviation keeps := (keeps (relies i) guarantees).
Abbreviation any := (fun _ => True).

Lemma keeps_then {A B} (p : P A) (f : A -> P B) (q : A -> Prop) (q' : B -> Prop) :
  keeps q p -> (forall v, q v -> keeps q' (f v)) -> keeps q' (bind p f).
Proof. apply keeps_bind. Qed.

Lemma keeps_get_session id : plain id ->
  keeps (fun r => forall s, r = Ok (Some s) -> se_id s = id /\ owned id (se_user_id s)) (get_session id).
Proof.
  intros Hp. split; [done|]. intros x Hx. simpl in *. intros s Hs. unfold decoded in Hs.
  destruct x as [[d|]|]; [|done..]. destruct (dec_session d) as [s0|] eqn:Ed; [|done]. injection Hs as ->.
  destruct (Hx d eq_refl) as [Hd _]. by apply (Hd id Hp eq_refl).
Qed.

Lemma keeps_delete_session id : plain id -> keeps any (delete_session id).
Proof.
  intros Hp. eapply keeps_then; [by apply keeps_get_session|]. intros [[s|]|] _; simpl; [|split; [done|]; by intros [e|] _|done].
  split; [done|]. intros [e|] _; simpl; [done|]. destruct (String.eqb _ _); simpl; [done|]. split; [done|]. by intros.
Qed.

Lemma keeps_save_session s : plain (se_id s) -> owned (se_id s) (se_user_id s) -> keeps any (save_session s).
Proof.
  intros Hp Hc. split; [done|]. intros now _. simpl. split; [by apply may_store_session|]. intros [e|] _; simpl; [done|].
  split; [by apply may_store_token|]. intros [e|] _; simpl; [|done]. split; [done|]. by intros.
Qed.

(** A token that validates opens a session that was stored under its id, or is
    one that the signer service vouched for. *)
Definition opens (token : string) (s : auth_session) : Prop :=
  plain (se_id s) /\ owned (se_id s) (se_user_id s) /\
  (bound token (se_id s) \/ (se_id s = "" /\ vouched token (se_user_id s))).

Lemma vouched_opens token user email tok expires at_ :
  vouched token user -> opens token (AuthSession "" user email tok expires at_).
Proof. intros Hv. split; [exact plain_empty|]. split; [right; split; [done|by exists token]|by right]. Qed.

Lemma keeps_ask_signer token :
  keeps (fun r => forall s, r = Some s -> opens token s) (ask_signer parse_me signer_url token).
Proof.
  unfold ask_signer. split; [done|]. intros [[status body]|e] (now & Hin); [|done]. cbn [bind].
  destruct (Z.eqb_spec status 200) as [->|_]; [|done]. cbn [negb].
  destruct (parse_me body) as [[|c pk]|] eqn:Eb; [done| |done].
  assert (vouched token (String c pk)) as Hv by (exists now, i, (signer_url +:+ "/api/v1/users/me"), body; done).
  split; [done|]. intros t1 _. cbn [bind]. split.
  - intros m Hm token' e'. unfold cache_signer_session. simpl. rewrite lookup_insert.
    case_decide as Heq; [|by apply Hm]. intros [= <-]. by subst.
  - intros _ _ s [= <-]. by apply vouched_opens.
Qed.

Lemma keeps_validate_signer token :
  keeps (fun r => forall s, r = Some s -> opens token s) (validate_signer_session parse_me signer_url token).
Proof.
  unfold validate_signer_session. destruct (_ || _); [done|]. split; [by intros m Hm|].
  intros x (m & Hm & ->). cbn [bind cached_signer_session snd].
  destruct (session_cache m !! token) as [e|] eqn:He; [|apply keeps_ask_signer]. apply Hm in He.
  split; [done|]. intros now _. cbn [bind]. destruct (now <? sn_expires e); [|apply keeps_ask_signer].
  split; [done|]. intros now' _ s [= <-]. by apply vouched_opens.
Qed.

Lemma keeps_validate token :
  keeps (fun r => forall s, r = Ok s -> opens token s) (validate_session parse_me signer_url token).
Proof.
  unfold validate_session.
  eapply keeps_then with (q := fun r => forall s, r = Ok (Some s) -> opens token s).
  - split; [done|]. intros x Hx. destruct x as [[id|]|]; simpl; [|done..].
    destruct (Hx id eq_refl) as [_ Ht]. destruct (Ht token eq_refl) as [Hp Hb].
    split; [done|]. intros y Hy s Hs. unfold decoded in Hs. destruct y as [[d|]|]; [|done..].
    destruct (dec_session d) as [s0|] eqn:Ed; [|done]. injection Hs as ->.
    destruct (Hy d eq_refl) as [Hd _]. destruct (Hd id Hp eq_refl s Ed) as [Eid Ho].
    unfold opens. rewrite Eid. split; [done|]. split; [done|by left].
  - intros [[s|]|] Hs; [| |done].
    + split; [done|]. intros now _. cbn [bind]. destruct (_ <? _).
      * eapply keeps_then; [apply keeps_delete_session; by destruct (Hs s eq_refl)|]. by intros.
      * intros s' [= <-]. by apply Hs.
    + eapply keeps_then; [apply keeps_validate_signer|]. intros [s|] Ho; [|done]. intros s' [= <-]. by apply Ho.
Qed.

(** What a finished request may claim. *)
Definition claims (r : auth_request) (rp : reply) : Prop :=
  forall user, authenticated rp = Some user ->
  exists token s, used_token r = Some token /\ opens token s /\ se_user_id s = user.

Lemma keeps_new_session r ev :
  reqs !! i = Some r -> login_event r = Some ev -> check_event ev = true ->
  keeps (fun s => plain (se_id s) /\ owned (se_id s) (se_user_id s)) (fresh_session (ev_pubkey ev)).
Proof.
  intros Hr Hl Hc. split; [done|]. intros id [[Hp Hne] [now Hin]]. simpl. do 3 (split; [done|]; intros ? _). split; [done|].
  left. split; [done|]. exists now, i, r, ev. done.
Qed.

Lemma keeps_refresh header : keeps (claims (RefreshR header)) (refresh_token parse_me signer_url header).
Proof.
  unfold refresh_token. destruct (String.eqb header ""); [done|].
  destruct (bearer_token header) as [old|]; [|done].
  eapply keeps_then; [by apply keeps_validate|]. intros [s|e] Hs; [|done]. destruct (Hs s eq_refl) as (Hp & Ho & _).
  split; [done|]. intros [bytes|] _; [|done]. cbn [res_bind bind].
  eapply keeps_then; [by apply keeps_delete_session|]. intros [e|] _; [done|]. split; [done|]. intros now _. cbn [bind].
  eapply keeps_then; [by apply keeps_save_session|]. by intros [e|] _.
Qed.

Lemma keeps_token_info header : keeps (claims (TokenInfoR header)) (token_info parse_me signer_url header).
Proof.
  unfold token_info. destruct (bearer_token header) as [token|] eqn:Eb; [|done].
  eapply keeps_then; [by apply keeps_validate|]. intros [s|e] Hs user; simpl; [|done]. intros [= <-].
  exists token, s. simpl. rewrite Eb. split; [done|]. split; [by apply Hs|done].
Qed.

Lemma keeps_whoami header cookie : keeps (claims (WhoamiR header cookie)) (serve (WhoamiR header cookie)).
Proof.
  simpl. unfold auth_middleware.
  assert (forall token, used_token (WhoamiR header cookie) = Some token ->
    keeps (claims (WhoamiR header cookie)) (do s <- validate_session parse_me signer_url token;
      match s with
      | Err _ => Ret (unauthorized "AUTH_INVALID" "invalid or expired session")
      | Ok s => get_session_endpoint (Some s)
      end)) as Htoken.
  { intros token Et. eapply keeps_then; [by apply keeps_validate|]. intros [s|e] Hs; [|done].
    intros user [= <-]. exists token, s. split; [done|]. split; [by apply Hs|done]. }
  simpl in Htoken. destruct (String.eqb header "").
  - destruct cookie as [[|c cookie]|]; [done|by apply Htoken|done].
  - destruct (bearer_token header) as [token|]; [by apply Htoken|done].
Qed.

Lemma keeps_verify r body : reqs !! i = Some r -> r = VerifyR body -> keeps (claims r) (serve r).
Proof.
  intros Hr ->. simpl. unfold verify_challenge. destruct body as [[|a raw]|]; [done| |done].
  destruct (parse_event (String a raw)) as [ev|] eqn:Ep; [|done]. destruct (check_event ev) eqn:Eck; [|done].
  destruct (_ =? 27235); [|done]. cbn [negb]. destruct (parse_content _) as [[challenge nonce]|]; [|done].
  destruct (_ || _); [done|]. split; [done|]. intros x _. cbn [bind]. destruct (decoded _ _ x) as [[data|]|]; [|done..].
  destruct (negb _); [done|]. destruct (negb _); [done|]. split; [done|]. intros now _. cbn [bind].
  destruct (_ || _); [done|]. split; [done|]. intros [bytes|] _; [|done]. cbn [res_bind bind]. split; [done|]. intros minted _.
  split; [done|]. intros sid [[Hp Hne] [tm Hin]]. cbn [bind].
  eapply keeps_then; [|by intros [e|] _]. apply keeps_save_session; [done|]. left. split; [done|].
  exists tm, i, (VerifyR (Ok (String a raw))), ev. simpl. rewrite Ep. done.
Qed.

Lemma keeps_verify_nip46 r body : reqs !! i = Some r -> r = VerifyNip46R body -> keeps (claims r) (serve r).
Proof.
  intros Hr ->. simpl. unfold verify_nip46_auth. destruct body as [[cid raw]|]; [|done]. destruct (_ || _); [done|].
  apply keeps_then with (q := any); [|by intros [s|e] _].
  unfold verify_auth_signature. split; [done|]. intros x _. cbn [bind]. destruct (decoded _ _ x) as [[data|]|]; [|done..].
  destruct (parse_event raw) as [ev|] eqn:Ep; [|done]. destruct (check_event ev) eqn:Eck; [|done]. cbn [negb].
  destruct (negb _); [done|]. split; [done|]. intros now _. cbn [bind]. destruct (_ <? _); [done|].
  eapply keeps_then; [apply (keeps_new_session _ ev Hr); simpl; by rewrite ?Ep|]. intros s [Hp Hc].
  eapply keeps_then; [by apply keeps_save_session|]. intros [e|] _; [done|]. split; [done|]. by intros.
Qed.

Lemma keeps_serve r : reqs !! i = Some r -> keeps (claims r) (serve r).
Proof.
  intros Hr. destruct r as [|body|header|header|body|body| |header cookie].
  - split; [done|]. intros [c|] _; [|done]. split; [done|]. intros [n|] _; [|done]. split; [done|]. intros now _.
    split; [apply (may_store_challenge _ _ 0)|]. by intros [e|] _.
  - by eapply keeps_verify.
  - by apply keeps_refresh.
  - by apply keeps_token_info.
  - simpl. unfold start_nip46_auth. destruct body as [[|a url]|]; [done| |done].
    apply keeps_then with (q := any); [|by intros [c|e] _]. unfold create_auth_challenge.
    destruct (parse_bunker_url _) as [b|]; [|done]. simpl.
    do 4 (split; [done|]; intros ? _). split; [apply (may_store_challenge _ _ 0)|]. by intros [e|] _.
  - by eapply keeps_verify_nip46.
  - done.
  - by apply keeps_whoami.
Qed.

End request.

(** What an invariant state answers, and the calls that keep it. *)
Lemma calls_keep_inv now i {X} (c : cmd memory outside X) x w w' :
  (forall now i id, (now, i, Event Uuid id) ∈ h -> uuid_like id) ->
  (now, i, Event c x) ∈ h -> inv now w -> guarantees X c -> answers now w c x w' -> relies i (Event c x) /\ inv now w'.
Proof.
  intros Huuid Hin (Hs & Ht & Hc) Hg Ha. destruct c as [k|k v ttl|k|k| | | |X f|X q]; simpl in Ha |- *.
  - destruct Ha as [-> (o & ->)]. split; [|done]. intros d Hd. unfold read in Hd. destruct o; [|done..]. injection Hd as Hd.
    split; [intros id Hp ->; by apply Hs|intros token ->; by apply Ht].
  - split; [done|]. destruct Ha as (o & Hw & Hm). destruct Hg as [Hgs Hgt].
    assert (forall k' d, rd_get now k' (w_redis w') = Some d -> k' = k /\ d = v \/ rd_get now k' (w_redis w) = Some d) as Hget.
    { intros k' d Hd. destruct (decide (k' = k)) as [->|Hne].
      - destruct o; simpl in Hw; injection Hw as Hr _; rewrite Hr in Hd; [|by right|]; left.
        all: split; [done|]; by eapply rd_get_just_set.
      - right. destruct o; simpl in Hw; injection Hw as Hr _; rewrite Hr in Hd; rewrite ?rd_get_set_ne in Hd by done; done. }
    split; [|split; [|by rewrite Hm]].
    + intros id d Hp Hd. apply Hget in Hd as [[Ek ->]|Hd]; [by apply Hgs|by apply Hs].
    + intros token id Hd. apply Hget in Hd as [[Ek ->]|Hd]; [|by apply Ht].
      split; [by apply (Hgt token)|]. subst k. by exists now, i, ttl, x.
  - split; [done|]. destruct Ha as (o & Hw & Hm).
    assert (forall k' d, rd_get now k' (w_redis w') = Some d -> rd_get now k' (w_redis w) = Some d) as Hget.
    { intros k' d Hd. destruct o; simpl in Hw; injection Hw as Hr _; rewrite Hr in Hd; try done.
      all: destruct (decide (k = k')) as [->|Hne]; [by rewrite rd_get_del in Hd|by rewrite rd_get_del_ne in Hd]. }
    split; [intros id d Hp Hd; by apply Hs, Hget|split; [intros id d Hd; by apply Ht, Hget|by rewrite Hm]].
  - split; [done|]. destruct Ha as (o & _ & Hw & Hm).
    assert (forall k' d, rd_get now k' (w_redis w') = Some d -> rd_get now k' (w_redis w) = Some d) as Hget.
    { intros k' d Hd. rewrite Hw in Hd. destruct o; simpl in Hd; try done.
      all: destruct (decide (k = k')) as [->|Hne]; [by rewrite rd_get_del in Hd|by rewrite rd_get_del_ne in Hd]. }
    split; [intros id d Hp Hd; by apply Hs, Hget|split; [intros id d Hd; by apply Ht, Hget|by rewrite Hm]].
  - by destruct Ha as [-> _].
  - by subst.
  - subst. split; [|done]. split; [by eapply Huuid|]. by exists now.
  - destruct Ha as [Hf Hr]. split; [exists (w_memory w); split; [done|by rewrite <- Hf]|].
    unfold inv. rewrite Hr. split; [done|]. split; [done|]. specialize (Hg _ Hc). by rewrite <- Hf in Hg.
  - subst. split; [by exists now|done].
Qed.

Lemma session_claims w w' t out :
  concurrent (map serve reqs) t w h w' out ->
  Forall (fun e => (e.1.2 < length reqs)%nat) h ->
  (forall now i id, (now, i, Event Uuid id) ∈ h -> uuid_like id) ->
  inv t w ->
  forall i r rp, reqs !! i = Some r -> out i = Some rp -> claims r rp.
Proof.
  intros Hrun Hlen Huuid Hinv i r rp Hr Hout.
  assert (forall j rp', is_Some (map serve reqs !! j) -> out j = Some rp' ->
    forall r', reqs !! j = Some r' -> claims r' rp') as Hall; [|by apply (Hall i); [rewrite list_lookup_fmap, Hr|..]].
  refine (proj2 (interleaved inv relies (fun _ => guarantees) (fun j rp' => forall r', reqs !! j = Some r' -> claims r' rp') h
    _ _ _ _ _ _ _ Hrun _ _ _)).
  - apply inv_mono.
  - intros now j X c x s s1 Hin Hi Hg Ha. by eapply calls_keep_inv.
  - intros j p Hp. rewrite list_lookup_fmap in Hp. destruct (reqs !! j) as [r'|] eqn:Er; [|done]. injection Hp as <-.
    eapply keeps_mono; [by apply keeps_serve|]. intros v Hv r'' [= <-]. exact Hv.
  - by rewrite length_map.
  - exact Hinv.
Qed.

End history.

(** The ids that requests drew. *)
Definition uuids (h : history (M := memory) (Q := outside)) : list (nat * string) :=
  omap (fun e => match e with (_, i, Event Uuid id) => Some (i, id) | _ => None end) h.

Lemma uuid_elem h now i id : (now, i, Event Uuid id) ∈ h -> (i, id) ∈ uuids h.
Proof. intros Hin. apply list_elem_of_omap. by exists (now, i, Event Uuid id). Qed.

Lemma nodup_snd {A B} (l : list (A * B)) a a' b : NoDup (map snd l) -> (a, b) ∈ l -> (a', b) ∈ l -> a = a'.
Proof.
  induction l as [|[x y] l IH]; intros Hnd Ha Ha'; [by apply not_elem_of_nil in Ha|]. simpl in Hnd.
  apply NoDup_cons in Hnd as [Hy Hnd]. rewrite list_elem_of_In, in_map_iff in Hy.
  apply elem_of_cons in Ha as [Ha|Ha], Ha' as [Ha'|Ha']; simplify_eq; [done| | |by apply IH].
  - exfalso. apply Hy. exists (a', y). by rewrite <- list_elem_of_In.
  - exfalso. apply Hy. exists (a, y). by rewrite <- list_elem_of_In.
Qed.

(** C15. Whose session a token opens.  Serve any requests together, in any
    interleaving and with any failures, from a Redis without sessions and an
    empty cache of signer sessions.  A request that is answered as coming from a
    user carries a token of which one of these holds: it was indexed for the
    session id that the login of an event drew which that very user signed, and
    no other user's login drew that id; or the signer service said, of this very
    token, that it is that user's; or it was indexed for the empty id, under
    which sessions of the signer service are stored when they are refreshed, and
    the signer service named the user for some token.  (In the last case the
    user need not be the one who refreshed,
    [refreshed_signer_sessions_mix_users].) *)
Theorem tokens_open_their_own_sessions reqs h t w w' out i r rp user
    (Hrun : concurrent (map serve reqs) t w h w' out)
    (Hlen : Forall (fun e => (e.1.2 < length reqs)%nat) h)
    (Huuids : Forall (fun u => uuid_like u.2) (uuids h)) (Hfresh : NoDup (map snd (uuids h)))
    (Hempty : forall k, has_prefix k session_prefix = true -> rd_get t k (w_redis w) = None)
    (Hcache : session_cache (w_memory w) = ∅)
    (Hr : reqs !! i = Some r) (Hout : out i = Some rp) (Hauth : authenticated rp = Some user) :
  exists token, used_token r = Some token /\
    ((exists id, id <> "" /\ bound h token id /\ created reqs h id user /\
        forall other, created reqs h id other -> other = user) \/
     vouched h token user \/
     (bound h token "" /\ exists token', vouched h token' user)).
Proof.
  assert (forall now j id, (now, j, Event Uuid id) ∈ h -> uuid_like id) as Huuids'.
  { intros now j id Hin%uuid_elem. rewrite Forall_forall in Huuids. by apply (Huuids (j, id)). }
  assert (forall s, has_prefix (session_prefix +:+ s) session_prefix = true) as Hpre by (intros s; apply has_prefix_spec; eauto).
  assert (inv reqs h t w) as Hinv.
  { split; [intros id d _ Hd|split; [intros token id Hd|intros token e; by rewrite Hcache, lookup_empty]]; exfalso.
    - by rewrite Hempty in Hd by apply Hpre.
    - unfold token_key in Hd. change (session_token_prefix +:+ token) with (session_prefix +:+ ("token:" +:+ token)) in Hd.
      by rewrite Hempty in Hd by apply Hpre. }
  destruct (session_claims reqs h w w' t out Hrun Hlen Huuids' Hinv i r rp Hr Hout user Hauth)
    as (token & s & Hu & (_ & Ho & Hb) & <-).
  exists token. split; [done|].
  destruct Hb as [Hb|[_ Hv]]; [|by right; left]. destruct Ho as [[Hne Hc]|[Hid Hv]]; [|right; right; by rewrite <- Hid at 1].
  left. exists (se_id s). do 3 (split; [done|]). intros other (now & j & r1 & ev & Hin & Hj & He & _ & <-).
  destruct Hc as (now' & j' & r2 & ev' & Hin' & Hj' & He' & _ & <-). apply uuid_elem in Hin, Hin'.
  rewrite (nodup_snd _ _ _ _ Hfresh Hin Hin') in Hj. congruence.
Qed.

End server.

(** ** Concrete runs *)

(** A signer service that knows alice's token and bob's. *)
Definition signer_answer (token : string) : res (Z * string) :=
  if String.eqb token "A" then Ok (200, "alice") else if String.eqb token "B" then Ok (200, "bob") else Ok (401, "").

Definition sample_outside (X : Type) (q : outside X) : X :=
  match q in outside Y return Y with
  | SignerMe _ token => signer_answer token
  | RelayConnect _ | Subscribe _ _ _ | Publish _ => None
  | Await _ => ([], TimedOut)
  | GenerateKey => ""
  end.

(** A clock that advances a millisecond with every command. *)
Definition sample_oracle (i : nat) : oracle outside :=
  Oracle (of_unix 1700000000 + Z.of_nat i * millisecond) Done (fun n => Ok (String (ascii_of_nat i) (zeros (pred n))))
    ("id" +:+ pretty (N.of_nat i)) sample_outside.

Lemma sample_clock i : or_now (sample_oracle i) <= or_now (sample_oracle (S i)).
Proof. simpl. unfold millisecond. lia. Qed.

Definition sample_memory : memory := Memory ∅ ∅.
Definition sample_login : nostr_event :=
  NostrEvent "e1" "a11ce0" 1700000000 27235 [["challenge"; "c"]] "c" "signature".
Definition sample_checks (ev : nostr_event) : bool := hex_decodes (ev_pubkey ev).
Definition sample_serve (signer : string) : auth_request -> P reply :=
  serve sample_checks (fun raw => if String.eqb raw "" then Err bad_json else Ok sample_login) (fun body => Ok body)
    (fun content => Ok (content, "n")) signer.
Definition sample_start : world memory kv :=
  World (rd_set 0 (challenge_key "n") (enc_challenge (ChallengeData "c" "" "" "" 0)) 0 ∅) sample_memory.

Definition played (signer : string) (turns : list nat) (reqs : list auth_request) :=
  interleave sample_oracle 0 turns (map (sample_serve signer) reqs) sample_start.
Definition replies (signer : string) (turns : list nat) (reqs : list auth_request) : list (option reply) :=
  map result (played signer turns reqs).2.2.

Lemma played_concurrent signer turns reqs :
  concurrent (map (sample_serve signer) reqs) 0 sample_start (played signer turns reqs).1 (played signer turns reqs).2.1
    (results (played signer turns reqs).2.2).
Proof.
  pose proof (interleave_concurrent sample_oracle sample_clock turns 0%nat (map (sample_serve signer) reqs) 0 sample_start) as Hi.
  unfold played. destruct (interleave _ _ _ _ _) as [h [w pool]]. apply Hi. simpl. done.
Qed.

(** What a reply hands out. *)
Definition token_of (o : option reply) : string :=
  match o with Some (Reply _ (Granted t _ _)) | Some (Reply _ (Refreshed t _)) => t | _ => "" end.

(** Two users of the signer service refresh, and the first uses the new token. *)
Definition race_turns : list nat :=
  repeat 0%nat 8 ++ repeat 1%nat 8 ++ repeat 0%nat 6 ++ repeat 1%nat 6 ++ repeat 2%nat 6.
Definition race_token : string := "0500000000000000000000000000000000000000000000000000000000000000".
Definition race_reqs (new_token : string) : list auth_request :=
  [RefreshR "Bearer A"; RefreshR "Bearer B"; TokenInfoR ("Bearer " +:+ new_token)].

(** An event in which nothing fails: the signer service gives its answer, and
    Redis does what it is asked. *)
Definition sound_event (e : event (M := memory) (Q := outside)) : bool :=
  match e with
  | Event c x =>
      match c in cmd _ _ Y return Y -> bool with
      | Get _ | GetDel _ => fun x => match x with Ok _ => true | Err _ => false end
      | Store _ _ _ | Del _ => fun x => match x with None => true | Some _ => false end
      | Outside q => fun x =>
          match q in outside Y return Y -> bool with
          | SignerMe _ token => fun x =>
              match x, signer_answer token with
              | Ok (status, user), Ok (status', user') => (status =? status') && String.eqb user user'
              | _, _ => false
              end
          | _ => fun _ => true
          end x
      | _ => fun _ => true
      end x
  end.

(** Request [i] asks the signer service about [token]. *)
Definition asks (i : nat) (token : string) (e : Z * nat * event (M := memory) (Q := outside)) : bool :=
  (e.1.2 =? i)%nat &&
  match e.2 with
  | Event c _ =>
      match c with
      | Outside q => match q with SignerMe _ t => String.eqb t token | _ => false end
      | _ => false
      end
  end.

(** C16. The signer fallback mixes up users.  Alice and bob each refresh with the
    token that the signer service knows as theirs: it is asked about both and
    answers alice for the one and bob for the other, no call fails, both
    refreshes succeed, and they hand out different new tokens, none of which
    the service knows.  Alice's new token then authenticates as bob: both
    sessions were stored under the empty id. *)
Theorem refreshed_signer_sessions_mix_users : exists h w out alices bobs,
  concurrent (map (sample_serve "s") (race_reqs alices)) 0 (World (∅ : kv) sample_memory) h w out /\
  forallb (fun e => sound_event e.2) h = true /\ NoDup (map snd (uuids h)) /\
  existsb (asks 0 "A") h = true /\ existsb (asks 1 "B") h = true /\
  signer_answer "A" = Ok (200, "alice") /\ signer_answer "B" = Ok (200, "bob") /\
  alices <> bobs /\ signer_answer alices = Ok (401, "") /\ signer_answer bobs = Ok (401, "") /\
  out 0%nat = Some (Reply 200 (Refreshed alices 1700086400)) /\
  out 1%nat = Some (Reply 200 (Refreshed bobs 1700086400)) /\
  out 2%nat = Some (Reply 200 (TokenInfo (Some ("bob", 1700086400)))).
Proof.
  set (run := interleave sample_oracle 0 race_turns (map (sample_serve "s") (race_reqs race_token))
    (World (∅ : kv) sample_memory)).
  exists run.1, run.2.1, (results run.2.2), race_token, (token_of (results run.2.2 1%nat)).
  split.
  { pose proof (interleave_concurrent sample_oracle sample_clock race_turns 0%nat
      (map (sample_serve "s") (race_reqs race_token)) 0 (World (∅ : kv) sample_memory)) as Hi.
    unfold run. destruct (interleave _ _ _ _ _) as [h [w pool]]. apply Hi. simpl. done. }
  repeat split; vm_compute; done || constructor.
Qed.

(** The older flow reads its challenge before it deletes it: presented twice at
    the same time, one signed event is granted two sessions. *)
Lemma old_flow_logs_in_twice : exists turns,
  forallb granted (replies "" turns [VerifyNip46R (Ok ("n", "x")); VerifyNip46R (Ok ("n", "x"))]) = true /\
  total (hit (challenge_key "n")) (played "" turns [VerifyNip46R (Ok ("n", "x")); VerifyNip46R (Ok ("n", "x"))]).1 = 0%nat.
Proof.
  exists (repeat 0%nat 1 ++ repeat 1%nat 20 ++ repeat 0%nat 20). split; vm_compute; reflexivity.
Qed.

(** Two logins with one event, of which one is granted; then the token is used. *)
Definition sample_turns : list nat := repeat 0%nat 1 ++ repeat 1%nat 3 ++ repeat 0%nat 20 ++ repeat 2%nat 20.
Definition sample_token : string := "0300000000000000000000000000000000000000000000000000000000000000".
Definition sample_reqs : list auth_request := [VerifyR (Ok "x"); VerifyR (Ok "x"); WhoamiR ("Bearer " +:+ sample_token) None].

Lemma one_session_per_challenge_witness :
  granted (results (played "" sample_turns sample_reqs).2.2 0%nat) = true /\
  (1 <= present 0 (challenge_key "n") sample_start +
        total (stores (challenge_key "n")) (played "" sample_turns sample_reqs).1)%nat.
Proof.
  split; [vm_compute; reflexivity|].
  apply (one_session_per_challenge sample_checks (fun raw => if String.eqb raw "" then Err bad_json else Ok sample_login)
    (fun content => Ok (content, "n")) _ _ _ _ _ _ "n" [0%nat] (played_concurrent "" sample_turns sample_reqs)).
  - apply NoDup_singleton.
  - intros i Hi. apply list_elem_of_singleton in Hi as ->. split; [vm_compute; reflexivity|]. exists (Ok "x"). done.
Defined.

Lemma login_needs_signed_challenge_witness :
  exists ev : nostr_event, ev_pubkey ev = "a11ce0" /\ ev_kind ev = 27235.
Proof.
  destruct (login_needs_signed_challenge sample_checks (fun raw => if String.eqb raw "" then Err bad_json else Ok sample_login)
    (fun content => Ok (content, "n")) (Ok "x") (of_request 0 (played "" sample_turns sample_reqs).1) sample_token "a11ce0" 1700086400)
    as (ev & _ & _ & _ & _ & _ & _ & _ & _ & _ & Hpk & Hk & _).
  - pose proof (proj2 (played_concurrent "" sample_turns sample_reqs) 0%nat _ eq_refl) as Hr.
    assert (results (played "" sample_turns sample_reqs).2.2 0%nat = Some (Reply 200 (Granted sample_token "a11ce0" 1700086400))) as E
      by (vm_compute; reflexivity).
    rewrite E in Hr. exact Hr.
  - by exists ev.
Defined.

Lemma sample_hex ev : sample_checks ev = true -> hex_decodes (ev_pubkey ev) = true.
Proof. done. Qed.

(** JSON's decoder as [parse_me]. *)
Definition sample_me (body : string) : res string := Ok (valid_utf8 body).
Lemma sample_me_text body pk : sample_me body = Ok pk -> valid_utf8 pk = pk.
Proof. intros [= <-]. apply valid_utf8_idemp. Qed.

(** With the signer service configured: a login whose token is used, and
    alice's request with the token that only the service knows. *)
Definition both_turns : list nat := sample_turns ++ repeat 3%nat 20.
Definition both_reqs : list auth_request := sample_reqs ++ [TokenInfoR "Bearer A"].
Definition both_run :=
  interleave sample_oracle 0 both_turns
    (map (serve sample_checks (fun raw => if String.eqb raw "" then Err bad_json else Ok sample_login) sample_me
       (fun content => Ok (content, "n")) "s") both_reqs) sample_start.

Lemma tokens_open_their_own_sessions_witness :
  (exists token, Some sample_token = Some token /\
    ((exists id, id <> "" /\ bound both_run.1 token id /\
        created sample_checks (fun raw => if String.eqb raw "" then Err bad_json else Ok sample_login) both_reqs both_run.1 id "a11ce0" /\
        forall other, created sample_checks (fun raw => if String.eqb raw "" then Err bad_json else Ok sample_login)
          both_reqs both_run.1 id other -> other = "a11ce0") \/
     vouched sample_me both_run.1 token "a11ce0" \/
     (bound both_run.1 token "" /\ exists token', vouched sample_me both_run.1 token' "a11ce0"))) /\
  results both_run.2.2 3%nat = Some (Reply 200 (TokenInfo (Some ("alice", 1700000900)))).
Proof.
  split; [|vm_compute; reflexivity].
  apply (tokens_open_their_own_sessions sample_checks (fun raw => if String.eqb raw "" then Err bad_json else Ok sample_login)
    sample_me (fun content => Ok (content, "n")) "s" sample_hex sample_me_text both_reqs both_run.1 0 sample_start
    both_run.2.1 (results both_run.2.2) 2 (WhoamiR ("Bearer " +:+ sample_token) None)
    (Reply 200 (SessionInfo "a11ce0" "" 1700086400)) "a11ce0").
  - pose proof (interleave_concurrent sample_oracle sample_clock both_turns 0%nat
      (map (serve sample_checks (fun raw => if String.eqb raw "" then Err bad_json else Ok sample_login) sample_me
         (fun content => Ok (content, "n")) "s") both_reqs) 0 sample_start) as Hi.
    unfold both_run. destruct (interleave _ _ _ _ _) as [h [w pool]]. apply Hi. simpl. done.
  - vm_compute. repeat constructor.
  - vm_compute. repeat constructor; done.
  - vm_compute. repeat constructor. by intros ?%not_elem_of_nil.
  - intros k Hk. unfold sample_start, w_redis. rewrite rd_get_set_ne; [done|]. intros <-. done.
  - reflexivity.
  - reflexivity.
  - vm_compute. reflexivity.
  - reflexivity.
Defined.

(** A cipher for the witness: the key in front of the text. *)
Definition sample_seal (_ text key : string) : res string := Ok (key +:+ text).
Definition sample_open (c key : string) : res string := Ok (drop_str (String.length key) c).

Lemma sample_opens n text key c : sample_seal n text key = Ok c -> sample_open c key = Ok text.
Proof. intros [= <-]. unfold sample_open. f_equal. induction key as [|a key IH]; [by destruct text|done]. Qed.

Definition sample_encrypt : P (res string) :=
  encrypt_content (fun _ ev => Ok ev) (fun _ => Ok "client") (fun _ _ => Err bad_json) sample_seal sample_open
    (fun id method params => method +:+ join "," params) (fun _ => Err bad_json) "alice" "bob" "the text".
Definition sealed_run :=
  interleave sample_oracle 0 (repeat 0%nat 20) [sample_encrypt]
    (World (∅ : kv) (Memory {["alice" := BunkerConnection "alice" "alice" "wss://r" "" "sk" true 0]} ∅)).

Lemma remote_plaintext_under_zero_key_witness : exists ev c,
  ev ∈ omap published (of_request 0 sealed_run.1) /\
  Event (Shared (connection_of "alice")) (Some c) ∈ of_request 0 sealed_run.1.
Proof.
  destruct (remote_plaintext_under_zero_key (fun _ ev => Ok ev) (fun _ => Ok "client") (fun _ _ => Err bad_json)
    sample_seal sample_open (fun id method params => method +:+ join "," params) (fun _ => Err bad_json) "alice" "bob" "the text"
    (of_request 0 sealed_run.1) (results sealed_run.2.2 0%nat)
    (NostrEvent "" "client" 1700000000 24133 [["p"; "alice"]] (zero_key +:+ "nip44_encryptbob,the text") "")) as (c & Hc & _).
  - by intros ? ? ? [= <-].
  - apply sample_opens.
  - pose proof (interleave_concurrent sample_oracle sample_clock (repeat 0%nat 20) 0 [sample_encrypt] 0
      (World (∅ : kv) (Memory {["alice" := BunkerConnection "alice" "alice" "wss://r" "" "sk" true 0]} ∅))) as Hi.
    unfold sealed_run. destruct (interleave _ _ _ _ _) as [h [w pool]]. by apply (proj2 (Hi ltac:(done)) 0%nat).
  - vm_compute. by left.
  - exists (NostrEvent "" "client" 1700000000 24133 [["p"; "alice"]] (zero_key +:+ "nip44_encryptbob,the text") ""), c.
    split; [vm_compute; by left|done].
Defined.
