(* ===== verification/Domains.v ===== *)
(** * Served domains: domains/registry.go, domains/dnscheck.go, api/internal_domains.go
    and the domain statements of storage/postgres.go

    Domains are rows of a table that every replica of the server shares; each
    replica keeps the DKIM signers and the set of served domains that it built
    from the rows when it last reloaded.  Handlers are programs of [Prog] whose
    statements, lookups and swaps interleave; a statement may fail before or
    after it took effect.  The listing's order is the map's, not a collation's,
    and row ids, which no handler shows, are left out. *)

From S2P Require Import Prelude GoStrings Base64 Identity DkimKeys Http Prog.
#[local] Open Scope Z_scope.
#[local] Open Scope prog_scope.

Record domain_row := DomainRow {
  dr_domain : string; dr_selector : string; dr_private_key : option string; dr_verified : bool; dr_active : bool;
  dr_created_at : Z; dr_updated_at : Z }.

Record create_domain_request := CreateDomainRequest { cq_domain : string; cq_selector : string; cq_private_key : string }.

Record domain_dns_status := DomainDNSStatus {
  ds_domain : string; ds_dkim_present : bool; ds_dkim_name : string; ds_mx_present : bool; ds_spf_present : bool;
  ds_dmarc_present : bool }.

Definition dns_verified (s : domain_dns_status) : bool := ds_dkim_present s.

(** What a handler shows of a domain: everything but its private key. *)
Record domain_response := DomainResponse {
  rs_domain : string; rs_selector : string; rs_verified : bool; rs_active : bool; rs_has_key : bool;
  rs_record_name : string; rs_record_value : string; rs_created_at : Z; rs_updated_at : Z }.

Inductive domain_body :=
| DomainList (ds : list domain_response)
| OneDomain (d : domain_response)
| DomainChecked (d : domain_response) (s : domain_dns_status)
| DomainDeleted (domain : string)
| Reloaded.

Definition has_key (d : domain_row) : bool := match dr_private_key d with Some (String _ _) => true | _ => false end.
Definition key_of (d : domain_row) : string := default "" (dr_private_key d).

Section domains.
Context {K : Type} (pem_decode : string -> option string) (parse_pkcs1 : string -> res K)
  (parse_pkcs8 : string -> res (option K)) (marshal_pkcs1 : K -> string) (marshal_pkix : K -> res string)
  (sha256 : string -> string).

Abbreviation new_signer := (new_dkim_signer pem_decode parse_pkcs1 parse_pkcs8).
Abbreviation record_of := (generate_dkim_dns_record marshal_pkix).

(** A replica's registry, with the set that [SetServedDomains] keeps beside it. *)
Record registry := Registry { rg_signers : gmap string (signer (K := K)); rg_served : list string }.

(** The table, and the replicas. *)
Record cluster := Cluster { domain_rows : gmap string domain_row; registries : nat -> registry }.

Inductive query : Type -> Type :=
| Database : query outcome
| LookupTXT (name : string) : query (res (list string))
| LookupMX (name : string) : query (res (list string))
| PublishSignal : query (option error)
| GenerateRSA (bits : Z) : query (res K).

Abbreviation P := (prog cluster query).

(** ** Statements *)

Abbreviation statement := (statement Database).
Definition wrapped {A} (ctx : string) (p : P (res A)) : P (res A) := do r <- p; Ret (wrap ctx r).

Definition every_row (c : cluster) : cluster * list domain_row := (c, map snd (map_to_list (domain_rows c))).
Definition active_rows (c : cluster) : cluster * list domain_row := (c, List.filter dr_active (every_row c).2).
Definition row_of (domain : string) (c : cluster) : cluster * option domain_row := (c, domain_rows c !! to_lower domain).
Definition delete_row (domain : string) (c : cluster) : cluster * unit :=
  (Cluster (delete (to_lower domain) (domain_rows c)) (registries c), ()).
Definition upsert_row (d : domain_row) (now : Z) (c : cluster) : cluster * domain_row :=
  let k := to_lower (dr_domain d) in
  let created := match domain_rows c !! k with Some old => dr_created_at old | None => now end in
  let row dom := DomainRow dom (dr_selector d) (dr_private_key d) (dr_verified d) (dr_active d) created now in
  (Cluster (<[k := row k]> (domain_rows c)) (registries c), row (dr_domain d)).

Definition list_active_domains : P (res (list domain_row)) := wrapped "failed to list domains" (statement active_rows).
Definition list_all_domains : P (res (list domain_row)) := wrapped "failed to list all domains" (statement every_row).
Definition get_domain (domain : string) : P (res (option domain_row)) := wrapped "failed to get domain" (statement (row_of domain)).
Definition delete_domain (domain : string) : P (res unit) := wrapped "failed to delete domain" (statement (delete_row domain)).
Definition upsert_domain (d : domain_row) : P (res domain_row) :=
  let d := DomainRow (dr_domain d) (if String.eqb (dr_selector d) "" then "mail" else dr_selector d) (dr_private_key d)
             (dr_verified d) (dr_active d) (dr_created_at d) (dr_updated_at d) in
  do now <- call Now;
  wrapped "failed to upsert domain" (statement (upsert_row d now)).

(** ** The registry *)

Definition row_config (d : domain_row) : dkim_config := DKIMConfig (dr_domain d) (dr_selector d) (key_of d) [].
Definition row_signer (d : domain_row) : res (signer (K := K)) := new_signer (Some (row_config d)).

Definition add_signer (next : gmap string signer) (d : domain_row) : gmap string signer :=
  if negb (has_key d) then next
  else if negb (dr_verified d) then next
  else match row_signer d with Ok s => <[dr_domain d := s]> next | Err _ => next end.

Definition registry_signer (i : nat) (domain : string) (c : cluster) : option signer := rg_signers (registries c i) !! domain.

Definition update_registry (i : nat) (f : registry -> registry) (c : cluster) : cluster * unit :=
  (Cluster (domain_rows c) (fun j => if (j =? i)%nat then f (registries c i) else registries c j), ()).
Definition swap_signers (i : nat) (next : gmap string signer) : cluster -> cluster * unit :=
  update_registry i (fun r => Registry next (rg_served r)).
Definition swap_served (i : nat) (names : list string) : cluster -> cluster * unit :=
  update_registry i (fun r => Registry (rg_signers r) (set_served_domains names)).

Definition reload (i : nat) : P (res unit) :=
  try rows <- list_active_domains;
  do _ <- call (Shared (swap_signers i (fold_left add_signer rows ∅)));
  do _ <- call (Shared (swap_served i (map dr_domain rows)));
  Ret (Ok ()).

(** [fan_out]: whether a Redis client is configured. *)
Context (fan_out : bool).

Definition publish_reload (i : nat) : P (res unit) :=
  try _ <- reload i;
  do _ <- (if fan_out then do _ <- call (Outside PublishSignal); Ret () else Ret ());
  Ret (Ok ()).

(** One message of [StartSubscriber]'s loop. *)
Definition on_signal (i : nat) : P (http_reply domain_body) := do _ <- reload i; Ret (Reply 200 Reloaded).

(** ** DNS *)

Definition has_record (tag : string) (txts : res (list string)) : bool :=
  match txts with
  | Ok txts => existsb (fun txt => has_prefix (to_lower (trim_space txt)) tag) txts
  | Err _ => false
  end.

Definition check_domain (domain dkim_name dkim_value : string) : P domain_dns_status :=
  let want := dkim_public_key dkim_value in
  do dkim <- call (Outside (LookupTXT dkim_name));
  do mx <- call (Outside (LookupMX domain));
  do spf <- call (Outside (LookupTXT domain));
  do dmarc <- call (Outside (LookupTXT ("_dmarc." +:+ domain)));
  Ret (DomainDNSStatus domain
    (match dkim with
     | Ok txts => existsb (fun txt => negb (String.eqb want "") && String.eqb (dkim_public_key txt) want) txts
     | Err _ => false
     end)
    dkim_name
    (match mx with Ok (_ :: _) => true | _ => false end) (has_record "v=spf1" spf) (has_record "v=dmarc1" dmarc)).

(** ** The internal API *)

Definition secrets_equal (a b : string) : bool := String.eqb (sha256 a) (sha256 b).

Definition internal_auth {M Q A} (refuse : http_reply domain_body -> A) (secret header : string) (next : prog M Q A) : prog M Q A :=
  if String.eqb secret "" then Ret (refuse (Failure 500 "INTERNAL_API_DISABLED" "internal API not configured"))
  else
    match bearer_token header with
    | Some token =>
        if secrets_equal token secret then next
        else Ret (refuse (unauthorized "INTERNAL_AUTH_FAILED" "invalid internal API credentials"))
    | None => Ret (refuse (unauthorized "INTERNAL_AUTH_FAILED" "invalid internal API credentials"))
    end.

Definition to_response (d : domain_row) : domain_response :=
  let '(name, value) :=
    if has_key d then match row_signer d with Ok s => (dns_record_name s, record_of s) | Err _ => ("", "") end else ("", "") in
  DomainResponse (dr_domain d) (dr_selector d) (dr_verified d) (dr_active d) (has_key d) name value
    (dr_created_at d) (dr_updated_at d).

Definition list_domains : P (http_reply domain_body) :=
  do ds <- list_all_domains;
  Ret (match ds with
       | Err _ => internal_error "failed to list domains"
       | Ok ds => Reply 200 (DomainList (map to_response ds))
       end).

(** The key of a new domain: imported, or generated. *)
Definition new_domain_key (domain selector imported : string) : P (string + http_reply domain_body) :=
  if negb (String.eqb imported "") then
    Ret (match new_signer (Some (DKIMConfig domain selector imported [])) with
         | Ok _ => inl imported
         | Err _ => inr (bad_request "INVALID_DKIM_KEY" "dkim_private_key is not a valid RSA private key")
         end)
  else
    do k <- call (Outside (GenerateRSA (key_bits 0)));
    Ret (match generate_dkim_key pem_decode parse_pkcs1 parse_pkcs8 marshal_pkcs1 marshal_pkix (fun _ => k) domain selector 0 with
         | Ok key => inl (gk_private_pem key)
         | Err _ => inr (Failure 500 "KEYGEN_FAILED" "failed to generate DKIM key")
         end).

Definition create_domain (body : res create_domain_request) : P (http_reply domain_body) :=
  match body with
  | Err _ => Ret (bad_request "INVALID_INPUT" "invalid request body")
  | Ok req =>
      let domain := to_lower (trim_space (cq_domain req)) in
      if String.eqb domain "" || negb (has_char "." domain) then Ret (bad_request "VALIDATION_FAILED" "a valid domain is required")
      else
        let selector := match trim_space (cq_selector req) with "" => "mail" | s => s end in
        do existing <- get_domain domain;
        match existing with
        | Err _ => Ret (internal_error "failed to check domain")
        | Ok (Some _) => Ret (conflict "DOMAIN_EXISTS" "domain already registered")
        | Ok None =>
            do key <- new_domain_key domain selector (trim_space (cq_private_key req));
            match key with
            | inr reply => Ret reply
            | inl pem =>
                do d <- upsert_domain (DomainRow domain selector (Some pem) false false 0 0);
                Ret (match d with
                     | Err _ => internal_error "failed to save domain"
                     | Ok d => Reply 201 (OneDomain (to_response d))
                     end)
            end
        end
  end.

(** [load]: the row of the path's domain, for the rest of a handler. *)
Definition with_domain (name : string) (f : domain_row -> P (http_reply domain_body)) : P (http_reply domain_body) :=
  let name := to_lower (trim_space name) in
  if String.eqb name "" then Ret (bad_request "VALIDATION_FAILED" "domain is required")
  else
    do d <- get_domain name;
    match d with
    | Err _ => Ret (internal_error "failed to load domain")
    | Ok None => Ret (not_found "DOMAIN_NOT_FOUND" "domain not found")
    | Ok (Some d) => f d
    end.

Definition set_verified (v : bool) (d : domain_row) : domain_row :=
  DomainRow (dr_domain d) (dr_selector d) (dr_private_key d) v (dr_active d) (dr_created_at d) (dr_updated_at d).
Definition set_active_flag (a : bool) (d : domain_row) : domain_row :=
  DomainRow (dr_domain d) (dr_selector d) (dr_private_key d) (dr_verified d) a (dr_created_at d) (dr_updated_at d).

Definition verify_domain (i : nat) (name : string) : P (http_reply domain_body) :=
  with_domain name (fun d =>
    if negb (has_key d) then Ret (bad_request "NO_DKIM_KEY" "domain has no DKIM key to verify")
    else
      match row_signer d with
      | Err _ => Ret (internal_error "failed to load DKIM key")
      | Ok s =>
          do status <- check_domain (dr_domain d) (dns_record_name s) (record_of s);
          if dns_verified status && negb (dr_verified d) then
            do saved <- upsert_domain (set_verified true d);
            match saved with
            | Err _ => Ret (internal_error "failed to persist verification")
            | Ok d =>
                do _ <- (if dr_active d then do _ <- publish_reload i; Ret () else Ret ());
                Ret (Reply 200 (DomainChecked (to_response d) status))
            end
          else Ret (Reply 200 (DomainChecked (to_response d) status))
      end).

Definition set_active (i : nat) (name : string) (active : bool) : P (http_reply domain_body) :=
  with_domain name (fun d =>
    if active && negb (dr_verified d) then Ret (bad_request "NOT_VERIFIED" "verify DNS before activating")
    else
      do saved <- upsert_domain (set_active_flag active d);
      match saved with
      | Err _ => Ret (internal_error "failed to update domain")
      | Ok d => do _ <- publish_reload i; Ret (Reply 200 (OneDomain (to_response d)))
      end).

Definition delete_domain_handler (i : nat) (name : string) : P (http_reply domain_body) :=
  with_domain name (fun d =>
    do r <- delete_domain (dr_domain d);
    match r with
    | Err _ => Ret (internal_error "failed to delete domain")
    | Ok _ => do _ <- publish_reload i; Ret (Reply 200 (DomainDeleted (dr_domain d)))
    end).

(** [selector]: what the decoder left of the body, whose error is ignored. *)
Definition rotate_dkim (i : nat) (name selector : string) : P (http_reply domain_body) :=
  with_domain name (fun d =>
    let selector := trim_space selector in
    if String.eqb selector "" || equal_fold selector (dr_selector d)
    then Ret (bad_request "VALIDATION_FAILED" "a new, distinct selector is required for rotation")
    else
      do k <- call (Outside (GenerateRSA (key_bits 0)));
      match generate_dkim_key pem_decode parse_pkcs1 parse_pkcs8 marshal_pkcs1 marshal_pkix (fun _ => k) (dr_domain d) selector 0 with
      | Err _ => Ret (Failure 500 "KEYGEN_FAILED" "failed to generate DKIM key")
      | Ok key =>
          do saved <- upsert_domain (DomainRow (dr_domain d) selector (Some (gk_private_pem key)) false (dr_active d)
                                       (dr_created_at d) (dr_updated_at d));
          match saved with
          | Err _ => Ret (internal_error "failed to save rotated key")
          | Ok d =>
              do _ <- (if dr_active d then do _ <- publish_reload i; Ret () else Ret ());
              Ret (Reply 200 (OneDomain (to_response d)))
          end
      end).

(** ** What the replicas serve *)

Inductive domain_request :=
| ListDomainsR
| CreateDomainR (body : res create_domain_request)
| VerifyDomainR (name : string)
| ActivateDomainR (name : string)
| DeactivateDomainR (name : string)
| DeleteDomainR (name : string)
| RotateDKIMR (name selector : string)
| SignalR.

(** A request on replica [i]: a signal comes from Redis, the rest through the
    internal API with its secret. *)
Definition handle_domains (i : nat) (r : domain_request) : P (http_reply domain_body) :=
  match r with
  | ListDomainsR => list_domains
  | CreateDomainR body => create_domain body
  | VerifyDomainR name => verify_domain i name
  | ActivateDomainR name => set_active i name true
  | DeactivateDomainR name => set_active i name false
  | DeleteDomainR name => delete_domain_handler i name
  | RotateDKIMR name selector => rotate_dkim i name selector
  | SignalR => on_signal i
  end.

Definition serve_domains (secret : string) (q : nat * string * domain_request) : P (http_reply domain_body) :=
  let '(i, header, r) := q in
  match r with
  | SignalR => on_signal i
  | _ => internal_auth id secret header (handle_domains i r)
  end.

(** * Properties *)

Context {R : Type} `{Redis R}.

Section history.
Context (h : history (M := cluster) (Q := query)).

(** A lookup of the signer's record found its public key. *)
Definition published (s : signer (K := K)) : Prop :=
  exists now i txts txt, (now, i, Event (Outside (LookupTXT (dns_record_name s))) (Ok txts)) ∈ h /\ txt ∈ txts /\
    dkim_public_key txt = dkim_public_key (record_of s) /\ dkim_public_key txt <> "".

Definition row_ok (d : domain_row) : Prop :=
  to_lower (dr_domain d) = dr_domain d /\ dr_selector d <> "" /\
  (dr_verified d = true -> forall s, row_signer d = Ok s -> published s).

Definition signer_ok (domain : string) (s : signer (K := K)) : Prop := dc_domain (sg_config s) = domain /\ published s.

Definition good (c : cluster) : Prop :=
  map_Forall (fun _ d => row_ok d) (domain_rows c) /\ forall i, map_Forall signer_ok (rg_signers (registries c i)).

Section request.
(** The request, and the replica that serves it. *)
Context (i rep : nat).
Abbreviation keeps := (keeps (sees_good good h i) (keeps_good good)).
Abbreviation any := (fun _ => True).

Lemma then_keeps {A B} (p : P A) (f : A -> P B) (q : A -> Prop) (q' : B -> Prop) :
  keeps q p -> (forall v, q v -> keeps q' (f v)) -> keeps q' (bind p f).
Proof. apply keeps_bind. Qed.

Lemma keeps_wrapped {A} (f : cluster -> cluster * A) ctx (q : A -> Prop) :
  (forall c, good c -> good (f c).1 /\ q (f c).2) ->
  keeps (fun r => forall a, r = Ok a -> q a) (wrapped ctx (statement f)).
Proof. intros Hf. eapply then_keeps; [by apply keeps_statement|]. by intros [a|e]. Qed.

Lemma all_rows_ok c : good c -> Forall row_ok (every_row c).2.
Proof.
  intros [Hr _]. apply Forall_forall. intros d Hd. apply list_elem_of_fmap in Hd as ([k d'] & -> & Hd).
  apply elem_of_map_to_list in Hd. exact (Hr _ _ Hd).
Qed.

Lemma keeps_get name : keeps (fun r => forall d, r = Ok (Some d) -> row_ok d) (get_domain name).
Proof.
  eapply keeps_mono; [apply (keeps_wrapped _ _ (fun o => forall d, o = Some d -> row_ok d))|].
  - intros c Hc. split; [done|]. intros d Hd. destruct Hc as [Hr _]. exact (Hr _ _ Hd).
  - intros [o|e] Hv d; [|done]. intros [= ->]. by apply (Hv (Some d)).
Qed.

Lemma keeps_upsert d : row_ok d -> keeps (fun r => forall d', r = Ok d' -> row_ok d') (upsert_domain d).
Proof.
  intros (Hlow & Hsel & Hpub). split; [done|]. intros now _. apply keeps_wrapped. intros c [Hr Hg].
  destruct (String.eqb_spec (dr_selector d) ""); [done|]. cbn [upsert_row fst snd dr_domain dr_selector dr_private_key dr_verified dr_active].
  rewrite Hlow. split; [|done]. split; [|exact Hg]. apply map_Forall_insert_2; [done|exact Hr].
Qed.

Lemma keeps_update f : (forall r, map_Forall signer_ok (rg_signers r) -> map_Forall signer_ok (rg_signers (f r))) ->
  keeps any (call (Shared (update_registry rep f))).
Proof.
  intros Hf. split; [|by intros]. intros c [Hr Hg]. split; [exact Hr|]. intros j. simpl. destruct (j =? rep)%nat; [|apply Hg].
  apply Hf, Hg.
Qed.

Lemma built_signers rows next : Forall row_ok rows -> map_Forall signer_ok next ->
  map_Forall signer_ok (fold_left add_signer rows next).
Proof.
  intros Hrows. revert next. induction Hrows as [|d rows (_ & _ & Hp) _ IH]; intros next Hn; simpl; [done|]. apply IH.
  unfold add_signer. destruct (has_key d); [|done]. cbn [negb]. destruct (dr_verified d); [|done]. cbn [negb].
  destruct (row_signer d) as [s|] eqn:Es; [|done]. apply map_Forall_insert_2; [|done]. split; [|by apply Hp].
  unfold row_signer, new_dkim_signer in Es. destruct (String.eqb _ ""); [done|]. destruct (String.eqb _ ""); [done|].
  destruct (String.eqb _ ""); [done|]. destruct (wrap _ _); [|done]. by injection Es as <-.
Qed.

Lemma keeps_reload : keeps any (reload rep).
Proof.
  eapply then_keeps.
  - apply (keeps_wrapped active_rows _ (Forall row_ok)). intros c Hc. split; [done|].
    apply List.Forall_forall. intros d Hd%List.filter_In. pose proof (all_rows_ok c Hc) as Ha.
    rewrite List.Forall_forall in Ha. exact (Ha d (proj1 Hd)).
  - intros [rows|e] Hrows; [|done]. eapply then_keeps; [apply keeps_update; intros r _; apply built_signers; [by apply Hrows|apply map_Forall_empty]|].
    intros _ _. eapply then_keeps; [by apply keeps_update|]. by intros.
Qed.

Lemma keeps_publish : keeps any (publish_reload rep).
Proof.
  eapply then_keeps; [apply keeps_reload|]. intros [u|e] _; [|done]. destruct fan_out; [|done]. split; [done|]. by intros.
Qed.

Lemma keeps_with_domain name f : (forall d, row_ok d -> keeps any (f d)) -> keeps any (with_domain name f).
Proof.
  intros Hf. unfold with_domain. destruct (String.eqb _ ""); [done|]. eapply then_keeps; [apply keeps_get|].
  intros [[d|]|e] Hd; [|done..]. by apply Hf, Hd.
Qed.

Lemma keeps_then_publish (b : bool) (r : http_reply domain_body) :
  keeps any (do _ <- (if b then do _ <- publish_reload rep; Ret () else Ret ()); Ret r).
Proof.
  apply then_keeps with (q := any); [|by intros]. destruct b; [|done]. eapply then_keeps; [apply keeps_publish|]. by intros.
Qed.

(** [CheckDomain] finds the key only in a record that was looked up. *)
Lemma keeps_check s domain :
  keeps (fun st => dns_verified st = true -> published s) (check_domain domain (dns_record_name s) (record_of s)).
Proof.
  split; [done|]. intros dkim [now Hin]. do 3 (split; [done|]; intros ? _). intros Hv. unfold dns_verified in Hv. simpl in Hv.
  destruct dkim as [txts|]; [|done]. apply existsb_exists in Hv as (txt & Ht & Hw).
  apply andb_true_iff in Hw as [Hw Heq%String.eqb_eq]. apply negb_true_iff, String.eqb_neq in Hw.
  exists now, i, txts, txt. rewrite Heq. do 2 (split; [done || by apply list_elem_of_In|]). done.
Qed.

Lemma keeps_verify_domain name : keeps any (verify_domain rep name).
Proof.
  apply keeps_with_domain. intros d (Hlow & Hsel & Hd). destruct (has_key d); [|done]. cbn [negb].
  destruct (row_signer d) as [s|] eqn:Es; [|done]. eapply then_keeps; [apply (keeps_check s)|]. intros st Hst.
  destruct (dns_verified st && negb (dr_verified d)) eqn:Ev; [|done]. apply andb_true_iff in Ev as [Ev _].
  eapply then_keeps; [apply keeps_upsert|].
  - do 2 (split; [done|]). intros _ s' Hs'. change (row_signer (set_verified true d)) with (row_signer d) in Hs'.
    assert (s' = s) as -> by congruence. by apply Hst.
  - intros [d'|e] _; [|done]. apply keeps_then_publish.
Qed.

Lemma keeps_set_active name active : keeps any (set_active rep name active).
Proof.
  apply keeps_with_domain. intros d Hd. destruct (_ && _); [done|]. eapply then_keeps; [by apply keeps_upsert|].
  intros [d'|e] _; [|done]. eapply then_keeps; [apply keeps_publish|]. by intros.
Qed.

Lemma keeps_delete name : keeps any (delete_domain_handler rep name).
Proof.
  apply keeps_with_domain. intros d Hd. eapply then_keeps.
  - apply (keeps_wrapped (delete_row (dr_domain d)) _ any). intros c [Hr Hg]. split; [|done]. split; [|done].
    by apply map_Forall_delete.
  - intros [u|e] _; [|done]. eapply then_keeps; [apply keeps_publish|]. by intros.
Qed.

Lemma keeps_rotate name selector : keeps any (rotate_dkim rep name selector).
Proof.
  apply keeps_with_domain. cbv zeta. intros d (Hlow & Hsel & Hd). destruct (String.eqb_spec (trim_space selector) ""); [done|].
  cbn [orb]. destruct (equal_fold _ _); [done|]. split; [done|]. intros k _. cbn [bind].
  destruct (generate_dkim_key _ _ _ _ _ _ _ _ _) as [key|]; [|done].
  eapply then_keeps; [by apply keeps_upsert|]. intros [d'|e] _; [|done]. apply keeps_then_publish.
Qed.

Lemma keeps_create body : keeps any (create_domain body).
Proof.
  destruct body as [req|]; [|done]. unfold create_domain. destruct (_ || _); [done|].
  eapply then_keeps; [apply keeps_get|]. intros [[d|]|e] _; [done| |done].
  apply then_keeps with (q := any).
  - unfold new_domain_key. destruct (negb _); [done|]. split; [done|]. by intros.
  - intros [pem|r] _; [|done]. apply then_keeps with (q := any); [|by intros [d|e] _].
    eapply keeps_mono; [apply keeps_upsert|done]. split; [apply to_lower_idemp|]. split; [|done].
    simpl. by destruct (trim_space (cq_selector req)).
Qed.

Lemma keeps_handle r : keeps any (handle_domains rep r).
Proof.
  destruct r; cbn [handle_domains].
  - eapply then_keeps; [apply (keeps_wrapped every_row _ any); done|]. by intros [ds|e] _.
  - apply keeps_create.
  - apply keeps_verify_domain.
  - apply keeps_set_active.
  - apply keeps_set_active.
  - apply keeps_delete.
  - apply keeps_rotate.
  - eapply then_keeps; [apply keeps_reload|]. by intros.
Qed.

Lemma keeps_serve_domains secret header r : keeps any (serve_domains secret (rep, header, r)).
Proof.
  assert (keeps any (internal_auth id secret header (handle_domains rep r))) as Hauth.
  { unfold internal_auth. destruct (String.eqb _ _); [done|]. destruct (bearer_token header) as [token|]; [|done].
    destruct (secrets_equal _ _); [|done]. apply keeps_handle. }
  destruct r; try exact Hauth. apply (keeps_handle SignalR).
Qed.

End request.

End history.

(** C31. A replica signs mail only with keys whose records were seen in the DNS.
    Starting from an empty table, whatever requests of the internal API and
    reload signals interleave on however many replicas, and whatever statements
    fail: the signer that a replica holds for a domain signs as that domain, and
    under the name of its selector a lookup in the history answered with a
    record that carries its public key. *)
Theorem signing_keys_were_published secret reqs h t (w w' : world cluster R) out served i domain s
    (Hrun : concurrent (map (serve_domains secret) reqs) t w h w' out)
    (Hlen : Forall (fun e => (e.1.2 < length reqs)%nat) h)
    (Hstart : w_memory w = Cluster ∅ (fun _ => Registry ∅ served))
    (Hs : registry_signer i domain (w_memory w') = Some s) :
  dc_domain (sg_config s) = domain /\ published h s.
Proof.
  assert (good h (w_memory w)) as Hgood.
  { rewrite Hstart. split; [apply map_Forall_empty|]. intros j. apply map_Forall_empty. }
  destruct (good_throughout (good h) h (map (serve_domains secret) reqs) (fun _ _ => True) t w w' out Hrun) as [[_ Hg] _];
    [by rewrite length_map| |done|exact (Hg i _ _ Hs)].
  intros j p Hp. rewrite list_lookup_fmap in Hp. destruct (reqs !! j) as [[[rep header] r]|]; [|done]. injection Hp as <-.
  apply keeps_serve_domains.
Qed.

(** ** A reload by itself *)

(** The signer that a row calls for. *)
Definition wanted_signer (d : domain_row) : option (signer (K := K)) :=
  if has_key d && dr_verified d then match row_signer d with Ok s => Some s | Err _ => None end else None.

Lemma add_signer_lookup next d domain :
  add_signer next d !! domain = if String.eqb (dr_domain d) domain
                                then match wanted_signer d with Some s => Some s | None => next !! domain end
                                else next !! domain.
Proof.
  unfold add_signer, wanted_signer. destruct (has_key d), (dr_verified d); simpl; try by destruct (String.eqb _ _).
  destruct (row_signer d) as [s|]; [|by destruct (String.eqb _ _)].
  destruct (String.eqb_spec (dr_domain d) domain) as [->|]; [by rewrite lookup_insert, decide_True|by rewrite lookup_insert_ne].
Qed.

Lemma built_lookup rows : forall next domain, NoDup (map dr_domain rows) -> next !! domain = None ->
  fold_left add_signer rows next !! domain =
    match List.find (fun d => String.eqb (dr_domain d) domain) rows with Some d => wanted_signer d | None => None end.
Proof.
  assert (forall rows next domain v, domain ∉ map dr_domain rows -> next !! domain = v ->
    fold_left add_signer rows next !! domain = v) as Hother.
  { clear rows. induction rows as [|d rows IH]; intros next domain v Hn Hv; [done|]. apply not_elem_of_cons in Hn as [Hne Hn].
    simpl. apply IH; [done|]. rewrite add_signer_lookup. by destruct (String.eqb_spec (dr_domain d) domain). }
  induction rows as [|d rows IH]; intros next domain Hnd Hnext; [done|]. apply NoDup_cons in Hnd as [Hd Hnd]. simpl.
  destruct (String.eqb_spec (dr_domain d) domain) as [<-|Hne].
  - apply Hother; [done|]. rewrite add_signer_lookup, String.eqb_refl, Hnext. by destruct (wanted_signer d).
  - apply IH; [done|]. rewrite add_signer_lookup. by destruct (String.eqb_spec (dr_domain d) domain).
Qed.

Lemma find_row (m : gmap string domain_row) domain : (forall k d, m !! k = Some d -> dr_domain d = k) ->
  List.find (fun d => String.eqb (dr_domain d) domain) (List.filter dr_active (map snd (map_to_list m))) =
    (d ← m !! domain; if dr_active d then Some d else None).
Proof.
  intros Hk. destruct (List.find _ _) as [d|] eqn:Ef.
  - apply List.find_some in Ef as [Hin Heq%String.eqb_eq]. apply List.filter_In in Hin as [Hin Ha].
    apply list_elem_of_In, list_elem_of_fmap in Hin as ([k d'] & -> & Hin). apply elem_of_map_to_list in Hin. simpl in *.
    rewrite (Hk _ _ Hin) in Heq. subst k. rewrite Hin. simpl. by rewrite Ha.
  - destruct (m !! domain) as [d|] eqn:Em; [|done]. simpl. destruct (dr_active d) eqn:Ea; [|done].
    apply (List.find_none _ _) with (x := d) in Ef.
    + by rewrite (Hk _ _ Em), String.eqb_refl in Ef.
    + apply List.filter_In. split; [|done]. apply list_elem_of_In, list_elem_of_fmap. exists (domain, d).
      split; [done|by apply elem_of_map_to_list].
Qed.

Lemma active_nodup (m : gmap string domain_row) : (forall k d, m !! k = Some d -> dr_domain d = k) ->
  NoDup (map dr_domain (List.filter dr_active (map snd (map_to_list m)))).
Proof.
  intros Hk. assert (map dr_domain (map snd (map_to_list m)) = map fst (map_to_list m)) as E.
  { rewrite map_map. apply List.map_ext_in. intros [k d] Hin. apply list_elem_of_In, elem_of_map_to_list in Hin. by apply Hk. }
  assert (NoDup (map dr_domain (map snd (map_to_list m)))) as Hnd by (rewrite E; apply NoDup_fst_map_to_list).
  clear E. induction (map snd (map_to_list m)) as [|d rows IH]; [done|]. apply NoDup_cons in Hnd as [Hd Hnd]. simpl.
  destruct (dr_active d); [|by apply IH]. simpl. apply NoDup_cons. split; [|by apply IH].
  intros Hin. apply Hd. apply list_elem_of_fmap in Hin as (d' & E & Hin). apply list_elem_of_fmap. exists d'. split; [done|].
  apply list_elem_of_In. apply list_elem_of_In, List.filter_In in Hin. apply Hin.
Qed.

(** An undisturbed reload makes a replica agree with the table.  It ends
    without error, and afterwards the replica has a signer for exactly the
    domains whose row is active, verified and has a key that loads, built from
    that row; it serves the active domains; the table and the other replicas
    are as before. *)
Theorem reload_shows_the_table os (w : world cluster R) i
    (Hkeys : forall k d, domain_rows (w_memory w) !! k = Some d -> dr_domain d = k)
    (Hdb : forall n, or_outside (os n) _ Database = Done) :
  exists n w', run os 0 (reload i) w = (n, w', Some (Ok ())) /\
    (forall domain, registry_signer i domain (w_memory w') =
       (d ← domain_rows (w_memory w) !! domain; if dr_active d then wanted_signer d else None)) /\
    rg_served (registries (w_memory w') i) = set_served_domains (map dr_domain (active_rows (w_memory w)).2) /\
    domain_rows (w_memory w') = domain_rows (w_memory w) /\
    forall j, j <> i -> registries (w_memory w') j = registries (w_memory w) j.
Proof.
  unfold reload, list_active_domains, wrapped, statement. cbn [bind call run perform bind_res].
  rewrite Hdb. cbn [bind call run perform bind_res w_memory w_redis fst snd active_rows wrap].
  eexists _, _. split; [reflexivity|]. cbn [w_memory].
  unfold registry_signer, swap_served, swap_signers, update_registry. cbn [registries domain_rows fst snd rg_signers rg_served].
  rewrite Nat.eqb_refl. cbn [rg_signers rg_served]. split; [|split; [done|split; [done|]]].
  - intros domain. rewrite ?Nat.eqb_refl. cbn [rg_signers]. rewrite built_lookup; [|by apply active_nodup|done].
    cbn [every_row snd]. rewrite find_row by done. destruct (_ !! domain) as [d|]; [|done]. simpl. by destruct (dr_active d).
  - intros j Hj. destruct (Nat.eqb_spec j i); done.
Qed.

End domains.

(** ** Concrete runs *)

Definition sample_dns : string := "v=DKIM1; k=rsa; p=" +:+ encode "KEY".
Definition domain_world (X : Type) (q : query (K := string) X) : X :=
  match q in query Y return Y with
  | Database => Done
  | LookupTXT name => Ok (if String.eqb name "mail._domainkey.a.org" then [sample_dns] else [])
  | LookupMX _ => Ok []
  | PublishSignal => None
  | GenerateRSA _ => Ok "KEY"
  end.
Definition domain_oracle (i : nat) : oracle (query (K := string)) :=
  Oracle (Z.of_nat i) Done (fun _ => Ok "") "" domain_world.

Lemma domain_clock i : or_now (domain_oracle i) <= or_now (domain_oracle (S i)).
Proof. simpl. lia. Qed.

Definition sample_domains (reqs : list (nat * string * domain_request)) :=
  map (serve_domains (fun s => Some s) (fun k : string => Ok k) (fun _ => Err (Sentinel "")) (fun k => k) (fun k => Ok k)
    (fun s => s) true "secret") reqs.
Definition start_domains (rows : gmap string domain_row) (signers : gmap string (signer (K := string))) : world cluster kv :=
  World ∅ (Cluster rows (fun _ => Registry signers [Domain])).
Definition played_domains w turns reqs := interleave domain_oracle 0 turns (sample_domains reqs) w.

Lemma played_domains_concurrent w turns reqs :
  concurrent (sample_domains reqs) 0 w (played_domains w turns reqs).1 (played_domains w turns reqs).2.1
    (results (played_domains w turns reqs).2.2).
Proof.
  pose proof (interleave_concurrent domain_oracle domain_clock turns 0%nat (sample_domains reqs) 0 w) as Hi.
  unfold played_domains. destruct (interleave _ _ _ _ _) as [h [w' pool]]. apply Hi. simpl. done.
Qed.

Definition onboarding : list (nat * string * domain_request) :=
  [(0%nat, "Bearer secret", CreateDomainR (Ok (CreateDomainRequest " A.org" "" "KEY")));
   (0%nat, "Bearer secret", VerifyDomainR "a.org"); (1%nat, "bearer secret", ActivateDomainR "a.org");
   (0%nat, "", SignalR)].
Definition onboarding_turns : list nat := repeat 0%nat 10 ++ repeat 1%nat 20 ++ repeat 2%nat 20 ++ repeat 3%nat 10.
Definition sample_signer : signer (K := string) :=
  Signer (DKIMConfig "a.org" "mail" "KEY" []) "KEY" default_headers_to_sign.

Lemma signing_keys_were_published_witness :
  registry_signer 0 "a.org" (w_memory (played_domains (start_domains ∅ ∅) onboarding_turns onboarding).2.1) = Some sample_signer /\
  published (fun k => Ok k) (played_domains (start_domains ∅ ∅) onboarding_turns onboarding).1 sample_signer.
Proof.
  split; [vm_compute; reflexivity|].
  refine (proj2 (signing_keys_were_published (fun s => Some s) (fun k : string => Ok k) (fun _ => Err (Sentinel "")) (fun k => k)
    (fun k => Ok k) (fun s => s) true "secret" onboarding _ 0 (start_domains ∅ ∅) _ _ [Domain] 0 "a.org" sample_signer
    (played_domains_concurrent (start_domains ∅ ∅) onboarding_turns onboarding) _ eq_refl _)).
  - apply made_by_requests. vm_compute. reflexivity.
  - vm_compute. reflexivity.
Defined.

Definition sample_domain_row (active : bool) : domain_row := DomainRow "a.org" "mail" (Some "KEY") true active 0 0.

Lemma reload_shows_the_table_witness :
  exists n w', run domain_oracle 0 (reload (fun s => Some s) (fun k : string => Ok k) (fun _ => Err (Sentinel "")) 0)
      (start_domains {["a.org" := sample_domain_row true]} ∅) = (n, w', Some (Ok ())) /\
    registry_signer 0 "a.org" (w_memory w') = Some sample_signer.
Proof.
  destruct (reload_shows_the_table (fun s => Some s) (fun k : string => Ok k) (fun _ => Err (Sentinel "")) domain_oracle
    (start_domains {["a.org" := sample_domain_row true]} ∅) 0) as (n & w' & Hrun & Hs & _).
  - intros k d Hd. simpl in Hd. apply lookup_singleton_Some in Hd as [<- <-]. reflexivity.
  - reflexivity.
  - exists n, w'. split; [done|]. by rewrite Hs.
Defined.

(** A reload can undo a newer one.  The rows are read and swapped in at
    different times, so that a reload signal which read them before a domain
    was deactivated may swap in its signers after: the deactivation succeeds
    and reloads the replica, the signal is served, the row is inactive, and
    the replica still signs for the domain. *)
Theorem late_reload_undoes_deactivation : exists h w out,
  concurrent (sample_domains [(0%nat, "Bearer secret", DeactivateDomainR "a.org"); (0%nat, "", SignalR)]) 0
    (start_domains {["a.org" := sample_domain_row true]} {["a.org" := sample_signer]}) h w out /\
  (exists d, out 0%nat = Some (Reply 200 (OneDomain d)) /\ rs_active d = false) /\ out 1%nat = Some (Reply 200 Reloaded) /\
  (exists d, domain_rows (w_memory w) !! "a.org" = Some d /\ dr_active d = false) /\
  registry_signer 0 "a.org" (w_memory w) = Some sample_signer.
Proof.
  set (w := start_domains {["a.org" := sample_domain_row true]} {["a.org" := sample_signer]}).
  set (reqs := [(0%nat, "Bearer secret", DeactivateDomainR "a.org"); (0%nat, "", SignalR)]).
  set (turns := repeat 1%nat 2 ++ repeat 0%nat 20 ++ repeat 1%nat 10).
  exists (played_domains w turns reqs).1, (played_domains w turns reqs).2.1, (results (played_domains w turns reqs).2.2).
  split; [exact (played_domains_concurrent w turns reqs)|].
  split; [eexists; split; vm_compute; reflexivity|]. split; [vm_compute; reflexivity|].
  split; [eexists; split; vm_compute; reflexivity|]. vm_compute. reflexivity.
Qed.
