(* ===== verification/Usage.v ===== *)
(** * The storage reconciler: usage/reconciler.go

    What a mailbox holds is measured in the mail tables, compared with what the
    platform has on record for this service, and corrected by reporting the
    difference.  The platform is an interface: a table that is read back, and a
    report that adds to it or fails.  Go's map order is a parameter. *)

From S2P Require Import Prelude GoStrings Emails Http.
#[local] Open Scope Z_scope.


(** [SELECT key, SUM(value) ... GROUP BY key]: a group for every key there is. *)
Definition group_sum {A} (key : A -> string) (value : A -> Z) (l : list A) : gmap string Z :=
  fold_right (fun a m => <[key a := value a + default 0 (m !! key a)]> m) ∅ l.

Class Recorder (Q : Type) := {
  recorded_usage : Q -> gmap string Z;
  record_usage : string -> Z -> Q -> Q * option error }.

(** A report that succeeds adds the amount; one that fails touches no other account. *)
Class RecorderLaws (Q : Type) `{Recorder Q} : Prop := {
  record_adds pk n q q' : record_usage pk n q = (q', None) ->
    recorded_usage q' = <[pk := default 0 (recorded_usage q !! pk) + n]> (recorded_usage q);
  record_fails pk n q q' e pk' : record_usage pk n q = (q', Some e) -> pk' <> pk ->
    recorded_usage q' !! pk' = recorded_usage q !! pk' }.

Definition ErrUsageUnreadable : error := Sentinel "cannot read recorded usage".

Record reconcile_result := ReconcileResult { rs_mailboxes : Z; rs_corrected : Z; rs_net_bytes : Z }.

(** ** Measuring *)

Definition message_bytes (e : email) : Z :=
  str_len (em_subject e) + str_len (em_body e) + str_len (default "" (em_html_body e)).

Definition measure_messages (fault : option error) (d : database) : res (gmap string Z) :=
  match fault with
  | Some e => Err (Wrapped "measure message storage" e)
  | None => Ok (group_sum em_mailbox_pubkey message_bytes (List.filter live (db_emails d)))
  end.

Definition is_inline (e : email) (a : attachment) : bool :=
  String.eqb (em_id e) (at_email_id a) && match at_blossom_sha256 a with None => true | Some _ => false end.
(** The live messages joined with their attachments that are not on Blossom. *)
Definition inline_attachments (d : database) : list (email * attachment) :=
  flat_map (fun e => map (pair e) (List.filter (is_inline e) (db_attachments d))) (List.filter live (db_emails d)).

Definition attachment_bytes (a : attachment) : Z := default 0 (at_size_bytes a).

Definition add_inline_attachments (fault : option error) (d : database) (bytes : gmap string Z) : res (gmap string Z) :=
  match fault with
  | Some e => Err (Wrapped "measure attachment storage" e)
  | None => Ok (union_with (fun a b => Some (wrap64 (a + b))) bytes
                  (group_sum (fun p => em_mailbox_pubkey p.1) (fun p => attachment_bytes p.2) (inline_attachments d)))
  end.

Definition measure (faults : option error * option error) (d : database) : res (gmap string Z) :=
  let! bytes := measure_messages faults.1 d in add_inline_attachments faults.2 d bytes.

Section reconciler.
Context {Q : Type} `{Recorder Q}.

Definition recorded_components (fault : option error) (q : Q) : res (gmap string Z) :=
  match fault with
  | None => Ok (recorded_usage q)
  | Some e =>
      if contains (error_text e) "does not exist" then Ok ∅
      else if contains (error_text e) "permission denied" then Err (Wrapped (error_text ErrUsageUnreadable) ErrUsageUnreadable)
      else Err (Wrapped "read recorded usage" e)
  end.

(** Accounts on record that were not measured hold nothing. *)
Definition with_emptied (recorded measured : gmap string Z) : gmap string Z := measured ∪ (fmap (fun _ => 0) recorded).

(** One account: its correction, and the failure that is logged. *)
Definition correct (recorded : gmap string Z) (s : Q * reconcile_result * list string) (p : string * Z) : Q * reconcile_result * list string :=
  let '(q, r, failed) := s in
  let '(pk, actual) := p in
  let r := ReconcileResult (rs_mailboxes r + 1) (rs_corrected r) (rs_net_bytes r) in
  let delta := wrap64 (actual - default 0 (recorded !! pk)) in
  if delta =? 0 then (q, r, failed)
  else
    match record_usage pk delta q with
    | (q, Some _) => (q, r, failed ++ [pk])
    | (q, None) => (q, ReconcileResult (rs_mailboxes r) (rs_corrected r + 1) (wrap64 (rs_net_bytes r + delta)), failed)
    end.

(** [order]: the order in which the map is walked. *)
Definition reconcile (order : gmap string Z -> list (string * Z)) (faults : option error * option error) (fault : option error)
    (d : database) (q : Q) : Q * res (reconcile_result * list string) :=
  match measure faults d with
  | Err e => (q, Err e)
  | Ok measured =>
      match recorded_components fault q with
      | Err e => (q, Err e)
      | Ok recorded =>
          let '(q, r, failed) := fold_left (correct recorded) (order (with_emptied recorded measured)) (q, ReconcileResult 0 0 0, []) in
          (q, Ok (r, failed))
      end
  end.

(** The passes of [Run]: their readings and faults, one after the other. *)
Record pass := Pass { ps_database : database; ps_order : gmap string Z -> list (string * Z);
  ps_faults : option error * option error; ps_fault : option error }.
Definition run_passes (ps : list pass) (q : Q) : Q :=
  fold_left (fun q p => (reconcile (ps_order p) (ps_faults p) (ps_fault p) (ps_database p) q).1) ps q.

End reconciler.

(** * Properties *)

Lemma group_sum_total {A} (key : A -> string) value (l : list A) k :
  default 0 (group_sum key value l !! k) = Zsum (map value (List.filter (fun a => String.eqb (key a) k) l)).
Proof.
  induction l as [|a l IH]; [done|]. cbn [group_sum fold_right List.filter]. fold (group_sum key value l).
  destruct (String.eqb_spec (key a) k) as [->|Hne].
  - rewrite lookup_insert, decide_True by done. simpl. by rewrite IH.
  - by rewrite lookup_insert_ne.
Qed.

(** The specification, on its own: the bytes of a message are those of its
    subject, its text and its HTML written one after the other; with them count
    its attachments that no Blossom server holds; and an account is charged for
    its messages that are not deleted. *)
Definition content (e : email) : string :=
  em_subject e +:+ em_body e +:+ match em_html_body e with Some html => html | None => "" end.
Definition kept_here (e : email) (a : attachment) : Prop := at_email_id a = em_id e /\ at_blossom_sha256 a = None.
#[export] Instance kept_here_dec e a : Decision (kept_here e a).
Proof. unfold kept_here. apply _. Defined.
Definition held_bytes (d : database) (e : email) : Z :=
  Z.of_nat (String.length (content e)) +
  Zsum (map (fun a => match at_size_bytes a with Some n => n | None => 0 end)
    (List.filter (fun a => bool_decide (kept_here e a)) (db_attachments d))).
Definition charged (pk : string) (e : email) : Prop := em_mailbox_pubkey e = pk /\ em_deleted_at e = None.
#[export] Instance charged_dec pk e : Decision (charged pk e).
Proof. unfold charged. apply _. Defined.
Definition stored_bytes (d : database) (pk : string) : Z :=
  Zsum (map (held_bytes d) (List.filter (fun e => bool_decide (charged pk e)) (db_emails d))).

Lemma message_content e : message_bytes e = Z.of_nat (String.length (content e)).
Proof.
  unfold message_bytes, content, str_len. rewrite !length_app_str. destruct (em_html_body e); simpl; lia.
Qed.

Lemma inline_kept e l : List.filter (is_inline e) l = List.filter (fun a => bool_decide (kept_here e a)) l.
Proof.
  apply filter_ext. intros a. unfold is_inline, kept_here. apply eq_true_iff_eq.
  rewrite bool_decide_eq_true, andb_true_iff, String.eqb_eq. destruct (at_blossom_sha256 a); naive_solver.
Qed.

Lemma held_sum d e :
  held_bytes d e = message_bytes e + Zsum (map attachment_bytes (List.filter (is_inline e) (db_attachments d))).
Proof.
  unfold held_bytes. by rewrite message_content, inline_kept.
Qed.

Lemma charged_live d pk :
  List.filter (fun e => bool_decide (charged pk e)) (db_emails d) =
  List.filter (fun e => String.eqb (em_mailbox_pubkey e) pk) (List.filter live (db_emails d)).
Proof.
  induction (db_emails d) as [|e l IH]; [done|]. simpl. rewrite IH.
  assert (live e = bool_decide (em_deleted_at e = None)) as -> by (unfold live; by destruct (em_deleted_at e)).
  assert (bool_decide (charged pk e) = String.eqb (em_mailbox_pubkey e) pk && bool_decide (em_deleted_at e = None)) as ->.
  { apply eq_true_iff_eq. rewrite andb_true_iff, !bool_decide_eq_true, String.eqb_eq. done. }
  destruct (bool_decide (em_deleted_at e = None)); simpl; [|by rewrite andb_false_r].
  by destruct (String.eqb (em_mailbox_pubkey e) pk).
Qed.

Lemma inline_total d pk l :
  Zsum (map (fun p => attachment_bytes p.2) (List.filter (fun p => String.eqb (em_mailbox_pubkey p.1) pk)
    (flat_map (fun e => map (pair e) (List.filter (is_inline e) (db_attachments d))) l))) =
  Zsum (map (fun e => Zsum (map attachment_bytes (List.filter (is_inline e) (db_attachments d))))
    (List.filter (fun e => String.eqb (em_mailbox_pubkey e) pk) l)).
Proof.
  induction l as [|e l IH]; [done|]. cbn [flat_map List.filter]. rewrite List.filter_app, map_app, Zsum_app, IH.
  assert (forall atts, List.filter (fun p => String.eqb (em_mailbox_pubkey p.1) pk) (map (pair e) atts) =
    if String.eqb (em_mailbox_pubkey e) pk then map (pair e) atts else []) as ->.
  { induction atts as [|a atts IHa]; [by destruct (String.eqb _ _)|]. simpl. rewrite IHa. by destruct (String.eqb _ _). }
  destruct (String.eqb (em_mailbox_pubkey e) pk); [by rewrite map_map|done].
Qed.

Lemma measure_total d m pk : measure (None, None) d = Ok m -> in_i64 (stored_bytes d pk) ->
  default 0 (m !! pk) = stored_bytes d pk.
Proof.
  intros [= <-] Hr.
  assert (stored_bytes d pk = default 0 (group_sum em_mailbox_pubkey message_bytes (List.filter live (db_emails d)) !! pk) +
    default 0 (group_sum (fun p => em_mailbox_pubkey p.1) (fun p => attachment_bytes p.2) (inline_attachments d) !! pk)) as E.
  { rewrite !group_sum_total. unfold inline_attachments. rewrite inline_total. unfold stored_bytes. rewrite charged_live.
    induction (List.filter _ (List.filter live (db_emails d))) as [|e l IH]; [done|]. simpl. rewrite IH, held_sum. lia. }
  rewrite lookup_union_with. destruct (group_sum em_mailbox_pubkey _ _ !! pk) as [x|], (group_sum _ _ (inline_attachments d) !! pk) as [y|];
    simpl in *; [rewrite wrap64_id; [lia|by rewrite <- E]|lia..].
Qed.

Section passes.
Context {Q : Type} `{RecorderLaws Q}.

Lemma corrections_keep recorded ps : forall q r f pk, pk ∉ map fst ps ->
  recorded_usage (fold_left (correct recorded) ps (q, r, f)).1.1 !! pk = recorded_usage q !! pk.
Proof.
  induction ps as [|[pk' n] ps IH]; intros q r f pk Hn; [done|]. simpl in Hn. apply not_elem_of_cons in Hn as [Hne Hn].
  simpl. destruct (_ =? 0); [by apply IH|]. destruct (record_usage pk' _ q) as [q1 [e|]] eqn:Er; rewrite IH by done.
  - by eapply record_fails.
  - rewrite (record_adds _ _ _ _ Er). by rewrite lookup_insert_ne.
Qed.

(** The accounts whose report failed are the ones listed. *)
Lemma corrections_sync recorded ps : forall q r f pk n, NoDup (map fst ps) -> (pk, n) ∈ ps ->
  in_i64 (n - default 0 (recorded !! pk)) -> recorded_usage q !! pk = recorded !! pk ->
  pk ∉ (fold_left (correct recorded) ps (q, r, f)).2 ->
  default 0 (recorded_usage (fold_left (correct recorded) ps (q, r, f)).1.1 !! pk) = n.
Proof.
  assert (forall ps q r f x, x ∈ f -> x ∈ (fold_left (correct recorded) ps (q, r, f)).2) as Hkept.
  { clear. induction ps as [|[k n] ps IH]; intros q r f x Hx; [done|]. simpl. destruct (_ =? 0); [by apply IH|].
    destruct (record_usage k _ q) as [q1 [e|]]; apply IH; [|done]. apply elem_of_app. by left. }
  induction ps as [|[k m] ps IH]; intros q r f pk n Hnd Hin Hr Hq Hf; [by apply not_elem_of_nil in Hin|].
  simpl in Hnd. apply NoDup_cons in Hnd as [Hk Hnd]. apply elem_of_cons in Hin as [E|Hin].
  - injection E as -> ->. simpl in *. rewrite wrap64_id in * by done.
    destruct (Z.eqb_spec (m - default 0 (recorded !! k)) 0) as [Hz|Hz].
    + rewrite corrections_keep, Hq by done. lia.
    + destruct (record_usage k _ q) as [q1 [e|]] eqn:Er.
      * exfalso. apply Hf, Hkept, elem_of_app. right. by left.
      * rewrite corrections_keep by done. rewrite (record_adds _ _ _ _ Er), lookup_insert, decide_True by done. simpl.
        rewrite Hq. lia.
  - assert (pk <> k) as Hne.
    { intros ->. apply Hk. apply list_elem_of_fmap. by exists (k, n). }
    simpl in *. destruct (_ =? 0); [by apply IH|]. destruct (record_usage k _ q) as [q1 [e|]] eqn:Er.
    + apply IH; try done. rewrite <- Hq. by eapply record_fails.
    + apply IH; try done. rewrite (record_adds _ _ _ _ Er). by rewrite lookup_insert_ne.
Qed.

(** C35. A pass brings the record into line with what is stored.  In whatever
    order the accounts are walked: unless the report for an account failed,
    and the pass lists those, its component on record afterwards is the size of
    the live messages it holds, attachments on Blossom excluded, whatever was
    on record before; a failure for one account does not touch another. *)
Theorem reconcile_corrects order (d : database) (q q' : Q) r failed pk
    (Horder : forall m, order m ≡ₚ map_to_list m)
    (Hbytes : forall pk, in_i64 (stored_bytes d pk))
    (Hdiff : in_i64 (stored_bytes d pk - default 0 (recorded_usage q !! pk)))
    (Hrun : reconcile order (None, None) None d q = (q', Ok (r, failed)))
    (Hok : pk ∉ failed) :
  default 0 (recorded_usage q' !! pk) = stored_bytes d pk.
Proof.
  unfold reconcile in Hrun. destruct (measure (None, None) d) as [m|] eqn:Em; [|done]. simpl in Hrun.
  pose proof (measure_total d m pk Em (Hbytes pk)) as Ht.
  set (all := with_emptied (recorded_usage q) m) in *.
  assert (default 0 (all !! pk) = stored_bytes d pk) as Hall.
  { rewrite <- Ht. unfold all, with_emptied. rewrite lookup_union, lookup_fmap.
    destruct (m !! pk), (recorded_usage q !! pk); done. }
  assert (NoDup (map fst (order all))) as Hnd by (rewrite Horder; apply NoDup_fst_map_to_list).
  destruct (fold_left (correct (recorded_usage q)) (order all) (q, ReconcileResult 0 0 0, [])) as [[q1 r1] f1] eqn:Ef.
  injection Hrun as <- <- <-.
  destruct (all !! pk) as [n|] eqn:Ea.
  - simpl in Hall. subst n.
    pose proof (corrections_sync (recorded_usage q) (order all) q (ReconcileResult 0 0 0) [] pk (stored_bytes d pk) Hnd) as Hs.
    rewrite Ef in Hs. apply Hs; [|done..]. rewrite Horder. by apply elem_of_map_to_list.
  - pose proof (corrections_keep (recorded_usage q) (order all) q (ReconcileResult 0 0 0) [] pk) as Hs. rewrite Ef in Hs. simpl in *.
    rewrite Hs.
    + unfold all, with_emptied in Ea. rewrite lookup_union, lookup_fmap in Ea.
      destruct (recorded_usage q !! pk), (m !! pk); try done.
    + rewrite Horder. intros Hin. apply list_elem_of_fmap in Hin as ([k n] & -> & Hin). apply elem_of_map_to_list in Hin.
      simpl in Ea. congruence.
Qed.

End passes.

(** ** A platform, and one pass *)

(** Reports for the account "stuck" fail. *)
#[export] Instance sample_recorder : Recorder (gmap string Z) := {
  recorded_usage q := q;
  record_usage pk n q :=
    if String.eqb pk "stuck" then (q, Some (Sentinel "quota service unavailable"))
    else (<[pk := default 0 (q !! pk) + n]> q, None) }.
#[export] Instance sample_recorder_laws : RecorderLaws (gmap string Z).
Proof.
  split; simpl; intros; destruct (String.eqb pk "stuck"); simplify_eq; try done; by rewrite lookup_insert_ne.
Qed.

Definition html_row : email :=
  created_row "m1" 1 {|
    em_id := ""; em_mailbox_pubkey := "alice"; em_message_id := Some "m1"; em_from_address := "bob@example.com";
    em_to_address := "alice@cloistr.xyz"; em_cc := None; em_bcc := None; em_subject := "hello";
    em_body := "hi"; em_html_body := Some "<p>hi</p>"; em_is_encrypted := false; em_encryption_nonce := None;
    em_encryption_mode := None; em_sender_npub := None; em_recipient_npub := None;
    em_direction := "received"; em_status := ""; em_read_at := None; em_folder := ""; em_labels := None;
    em_in_reply_to := None; em_references := None; em_nostr_verified := true;
    em_nostr_verification_error := None; em_nostr_verified_at := None; em_created_at := 0;
    em_updated_at := 0; em_deleted_at := None |}.

Definition sample_stored : database :=
  Database [html_row]
    [Attachment "a1" "m1" "f" None (Some 100) None None None 0; Attachment "a2" "m1" "g" None (Some 7) (Some "hash") None None 0] ∅.
Definition sample_usage : gmap string Z := {["alice" := 30; "bob" := 5; "stuck" := 9]}.

Lemma sample_bytes pk : stored_bytes sample_stored pk = if String.eqb pk "alice" then 116 else 0.
Proof.
  unfold stored_bytes. rewrite charged_live. unfold sample_stored, html_row.
  cbn [db_emails List.filter live em_deleted_at created_row em_mailbox_pubkey].
  rewrite (String.eqb_sym pk). by destruct (String.eqb "alice" pk).
Qed.

Lemma reconcile_corrects_witness : exists q r,
  reconcile map_to_list (None, None) None sample_stored sample_usage = (q, Ok (r, ["stuck"])) /\
  default 0 (q !! "alice") = 116 /\ default 0 (q !! "bob") = 0.
Proof.
  destruct (reconcile map_to_list (None, None) None sample_stored sample_usage) as [q [[r failed]|]] eqn:E.
  - assert (failed = ["stuck"]) as -> by (revert E; vm_compute; by intros [= _ _ <-]).
    exists q, r. split; [done|].
    assert (forall pk, in_i64 (stored_bytes sample_stored pk)) as Hb
      by (intros pk; rewrite sample_bytes; destruct (String.eqb pk "alice"); vm_compute; split; discriminate).
    assert (forall pk, pk = "alice" \/ pk = "bob" -> default 0 (q !! pk) = stored_bytes sample_stored pk) as Hs.
    { intros pk Hpk. change (default 0 (recorded_usage q !! pk) = stored_bytes sample_stored pk). apply (reconcile_corrects map_to_list sample_stored sample_usage q r ["stuck"] pk).
      - done.
      - exact Hb.
      - destruct Hpk as [-> | ->]; vm_compute; split; discriminate.
      - exact E.
      - intros Hin%list_elem_of_singleton. destruct Hpk; congruence. }
    split; [rewrite Hs by auto|rewrite Hs by auto]; reflexivity.
  - exfalso. revert E. vm_compute. discriminate.
Defined.
