(* ===== verification/EmailApi.v ===== *)
(** * The mail endpoints: api/email_handler.go, api/drafts_handler.go, api/email_types.go

    Each handler is a function of the signed-in user (empty without a session),
    the decoded request or the decoder's error, and the state of the service
    it calls, composed with the operations of [SendService] and [MailOps].  A
    Go panic aborts the connection: [None] instead of a reply.  Instants are
    kept as numbers. *)

From stdpp Require Import sorting.
From S2P Require Import Prelude GoStrings GoUrl Nostr Base64 Identity RateLimit SendGate Signing Emails Encryption Envelope.
From S2P Require Import MailOps Mime Blossom SendService Http.
#[local] Open Scope Z_scope.

Record attachment_request := AttachmentRequest {
  aq_filename : string; aq_content_type : string; aq_data_base64 : string; aq_upload_auth : option nostr_event }.

Record send_email_request := SendEmailRequest {
  eq_from : string; eq_to : list string; eq_cc : list string; eq_bcc : list string; eq_subject : string; eq_body : string;
  eq_html_body : string; eq_encryption_mode : string; eq_pre_encrypted_body : string; eq_keys : gmap string string;
  eq_in_reply_to : string; eq_references : list string; eq_attachments : list attachment_request }.

Record send_email_response := SendEmailResponse {
  sp_status : string; sp_message_id : string; sp_encryption_mode : string; sp_results : list recipient_send_result;
  sp_error : option error }.

Record save_draft_request := SaveDraftRequest {
  dq_to : string; dq_cc : list string; dq_subject : string; dq_body : string; dq_encryption_mode : string;
  dq_in_reply_to : string; dq_references : list string }.

(** A message in a listing. *)
Record email_response := EmailResponse {
  ep_id : string; ep_message_id : string; ep_in_reply_to : string; ep_from : string; ep_to : string; ep_cc : string;
  ep_subject : string; ep_is_encrypted : bool; ep_sender_npub : string; ep_nostr_verified : bool;
  ep_nostr_verified_at : option Z; ep_created_at : Z; ep_read_at : option Z; ep_folder : string; ep_labels : list string;
  ep_is_starred : bool; ep_has_attachments : bool }.

Record attachment_response := AttachmentResponse {
  ap_id : string; ap_filename : string; ap_content_type : string; ap_data_base64 : string; ap_ciphertext : string;
  ap_requires_client : bool }.

Inductive email_body :=
| Sent (r : send_email_response)
| OneEmail (r : get_email_result) (attachments : list attachment_response)
| Listing (emails : list email_response) (total page limit : Z)
| OneAttachment (a : attachment_response)
| Stats (inbox_unread : Z)
| Done (status : string)
| Starred (b : bool)
| Moved (folder : string)
| Saved (id : string) (updated_at : Z).

Abbreviation reply := (http_reply email_body).

Definition not_authenticated : reply := unauthorized "AUTH_REQUIRED" "not authenticated".

(** ** Sending *)

Definition breaks (v : string) : bool := has_char CR v || has_char LF v.

Definition header_break_field (r : send_email_request) : string :=
  if breaks (eq_from r) then "from"
  else if existsb breaks (eq_to r) then "to"
  else if existsb breaks (eq_cc r) then "cc"
  else if existsb breaks (eq_bcc r) then "bcc"
  else if breaks (eq_subject r) then "subject"
  else if breaks (eq_in_reply_to r) then "in_reply_to"
  else if existsb breaks (eq_references r) then "references"
  else if existsb (fun a => breaks (aq_filename a) || breaks (aq_content_type a)) (eq_attachments r) then "attachments"
  else "".

(** The mode of the service, with the body it needs. *)
Definition requested_mode (r : send_email_request) : string + reply :=
  if String.eqb (eq_encryption_mode r) "server" then
    if String.eqb (eq_body r) "" then inr (bad_request "VALIDATION_FAILED" "body is required for server-side encryption")
    else inl ModeServerSide
  else if String.eqb (eq_encryption_mode r) "client" then
    if String.eqb (eq_pre_encrypted_body r) ""
    then inr (bad_request "VALIDATION_FAILED" "pre_encrypted_body is required for client-side encryption")
    else inl ModeClientSide
  else if String.eqb (eq_encryption_mode r) "none" || String.eqb (eq_encryption_mode r) "" then
    if String.eqb (eq_body r) "" then inr (bad_request "VALIDATION_FAILED" "body is required") else inl ModeNone
  else inr (bad_request "INVALID_INPUT" "invalid encryption_mode: must be 'none', 'server', or 'client'").

Fixpoint decode_attachments (atts : list attachment_request) : list attachment_input + reply :=
  match atts with
  | [] => inl []
  | a :: atts =>
      match decode (aq_data_base64 a) with
      | None => inr (bad_request "INVALID_INPUT" ("attachment data_base64 is not valid base64: " +:+ aq_filename a))
      | Some data =>
          match decode_attachments atts with
          | inl l => inl (AttachmentInput (aq_filename a) (aq_content_type a) data (aq_upload_auth a) :: l)
          | inr r => inr r
          end
      end
  end.

(** What is refused before the service is asked. *)
Definition parse_send_request (user : string) (body : res send_email_request) : send_request + reply :=
  if String.eqb user "" then inr not_authenticated
  else
    match body with
    | Err _ => inr (bad_request "INVALID_INPUT" "invalid request body")
    | Ok r =>
        if negb (String.eqb (header_break_field r) "")
        then inr (bad_request "HEADER_INJECTION" (header_break_field r +:+ " must not contain line breaks"))
        else match eq_to r with
        | [] => inr (bad_request "VALIDATION_FAILED" "at least one recipient is required")
        | _ =>
            if String.eqb (eq_subject r) "" then inr (bad_request "VALIDATION_FAILED" "subject is required")
            else
              match requested_mode r with
              | inr x => inr x
              | inl mode =>
                  match decode_attachments (eq_attachments r) with
                  | inr x => inr x
                  | inl atts =>
                      inl (SendRequest user (eq_from r) (eq_to r) (eq_cc r) (eq_bcc r) (eq_subject r) (eq_body r) (eq_html_body r) mode
                             (eq_pre_encrypted_body r) (eq_keys r) (eq_in_reply_to r) (eq_references r) None atts)
                  end
              end
        end
    end.

(** [Duration.Round(time.Second)], and its text. *)
Definition round_second (d : Z) : Z :=
  let r := Z.rem d second in
  if d <? 0 then (if - r + - r <? second then d - r else d - second - r)
  else if r + r <? second then d - r else d + second - r.
Definition duration_text (d : Z) : string :=
  let s := d / second in
  if s <? 60 then pretty s +:+ "s"
  else if s <? 3600 then pretty (s / 60) +:+ "m" +:+ pretty (s mod 60) +:+ "s"
  else pretty (s / 3600) +:+ "h" +:+ pretty (s / 60 mod 60) +:+ "m" +:+ pretty (s mod 60) +:+ "s".
Definition rate_limit_text (why : reason) (after : Z) : string :=
  if 0 <? after then "rate limit exceeded (" +:+ reason_string why +:+ "); retry after " +:+ duration_text (round_second after)
  else "rate limit exceeded (" +:+ reason_string why +:+ ")".
(** Whole seconds, at least one. *)
Definition retry_seconds (after : Z) : Z := Z.max 1 (Z.quot after second).

(** The answers to the errors of Send, in the order of the switch. *)
Definition send_refusals : list (error * (string -> reply)) :=
  [(ErrNoUnifiedAddress, forbidden "SENDER_ADDRESS_REQUIRED"); (ErrAddressNotVerified, forbidden "SENDER_ADDRESS_REQUIRED");
   (ErrFromAddressMismatch, forbidden "SENDER_ADDRESS_MISMATCH");
   (ErrAddressOwnershipMismatch, forbidden "SENDER_ADDRESS_MISMATCH");
   (ErrSendNotPermitted, forbidden "SEND_NOT_PERMITTED"); (ErrSendSuspended, forbidden "SEND_SUSPENDED");
   (ErrClientAttachmentNotEncrypted, bad_request "ATTACHMENT_NOT_ENCRYPTED");
   (ErrClientBodyNotEncrypted, bad_request "BODY_NOT_ENCRYPTED"); (ErrClientBCCUnsupported, bad_request "CLIENT_MODE_BCC_UNSUPPORTED");
   (ErrClientRecipientKeyMismatch, bad_request "RECIPIENT_KEY_MISMATCH");
   (ErrClientRecipientNotEncrypted, bad_request "RECIPIENT_NOT_ENCRYPTED");
   (ErrServerModeOneRecipient, bad_request "SERVER_ENCRYPTION_ONE_RECIPIENT");
   (ErrServerModeAttachments, bad_request "SERVER_ENCRYPTION_NO_ATTACHMENTS");
   (ErrServerRecipientNoKey, bad_request "RECIPIENT_NOT_ENCRYPTED");
   (ErrServerEncryption, fun _ => Failure 422 "SERVER_ENCRYPTION_FAILED"
      "encryption failed, so the message was NOT sent; reconnect your signer or send without encryption");
   (ErrInvalidUploadAuth, bad_request "INVALID_UPLOAD_AUTH")].

(** The first case that matches, or the default. *)
Fixpoint answer_error (cases : list (error * (string -> reply))) (otherwise : string -> reply) (e : error) : reply :=
  match cases with
  | [] => otherwise (error_text e)
  | (target, answer) :: cases => if errors_is e target then answer (error_text e) else answer_error cases otherwise e
  end.

Definition send_refusal (e : send_error) : option reply :=
  match e with
  | SendError e | SendDenied (GateError e) => Some (answer_error send_refusals internal_error e)
  | SendDenied (RateLimitError why after) =>
      Some (too_many_requests (reason_string why) (rate_limit_text why after) (retry_seconds after))
  | SendPanic _ => None
  end.

Definition send_answer (mode : string) (r : send_result) : reply :=
  Reply 200 (Sent (SendEmailResponse (if se_success r then "sent" else "failed") (se_message_id r) mode (se_recipients r)
    (if se_success r then None else se_error r))).

Section sending.
Context {S : Type} (send : send_request -> S -> S * (send_result + send_error)).

Definition send_email_v2 (user : string) (body : res send_email_request) (s : S) : S * option reply :=
  match parse_send_request user body with
  | inr r => (s, Some r)
  | inl q =>
      match send q s with
      | (s, inr e) => (s, send_refusal e)
      | (s, inl r) => (s, Some (send_answer (match body with Ok b => eq_encryption_mode b | Err _ => "" end) r))
      end
  end.

End sending.

(** ** Reading *)

Definition attachment_summary (a : attachment) : attachment_response :=
  AttachmentResponse (at_id a) (at_filename a) (default "" (at_content_type a)) "" "" false.

Definition get_email_v2 (get : string -> string -> database -> database * res get_email_result) (user id : string) (d : database)
    : database * reply :=
  if String.eqb user "" then (d, not_authenticated)
  else if String.eqb id "" then (d, bad_request "VALIDATION_FAILED" "email id is required")
  else
    match get user id d with
    | (d, Err _) => (d, not_found "RESOURCE_NOT_FOUND" "email not found")
    | (d, Ok r) => (d, Reply 200 (OneEmail r (map attachment_summary (gr_attachments r))))
    end.

Definition get_attachment_v2 (get : string -> string -> string -> res get_attachment_result) (user id attachment_id : string) : reply :=
  if String.eqb user "" then not_authenticated
  else if String.eqb id "" || String.eqb attachment_id ""
  then bad_request "VALIDATION_FAILED" "email id and attachment id are required"
  else
    match get user id attachment_id with
    | Err _ => not_found "RESOURCE_NOT_FOUND" "attachment not found"
    | Ok r =>
        Reply 200 (OneAttachment (AttachmentResponse "" (ga_filename r) (ga_content_type r)
          (if ga_client r then "" else encode (ga_data r)) (if ga_client r then ga_ciphertext r else "") (ga_client r)))
    end.

(** A positive number of the query that is no larger than the bound. *)
Definition page_param (v : string) (bound : option Z) (dflt : Z) : Z :=
  match atoi v with
  | (n, true) => if (0 <? n) && match bound with Some b => n <=? b | None => true end then n else dflt
  | _ => dflt
  end.

Definition only_true (v : string) : option bool := if String.eqb v "true" then Some true else None.

Section listing.
(** RFC 3339, or a date. *)
Context (parse_rfc3339 parse_day : string -> option Z).
Definition parse_date (s : string) : option Z := match parse_rfc3339 s with Some t => Some t | None => parse_day s end.
Definition date_param (v : string) : option Z := if String.eqb v "" then None else parse_date v.

(** [q]: what the query string parsed into. *)
Definition list_filter (q : list (string * string)) : email_filter :=
  let get k := query_get k q in
  EmailFilter (get "direction") (get "status") (get "folder") (if String.eqb (get "label") "" then [] else [get "label"])
    (if String.eqb (get "unread") "true" then Some true else if String.eqb (get "unread") "false" then Some false else None)
    (only_true (get "starred")) (get "search") (get "from") (get "to") (only_true (get "has_attachment"))
    (date_param (get "before")) (date_param (get "after")) (get "in_reply_to").

Definition list_page (q : list (string * string)) : Z := page_param (query_get "page" q) None 1.
Definition list_limit (q : list (string * string)) : Z := page_param (query_get "limit" q) (Some 100) 50.
Definition list_offset (q : list (string * string)) : Z := wrap64 (wrap64 (list_page q - 1) * list_limit q).

Definition listed_email (d : database) (e : email) : email_response :=
  let labels := default [] (em_labels e) in
  EmailResponse (em_id e) (default "" (em_message_id e)) (default "" (em_in_reply_to e)) (em_from_address e) (em_to_address e)
    (default "" (em_cc e)) (em_subject e) (em_is_encrypted e) (default "" (em_sender_npub e)) (em_nostr_verified e)
    (em_nostr_verified_at e) (em_created_at e) (em_read_at e) (em_folder e) labels
    (existsb (fun l => String.eqb l starred_label) labels)
    (existsb (fun a => String.eqb (at_email_id a) (em_id e)) (db_attachments d)).

(** PostgreSQL refuses a negative OFFSET. *)
Definition list_emails_v2 (user : string) (q : list (string * string)) (d : database) : reply :=
  if String.eqb user "" then not_authenticated
  else if list_offset q <? 0 then internal_error "failed to list emails"
  else
    let '(emails, total) := svc_list_emails user (Some (list_filter q)) (ListOptions (list_limit q) (list_offset q) false) d in
    Reply 200 (Listing (map (listed_email d) emails) total (list_page q) (list_limit q)).

End listing.

Definition email_stats_v2 (user : string) (d : database) : reply :=
  if String.eqb user "" then not_authenticated else Reply 200 (Stats (unread_inbox_count user d)).

(** ** Changing *)

(** An operation on one message: [missing] is said without an id, [failed] of
    any error. *)
Definition on_email (missing failed : string) (user id : string) (op : database -> database * option error) (done_body : email_body)
    (d : database) : database * reply :=
  if String.eqb user "" then (d, not_authenticated)
  else if String.eqb id "" then (d, bad_request "VALIDATION_FAILED" missing)
  else
    match op d with
    | (d, Some _) => (d, internal_error failed)
    | (d, None) => (d, Reply 200 done_body)
    end.

(** The same with a body, read after the id was checked. *)
Definition with_body {A} (user id : string) (body : res A) (invalid : string) (k : A -> database -> database * reply) (d : database)
    : database * reply :=
  if String.eqb user "" then (d, not_authenticated)
  else if String.eqb id "" then (d, bad_request "VALIDATION_FAILED" "email id required")
  else
    match body with
    | Err _ => (d, bad_request "INVALID_INPUT" invalid)
    | Ok a => k a d
    end.

Definition required (body : res string) : res string := let! v := body in if String.eqb v "" then Err (Sentinel "empty") else Ok v.

Definition delete_email_v2 (now : Z) (user id : string) : database -> database * reply :=
  on_email "email id is required" "failed to delete email" user id (svc_delete_email now user id) (Done "deleted").
Definition archive_email_v2 (now : Z) (user id : string) : database -> database * reply :=
  on_email "email id is required" "failed to archive email" user id (svc_archive_email now user id) (Done "archived").
Definition mark_read_v2 (now : Z) (user id : string) : database -> database * reply :=
  on_email "email id required" "failed to mark as read" user id (svc_mark_email_read now user id) (Done "read").
Definition mark_unread_v2 (now : Z) (user id : string) : database -> database * reply :=
  on_email "email id required" "failed to mark as unread" user id (svc_mark_email_unread now user id) (Done "unread").
Definition toggle_star_v2 (now : Z) (user id : string) (body : res bool) : database -> database * reply :=
  with_body user id body "invalid request body" (fun star =>
    on_email "email id required" "failed to update star" user id (svc_toggle_star now user id star) (Starred star)).
Definition add_label_v2 (now : Z) (user id : string) (body : res string) : database -> database * reply :=
  with_body user id (required body) "label is required" (fun l =>
    on_email "email id required" "failed to add label" user id (svc_add_label now user id l) (Done "ok")).
Definition remove_label_v2 (now : Z) (user id : string) (body : res string) : database -> database * reply :=
  with_body user id (required body) "label is required" (fun l =>
    on_email "email id required" "failed to remove label" user id (svc_remove_label now user id l) (Done "ok")).
Definition move_email_v2 (now : Z) (user id : string) (body : res string) : database -> database * reply :=
  with_body user id (required body) "folder is required" (fun f =>
    on_email "email id required" "failed to move email" user id (svc_move_email now user id f) (Moved f)).

Definition bulk_action_v2 (now : Z) (user : string) (body : res bulk_action_request) (d : database) : database * reply :=
  if String.eqb user "" then (d, not_authenticated)
  else
    match body with
    | Err _ => (d, bad_request "INVALID_INPUT" "invalid request body")
    | Ok r =>
        if bool_decide (ba_ids r = []) then (d, bad_request "VALIDATION_FAILED" "ids is required")
        else if String.eqb (ba_action r) "" then (d, bad_request "VALIDATION_FAILED" "action is required")
        else
          match bulk_action now user r d with
          | (d, Some e) => (d, internal_error (error_text e))
          | (d, None) => (d, Reply 200 (Done "ok"))
          end
    end.

(** ** Drafts *)

Definition draft_refusals : list (error * (string -> reply)) :=
  [(ErrDraftNotFound, fun _ => not_found "DRAFT_NOT_FOUND" "draft not found");
   (ErrClientBodyNotEncrypted, bad_request "BODY_NOT_ENCRYPTED"); (ErrDraftKeyNotOwner, bad_request "DRAFT_NOT_READABLE");
   (ErrDraftServerMode, bad_request "DRAFT_SERVER_ENCRYPTION"); (ErrDraftTooLarge, Failure 413 "DRAFT_TOO_LARGE")].

Section drafts.
Context `{JSON} (is_uuid : string -> bool).

Definition save_draft_v2 (gen : string) (now : Z) (user id : string) (body : res save_draft_request) (ok_status : Z) (d : database)
    : database * reply :=
  if String.eqb user "" then (d, not_authenticated)
  else
    match body with
    | Err _ => (d, bad_request "INVALID_INPUT" "invalid request body")
    | Ok r =>
        let x := DraftInput id (dq_to r) (dq_cc r) (dq_subject r) (dq_body r) (dq_encryption_mode r) (dq_in_reply_to r) (dq_references r) in
        match save_draft is_uuid gen now user x d with
        | (d, Err e) => (d, answer_error draft_refusals (fun _ => internal_error "failed to save draft") e)
        | (d, Ok i) => (d, Reply ok_status (Saved i now))
        end
    end.

Definition create_draft_v2 (gen : string) (now : Z) (user : string) (body : res save_draft_request) : database -> database * reply :=
  save_draft_v2 gen now user "" body 201.
Definition update_draft_v2 (gen : string) (now : Z) (user id : string) (body : res save_draft_request) (d : database)
    : database * reply :=
  if String.eqb id "" then (d, bad_request "VALIDATION_FAILED" "draft id required")
  else save_draft_v2 gen now user id body 200 d.

End drafts.

(** * Properties *)

(** The fields of a request that end up in the header of a message. *)
Definition header_fields (r : send_request) : list string :=
  sr_from r :: sr_to r ++ sr_cc r ++ sr_bcc r ++ [sr_subject r; sr_in_reply_to r] ++ sr_references r ++
  flat_map (fun a => [ai_filename a; ai_content_type a]) (sr_attachments r).

Lemma existsb_none {A} (f : A -> bool) l : existsb f l = false -> Forall (fun x => f x = false) l.
Proof. induction l as [|x l IH]; simpl; [done|]. intros [Hx Hl]%orb_false_iff. constructor; auto. Qed.

Lemma header_break_none r : header_break_field r = "" ->
  Forall (fun v => breaks v = false) (eq_from r :: eq_to r ++ eq_cc r ++ eq_bcc r ++ [eq_subject r; eq_in_reply_to r] ++ eq_references r) /\
  Forall (fun a => breaks (aq_filename a) = false /\ breaks (aq_content_type a) = false) (eq_attachments r).
Proof.
  unfold header_break_field. intros H.
  repeat match goal with Hx : (if ?b then _ else _) = "" |- _ => destruct b eqn:?; [discriminate Hx|] end.
  repeat match goal with Hx : existsb _ _ = false |- _ => apply existsb_none in Hx end.
  split; [rewrite Forall_cons, !Forall_app, !Forall_cons; split_and!; by try constructor|].
  eapply Forall_impl; [eassumption|]. intros a. apply orb_false_iff.
Qed.

Lemma decoded_names atts l : decode_attachments atts = inl l ->
  map ai_filename l = map aq_filename atts /\ map ai_content_type l = map aq_content_type atts.
Proof.
  revert l. induction atts as [|a atts IH]; intros l; simpl; [by intros [= <-]|].
  destruct (decode _); [|done]. destruct (decode_attachments atts) as [l'|]; [|done]. intros [= <-]. simpl.
  destruct (IH l' eq_refl) as [-> ->]. done.
Qed.

Lemma parsed_request user body q : parse_send_request user body = inl q ->
  sr_sender q = user /\ user <> "" /\ sr_to q <> [] /\ Forall (fun v => breaks v = false) (header_fields q) /\
  (sr_mode q = ModeServerSide \/ sr_mode q = ModeClientSide \/ sr_mode q = ModeNone).
Proof.
  unfold parse_send_request. destruct (String.eqb_spec user ""); [done|]. destruct body as [r|]; [|done].
  destruct (String.eqb_spec (header_break_field r) "") as [Hb|]; [|done]. cbn [negb].
  destruct (eq_to r) as [|t ts] eqn:Et; [done|]. destruct (String.eqb (eq_subject r) ""); [done|].
  destruct (requested_mode r) as [mode|] eqn:Em; [|done]. destruct (decode_attachments _) as [atts|] eqn:Ea; [|done].
  intros [= <-]. split; [done|]. split; [done|]. split; [done|]. split.
  - apply header_break_none in Hb as [Hf Ha]. apply decoded_names in Ea as [En Ec].
    assert (forall q, header_fields q =
      (sr_from q :: sr_to q ++ sr_cc q ++ sr_bcc q ++ [sr_subject q; sr_in_reply_to q] ++ sr_references q) ++
      flat_map (fun a => [ai_filename a; ai_content_type a]) (sr_attachments q)) as ->
      by (intros q; unfold header_fields; cbn [app]; by rewrite <- !app_assoc).
    cbn [sr_from sr_to sr_cc sr_bcc sr_subject sr_in_reply_to sr_references sr_attachments]. rewrite Et in Hf.
    apply Forall_app. split; [exact Hf|]. clear -Ha En Ec.
    revert atts En Ec. induction Ha as [|a l [H1 H2] _ IH]; intros [|x atts]; try done.
    simpl. intros [= -> En] [= -> Ec]. rewrite !Forall_cons. auto.
  - unfold requested_mode in Em. repeat (case_match; simplify_eq); auto.
Qed.

(** No line break reaches a header.  A send request is answered without
    asking the service, which is then untouched, or the service is asked
    exactly once, for the signed-in user and at least one recipient, and no
    address, subject, reference, file name or content type it is given holds a
    carriage return or a line feed; the answer is then the service's. *)
Theorem line_breaks_never_reach_send {S} (send : send_request -> S -> S * (send_result + send_error)) user body s :
  (exists r, send_email_v2 send user body s = (s, Some r) /\ (status_of r = 400 \/ status_of r = 401)) \/
  exists q, sr_sender q = user /\ user <> "" /\ sr_to q <> [] /\
    (forall v, v ∈ header_fields q -> has_char CR v = false /\ has_char LF v = false) /\
    (send_email_v2 send user body s).1 = (send q s).1 /\
    match (send q s).2 with
    | inr e => (send_email_v2 send user body s).2 = send_refusal e
    | inl r => exists mode, (send_email_v2 send user body s).2 = Some (send_answer mode r)
    end.
Proof.
  unfold send_email_v2. destruct (parse_send_request user body) as [q|r] eqn:Ep.
  - right. exists q. apply parsed_request in Ep as (Hu & Hne & Hto & Hf & _). split; [done|]. split; [done|]. split; [done|]. split.
    + intros v Hv. rewrite Forall_forall in Hf. apply orb_false_iff. by apply Hf.
    + destruct (send q s) as [s' [x|e]]; simpl; eauto.
  - left. exists r. split; [done|]. unfold parse_send_request in Ep.
    assert (forall atts r, decode_attachments atts = inr r -> status_of r = 400) as Hatt.
    { clear. induction atts as [|a atts IH]; intros r; simpl; [done|]. destruct (decode _); [|by intros [= <-]].
      destruct (decode_attachments atts) eqn:E; [done|]. intros [= <-]. by apply IH. }
    assert (forall b r, requested_mode b = inr r -> status_of r = 400) as Hmode.
    { clear. intros b r. unfold requested_mode. repeat case_match; intros; simplify_eq; done. }
    destruct (String.eqb user ""); [injection Ep as <-; auto|]. destruct body as [b|]; [|injection Ep as <-; auto].
    destruct (negb _); [injection Ep as <-; auto|]. destruct (eq_to b); [injection Ep as <-; auto|].
    destruct (String.eqb _ _); [injection Ep as <-; auto|]. left.
    destruct (requested_mode b) eqn:Em; [|injection Ep as <-; by eapply Hmode].
    destruct (decode_attachments _) eqn:Ea; [done|]. injection Ep as <-. by eapply Hatt.
Qed.

(** The errors that [send_refusals] answers with 400, bare or with context. *)
Definition content_errors : list error :=
  [ErrClientAttachmentNotEncrypted; ErrClientBodyNotEncrypted; ErrClientBCCUnsupported; ErrClientRecipientKeyMismatch;
   ErrClientRecipientNotEncrypted; ErrServerModeOneRecipient; ErrServerModeAttachments; ErrServerRecipientNoKey;
   ErrInvalidUploadAuth].
Definition about_content (e : error) : Prop := exists c, c ∈ content_errors /\ (e = c \/ exists ctx, e = Wrapped ctx c).

Lemma content_answer e : about_content e -> exists r, send_refusal (SendError e) = Some r /\ status_of r = 400.
Proof.
  intros (c & Hc & He). unfold content_errors in Hc.
  repeat (apply elem_of_cons in Hc as [->|Hc]; [destruct He as [-> | [ctx ->]]; eexists; split; reflexivity|]).
  by apply not_elem_of_nil in Hc.
Qed.

Ltac content c := exists c; split; [unfold content_errors; by repeat first [apply list_elem_of_here | apply list_elem_of_further]|first [by left | right; by eexists]].

Section content.
Context `{JSON} (order : gmap string string -> list (string * string)) (sha256 : string -> string)
  (check_event : nostr_event -> bool).

Lemma upload_auth_content pk atts now e : check_client_upload_auth sha256 check_event pk atts now = Some e -> about_content e.
Proof.
  induction atts as [|a atts IH]; simpl; [done|]. destruct (ai_upload_auth a); [|done].
  case_match; [|done]. intros [= <-]. content ErrInvalidUploadAuth.
Qed.

Lemma covered_content r e : check_client_recipients_covered order r = Err e -> about_content e.
Proof.
  unfold check_client_recipients_covered. destruct (body_holders order r) as [h|e'] eqn:Eh; simpl.
  - destruct (List.filter _ _); [done|]. intros [= <-]. content ErrClientRecipientNotEncrypted.
  - intros [= <-]. unfold body_holders in Eh. destruct (body_key_holders _); [done|].
    destruct (client_recipients r) as [|a [|]]; [|destruct (String.eqb _ _); [|done]|];
      injection Eh as <-; content ErrClientRecipientNotEncrypted.
Qed.

Lemma client_content now r e : check_client order sha256 check_event now r = Err e -> about_content e.
Proof.
  unfold check_client. destruct (negb _); [done|].
  destruct (check_client_body_encrypted _) eqn:Eb.
  { intros [= <-]. unfold check_client_body_encrypted in Eb. destruct (_ || _); [done|]. injection Eb as <-.
    content ErrClientBodyNotEncrypted. }
  destruct (check_client_attachments_encrypted _) eqn:Ea.
  { intros [= <-]. unfold check_client_attachments_encrypted in Ea. destruct (List.find _ _); [|done]. injection Ea as <-.
    content ErrClientAttachmentNotEncrypted. }
  destruct (check_client_upload_auth _ _ _ _ _) eqn:Eu; [intros [= <-]; by eapply upload_auth_content|].
  destruct (check_client_no_bcc r) eqn:Ec; [|apply covered_content].
  intros [= <-]. unfold check_client_no_bcc in Ec. destruct (sr_bcc r); [done|]. injection Ec as <-. content ErrClientBCCUnsupported.
Qed.

(** A message refused for its content is answered as the client's mistake.
    Whatever the checks of the two encrypted modes refuse, a body or an
    attachment that is not encrypted, a foreign upload authorization, a Bcc, a
    recipient without a key or with another's, too many recipients, is answered
    400, never as a server error that invites a retry. *)
Theorem refused_content_is_a_client_error now (r : send_request) resolved keys e
    (He : check_client order sha256 check_event now r = Err e \/ check_client_keys_match_resolved order r resolved = Some e \/
          check_server_mode_sendable r keys = Some e) :
  exists rep, send_refusal (SendError e) = Some rep /\ status_of rep = 400.
Proof.
  apply content_answer. destruct He as [He|[He|He]].
  - by eapply client_content.
  - unfold check_client_keys_match_resolved in He. destruct (List.filter _ _); [done|]. injection He as <-.
    content ErrClientRecipientKeyMismatch.
  - unfold check_server_mode_sendable in He.
    destruct (sr_to r) as [|a [|]], (sr_cc r), (sr_bcc r); try (injection He as <-; content ErrServerModeOneRecipient).
    destruct (sr_attachments r); [|injection He as <-; content ErrServerModeAttachments].
    destruct (String.eqb _ _); [|done]. injection He as <-. content ErrServerRecipientNoKey.
Qed.

End content.

Lemma sorted_sub {A} (rel : A -> A -> Prop) m n l : StronglySorted rel l -> StronglySorted rel (take n (drop m l)).
Proof.
  rewrite <- (take_drop m l) at 1. intros H%StronglySorted_app_1_r. rewrite <- (take_drop n (drop m l)) in H.
  by apply StronglySorted_app_1_l in H.
Qed.

(** The inbox is listed oldest first.  The endpoint leaves the direction of
    the order at its zero value, which is ascending: the messages of every page
    are in the order of their creation, so that the first page shows the oldest
    mail of the mailbox and new mail is on the last. *)
Theorem inbox_is_listed_oldest_first parse_rfc3339 parse_day user q d es total page lim
    (Hl : list_emails_v2 parse_rfc3339 parse_day user q d = Reply 200 (Listing es total page lim)) :
  StronglySorted Z.le (map ep_created_at es).
Proof.
  unfold list_emails_v2 in Hl. destruct (String.eqb user ""); [done|]. destruct (_ <? 0); [done|].
  unfold svc_list_emails, list_emails in Hl. cbv zeta beta iota in Hl. injection Hl as <- _ _ _.
  rewrite !map_map. cbn [listed_email ep_created_at order_desc limit offset].
  set (l := List.filter _ _).
  assert (StronglySorted (listed_before false) (merge_sort (listed_before false) l)) as Hs.
  { apply StronglySorted_merge_sort; unfold listed_before; [intros x y z; lia|intros x y; lia]. }
  eapply (sorted_sub _ (Z.to_nat (list_offset q)) (Z.to_nat (list_limit q))) in Hs.
  clearbody l. induction Hs as [|x l' Hs IH Hx]; [constructor|]. simpl. constructor; [exact IH|].
  apply Forall_fmap. eapply Forall_impl; [exact Hx|]. done.
Qed.

(** ** Witnesses *)

Definition sample_open_request : send_request :=
  SendRequest (sample_key "a") "" ["bob@cloistr.xyz"] [] [] "subject" "" "" ModeClientSide "readable" ∅ "" [] None [].

(** Alice's request to Bob, with a key under each spelling of his address: his
    own key, and the same with two lines more. *)
Definition key_with_lines : string := sample_key "B" +:+ CRLF +:+ "From: ceo@bank.example" +:+ CRLF +:+ "Reply-To: eve@evil.example".
Definition evil_keys_request : send_email_request :=
  SendEmailRequest "" ["bob@cloistr.xyz"] [] [] "subject" "" "" "client" "envelope"
    {[ "bob@cloistr.xyz" := key_with_lines; "BOB@cloistr.xyz" := sample_key "B" ]} "" [] [].
Definition evil_prepared (order : gmap string string -> list field) : res (message unit * gmap string string) :=
  match parse_send_request (sample_key "a") (Ok evil_keys_request) with
  | inl r => prepare order sample_sha no_events None ["cloistr.xyz"] sample_accounts 0 r "alice@cloistr.xyz"
  | inr _ => Err (Sentinel "refused")
  end.

(** The keys of a request can inject header lines.  [headerBreakField] refuses
    line breaks everywhere else, but not in 'recipient_pubkeys'; in client mode
    the key that is compared with the resolved one is the last that Go's walk
    meets under any spelling of the address, and the key that is written into
    the header is the one under the literal address.  In one of the orders of
    that walk this request passes every check, and its message reads back with
    a second From line. *)
Theorem recipient_keys_inject_headers : exists order m keys raw to lines content,
  (forall h, order h ≡ₚ map_to_list h) /\ header_break_field evil_keys_request = "" /\
  evil_prepared order = Ok (m, keys) /\
  build_raw_email_report sample_digest None (fun s => s) order sample_clock m = Ok (raw, to) /\
  read_header 20 raw = Some (lines, content) /\
  List.filter (fun l => has_prefix l "From: ") lines = ["From: alice@cloistr.xyz"; "From: ceo@bank.example"].
Proof.
  exists map_to_list. eexists _, _, _, _, _, _. split; [done|]. split; [reflexivity|].
  split; [vm_compute; reflexivity|]. split; [vm_compute; reflexivity|]. split; vm_compute; reflexivity.
Qed.

Lemma refused_content_is_a_client_error_witness :
  exists rep, send_refusal (SendError ErrClientBodyNotEncrypted) = Some rep /\ status_of rep = 400.
Proof.
  apply (refused_content_is_a_client_error map_to_list sample_sha no_events 0 sample_open_request ∅ ∅).
  left. vm_compute. reflexivity.
Defined.

Definition inbox_row (id : string) (at_ : Z) : Emails.email :=
  Email id "alice" None "a@x" "b@y" None None "s" "b" None false None (Some ModeNone) (Some "alice") None
    "received" "active" None "INBOX" None None None false None None at_ at_ None.
Definition sample_inbox : database := Database [inbox_row "new" 9; inbox_row "old" 3] [] ∅.
Definition no_date (s : string) : option Z := None.

Lemma inbox_is_listed_oldest_first_witness :
  match list_emails_v2 no_date no_date "alice" [("limit", "1")] sample_inbox with
  | Reply _ (Listing es total _ _) => map ep_id es = ["old"] /\ total = 2 /\ StronglySorted Z.le (map ep_created_at es)
  | _ => False
  end.
Proof.
  destruct (list_emails_v2 no_date no_date "alice" [("limit", "1")] sample_inbox) as [st b| |] eqn:E;
    vm_compute in E; try discriminate E.
  injection E as <- <-. split; [reflexivity|]. split; [reflexivity|].
  apply (inbox_is_listed_oldest_first no_date no_date "alice" [("limit", "1")] sample_inbox _ 2 1 1). vm_compute. reflexivity.
Defined.
