(* ===== verification/Contacts.v ===== *)
(** * The address book: api/handler.go, storage/postgres.go, "Contact Operations"

    The contacts and mailboxes tables are shared by the requests of every user;
    handlers are programs of [Prog] whose statements interleave and may fail.
    Rows are kept by their canonical id.  PostgreSQL's reading of a UUID, its
    collation and ILIKE, Go's reading of an address and the UUID library are
    parameters; instants are numbers, and the order of equal names is the
    map's. *)

From stdpp Require Import sorting.
From S2P Require Import Prelude GoStrings GoUrl Mailboxes Emails Http Prog.
#[local] Open Scope Z_scope.
#[local] Open Scope prog_scope.

Record contact := Contact {
  ct_id : string; ct_owner : string; ct_email : string; ct_name : option string; ct_npub : option string;
  ct_notes : option string; ct_organization : option string; ct_phone : option string; ct_always_encrypt : bool;
  ct_blocked : bool; ct_created_at : Z; ct_updated_at : Z; ct_deleted_at : option Z }.

Record contact_response := ContactResponse {
  cp_id : string; cp_email : string; cp_name : string; cp_npub : string; cp_notes : string; cp_organization : string;
  cp_phone : string; cp_always_encrypt : bool; cp_blocked : bool; cp_created_at : Z; cp_updated_at : Z }.

Record contact_fields := ContactFields {
  cf_email : option string; cf_name : option string; cf_npub : option string; cf_notes : option string;
  cf_organization : option string; cf_phone : option string; cf_always_encrypt : option bool; cf_blocked : option bool }.

Inductive contact_body :=
| Contacts (cs : list contact_response) (total : Z)
| OneContact (c : contact_response)
| ContactDeleted.

Abbreviation reply := (http_reply contact_body).

Record book := Book { bk_contacts : gmap string contact; bk_mailboxes : mailbox_table }.

Definition ErrContactExists : error := Sentinel "contact already exists for this email".
Definition ErrContactNotFound : error := Sentinel "contact not found".
(** What the driver says of a statement that PostgreSQL refuses. *)
Definition invalid_uuid : error := Sentinel "invalid input syntax for type uuid".
Definition too_long : error := Sentinel "value too long".
Definition no_mailbox : error := Sentinel "foreign key".

(** ** The fields of a request *)

Definition contact_response_of (c : contact) : contact_response :=
  ContactResponse (ct_id c) (ct_email c) (default "" (ct_name c)) (default "" (ct_npub c)) (default "" (ct_notes c))
    (default "" (ct_organization c)) (default "" (ct_phone c)) (ct_always_encrypt c) (ct_blocked c) (ct_created_at c)
    (ct_updated_at c).

Definition max_contact_field : Z := 255.

(** An absent field is left as it was and an empty one is cleared. *)
Definition optional_field (name : string) (limit : Z) (src old : option string) : option string + reply :=
  match src with
  | None => inl old
  | Some s =>
      let v := trim_space s in
      if limit <? str_len v then inr (bad_request "VALIDATION_FAILED" (name +:+ " is too long"))
      else inl (if String.eqb v "" then None else Some v)
  end.

Section contacts.
Context (parse_address : string -> option (string * string)) (uuid_parses : string -> bool) (pg_uuid : string -> option string)
  (collates : string -> string -> bool) (ilike : string -> string -> bool).

Definition apply_email (src : option string) (old : string) : string + reply :=
  match src with
  | None => inl old
  | Some s =>
      let refusal := inr (bad_request "VALIDATION_FAILED" "email must be a plain email address") in
      match parse_address (trim_space s) with
      | None => refusal
      | Some (name, address) =>
          if negb (String.eqb name "") || (max_contact_field <? str_len address) then refusal else inl (to_lower address)
      end
  end.

Definition apply_fields (f : contact_fields) (c : contact) : contact + reply :=
  match apply_email (cf_email f) (ct_email c) with inr r => inr r | inl email =>
  match optional_field "name" max_contact_field (cf_name f) (ct_name c) with inr r => inr r | inl name =>
  match optional_field "npub" max_contact_field (cf_npub f) (ct_npub c) with inr r => inr r | inl npub =>
  match optional_field "notes" 10000 (cf_notes f) (ct_notes c) with inr r => inr r | inl notes =>
  match optional_field "organization" max_contact_field (cf_organization f) (ct_organization c) with inr r => inr r | inl org =>
  match optional_field "phone" 50 (cf_phone f) (ct_phone c) with inr r => inr r | inl phone =>
    inl (Contact (ct_id c) (ct_owner c) email name npub notes org phone (default (ct_always_encrypt c) (cf_always_encrypt f))
           (default (ct_blocked c) (cf_blocked f)) (ct_created_at c) (ct_updated_at c) (ct_deleted_at c))
  end end end end end end.

(** ** Statements *)

Definition live_contact (c : contact) : bool := match ct_deleted_at c with None => true | Some _ => false end.
Definition contact_owned_by (owner : string) (c : contact) : bool := String.eqb (ct_owner c) owner.
Definition contact_fits (c : contact) : bool :=
  fits 255 (ct_email c) && fits_opt 255 (ct_name c) && fits_opt 128 (ct_npub c) && fits_opt 255 (ct_organization c) &&
  fits_opt 20 (ct_phone c).

(** The rows in the order of the map. *)
Definition contact_rows (b : book) : list contact := map snd (map_to_list (bk_contacts b)).
Definition same_contact (owner email : string) (c : contact) : bool := contact_owned_by owner c && String.eqb (ct_email c) email.
Definition with_contact (c : contact) (b : book) : book := Book (<[ct_id c := c]> (bk_contacts b)) (bk_mailboxes b).

(** The row with the columns of [c] that a request can set. *)
Definition contact_row (id : string) (created updated : Z) (c : contact) : contact :=
  Contact id (ct_owner c) (ct_email c) (ct_name c) (ct_npub c) (ct_notes c) (ct_organization c) (ct_phone c)
    (ct_always_encrypt c) (ct_blocked c) created updated None.

Definition insert_contact (id : string) (now : Z) (c : contact) (b : book) : book * res contact :=
  if negb (contact_fits c) then (b, Err (Wrapped "failed to create contact" too_long))
  else
    match List.find (same_contact (ct_owner c) (ct_email c)) (contact_rows b) with
    | Some old =>
        if live_contact old then (b, Err ErrContactExists)
        else let row := contact_row (ct_id old) now now c in (with_contact row b, Ok row)
    | None =>
        match bk_contacts b !! id, bk_mailboxes b !! ct_owner c with
        | Some _, _ => (b, Err ErrContactExists)
        | None, None => (b, Err (Wrapped "failed to create contact" no_mailbox))
        | None, Some _ => let row := contact_row id now now c in (with_contact row b, Ok row)
        end
    end.

Definition find_contact (owner id : string) (b : book) : res (option contact) :=
  match pg_uuid id with
  | None => Err invalid_uuid
  | Some i => Ok (c ← bk_contacts b !! i; if contact_owned_by owner c && live_contact c then Some c else None)
  end.

Definition select_contact (owner id : string) (b : book) : book * res (option contact) :=
  (b, wrap "failed to get contact" (find_contact owner id b)).

Definition select_contact_by_email (owner email : string) (b : book) : book * res (option contact) :=
  (b, Ok (List.find (fun c => same_contact owner email c && live_contact c) (contact_rows b))).

(** [ORDER BY name NULLS LAST]. *)
Definition named_before (desc : bool) (c c' : contact) : Prop :=
  match ct_name c, ct_name c' with
  | Some n, Some n' => (if desc then collates n' n else collates n n') = true
  | None, Some _ => False
  | _, None => True
  end.
#[export] Instance named_before_dec desc : RelDecision (named_before desc).
Proof. intros c c'. unfold named_before. destruct (ct_name c), (ct_name c'); apply _. Defined.

Definition own_contacts (owner : string) (b : book) : list contact :=
  List.filter (fun c => contact_owned_by owner c && live_contact c) (contact_rows b).
Definition count_contacts (owner : string) (b : book) : book * res Z := (b, Ok (Z.of_nat (length (own_contacts owner b)))).
Definition select_contacts (owner : string) (o : list_options) (b : book) : book * res (list contact) :=
  (b, Ok (take (Z.to_nat (limit o)) (drop (Z.to_nat (offset o)) (merge_sort (named_before (order_desc o)) (own_contacts owner b))))).

Definition search_rows (owner query : string) (limit : Z) (b : book) : book * res (list contact) :=
  let limit := if limit <=? 0 then 10 else limit in
  let pattern := "%" +:+ query +:+ "%" in
  let hit c := match ct_name c with Some n => ilike n pattern | None => false end || ilike (ct_email c) pattern in
  (b, Ok (take (Z.to_nat limit) (merge_sort (named_before false) (List.filter hit (own_contacts owner b))))).

Definition update_contact_row (now : Z) (c : contact) (b : book) : book * res contact :=
  match find_contact (ct_owner c) (ct_id c) b with
  | Err e => (b, Err (Wrapped "failed to update contact" e))
  | Ok None => (b, Err ErrContactNotFound)
  | Ok (Some old) =>
      if negb (contact_fits c) then (b, Err (Wrapped "failed to update contact" too_long))
      else if existsb (fun x => same_contact (ct_owner c) (ct_email c) x && negb (String.eqb (ct_id x) (ct_id old))) (contact_rows b)
      then (b, Err ErrContactExists)
      else (with_contact (contact_row (ct_id old) (ct_created_at old) now c) b, Ok (contact_row (ct_id c) (ct_created_at c) now c))
  end.

Definition delete_contact_row (now : Z) (owner id : string) (b : book) : book * res unit :=
  match find_contact owner id b with
  | Err e => (b, Err (Wrapped "failed to delete contact" e))
  | Ok None => (b, Err ErrContactNotFound)
  | Ok (Some c) =>
      (with_contact (Contact (ct_id c) (ct_owner c) (ct_email c) (ct_name c) (ct_npub c) (ct_notes c) (ct_organization c)
         (ct_phone c) (ct_always_encrypt c) (ct_blocked c) (ct_created_at c) now (Some now)) b, Ok ())
  end.

Definition ensure_row (now : Z) (owner : string) (b : book) : book * res mailbox :=
  let '(t, r) := ensure_mailbox None now owner (bk_mailboxes b) in (Book (bk_contacts b) t, r).

(** ** The store, as the handlers call it *)

Inductive query : Type -> Type := Database : query outcome.
Abbreviation P := (prog book query).

(** [ctx]: said of a statement that did not come through. *)
Definition execute {A} (ctx : string) (f : book -> book * res A) : P (res A) :=
  do r <- statement Database f; Ret (match r with Ok x => x | Err e => Err (Wrapped ctx e) end).

Definition create_contact (c : contact) : P (res contact) :=
  do fresh <- (if String.eqb (ct_id c) "" then call Uuid else Ret (ct_id c));
  do now <- call Now;
  execute "failed to create contact" (insert_contact fresh now c).
Definition get_contact (owner id : string) : P (res (option contact)) :=
  execute "failed to get contact" (select_contact owner id).
Definition get_contact_by_email (owner email : string) : P (res (option contact)) :=
  execute "failed to get contact by email" (select_contact_by_email owner email).
Definition list_contacts (owner : string) (o : list_options) : P (res (list contact * Z)) :=
  try total <- execute "failed to count contacts" (count_contacts owner);
  try cs <- execute "failed to list contacts" (select_contacts owner o);
  Ret (Ok (cs, total)).
Definition search_contacts (owner query : string) (limit : Z) : P (res (list contact)) :=
  execute "failed to search contacts" (search_rows owner query limit).
Definition update_contact (c : contact) : P (res contact) :=
  do now <- call Now; execute "failed to update contact" (update_contact_row now c).
Definition delete_contact (owner id : string) : P (res unit) :=
  do now <- call Now; execute "failed to delete contact" (delete_contact_row now owner id).
Definition ensure_mailbox_row (owner : string) : P (res mailbox) :=
  do now <- call Now; execute "failed to ensure mailbox" (ensure_row now owner).

(** ** The handlers *)

Definition contact_missing : reply := not_found "RESOURCE_NOT_FOUND" "contact not found".

(** [contactsReady]; [configured]: whether there is a database. *)
Definition contacts_ready (configured : bool) (user : string) (k : P reply) : P reply :=
  if String.eqb user "" then Ret (unauthorized "AUTH_REQUIRED" "not authenticated")
  else if negb configured then Ret (service_unavailable "STORAGE_UNAVAILABLE" "contacts are unavailable" 30)
  else k.

Definition contact_id (id : string) (k : P reply) : P reply := if uuid_parses id then k else Ret contact_missing.

Definition contact_storage_error (e : error) : reply :=
  if errors_is e ErrContactExists then conflict "CONTACT_EXISTS" "that address is already in your contacts"
  else if errors_is e ErrContactNotFound then contact_missing
  else internal_error "could not reach your contacts".

(** A call of the store, and the rest of a handler. *)
Definition stored {A} (p : P (res A)) (k : A -> P reply) : P reply :=
  do r <- p; match r with Ok a => k a | Err e => Ret (contact_storage_error e) end.

Definition list_contacts_handler (user : string) (q : list (string * string)) : P reply :=
  let limit := (atoi (query_get "limit" q)).1 in
  let limit := if (limit <=? 0) || (200 <? limit) then 50 else limit in
  let offset := Z.max 0 (atoi (query_get "offset" q)).1 in
  let search := trim_space (query_get "search" q) in
  let show cs total := Ret (Reply 200 (Contacts (map contact_response_of cs) total)) in
  if negb (String.eqb search "") then stored (search_contacts user search limit) (fun cs => show cs (Z.of_nat (length cs)))
  else stored (list_contacts user (ListOptions limit offset false)) (fun '(cs, total) => show cs total).

Definition new_contact (user : string) : contact := Contact "" user "" None None None None None false false 0 0 None.

Definition add_contact_handler (user : string) (body : res contact_fields) : P reply :=
  match body with
  | Err _ => Ret (bad_request "INVALID_INPUT" "invalid request body")
  | Ok f =>
      if String.eqb (trim_space (default "" (cf_email f))) "" then Ret (bad_request "VALIDATION_FAILED" "email is required")
      else
        match apply_fields f (new_contact user) with
        | inr r => Ret r
        | inl c =>
            stored (ensure_mailbox_row user) (fun _ =>
            stored (create_contact c) (fun c => Ret (Reply 201 (OneContact (contact_response_of c)))))
        end
  end.

Definition with_found (user id : string) (k : contact -> P reply) : P reply :=
  stored (get_contact user id) (fun c => match c with None => Ret contact_missing | Some c => k c end).

Definition get_contact_handler (user id : string) : P reply :=
  contact_id id (with_found user id (fun c => Ret (Reply 200 (OneContact (contact_response_of c))))).

Definition update_contact_handler (user id : string) (body : res contact_fields) : P reply :=
  contact_id id
    match body with
    | Err _ => Ret (bad_request "INVALID_INPUT" "invalid request body")
    | Ok f =>
        with_found user id (fun c =>
          match apply_fields f c with
          | inr r => Ret r
          | inl c => stored (update_contact c) (fun c => Ret (Reply 200 (OneContact (contact_response_of c))))
          end)
    end.

Definition delete_contact_handler (user id : string) : P reply :=
  contact_id id (stored (delete_contact user id) (fun _ => Ret (Reply 200 ContactDeleted))).

Inductive contact_request :=
| ListContactsR (q : list (string * string))
| AddContactR (body : res contact_fields)
| GetContactR (id : string)
| UpdateContactR (id : string) (body : res contact_fields)
| DeleteContactR (id : string).

Definition handle_contacts (user : string) (r : contact_request) : P reply :=
  match r with
  | ListContactsR q => list_contacts_handler user q
  | AddContactR body => add_contact_handler user body
  | GetContactR id => get_contact_handler user id
  | UpdateContactR id body => update_contact_handler user id body
  | DeleteContactR id => delete_contact_handler user id
  end.
(** A request with the user of its session. *)
Definition serve_contacts (configured : bool) (q : string * contact_request) : P reply :=
  contacts_ready configured q.1 (handle_contacts q.1 q.2).

(** * Properties *)

(** Rows are kept by their id, fit their columns, and no user has two for one
    address. *)
Record book_ok (b : book) : Prop := BookOk {
  ok_ids : forall k c, bk_contacts b !! k = Some c -> ct_id c = k;
  ok_fit : forall k c, bk_contacts b !! k = Some c -> contact_fits c = true;
  ok_addresses : forall k k' c c', bk_contacts b !! k = Some c -> bk_contacts b !! k' = Some c' ->
    ct_owner c = ct_owner c' -> ct_email c = ct_email c' -> k = k' }.

(** A statement for [u] writes at most one row, [u]'s, under an id that is new or [u]'s. *)
Record writes (u : string) (b : book) (row : contact) : Prop := Writes {
  wr_owner : ct_owner row = u;
  wr_fits : contact_fits row = true;
  wr_old : forall old, bk_contacts b !! ct_id row = Some old -> ct_owner old = u;
  wr_unique : forall k c, bk_contacts b !! k = Some c -> ct_owner c = u -> ct_email c = ct_email row -> k = ct_id row }.
Definition statement_of (u : string) (b b' : book) : Prop :=
  bk_contacts b' = bk_contacts b \/ exists row, writes u b row /\ bk_contacts b' = <[ct_id row := row]> (bk_contacts b).

Lemma statement_ok u b b' : book_ok b -> statement_of u b b' -> book_ok b'.
Proof.
  intros [Hi Hf Ha] [Hb|(row & [Ho Hfit Hold Hu] & Hb)]; split; rewrite Hb; try done.
  - intros k c [[<- <-]|[_ Hc]]%lookup_insert_Some; eauto.
  - intros k c [[<- <-]|[_ Hc]]%lookup_insert_Some; eauto.
  - intros k k' c c' [[<- <-]|[Hk Hc]]%lookup_insert_Some [[<- <-]|[Hk' Hc']]%lookup_insert_Some Heq He; try done.
    + symmetry. apply (Hu k' c'); congruence.
    + apply (Hu k c); congruence.
    + eauto.
Qed.

Lemma statement_confined u b b' : statement_of u b b' ->
  (forall k c, ct_owner c <> u -> bk_contacts b' !! k = Some c <-> bk_contacts b !! k = Some c) /\
  (forall k c, bk_contacts b !! k = Some c -> exists c', bk_contacts b' !! k = Some c' /\ ct_owner c' = ct_owner c).
Proof.
  intros [Hb|(row & [Ho _ Hold _] & Hb)]; rewrite Hb; [split; [done|eauto]|]. split.
  - intros k c Hc. destruct (decide (k = ct_id row)) as [->|Hk]; [|by rewrite lookup_insert_ne].
    rewrite lookup_insert_eq. split; [congruence|]. intros Hl. by apply Hold in Hl.
  - intros k c Hl. destruct (decide (k = ct_id row)) as [->|Hk]; [|rewrite lookup_insert_ne by done; eauto].
    rewrite lookup_insert_eq. exists row. split; [done|]. apply Hold in Hl. congruence.
Qed.

Lemma find_contact_row b f : book_ok b ->
  match List.find f (contact_rows b) with
  | Some c => bk_contacts b !! ct_id c = Some c /\ f c = true
  | None => forall k c, bk_contacts b !! k = Some c -> f c = false
  end.
Proof.
  intros [Hi _ _]. destruct (List.find _ _) as [c|] eqn:Ef.
  - apply List.find_some in Ef as [Hin Hf]. apply list_elem_of_In, list_elem_of_fmap in Hin as ([k c'] & -> & Hin).
    apply elem_of_map_to_list in Hin. simpl in *. by rewrite (Hi _ _ Hin).
  - intros k c Hc. apply (List.find_none _ _ Ef), list_elem_of_In, list_elem_of_fmap. exists (k, c).
    split; [done|by apply elem_of_map_to_list].
Qed.

Lemma found_contact u id b c : book_ok b -> find_contact u id b = Ok (Some c) ->
  bk_contacts b !! ct_id c = Some c /\ ct_owner c = u /\ live_contact c = true.
Proof.
  intros Hok. unfold find_contact. destruct (pg_uuid id) as [i|]; [|done]. destruct (bk_contacts b !! i) as [c'|] eqn:Ei; [|done].
  simpl. unfold contact_owned_by. destruct (String.eqb_spec (ct_owner c') u); [|done]. destruct (live_contact c') eqn:El; [|done].
  intros [= <-]. by rewrite (ok_ids _ Hok _ _ Ei).
Qed.

Lemma same_contact_spec owner email c : same_contact owner email c = true <-> ct_owner c = owner /\ ct_email c = email.
Proof. unfold same_contact, contact_owned_by. rewrite andb_true_iff, !String.eqb_eq. done. Qed.

Lemma insert_statement id now c b : book_ok b -> statement_of (ct_owner c) b (insert_contact id now c b).1.
Proof.
  intros Hok. unfold insert_contact. destruct (contact_fits c) eqn:Hfit; cbn [negb]; [|by left].
  pose proof (find_contact_row b (same_contact (ct_owner c) (ct_email c)) Hok) as Hf. destruct (List.find _ _) as [old|].
  - destruct Hf as [Hold [Ho He]%same_contact_spec]. destruct (live_contact old); [by left|]. right.
    exists (contact_row (ct_id old) now now c). split; [|done]. split; [done|done| |].
    + intros x. simpl. rewrite Hold. by intros [= <-].
    + intros k x Hx Hxo Hxe. simpl in *. eapply ok_addresses; [done|exact Hx|exact Hold|congruence..].
  - destruct (bk_contacts b !! id) as [|] eqn:Eid; [by left|]. destruct (bk_mailboxes b !! ct_owner c); [|by left]. right.
    exists (contact_row id now now c). split; [|done]. split; [done|done|intros x; simpl; congruence|].
    intros k x Hx Hxo Hxe. simpl in *. specialize (Hf k x Hx). by rewrite (proj2 (same_contact_spec _ _ _) (conj Hxo Hxe)) in Hf.
Qed.

Lemma update_statement now c b : book_ok b -> statement_of (ct_owner c) b (update_contact_row now c b).1.
Proof.
  intros Hok. unfold update_contact_row. destruct (find_contact _ _ b) as [[old|]|e] eqn:Ef; [|by left..].
  apply found_contact in Ef as (Hold & Ho & _); [|done]. destruct (contact_fits c) eqn:Hfit; cbn [negb]; [|by left].
  destruct (existsb _ _) eqn:Eo; [by left|]. right. exists (contact_row (ct_id old) (ct_created_at old) now c).
  split; [|done]. split; [done|done|intros x; simpl; rewrite Hold; congruence|].
  intros k x Hx Hxo Hxe. simpl in *. destruct (decide (k = ct_id old)) as [|Hne]; [done|exfalso].
  enough (existsb (fun x => same_contact (ct_owner c) (ct_email c) x && negb (String.eqb (ct_id x) (ct_id old))) (contact_rows b) = true)
    by congruence.
  apply List.existsb_exists. exists x. split.
  - apply list_elem_of_In, list_elem_of_fmap. exists (k, x). split; [done|by apply elem_of_map_to_list].
  - rewrite (proj2 (same_contact_spec _ _ _) (conj Hxo Hxe)), (ok_ids _ Hok _ _ Hx). by destruct (String.eqb_spec k (ct_id old)).
Qed.

Lemma delete_statement now u id b : book_ok b -> statement_of u b (delete_contact_row now u id b).1.
Proof.
  intros Hok. unfold delete_contact_row. destruct (find_contact u id b) as [[c|]|e] eqn:Ef; [|by left..].
  apply found_contact in Ef as (Hc & Ho & _); [|done]. right. eexists. split; [|reflexivity].
  split; simpl; [done|exact (ok_fit _ Hok _ _ Hc)|intros old; rewrite Hc; congruence|].
  intros k x Hx Hxo Hxe. eapply ok_addresses; [done|exact Hx|exact Hc|congruence..].
Qed.

Definition shown (r : reply) : list contact_response :=
  match r with Reply _ (Contacts cs _) => cs | Reply _ (OneContact c) => [c] | _ => [] end.

Section history.
Context {R : Type} `{Redis R} (h : history (M := book) (Q := query)) (users : list string) (start : book).

Record good (b : book) : Prop := Good {
  good_book : book_ok b;
  good_others : forall k c, ct_owner c ∉ users -> bk_contacts b !! k = Some c <-> bk_contacts start !! k = Some c;
  good_owners : forall k c, bk_contacts start !! k = Some c -> exists c', bk_contacts b !! k = Some c' /\ ct_owner c' = ct_owner c }.

Section request.
(** The request, and its user. *)
Context (i : nat) (u : string) (Hu : u ∈ users).
Abbreviation keeps := (keeps (sees_good good h i) (keeps_good good)).

Lemma good_step b b' : good b -> statement_of u b b' -> good b'.
Proof.
  intros [Hb Ho Hid] Hs. destruct (statement_confined u b b' Hs) as [Hc Hp]. split; [by eapply statement_ok| |].
  - intros k c Hn. rewrite Hc by (intros <-; done). by apply Ho.
  - intros k c Hk. apply Hid in Hk as (c1 & Hk & <-). by apply Hp in Hk.
Qed.

(** No other user had this id. *)
Definition own_id (id : string) : Prop := forall c, bk_contacts start !! id = Some c -> ct_owner c = u.
Definition own (c : contact) : Prop := ct_owner c = u /\ own_id (ct_id c).
Definition shows_own (r : reply) : Prop := forall c, c ∈ shown r -> own_id (cp_id c).

Lemma row_own b c : good b -> bk_contacts b !! ct_id c = Some c -> ct_owner c = u -> own c.
Proof.
  intros Hg Hc Ho. split; [done|]. intros c0 H0. apply (good_owners _ Hg) in H0 as (c' & H0 & <-). congruence.
Qed.

Lemma keeps_execute {A} ctx (f : book -> book * res A) (q : A -> Prop) :
  (forall b, good b -> statement_of u b (f b).1 /\ forall a, (f b).2 = Ok a -> q a) ->
  keeps (fun r => forall a, r = Ok a -> q a) (execute ctx f).
Proof.
  intros Hf. eapply keeps_bind; [apply keeps_statement with (q := fun r => forall a, r = Ok a -> q a)|].
  - intros b Hb. destruct (Hf b Hb) as [Hs Hq]. split; [by eapply good_step|done].
  - intros [x|e] Hr; [exact (Hr x eq_refl)|done].
Qed.

Lemma keeps_stored {A} (p : P (res A)) (q : A -> Prop) k :
  keeps (fun r => forall a, r = Ok a -> q a) p -> (forall a, q a -> keeps shows_own (k a)) -> keeps shows_own (stored p k).
Proof.
  intros Hp Hk. eapply keeps_bind; [exact Hp|]. intros [a|e] Ha; [by apply Hk, Ha|].
  intros c Hc. unfold contact_storage_error in Hc. repeat case_match; by apply not_elem_of_nil in Hc.
Qed.

Lemma own_rows b : good b -> Forall own (own_contacts u b).
Proof.
  intros Hg. apply Forall_forall. intros c Hc. apply list_elem_of_In, List.filter_In in Hc as [Hin [Ho _]%andb_true_iff].
  apply list_elem_of_In, list_elem_of_fmap in Hin as ([k c'] & -> & Hin). apply elem_of_map_to_list in Hin. simpl in *.
  apply String.eqb_eq in Ho. apply (row_own b); [done| |done]. by rewrite (ok_ids _ (good_book _ Hg) _ _ Hin).
Qed.

Lemma own_shown (cs : list contact) status total : Forall own cs -> shows_own (Reply status (Contacts (map contact_response_of cs) total)).
Proof. intros Hcs c Hc. apply list_elem_of_fmap in Hc as (c' & -> & Hc'). by apply (proj1 (Forall_forall _ _) Hcs) in Hc' as [_ Ho]. Qed.

Lemma one_shown c status : own c -> shows_own (Reply status (OneContact (contact_response_of c))).
Proof. intros [_ Ho] x Hx. apply list_elem_of_singleton in Hx as ->. exact Ho. Qed.

Lemma keeps_list q : keeps shows_own (list_contacts_handler u q).
Proof.
  unfold list_contacts_handler. destruct (negb _).
  - eapply keeps_stored with (q := Forall own); [|intros cs Hcs; by apply own_shown]. apply keeps_execute. intros b Hb. split; [by left|].
    intros cs [= <-]. apply Forall_take. rewrite merge_sort_Permutation. apply own_rows in Hb.
    apply Forall_forall. intros c [Hc _]%list_elem_of_In%List.filter_In. by apply (proj1 (Forall_forall _ _) Hb), list_elem_of_In.
  - eapply keeps_stored with (q := fun r => Forall own r.1); [|intros [cs total] Hcs; by apply own_shown].
    eapply keeps_bind; [apply keeps_execute with (q := fun _ => True); intros b _; split; [by left|done]|].
    intros [total|e] _; [|done]. eapply keeps_bind; [apply keeps_execute with (q := Forall own)|].
    + intros b Hb. split; [by left|]. intros cs [= <-]. apply Forall_take, Forall_drop. rewrite merge_sort_Permutation. by apply own_rows.
    + intros [cs|e] Hcs; [|done]. intros r [= <-]. by apply Hcs.
Qed.

Lemma apply_keeps f c c' : apply_fields f c = inl c' -> ct_owner c' = ct_owner c /\ ct_id c' = ct_id c.
Proof. unfold apply_fields. repeat (case_match; [|done]). by intros [= <-]. Qed.

Lemma apply_refused f c r : apply_fields f c = inr r -> shown r = [].
Proof.
  assert (forall n l src old r, optional_field n l src old = inr r -> shown r = []) as Hopt.
  { intros n l [s|] old r'; simpl; [|done]. destruct (_ <? _); [by intros [= <-]|done]. }
  unfold apply_fields. destruct (apply_email _ _) eqn:He.
  - repeat (case_match; [|intros [= <-]; by eapply Hopt]). done.
  - intros [= <-]. unfold apply_email in He. repeat (case_match; simplify_eq); done.
Qed.

Lemma nothing_shown r : shown r = [] -> shows_own r.
Proof. intros Hr c. rewrite Hr. by intros ?%not_elem_of_nil. Qed.

Lemma keeps_found id k : (forall c, own c -> keeps shows_own (k c)) -> keeps shows_own (with_found u id k).
Proof.
  intros Hk. eapply keeps_stored with (q := fun o => forall c, o = Some c -> own c).
  - apply keeps_execute. intros b Hb. split; [by left|]. simpl. destruct (find_contact u id b) as [o|e] eqn:Ef; [|done].
    intros o' [= <-] c ->. apply found_contact in Ef as (Hc & Ho & _); [by eapply row_own|apply Hb].
  - intros [c|] Hc; [by apply Hk, Hc|by apply nothing_shown].
Qed.

Lemma keeps_create_contact c : ct_owner c = u -> keeps (fun r => forall a, r = Ok a -> own a) (create_contact c).
Proof.
  intros Ho. assert (forall id now, keeps (fun r => forall a, r = Ok a -> own a) (execute "failed to create contact" (insert_contact id now c))) as He.
  { intros id now. apply keeps_execute. intros b Hb. pose proof (insert_statement id now c b (good_book _ Hb)) as Hs.
    rewrite Ho in Hs. split; [done|]. intros a Ha. apply (good_step _ _ Hb) in Hs. apply (row_own _ _ Hs).
    - clear Hs. unfold insert_contact in *. repeat case_match; simplify_eq; simpl in *; simplify_eq; apply lookup_insert_eq.
    - clear Hs. unfold insert_contact in *. repeat case_match; simplify_eq; simpl in *; by simplify_eq. }
  unfold create_contact. destruct (String.eqb _ _); [split; [done|]; intros id _|]; (split; [done|]; intros now _; apply He).
Qed.

Lemma keeps_add body : keeps shows_own (add_contact_handler u body).
Proof.
  unfold add_contact_handler. destruct body as [f|]; [|by apply nothing_shown]. destruct (String.eqb _ _); [by apply nothing_shown|].
  destruct (apply_fields f (new_contact u)) as [c|r] eqn:Ea; [|by eapply nothing_shown, apply_refused].
  apply apply_keeps in Ea as [Ho _]. eapply keeps_stored with (q := fun _ => True).
  - split; [done|]. intros now _. apply keeps_execute. intros b _. unfold ensure_row. destruct (ensure_mailbox _ _ _ _). split; [by left|done].
  - intros _ _. eapply keeps_stored; [by apply keeps_create_contact|]. intros a Ha. by apply one_shown.
Qed.

Lemma keeps_update_contact id body : keeps shows_own (update_contact_handler u id body).
Proof.
  unfold update_contact_handler, contact_id. destruct (uuid_parses id); [|by apply nothing_shown].
  destruct body as [f|]; [|by apply nothing_shown]. apply keeps_found. intros c [Ho Hid].
  destruct (apply_fields f c) as [c'|r] eqn:Ea; [|by eapply nothing_shown, apply_refused].
  apply apply_keeps in Ea as [Ho' Hid']. eapply keeps_stored with (q := own); [|intros a Ha; by apply one_shown].
  split; [done|]. intros now _. apply keeps_execute. intros b Hb. split; [rewrite <- Ho, <- Ho'; apply update_statement, Hb|].
  intros a. unfold update_contact_row. repeat case_match; try done. intros [= <-]. split; [simpl; congruence|]. unfold own_id. simpl. by rewrite Hid'.
Qed.

Lemma keeps_delete_contact id : keeps shows_own (delete_contact_handler u id).
Proof.
  unfold delete_contact_handler, contact_id. destruct (uuid_parses id); [|by apply nothing_shown].
  eapply keeps_stored with (q := fun _ => True); [|intros; by apply nothing_shown]. split; [done|]. intros now _. apply keeps_execute.
  intros b Hb. split; [by apply delete_statement, Hb|done].
Qed.

Lemma keeps_serve_contacts configured r : keeps shows_own (serve_contacts configured (u, r)).
Proof.
  unfold serve_contacts, contacts_ready. destruct (String.eqb _ _); [by apply nothing_shown|].
  destruct (negb configured); [by apply nothing_shown|]. destruct r; cbn [handle_contacts fst snd].
  - apply keeps_list.
  - apply keeps_add.
  - unfold get_contact_handler, contact_id. destruct (uuid_parses id); [|by apply nothing_shown]. apply keeps_found.
    intros c Hc. by apply one_shown.
  - apply keeps_update_contact.
  - apply keeps_delete_contact.
Qed.

End request.
End history.

(** C32. Address books do not mix.  Whatever requests of however many users are
    served together, in any interleaving and whatever statements fail: the
    contacts of every user who made no request are as they were, no reply shows
    a contact whose row belonged to another user, and the table keeps one row
    for each address of a user, under its id, within its columns. *)
Theorem address_books_do_not_mix {R} `{Redis R} configured reqs h t (w w' : world book R) out
    (Hrun : concurrent (map (serve_contacts configured) reqs) t w h w' out)
    (Hlen : Forall (fun e => (e.1.2 < length reqs)%nat) h) (Hok : book_ok (w_memory w)) :
  book_ok (w_memory w') /\
  (forall k c, ct_owner c ∉ map fst reqs -> bk_contacts (w_memory w') !! k = Some c <-> bk_contacts (w_memory w) !! k = Some c) /\
  forall i u r v c old, reqs !! i = Some (u, r) -> out i = Some v -> c ∈ shown v ->
    bk_contacts (w_memory w) !! cp_id c = Some old -> ct_owner old = u.
Proof.
  destruct (good_throughout (good (map fst reqs) (w_memory w)) h (map (serve_contacts configured) reqs)
    (fun i v => forall u r, reqs !! i = Some (u, r) -> shows_own (w_memory w) u v) t w w' out Hrun) as [[Hb Ho _] Hq].
  - by rewrite length_map.
  - intros i p Hp. rewrite list_lookup_fmap in Hp. destruct (reqs !! i) as [[u r]|] eqn:Ei; [|done]. injection Hp as <-.
    eapply keeps_mono; [apply (keeps_serve_contacts h (map fst reqs) (w_memory w) i u)|].
    + apply list_elem_of_fmap. exists (u, r). split; [done|by eapply list_elem_of_lookup_2].
    + intros v Hv u' r' [= <- _]. exact Hv.
  - split; [done|done|eauto].
  - split; [done|]. split; [done|]. intros i u r v c old Hi Hv Hc. apply (Hq i v) with (u := u) (r := r); try done.
    rewrite list_lookup_fmap, Hi. by eexists.
Qed.

Section alone.
Context {R : Type} `{Redis R} (os : nat -> oracle query) (Hdb : forall n, or_outside (os n) _ Database = Done).

Lemma run_execute {A B} ctx (f : book -> book * res A) (k : res A -> P B) (w : world book R) n :
  run os n (bind (execute ctx f) k) w =
  run os (S (S n)) (k (f (w_memory w)).2) (World (w_redis w) (f (w_memory w)).1).
Proof. unfold execute, statement. cbn [bind call run perform]. rewrite Hdb. cbn [bind call run perform]. by destruct (f (w_memory w)). Qed.

(** The address of a contact, as the handlers look for it. *)
Definition has_address (u email : string) (b : book) : bool :=
  match (select_contact_by_email u email b).2 with Ok (Some _) => true | _ => false end.

Lemma live_address u email b old : book_ok b -> bk_contacts b !! ct_id old = Some old -> same_contact u email old = true ->
  has_address u email b = live_contact old.
Proof.
  intros Hok Hold Hs. unfold has_address. cbn [select_contact_by_email snd].
  pose proof (find_contact_row b (fun c => same_contact u email c && live_contact c) Hok) as Hf. destruct (List.find _ _) as [c|].
  - destruct Hf as [Hc [Hsc Hl]%andb_true_iff]. apply same_contact_spec in Hs as [Ho He]. apply same_contact_spec in Hsc as [Ho' He'].
    assert (ct_id c = ct_id old) as Hid by (eapply ok_addresses; [done|exact Hc|exact Hold|congruence..]). congruence.
  - apply Hf in Hold. rewrite Hs in Hold. by destruct (live_contact old).
Qed.

(** Adding a contact works as an address book should, by itself.  An add
    whose fields are accepted and fit is answered 409 when the user already has
    a live contact with that address, and the contacts are then as before;
    otherwise it is answered 201 with those fields, the user has a contact with
    that address, and reading the contact by the id of the answer gives the
    same contact, also when the address belonged to a deleted one. *)
Theorem added_contact_is_found u f c (w : world book R)
    (Hu : u <> "") (Hok : book_ok (w_memory w)) (Hemail : trim_space (default "" (cf_email f)) <> "")
    (Happly : apply_fields f (new_contact u) = inl c) (Hfits : contact_fits c = true)
    (Hids : forall k x, bk_contacts (w_memory w) !! k = Some x -> pg_uuid k = Some k)
    (Hfresh : forall n, pg_uuid (or_uuid (os n)) = Some (or_uuid (os n)) /\ bk_contacts (w_memory w) !! or_uuid (os n) = None) :
  exists n w' v, run os 0 (serve_contacts true (u, AddContactR (Ok f))) w = (n, w', Some v) /\
    if has_address u (ct_email c) (w_memory w)
    then status_of v = 409 /\ bk_contacts (w_memory w') = bk_contacts (w_memory w)
    else exists id now c', v = Reply 201 (OneContact (contact_response_of (contact_row id now now c))) /\
         has_address u (ct_email c) (w_memory w') = true /\
         find_contact u id (w_memory w') = Ok (Some c') /\ contact_response_of c' = contact_response_of (contact_row id now now c).
Proof.
  unfold serve_contacts, contacts_ready. cbn [fst snd handle_contacts add_contact_handler negb].
  destruct (String.eqb_spec u ""); [done|]. destruct (String.eqb_spec (trim_space (default "" (cf_email f))) ""); [done|].
  rewrite Happly. destruct (apply_keeps _ _ _ Happly) as [Howner Hid]. cbn [ct_owner ct_id new_contact] in Howner, Hid.
  unfold stored, ensure_mailbox_row. cbn [bind call run perform]. rewrite run_execute. cbn [w_memory w_redis].
  unfold ensure_row, ensure_mailbox. cbv zeta. cbn [fst snd].
  set (mbs := <[u := _]> (bk_mailboxes (w_memory w))). set (b := Book (bk_contacts (w_memory w)) mbs).
  unfold create_contact. rewrite Hid. cbn [String.eqb bind call run perform]. rewrite run_execute. cbn [w_memory w_redis].
  assert (book_ok b) as Hokb by (destruct Hok; by split).
  destruct (Hfresh 3%nat) as [Huuid Hnew]. set (id := or_uuid (os 3%nat)) in *. set (now := or_now (os 4%nat)).
  assert (forall id', pg_uuid id' = Some id' -> let row := contact_row id' now now c in let b' := with_contact row b in book_ok b' -> find_contact u id' b' = Ok (Some row) /\
    has_address u (ct_email c) b' = true) as Hfound.
  { intros id' Hpg row b' Hb'. assert (bk_contacts b' !! ct_id row = Some row) as Hrow by apply lookup_insert_eq. split.
    - unfold find_contact. rewrite Hpg. change id' with (ct_id row). rewrite Hrow. simpl. unfold contact_owned_by. simpl.
      by rewrite Howner, String.eqb_refl.
    - rewrite (live_address u (ct_email c) b' row Hb' Hrow); [done|]. apply same_contact_spec. done. }
  pose proof (insert_statement id now c b Hokb) as Hst. apply (statement_ok _ _ _ Hokb) in Hst.
  pose proof (find_contact_row b (same_contact (ct_owner c) (ct_email c)) Hokb) as Hf.
  change (has_address u (ct_email c) (w_memory w)) with (has_address u (ct_email c) b).
  unfold insert_contact in *. rewrite Hfits in *. cbn [negb] in *. destruct (List.find _ _) as [old|].
  - destruct Hf as [Hold Hs]. rewrite (live_address u (ct_email c) b old Hokb Hold) by (by rewrite <- Howner).
    destruct (live_contact old); cbn [bind fst snd run] in *; eexists _, _, _; (split; [reflexivity|]); [done|].
    destruct (Hfound (ct_id old)) as [H1 H2]; [by eapply Hids|done|by eexists _, _, _].
  - assert (has_address u (ct_email c) b = false) as ->.
    { unfold has_address. cbn [select_contact_by_email snd].
      pose proof (find_contact_row b (fun c' => same_contact u (ct_email c) c' && live_contact c') Hokb) as Hf'.
      destruct (List.find _ _) as [x|]; [|done]. destruct Hf' as [Hx [Hs _]%andb_true_iff]. apply Hf in Hx. congruence. }
    change (bk_contacts b !! id) with (bk_contacts (w_memory w) !! id) in *. rewrite Hnew in *.
    assert (exists m, bk_mailboxes b !! ct_owner c = Some m) as [m Hm] by (eexists; rewrite Howner; apply lookup_insert_eq).
    rewrite Hm in *. cbn [bind fst snd run] in *. eexists _, _, _. split; [reflexivity|].
    destruct (Hfound id) as [H1 H2]; [done|done|by eexists _, _, _].
Qed.

(** A deleted contact still holds its address.  Renaming a contact to an
    address that the user has deleted is answered 409, that the address is
    already in the contacts, though no live contact has it; the table is as it
    was. *)
Theorem deleted_address_blocks_update u id k f c c' old (w : world book R)
    (Hu : u <> "") (Hok : book_ok (w_memory w)) (Hid : uuid_parses id = true) (Hpg : pg_uuid id = Some k) (Hk : pg_uuid k = Some k)
    (Hc : bk_contacts (w_memory w) !! k = Some c) (Howner : ct_owner c = u) (Hlive : live_contact c = true)
    (Happly : apply_fields f c = inl c') (Hfits : contact_fits c' = true)
    (Hold : bk_contacts (w_memory w) !! ct_id old = Some old) (Hsame : same_contact u (ct_email c') old = true)
    (Hdeleted : live_contact old = false) :
  has_address u (ct_email c') (w_memory w) = false /\
  exists n, run os 0 (serve_contacts true (u, UpdateContactR id (Ok f))) w =
    (n, w, Some (conflict "CONTACT_EXISTS" "that address is already in your contacts")).
Proof.
  split; [by rewrite (live_address _ _ _ old)|]. pose proof (ok_ids _ Hok _ _ Hc) as Hcid.
  destruct (apply_keeps _ _ _ Happly) as [Ho' Hid'].
  assert (find_contact u k (w_memory w) = Ok (Some c) /\ find_contact u id (w_memory w) = Ok (Some c)) as [Hfk Hfid].
  { unfold find_contact. rewrite Hpg, Hk, Hc. simpl. unfold contact_owned_by. by rewrite Howner, String.eqb_refl, Hlive. }
  unfold serve_contacts, contacts_ready. cbn [fst snd handle_contacts negb]. destruct (String.eqb_spec u ""); [done|].
  unfold update_contact_handler, contact_id, with_found. rewrite Hid.
  unfold stored at 1, get_contact. rewrite run_execute. unfold select_contact. rewrite Hfid. cbn [wrap snd fst].
  rewrite Happly. unfold stored, update_contact. cbn [bind call run perform]. rewrite run_execute. cbn [w_memory w_redis].
  unfold update_contact_row. rewrite Ho', Hid', Howner, Hcid, Hfk, Hfits. cbn [negb].
  assert (existsb (fun x => same_contact u (ct_email c') x && negb (String.eqb (ct_id x) (ct_id c))) (contact_rows (w_memory w)) = true) as ->.
  { apply List.existsb_exists. exists old. split.
    - apply list_elem_of_In, list_elem_of_fmap. exists (ct_id old, old). split; [done|by apply elem_of_map_to_list].
    - rewrite Hsame. destruct (String.eqb_spec (ct_id old) (ct_id c)) as [E|]; [|done]. rewrite E, Hcid in Hold. congruence. }
  destruct w as [r m]. cbn [fst snd bind run]. by eexists.
Qed.

End alone.

End contacts.

(** ** Concrete runs *)

Definition plain_address (s : string) : option (string * string) := if has_char "@" s then Some ("", s) else None.
Definition book_world (X : Type) (q : query X) : X := match q in query Y return Y with Database => Prog.Done end.
Definition book_oracle (i : nat) : oracle query := Oracle (Z.of_nat i) Prog.Done (fun _ => Ok "") "new" book_world.
Abbreviation sample_serve := (serve_contacts plain_address (fun _ => true) (fun s => Some s) String.leb String.eqb true).

Lemma book_clock i : or_now (book_oracle i) <= or_now (book_oracle (S i)).
Proof. simpl. lia. Qed.

Definition book_entry (id owner email : string) (deleted : option Z) : contact :=
  Contact id owner email None None None None None false false 0 0 deleted.
(** Alice keeps one contact and has deleted another, Bob keeps one. *)
Definition sample_book : world book kv :=
  World ∅ (Book (<["1" := book_entry "1" "alice" "x@y" None]> (<["2" := book_entry "2" "alice" "z@y" (Some 3)]>
    {["3" := book_entry "3" "bob" "x@y" None]})) ∅).
Definition email_only (s : string) : contact_fields := ContactFields (Some s) None None None None None None None.

Ltac entries H := repeat (apply lookup_insert_Some in H as [[<- <-]|[_ H]]); try apply lookup_singleton_Some in H as [<- <-].

Lemma sample_book_ok : book_ok (w_memory sample_book).
Proof.
  split; cbn [sample_book w_memory bk_contacts].
  - intros k c Hc. by entries Hc.
  - intros k c Hc. by entries Hc.
  - intros k k' c c' Hc Hc'. entries Hc; entries Hc'; done.
Qed.

Definition book_requests : list (string * contact_request) := [("alice", ListContactsR []); ("alice", DeleteContactR "3")].

Definition book_turns : list nat := repeat 0%nat 3 ++ repeat 1%nat 9 ++ repeat 0%nat 9.
Definition played_book := interleave book_oracle 0 book_turns (map sample_serve book_requests) sample_book.

Lemma played_book_concurrent :
  concurrent (map sample_serve book_requests) 0 sample_book played_book.1 played_book.2.1 (results played_book.2.2).
Proof.
  pose proof (interleave_concurrent book_oracle book_clock book_turns 0%nat (map sample_serve book_requests) 0 sample_book) as Hi.
  unfold played_book. destruct (interleave _ _ _ _ _) as [h [w' pool]]. apply Hi. simpl. done.
Qed.

Lemma address_books_do_not_mix_witness :
  results played_book.2.2 0%nat = Some (Reply 200 (Contacts [contact_response_of (book_entry "1" "alice" "x@y" None)] 1)) /\
  results played_book.2.2 1%nat = Some contact_missing /\
  bk_contacts (w_memory played_book.2.1) !! "3" = Some (book_entry "3" "bob" "x@y" None).
Proof.
  split; [vm_compute; reflexivity|]. split; [vm_compute; reflexivity|].
  apply (address_books_do_not_mix plain_address (fun _ => true) (fun s => Some s) String.leb String.eqb true book_requests _ 0
    sample_book _ _ played_book_concurrent).
  - apply made_by_requests. vm_compute. reflexivity.
  - exact sample_book_ok.
  - refine (proj1 (bool_decide_eq_true _) _). vm_compute. reflexivity.
  - vm_compute. reflexivity.
Defined.

(** Alice adds the address that she deleted. *)
Lemma added_contact_is_found_witness :
  exists n w' v, run book_oracle 0 (sample_serve ("alice", AddContactR (Ok (email_only " Z@y")))) sample_book = (n, w', Some v) /\
    exists id now c', v = Reply 201 (OneContact (contact_response_of (contact_row id now now (book_entry "" "alice" "z@y" None)))) /\
         has_address "alice" "z@y" (w_memory w') = true /\ find_contact (fun s => Some s) "alice" id (w_memory w') = Ok (Some c') /\
         contact_response_of c' = contact_response_of (contact_row id now now (book_entry "" "alice" "z@y" None)).
Proof.
  apply (added_contact_is_found plain_address (fun _ => true) (fun s => Some s) String.leb String.eqb book_oracle (fun _ => eq_refl)
    "alice" (email_only " Z@y") (book_entry "" "alice" "z@y" None) sample_book); try done.
  exact sample_book_ok.
Defined.

(** Alice renames her contact to it. *)
Lemma deleted_address_blocks_update_witness :
  has_address "alice" "z@y" (w_memory sample_book) = false /\
  exists n, run book_oracle 0 (sample_serve ("alice", UpdateContactR "1" (Ok (email_only "Z@y")))) sample_book =
    (n, sample_book, Some (conflict "CONTACT_EXISTS" "that address is already in your contacts")).
Proof.
  apply (deleted_address_blocks_update plain_address (fun _ => true) (fun s => Some s) String.leb String.eqb book_oracle
    (fun _ => eq_refl) "alice" "1" "1" (email_only "Z@y") (book_entry "1" "alice" "x@y" None) (book_entry "1" "alice" "z@y" None)
    (book_entry "2" "alice" "z@y" (Some 3)) sample_book); try done.
  exact sample_book_ok.
Defined.
