(* ===== verification/Migrate.v ===== *)
(** * Schema migrations: internal/storage/migrate.go

    A run is one transaction under an advisory lock, so that the runs of
    several replicas come one after another and each starts from what the
    others committed.  What PostgreSQL makes of a script, and the columns that
    there are then, are parameters; the scripts leave the schema and the table
    of versions, which only the migrator writes, alone.  [faults] is the
    driver's error for the n-th statement of the run. *)

From stdpp Require Import sorting.
From S2P Require Import Prelude GoStrings Prog.
#[local] Open Scope Z_scope.

Definition baseline_version : string := "baseline-012".
Definition last_folded_migration : Z := 12.

Record migration := Migration { mg_version : string; mg_sql : string }.
Record migrator := Migrator { mr_baseline : string; mr_migrations : list migration }.

(** ** Loading *)

Definition word_char (c : ascii) : bool := is_letter c || is_digit c || Ascii.eqb c "_".
Fixpoint digits_of (s : string) : string :=
  match s with String c t => if is_digit c then String c (digits_of t) else "" | "" => "" end.
Definition strip_sql (s : string) : string := take_str (String.length s - 4) s.

(** The number in [NNN_description.sql]. *)
Definition migration_number (name : string) : option string :=
  let n := digits_of name in
  let rest := drop_str (String.length n) (strip_sql name) in
  if has_suffix name ".sql" && negb (String.eqb n "") && has_prefix rest "_" && (1 <? str_len rest) && forall_chars word_char rest
  then Some n else None.

Definition file_older (x y : Z * migration) : Prop := x.1 <= y.1.
#[export] Instance file_older_dec : RelDecision file_older.
Proof. intros x y. unfold file_older. apply _. Defined.

(** [files]: the scripts of the directory in the order of their names, each
    with what reading it gives. *)
Fixpoint load_files (files : list (string * res string)) (seen : gmap Z string) (found : list (Z * migration))
    : res (list (Z * migration)) :=
  match files with
  | [] => Ok found
  | (name, body) :: files =>
      match migration_number name with
      | None => Err (Sentinel ("migration " +:+ name +:+ ": name must be NNN_description.sql"))
      | Some digits =>
          let n := (atoi digits).1 in
          match seen !! n with
          | Some prev => Err (Sentinel ("migrations " +:+ prev +:+ " and " +:+ name +:+ " share number " +:+ pretty n))
          | None =>
              let seen := <[n := name]> seen in
              if n <=? last_folded_migration then load_files files seen found
              else let! sql := wrap ("read " +:+ name) body in load_files files seen (found ++ [(n, Migration (strip_sql name) sql)])
          end
      end
  end.

Definition new_migrator (schema : res string) (files : list (string * res string)) : res migrator :=
  let! baseline := wrap "read baseline schema" schema in
  let! found := load_files files ∅ [] in
  Ok (Migrator baseline (map snd (merge_sort file_older found))).

(** ** What a schema must have *)

Definition required_columns : list (string * list string) :=
  [("attachments", ["blossom_sha256"; "blossom_url"; "content_type"; "created_at"; "email_id"; "filename"; "id"; "size_bytes"]);
   ("audit_log", ["action"; "created_at"; "details"; "id"; "ip_address"; "mailbox_pubkey"; "resource_id"; "resource_type"; "user_agent"]);
   ("contacts", ["always_encrypt"; "blocked"; "created_at"; "deleted_at"; "email"; "id"; "mailbox_pubkey"; "name"; "notes"; "npub"; "organization"; "phone"; "updated_at"]);
   ("domains", ["active"; "created_at"; "dkim_private_key"; "dkim_selector"; "domain"; "id"; "updated_at"; "verified"]);
   ("email_bounces", ["bounce_type"; "created_at"; "diagnostic_code"; "id"; "original_message_id"; "original_recipient"; "reason"; "received_at"; "remote_server"; "sender_pubkey"]);
   ("email_complaints", ["feedback_type"; "id"; "original_message_id"; "original_recipient"; "received_at"; "reporting_mta"; "sender_pubkey"]);
   ("email_templates", ["body"; "created_at"; "deleted_at"; "id"; "is_signature"; "mailbox_pubkey"; "name"; "subject"; "updated_at"]);
   ("emails", ["bcc"; "body"; "cc"; "created_at"; "deleted_at"; "direction"; "encryption_mode"; "encryption_nonce"; "folder"; "from_address"; "html_body"; "id"; "in_reply_to"; "is_encrypted"; "labels"; "mailbox_pubkey"; "message_id"; "nostr_verification_error"; "nostr_verified"; "nostr_verified_at"; "read_at"; "recipient_npub"; "references_header"; "sender_npub"; "status"; "subject"; "to_address"; "updated_at"]);
   ("encryption_keys", ["contact_npub"; "created_at"; "id"; "imported"; "key_type"; "mailbox_pubkey"; "public_key"; "updated_at"; "verified"]);
   ("mailboxes", ["created_at"; "deleted_at"; "display_name"; "preferred_encryption_mode"; "pubkey"; "send_elevated"; "send_enabled"; "send_suspended_at"; "updated_at"]);
   ("nip05_cache", ["cached_at"; "email"; "expires_at"; "id"; "npub"; "valid"]);
   ("outbound_queue", ["attempts"; "created_at"; "id"; "last_attempt"; "last_error"; "max_attempts"; "message_id"; "metadata"; "next_attempt"; "raw_message"; "recipients"; "sender"; "status"]);
   ("sessions", ["created_at"; "deleted_at"; "expires_at"; "id"; "mailbox_pubkey"; "token"])].

Definition err_schema_missing : error := Sentinel "missing".
Definition required_names : list string := flat_map (fun '(t, cs) => map (fun c => t +:+ "." +:+ c) cs) required_columns.

Definition alphabetical (a b : string) : Prop := String.leb a b = true.
#[export] Instance alphabetical_dec : RelDecision alphabetical.
Proof. intros a b. unfold alphabetical. apply _. Defined.

Definition verify_columns (have : gset string) : option error :=
  match List.filter (fun c => negb (bool_decide (c ∈ have))) required_names with
  | [] => None
  | missing => Some (Wrapped (join ", " (merge_sort alphabetical missing)) err_schema_missing)
  end.

(** ** A run *)

Section run.
Context {D : Type} (exec_sql : string -> D -> res D) (columns : D -> gset string) (has_mailboxes : D -> bool).

(** [versions] is [None] without the table. *)
Record catalog := Catalog { schema_exists : bool; versions : option (list string); content : D }.

Definition tx (A : Type) : Type := nat -> catalog -> res (A * nat * catalog).
Definition tx_ret {A} (a : A) : tx A := fun n s => Ok (a, n, s).
Definition tx_bind {A B} (m : tx A) (k : A -> tx B) : tx B :=
  fun n s => match m n s with Err e => Err e | Ok (a, n, s) => k a n s end.

Section transaction.
Context (faults : nat -> option error).

Definition step {A} (ctx : string) (f : catalog -> res (A * catalog)) : tx A :=
  fun n s =>
    match faults n with
    | Some e => Err (Wrapped ctx e)
    | None => match f s with Ok (a, s) => Ok (a, S n, s) | Err e => Err (Wrapped ctx e) end
    end.
Definition setting (ctx : string) : tx unit := step ctx (fun s => Ok ((), s)).
Definition query {A} (ctx : string) (f : catalog -> A) : tx A := step ctx (fun s => Ok (f s, s)).

Definition no_schema : error := Sentinel "schema does not exist".
Definition duplicate_version : error := Sentinel "duplicate key schema_migrations_pkey".

Definition create_schema : tx unit := step "create email schema" (fun s => Ok ((), Catalog true (versions s) (content s))).
Definition create_versions : tx unit :=
  step "create schema_migrations" (fun s =>
    if schema_exists s then Ok ((), Catalog true (Some (default [] (versions s))) (content s)) else Err no_schema).
Definition applied_set : tx (list string) := query "read schema_migrations" (fun s => default [] (versions s)).
Definition record (version : string) : tx unit :=
  step ("record " +:+ version) (fun s =>
    let vs := default [] (versions s) in
    if bool_decide (version ∈ vs) then Err duplicate_version
    else Ok ((), Catalog (schema_exists s) (Some (vs ++ [version])) (content s))).
Definition execute_sql (ctx sql : string) : tx unit :=
  step ctx (fun s => let! d := exec_sql sql (content s) in Ok ((), Catalog (schema_exists s) (versions s) d)).
Definition verify_required (ctx : string) : tx unit :=
  fun n s =>
    match query "read email columns" (fun s => columns (content s)) n s with
    | Err e => Err (Wrapped ctx e)
    | Ok (have, n, s) => match verify_columns have with Some e => Err (Wrapped ctx e) | None => Ok ((), n, s) end
    end.

#[local] Notation "'do!' x '<-' p ';' k" := (tx_bind p (fun x => k)) (at level 100, x pattern, p at level 99, k at level 200, right associativity).

Definition apply_baseline (m : migrator) (applied : list string) : tx unit :=
  if bool_decide (baseline_version ∈ applied) then tx_ret ()
  else
    do! has <- query "check for existing schema" (fun s => has_mailboxes (content s));
    do! _ <- (if has : bool
              then verify_required "existing email schema was never recorded by the migrator and does not match the baseline, refusing to adopt it"
              else execute_sql "apply baseline schema" (mr_baseline m));
    record baseline_version.

Fixpoint apply_migrations (migs : list migration) (applied : list string) : tx unit :=
  match migs with
  | [] => tx_ret ()
  | mig :: migs =>
      do! _ <- (if bool_decide (mg_version mig ∈ applied) then tx_ret ()
                else do! _ <- execute_sql ("apply migration " +:+ mg_version mig) (mg_sql mig); record (mg_version mig));
      apply_migrations migs applied
  end.

(** What [Run] does inside its transaction. *)
Definition run_statements (m : migrator) : tx unit :=
  do! _ <- setting "begin migration transaction";
  do! _ <- setting "set lock timeout";
  do! _ <- setting "acquire migration lock";
  do! _ <- setting "set statement timeouts";
  do! there <- query "check email schema" schema_exists;
  do! _ <- (if there : bool then tx_ret () else create_schema);
  do! _ <- setting "set search_path";
  do! _ <- create_versions;
  do! applied <- applied_set;
  do! _ <- apply_baseline m applied;
  do! _ <- apply_migrations (mr_migrations m) applied;
  verify_required "schema incomplete after migrating".

End transaction.

(** The database after a run; [commit]: what became of the COMMIT. *)
Definition migrate (m : migrator) (faults : nat -> option error) (commit : outcome) (s : catalog) : catalog * option error :=
  match run_statements faults m 0%nat s with
  | Err e => (s, Some e)
  | Ok (_, _, s') =>
      match commit with
      | Done => (s', None)
      | Lost e => (s, Some (Wrapped "commit migrations" e))
      | Late e => (s', Some (Wrapped "commit migrations" e))
      end
  end.

(** Replicas that start, in the order in which they got the lock. *)
Record replica_start := ReplicaStart { st_migrator : migrator; st_faults : nat -> option error; st_commit : outcome }.
Definition migrate_all (starts : list replica_start) (s : catalog) : catalog :=
  fold_left (fun s r => (migrate (st_migrator r) (st_faults r) (st_commit r) s).1) starts s.

(** * Properties *)

#[local] Opaque required_names.

Definition recorded (s : catalog) : list string := default [] (versions s).

(** Scripts one after another. *)
Fixpoint exec_all (sqls : list string) (d : D) : res D :=
  match sqls with
  | [] => Ok d
  | sql :: sqls => let! d := exec_sql sql d in exec_all sqls d
  end.

Lemma exec_all_app l l' d : exec_all (l ++ l') d = (let! d := exec_all l d in exec_all l' d).
Proof. revert d. induction l as [|sql l IH]; intros d; simpl; [done|]. destruct (exec_sql sql d) as [d1|e]; simpl; [apply IH|done]. Qed.

(** [advances vs sqls s s']: the versions [vs] are recorded, each for the first time, and the scripts [sqls] executed. *)
Record advances (vs sqls : list string) (s s' : catalog) : Prop := Advances {
  adv_exists : schema_exists s' = schema_exists s;
  adv_recorded : recorded s' = recorded s ++ vs;
  adv_content : exec_all sqls (content s) = Ok (content s');
  adv_once : NoDup (recorded s) -> NoDup (recorded s') }.

Lemma advances_nothing s s' : schema_exists s' = schema_exists s -> recorded s' = recorded s -> content s' = content s -> advances [] [] s s'.
Proof. intros He Hr Hc. split; [done|by rewrite app_nil_r|by rewrite <- Hc|by rewrite Hr]. Qed.

Lemma advances_trans vs sqls vs' sqls' s s1 s' : advances vs sqls s s1 -> advances vs' sqls' s1 s' -> advances (vs ++ vs') (sqls ++ sqls') s s'.
Proof.
  intros [He Hr Hc Ho] [He' Hr' Hc' Ho']. split; [congruence|by rewrite Hr', Hr, app_assoc| |auto].
  by rewrite exec_all_app, Hc.
Qed.

Section committed.
Context (faults : nat -> option error).

Lemma step_ok {A} ctx (f : catalog -> res (A * catalog)) n s r : step faults ctx f n s = Ok r -> f s = Ok (r.1.1, r.2).
Proof. unfold step. destruct (faults n); [done|]. destruct (f s) as [[a s']|]; [|done]. by intros [= <-]. Qed.

Lemma bind_ok {A B} (p : tx A) (k : A -> tx B) n s r : tx_bind p k n s = Ok r -> exists a n1 s1, p n s = Ok (a, n1, s1) /\ k a n1 s1 = Ok r.
Proof. unfold tx_bind. destruct (p n s) as [[[a n1] s1]|]; [|done]. eauto. Qed.

(** Steps that read leave the database as it is. *)
Lemma query_ok {A} ctx (f : catalog -> A) n s a n' s' : query faults ctx f n s = Ok (a, n', s') -> s' = s /\ a = f s.
Proof. intros [= -> ->]%step_ok. done. Qed.
Lemma setting_ok ctx n s a n' s' : setting faults ctx n s = Ok (a, n', s') -> s' = s.
Proof. intros [= _ ->]%step_ok. done. Qed.
Lemma setting_then {B} ctx (k : unit -> tx B) n s r : tx_bind (setting faults ctx) k n s = Ok r -> exists n', k () n' s = Ok r.
Proof. intros ([] & n1 & s1 & ->%setting_ok & H)%bind_ok. eauto. Qed.
Lemma verify_ok ctx n s a n' s' : verify_required faults ctx n s = Ok (a, n', s') -> s' = s /\ verify_columns (columns (content s)) = None.
Proof.
  unfold verify_required. destruct (query _ _ _ n s) as [[[have n1] s1]|] eqn:E; [|done]. apply query_ok in E as [-> ->].
  destruct (verify_columns _); [done|]. by intros [= _ _ <-].
Qed.

Lemma execute_ok ctx sql n s a n' s' : execute_sql faults ctx sql n s = Ok (a, n', s') -> advances [] [sql] s s'.
Proof.
  intros H%step_ok. destruct (exec_sql sql (content s)) as [d|] eqn:E; [|done]. injection H as _ <-.
  split; simpl; [done|by rewrite app_nil_r|by rewrite E|done].
Qed.

Lemma record_ok v n s a n' s' : record faults v n s = Ok (a, n', s') -> advances [v] [] s s' /\ versions s' = Some (recorded s ++ [v]).
Proof.
  intros H%step_ok. simpl in H. destruct (decide (v ∈ default [] (versions s))) as [|Hv]; [by rewrite bool_decide_true in H|].
  rewrite bool_decide_false in H by done. injection H as _ <-. split; [|done]. split; simpl; try done.
  intros Hn. apply NoDup_app. split; [done|]. split; [|apply NoDup_singleton]. by intros x Hx ->%list_elem_of_singleton.
Qed.

Lemma ret_ok {A} (a x : A) n s n' s' : tx_ret a n s = Ok (x, n', s') -> s' = s.
Proof. by intros [= _ _ <-]. Qed.

Definition missing (applied : list string) (migs : list migration) : list migration :=
  List.filter (fun m => negb (bool_decide (mg_version m ∈ applied))) migs.

Lemma migrations_ok migs applied n s a n' s' : apply_migrations faults migs applied n s = Ok (a, n', s') ->
  advances (map mg_version (missing applied migs)) (map mg_sql (missing applied migs)) s s' /\ (is_Some (versions s) -> is_Some (versions s')).
Proof.
  revert n s. induction migs as [|mig migs IH]; intros n s; cbn [apply_migrations].
  - intros ->%ret_ok. split; [by apply advances_nothing|done].
  - intros (x & n1 & s1 & H1 & H2)%bind_ok. apply IH in H2 as [H2 Hs]. unfold missing. simpl.
    destruct (bool_decide (mg_version mig ∈ applied)); simpl.
    + apply ret_ok in H1 as ->. done.
    + apply bind_ok in H1 as (y & n2 & s2 & He & Hr). apply execute_ok in He. apply record_ok in Hr as [Hr Hv].
      split; [|intros _; apply Hs; by rewrite Hv]. pose proof (advances_trans _ _ _ _ _ _ _ He Hr) as H3.
      exact (advances_trans _ _ _ _ _ _ _ H3 H2).
Qed.

(** The baseline's script runs only in a schema without mailboxes. *)
Definition baseline_todo (m : migrator) (s : catalog) : list string * list string :=
  if bool_decide (baseline_version ∈ recorded s) then ([], [])
  else ([baseline_version], if has_mailboxes (content s) then [] else [mr_baseline m]).

Lemma baseline_ok m n s a n' s' : apply_baseline faults m (recorded s) n s = Ok (a, n', s') ->
  advances (baseline_todo m s).1 (baseline_todo m s).2 s s' /\ (is_Some (versions s) -> is_Some (versions s')).
Proof.
  unfold apply_baseline, baseline_todo. destruct (bool_decide _).
  - intros ->%ret_ok. split; [by apply advances_nothing|done].
  - intros (has & n1 & s1 & Hq & H)%bind_ok. apply query_ok in Hq as [-> ->].
    apply bind_ok in H as (x & n2 & s2 & Hb & Hr). apply record_ok in Hr as [Hr Hv]. split; [|intros _; by rewrite Hv].
    destruct (has_mailboxes (content s)); [apply verify_ok in Hb as [-> _]; exact Hr|].
    apply execute_ok in Hb. exact (advances_trans _ _ _ _ _ _ _ Hb Hr).
Qed.

Lemma statements_ok m s a n' s' : run_statements faults m 0%nat s = Ok (a, n', s') ->
  recorded s' = recorded s ++ (baseline_todo m s).1 ++ map mg_version (missing (recorded s) (mr_migrations m)) /\
  exec_all ((baseline_todo m s).2 ++ map mg_sql (missing (recorded s) (mr_migrations m))) (content s) = Ok (content s') /\
  (NoDup (recorded s) -> NoDup (recorded s')) /\ verify_columns (columns (content s')) = None /\ is_Some (versions s').
Proof.
  unfold run_statements. do 4 (intros [? H]%setting_then; revert H).
  intros (there & n1 & s1 & Hq & H)%bind_ok. apply query_ok in Hq as [-> ->].
  apply bind_ok in H as ([] & n2 & s2 & Hc & H).
  assert (recorded s2 = recorded s /\ content s2 = content s) as [Hr2 Hc2].
  { destruct (schema_exists s); [by apply ret_ok in Hc as ->|]. apply step_ok in Hc. by injection Hc as <-. }
  apply setting_then in H as [n3 H]. apply bind_ok in H as ([] & n4 & s4 & Hv & H).
  assert (recorded s4 = recorded s /\ content s4 = content s /\ is_Some (versions s4)) as (Hr4 & Hc4 & Hs4).
  { apply step_ok in Hv. simpl in Hv. destruct (schema_exists s2); [|done]. injection Hv as <-. simpl. eauto. }
  apply bind_ok in H as (applied & n5 & s5 & Hq & H). apply query_ok in Hq as [-> ->]. fold (recorded s4) in H.
  apply bind_ok in H as ([] & n6 & s6 & Hb & H). apply baseline_ok in Hb as [Hb Hs6].
  apply bind_ok in H as ([] & n7 & s7 & Hm & H). apply migrations_ok in Hm as [Hm Hs7]. apply verify_ok in H as [-> Hverify].
  destruct (advances_trans _ _ _ _ _ _ _ Hb Hm) as [_ Hr Hex Honce]. unfold baseline_todo in *.
  rewrite Hr4, Hc4 in *. split_and!; auto.
Qed.

End committed.

(** C33. A start migrates the database completely or not at all.  Whichever
    statement fails and whatever becomes of the COMMIT, the database is either
    as it was, and then the start reports an error, or every required column
    is there, the baseline and all of the start's migrations are recorded, and
    what was done is exactly the scripts that were not recorded before, in
    their order, the baseline's only in a schema without mailboxes. *)
Theorem migration_is_all_or_nothing m faults commit s :
  let '(s', e) := migrate m faults commit s in
  (s' = s /\ e <> None) \/
  (verify_columns (columns (content s')) = None /\ baseline_version ∈ recorded s' /\
   (forall mig, mig ∈ mr_migrations m -> mg_version mig ∈ recorded s') /\
   recorded s' = recorded s ++ (baseline_todo m s).1 ++ map mg_version (missing (recorded s) (mr_migrations m)) /\
   exec_all ((baseline_todo m s).2 ++ map mg_sql (missing (recorded s) (mr_migrations m))) (content s) = Ok (content s')).
Proof.
  unfold migrate. destruct (run_statements faults m 0%nat s) as [[[a n'] s']|e] eqn:E; [|left; done].
  apply statements_ok in E as (Hr & Hex & _ & Hv & _).
  enough (baseline_version ∈ recorded s' /\ forall mig, mig ∈ mr_migrations m -> mg_version mig ∈ recorded s') as [Hb Hm]
    by (destruct commit; [right|left|right]; done).
  rewrite Hr. unfold baseline_todo. split.
  - destruct (decide (baseline_version ∈ recorded s)); [set_solver|]. rewrite bool_decide_false by done. set_solver.
  - intros mig Hmig. destruct (decide (mg_version mig ∈ recorded s)); [set_solver|]. rewrite !elem_of_app. right. right.
    apply list_elem_of_fmap. exists mig. split; [done|]. apply list_elem_of_In, List.filter_In. split; [by apply list_elem_of_In|].
    by rewrite bool_decide_false.
Qed.

(** The content of [s'] is that of [s] after the baseline, where there were no
    mailboxes, and after the other recorded scripts, each once and in the
    order of the record. *)
Definition built (script : string -> string) (baseline : string) (s s' : catalog) : Prop :=
  exists later, recorded s' = baseline_version :: later /\ NoDup (recorded s') /\
    exec_all ((if has_mailboxes (content s) then [] else [baseline]) ++ map script later) (content s) = Ok (content s') /\
    verify_columns (columns (content s')) = None.

Definition agrees (script : string -> string) (baseline : string) (m : migrator) : Prop :=
  mr_baseline m = baseline /\ Forall (fun mig => mg_sql mig = script (mg_version mig)) (mr_migrations m).

Lemma built_step script baseline m faults commit s s1 : agrees script baseline m -> recorded s = [] ->
  s1 = s \/ built script baseline s s1 -> let s' := (migrate m faults commit s1).1 in s' = s \/ built script baseline s s'.
Proof.
  intros [Hb Hm] Hnew Hs1. unfold migrate. destruct (run_statements faults m 0%nat s1) as [[[a n'] s']|e] eqn:E; [|done].
  apply statements_ok in E as (Hr & Hex & Honce & Hv & _).
  assert (forall l, map mg_sql (missing l (mr_migrations m)) = map script (map mg_version (missing l (mr_migrations m)))) as Hscript.
  { intros l. rewrite map_map. apply List.map_ext_in. intros x Hx. apply List.filter_In in Hx as [Hx _].
    rewrite Forall_forall in Hm. by apply Hm, list_elem_of_In. }
  rewrite Hscript in Hex. unfold baseline_todo in *.
  enough (built script baseline s s') by (destruct commit; [by right|exact Hs1|by right]).
  destruct Hs1 as [->|(later & Hr1 & Hn1 & Hex1 & _)].
  - rewrite Hnew in *. rewrite bool_decide_false in * by set_solver. eexists. split; [exact Hr|]. split; [apply Honce, NoDup_nil_2|].
    split; [|done]. rewrite Hb in Hex. exact Hex.
  - rewrite bool_decide_true in * by (rewrite Hr1; set_solver). cbn [fst snd app] in *. rewrite Hr1 in Hr, Hex, Honce, Hn1.
    eexists. split; [exact Hr|]. split; [by apply Honce|]. split; [|done]. rewrite map_app, app_assoc, exec_all_app, Hex1. exact Hex.
Qed.

(** C34. Every script runs once.  Starting from a database that no migrator has
    recorded anything in, however many replicas start, of whatever versions of
    the program that agree on the scripts, and whichever of their statements
    and commits fail: either nothing was done yet, or the recorded versions are
    distinct, the baseline first, and the content is what the recorded scripts
    make of the original, one after another in the recorded order, the
    baseline's left out where there were mailboxes already; and every required
    column is there. *)
Theorem every_script_runs_once script baseline starts s
    (Hagree : Forall (fun r => agrees script baseline (st_migrator r)) starts) (Hnew : recorded s = []) :
  let s' := migrate_all starts s in s' = s \/ built script baseline s s'.
Proof.
  cbv zeta. unfold migrate_all. revert Hagree.
  enough (forall s1, Forall (fun r => agrees script baseline (st_migrator r)) starts -> s1 = s \/ built script baseline s s1 ->
    let s' := fold_left (fun s r => (migrate (st_migrator r) (st_faults r) (st_commit r) s).1) starts s1 in
    s' = s \/ built script baseline s s') as Hall by (intros Ha; apply Hall; [done|by left]).
  induction starts as [|r starts IH]; intros s1 Hagree Hs1; [done|]. apply Forall_cons in Hagree as [Hr Hagree].
  cbn [fold_left]. apply IH; [done|]. by apply built_step.
Qed.

End run.

(** ** A concrete database: the set of its columns *)

Definition sample_exec (sql : string) (d : gset string) : res (gset string) :=
  if String.eqb sql "schema" then Ok (list_to_set required_names ∪ d)
  else if bool_decide (sql ∈ d) then Err (Sentinel "column exists") else Ok ({[sql]} ∪ d).
Definition sample_has_mailboxes (d : gset string) : bool := bool_decide ("mailboxes.pubkey" ∈ d).
Definition sample_script (version : string) : string := if String.eqb version "014_key" then "attachments.blob_key" else "emails.tag".
Definition sample_migrator (versions : list string) : migrator :=
  Migrator "schema" (map (fun v => Migration v (sample_script v)) versions).
(** One replica is told that its COMMIT failed, though it did not; the next is
    of a newer version, and a third finds nothing to do. *)
Definition sample_starts : list replica_start :=
  [ReplicaStart (sample_migrator ["013_tag"]) (fun _ => None) (Late (Sentinel "connection lost"));
   ReplicaStart (sample_migrator ["013_tag"; "014_key"]) (fun _ => None) Done;
   ReplicaStart (sample_migrator ["013_tag"; "014_key"]) (fun _ => None) Done].

Lemma every_script_runs_once_witness :
  let s := Catalog false None ∅ in
  let s' := migrate_all sample_exec id sample_has_mailboxes sample_starts s in
  recorded s' = [baseline_version; "013_tag"; "014_key"] /\
  (s' = s \/ built sample_exec id sample_has_mailboxes sample_script "schema" s s').
Proof.
  cbv zeta. split; [vm_compute; reflexivity|].
  apply (every_script_runs_once sample_exec id sample_has_mailboxes sample_script "schema" sample_starts (Catalog false None ∅)).
  - repeat constructor.
  - reflexivity.
Defined.

Example sample_files :
  new_migrator (Ok "schema") [("007_domains.sql", Ok "x"); ("014_key.sql", Ok "b"); ("13_tag.sql", Ok "a")] =
    Ok (Migrator "schema" [Migration "13_tag" "a"; Migration "014_key" "b"]) /\
  new_migrator (Ok "schema") [("013_tag.sql", Ok "a"); ("13_key.sql", Ok "b")] =
    Err (Sentinel "migrations 013_tag.sql and 13_key.sql share number 13").
Proof. split; vm_compute; reflexivity. Qed.
