(* ===== verification/Dsn.v ===== *)
(** * Credentials in connection strings: internal/storage/postgres.go

    The three regular expressions' matches are computed by hand: a matcher says
    what a match at the start of a text keeps, which value it captures and what
    follows.  Text is taken as bytes; quoting leaves those above ASCII, which
    are assumed printable, as they are. *)

From S2P Require Import Prelude GoStrings GoUrl.
#[local] Open Scope Z_scope.

(** ** Matching *)

(** [strings.Index]: what comes before and after the first occurrence. *)
Fixpoint cut_string (sub s : string) : option (string * string) :=
  if has_prefix s sub then Some ("", drop_str (String.length sub) s)
  else match s with
       | "" => None
       | String c t => match cut_string sub t with Some (a, b) => Some (String c a, b) | None => None end
       end.

(** The longest start without a character of [p], and the rest. *)
Fixpoint break_at (p : ascii -> bool) (s : string) : string * string :=
  match s with
  | "" => ("", "")
  | String c t => if p c then ("", s) else let '(a, b) := break_at p t in (String c a, b)
  end.

Record match_ := Match { m_kept : string; m_value : string; m_rest : string }.

(** All matches from left to right: the text in pieces, the captured values
    marked.  [prev] is the character before. *)
Fixpoint pieces (m : option ascii -> string -> option match_) (fuel : nat) (prev : option ascii) (s : string) : list (bool * string) :=
  match fuel with
  | O => []
  | S fuel =>
      match m prev s with
      | Some (Match kept value rest) =>
          let text := kept +:+ value in
          (false, kept) :: (true, value) :: pieces m fuel (String.get (String.length text - 1) text) rest
      | None =>
          match s with
          | "" => []
          | String c t => (false, String c "") :: pieces m fuel (Some c) t
          end
      end
  end.
Definition all_pieces (m : option ascii -> string -> option match_) (s : string) : list (bool * string) :=
  pieces m (S (String.length s)) None s.
Definition masked (m : option ascii -> string -> option match_) (s : string) : string :=
  String.concat "" (map (fun x : bool * string => if x.1 then "***" else x.2) (all_pieces m s)).
Definition captured (m : option ascii -> string -> option match_) (s : string) : list string :=
  omap (fun x : bool * string => if x.1 then Some x.2 else None) (all_pieces m s).

(** [queryPasswordRe]: [?] or [&], a name, [=], and then up to [&] or [#]. *)
Definition query_password (_ : option ascii) (s : string) : option match_ :=
  match s with
  | String c t =>
      if one_of "?&" c then
        match List.find (fun k => has_prefix (to_lower t) (k +:+ "=")) ["password"; "pass"; "pwd"] with
        | Some k =>
            let n := S (S (String.length k)) in
            let '(value, rest) := break_at (one_of "&#") (drop_str n s) in
            Some (Match (take_str n s) value rest)
        | None => None
        end
      else None
  | "" => None
  end.

Definition blank : ascii -> bool := one_of (String "009" (String LF (String "012" (String CR " ")))).
Definition word (c : ascii) : bool := is_letter c || is_digit c || Ascii.eqb c "_".

(** The rest of a quoted value: up to its closing quote, a backslash taking the
    next character with it. *)
Fixpoint quoted (s : string) : option (string * string) :=
  match s with
  | "" => None
  | String c t =>
      if Ascii.eqb c "'" then Some ("'", t)
      else if Ascii.eqb c "\" then
        match t with
        | String d t => if Ascii.eqb d LF then None
                        else match quoted t with Some (a, b) => Some (String c (String d a), b) | None => None end
        | "" => None
        end
      else match quoted t with Some (a, b) => Some (String c a, b) | None => None end
  end.

Definition skip_blanks (s : string) : string * string := break_at (fun c => negb (blank c)) s.

(** [kvPasswordRe]: the word, [=] among blanks, and a quoted value or the text up to a blank. *)
Definition kv_password (prev : option ascii) (s : string) : option match_ :=
  if match prev with Some c => word c | None => false end then None
  else if negb (has_prefix (to_lower s) "password") then None
  else
    let '(b1, r1) := skip_blanks (drop_str 8 s) in
    match r1 with
    | String "=" r2 =>
        let '(b2, r3) := skip_blanks r2 in
        let kept := take_str 8 s +:+ b1 +:+ "=" +:+ b2 in
        let plain := let '(value, rest) := break_at blank r3 in Some (Match kept value rest) in
        match r3 with
        | String "'" r4 => match quoted r4 with Some (a, rest) => Some (Match kept (String "'" a) rest) | None => plain end
        | _ => plain
        end
    | _ => None
    end.

(** ** Masking *)

(** The authority and what follows it. *)
Definition authority (rest : string) : string * string := break_at (one_of "?#") rest.

Definition mask_database_url (s : string) : string :=
  match cut_string "://" s with
  | None | Some ("", _) => masked kv_password s
  | Some (scheme, rest) =>
      let '(auth, tail) := authority rest in
      let rest := match cut_last "@" auth with Some (_, host) => "***:***@" +:+ host +:+ tail | None => rest end in
      scheme +:+ "://" +:+ masked query_password rest
  end.

(** ** Redaction *)

(** [PathUnescape] is [QueryUnescape] to which a plus means itself. *)
Definition path_unescape (s : string) : res string := query_unescape (replace_all s "+" "%2B").
(** [strings.Trim(s, "'")]. *)
Definition trim_quotes (s : string) : string := trim_right (Ascii.eqb "'") (trim_left (Ascii.eqb "'") s).

Definition raw_passwords (dsn : string) : list string :=
  match cut_string "://" dsn with
  | None | Some ("", _) => flat_map (fun v => [v; trim_quotes v]) (captured kv_password dsn)
  | Some (_, rest) =>
      match cut_last "@" (authority rest).1 with
      | Some (userinfo, _) => match cut ":" userinfo with Some (_, p) => [p] | None => [] end
      | None => []
      end ++ captured query_password rest
  end.

Definition decoded_password (r : res string) (p : string) : list string :=
  match r with Ok dec => if negb (String.eqb dec p) && negb (String.eqb dec "") then [dec] else [] | Err _ => [] end.

Definition dsn_passwords (dsn : string) : list string :=
  flat_map (fun p => if String.eqb p "" then [] else p :: decoded_password (query_unescape p) p ++ decoded_password (path_unescape p) p)
    (raw_passwords dsn).

(** [strconv.Quote] without its quotes. *)
Definition quote_char (c : ascii) : string :=
  let n := char_code c in
  let esc d := String "\" (String d "") in
  if Ascii.eqb c "\" then esc "\"%char
  else if (n =? 34)%nat then esc (ascii_of_nat 34)
  else if (n =? 7)%nat then esc "a"%char else if (n =? 8)%nat then esc "b"%char
  else if (n =? 12)%nat then esc "f"%char else if (n =? 10)%nat then esc "n"%char
  else if (n =? 13)%nat then esc "r"%char else if (n =? 9)%nat then esc "t"%char
  else if (n =? 11)%nat then esc "v"%char
  else if (n <? 32)%nat || (n =? 127)%nat then "\x" +:+ hex_encode (String c "")
  else String c "".
Fixpoint quote_body (s : string) : string := match s with "" => "" | String c t => quote_char c +:+ quote_body t end.

Definition stars : string := "***".
Definition scrub (msg p : string) : string :=
  let msg := replace_all msg p stars in
  let q := quote_body p in
  if String.eqb q p then msg else replace_all msg q stars.

(** [url_error]: the chain of the error holds a [*url.Error]. *)
Definition redact_dsn_error (url_error : bool) (msg dsn : string) : string :=
  if url_error then "connection URL could not be parsed (details withheld)"
  else fold_left scrub (dsn_passwords dsn) msg.

(** * Properties *)

(** ** Scrubbing *)

(** A text without stars begins a scrubbed one only where it begins the original. *)
Lemma prefix_scrubbed old s : forall p, no_char "*" p = true ->
  has_prefix (replace_go old stars 0 s) p = true -> has_prefix s p = true.
Proof.
  induction s as [|c s IH]; intros [|d p] Hp; try done. rewrite no_char_cons in Hp. apply andb_true_iff in Hp as [Hd Hp].
  cbn [replace_go]. destruct (has_prefix (String c s) old).
  - change (stars +:+ ?x) with (String "*" ("**" +:+ x)). rewrite has_prefix_cons. apply negb_true_iff in Hd.
    (rewrite Hd || rewrite Ascii.eqb_sym, Hd). done.
  - rewrite !has_prefix_cons. intros [-> H]%andb_true_iff. by apply IH.
Qed.

Lemma star_prefix p : no_char "*" p = true -> p <> "" -> forall x, has_prefix (String "*" x) p = false.
Proof.
  intros Hp Hne x. destruct p as [|d p]; [done|]. rewrite no_char_cons in Hp. apply andb_true_iff in Hp as [Hd%negb_true_iff _].
  rewrite has_prefix_cons. (rewrite Hd || rewrite Ascii.eqb_sym, Hd). done.
Qed.

Lemma contains_scrubbed old p s : no_char "*" p = true -> p <> "" ->
  forall k, contains (replace_go old stars k s) p = true -> contains s p = true.
Proof.
  intros Hp Hne. pose proof (star_prefix p Hp Hne) as Hstar.
  induction s as [|c s IH]; intros k; cbn [replace_go]; [done|]. destruct k as [|k].
  - destruct (has_prefix (String c s) old) eqn:Eo.
    + change (stars +:+ ?x) with (String "*" (String "*" (String "*" x))). cbn [contains]. rewrite !Hstar. cbn [orb].
      intros H%IH. by rewrite H, orb_true_r.
    + cbn [contains]. intros [H|H]%orb_true_iff; [|apply IH in H; by rewrite H, orb_true_r].
      enough (has_prefix (String c s) p = true) as -> by done. apply (prefix_scrubbed old); [done|]. cbn [replace_go]. by rewrite Eo.
  - intros H%IH. cbn [contains]. by rewrite H, orb_true_r.
Qed.

Lemma replaced_gone p s : no_char "*" p = true -> p <> "" -> forall k, contains (replace_go p stars k s) p = false.
Proof.
  intros Hp Hne. pose proof (star_prefix p Hp Hne) as Hstar.
  induction s as [|c s IH]; intros k; cbn [replace_go]; [by destruct p|]. destruct k as [|k]; [|apply IH].
  destruct (has_prefix (String c s) p) eqn:Ep.
  - change (stars +:+ ?x) with (String "*" (String "*" (String "*" x))). cbn [contains]. rewrite !Hstar. apply IH.
  - cbn [contains]. rewrite IH, orb_false_r. apply not_true_iff_false. intros H.
    rewrite (prefix_scrubbed p (String c s) p Hp) in Ep; [done|]. cbn [replace_go]. by rewrite Ep.
Qed.

Lemma scrub_keeps_out msg q p : no_char "*" p = true -> p <> "" -> contains msg p = false -> contains (scrub msg q) p = false.
Proof.
  intros Hp Hne Hm. unfold scrub, replace_all. apply not_true_iff_false. intros H.
  destruct (String.eqb _ _); repeat (apply contains_scrubbed in H; [|done|done]); congruence.
Qed.

Lemma scrub_removes msg p : no_char "*" p = true -> p <> "" -> contains (scrub msg p) p = false.
Proof.
  intros Hp Hne. unfold scrub, replace_all. destruct (String.eqb _ _); [by apply replaced_gone|].
  apply not_true_iff_false. intros H%contains_scrubbed; [|done|done]. by rewrite replaced_gone in H.
Qed.

(** Whatever password the connection string is found to have is gone from the message. *)
Lemma redacted_hides msg dsn p : p ∈ dsn_passwords dsn -> no_char "*" p = true -> p <> "" ->
  contains (redact_dsn_error false msg dsn) p = false.
Proof.
  unfold redact_dsn_error. intros Hin Hp Hne. revert msg. induction (dsn_passwords dsn) as [|q qs IH]; [by apply not_elem_of_nil in Hin|].
  intros msg. simpl. apply elem_of_cons in Hin as [->|Hin]; [|by apply IH].
  assert (forall qs m, contains m q = false -> contains (fold_left scrub qs m) q = false) as Hkeep.
  { clear -Hp Hne. induction qs as [|x qs IH]; intros m Hm; [done|]. simpl. apply IH. by apply scrub_keeps_out. }
  apply Hkeep. by apply scrub_removes.
Qed.

(** ** Connection URLs *)

Lemma cut_scheme scheme rest : forall_chars is_letter scheme = true ->
  cut_string "://" (scheme +:+ "://" +:+ rest) = Some (scheme, rest).
Proof.
  assert (cut_string "://" ("://" +:+ rest) = Some ("", rest)) as H0 by (simpl; by destruct rest).
  revert H0. generalize ("://" +:+ rest) as x. intros x H0 Hs. induction scheme as [|c scheme IH]; [exact H0|].
  simpl in Hs. apply andb_true_iff in Hs as [Hc Hs]. change (String c scheme +:+ x) with (String c (scheme +:+ x)).
  cbn [cut_string]. rewrite IH by done. rewrite has_prefix_cons.
  assert (Ascii.eqb c ":" = false /\ Ascii.eqb ":" c = false) as [E1 E2] by (split; apply Ascii.eqb_neq; intros E; by rewrite E in Hc || rewrite <- E in Hc).
  (rewrite E1 || rewrite E2). done.
Qed.

Definition starts_with (p : ascii -> bool) (s : string) : bool := match s with "" => true | String c _ => p c end.

Lemma break_at_app p a b : free_of p a = true -> starts_with p b = true -> break_at p (a +:+ b) = (a, b).
Proof.
  unfold free_of. intros Ha Hb. induction a as [|c a IH]; simpl in *; [destruct b; simpl in *; [done|by rewrite Hb]|].
  apply andb_true_iff in Ha as [Hc%negb_true_iff Ha]. by rewrite Hc, IH.
Qed.

(** A URL with credentials; its authority has neither [?] nor [#], and the host no [@]. *)
Definition url_of (scheme user password host tail : string) : string :=
  scheme +:+ "://" +:+ user +:+ ":" +:+ password +:+ "@" +:+ host +:+ tail.
Record plain_url (scheme user password host tail : string) : Prop := PlainUrl {
  pu_scheme : forall_chars is_letter scheme = true /\ scheme <> "";
  pu_user : free_of (one_of "?#") user = true /\ no_char ":" user = true;
  pu_password : free_of (one_of "?#") password = true;
  pu_host : free_of (one_of "?#") host = true /\ no_char "@" host = true;
  pu_tail : starts_with (one_of "?#") tail = true }.

Lemma url_parts scheme user password host tail : plain_url scheme user password host tail ->
  exists rest, cut_string "://" (url_of scheme user password host tail) = Some (scheme, rest) /\
    authority rest = (user +:+ ":" +:+ password +:+ "@" +:+ host, tail) /\
    cut_last "@" (user +:+ ":" +:+ password +:+ "@" +:+ host) = Some (user +:+ ":" +:+ password, host).
Proof.
  intros [[Hs _] [Hu _] Hp [Hh Hat] Ht]. unfold url_of. eexists. split; [by apply cut_scheme|]. split.
  - unfold authority. replace (user +:+ ":" +:+ password +:+ "@" +:+ host +:+ tail)
      with ((user +:+ ":" +:+ password +:+ "@" +:+ host) +:+ tail) by by rewrite !app_assoc_str.
    apply break_at_app; [|done]. unfold free_of in *. rewrite !forall_chars_app, Hu, Hp, Hh. done.
  - replace (user +:+ ":" +:+ password +:+ "@" +:+ host) with ((user +:+ ":" +:+ password) +:+ String "@" host)
      by by rewrite !app_assoc_str. by apply cut_last_app.
Qed.

(** C40. The credentials of a connection URL stay out of the log, where the URL
    is one the code can split: its authority contains neither question mark nor
    hash (a hash in the password is logged, [hash_in_password_is_logged]), the
    user no colon and the host no at-sign; the password may hold at-signs,
    slashes and colons.  Then the masked URL is made from the scheme, the host
    and the tail only; and if the password has no asterisk, no redacted error
    contains it, however often, raw or quoted, the message repeats it. *)
Theorem credentials_stay_hidden scheme user password host tail msg (Hurl : plain_url scheme user password host tail)
    (Hpw : password <> "") (Hstar : no_char "*" password = true) :
  mask_database_url (url_of scheme user password host tail) =
    scheme +:+ "://" +:+ masked query_password ("***:***@" +:+ host +:+ tail) /\
  contains (redact_dsn_error false msg (url_of scheme user password host tail)) password = false.
Proof.
  destruct (url_parts _ _ _ _ _ Hurl) as (rest & Hcut & Hauth & Hat). destruct Hurl as [[_ Hs] [_ Hu] _ _ _]. split.
  - unfold mask_database_url. rewrite Hcut. destruct scheme; [done|]. rewrite Hauth, Hat. done.
  - apply redacted_hides; [|done|done]. unfold dsn_passwords. apply list_elem_of_In, List.in_flat_map. exists password. split.
    + apply list_elem_of_In. unfold raw_passwords. rewrite Hcut. destruct scheme; [done|]. rewrite Hauth. cbn [fst]. rewrite Hat.
      change (user +:+ ":" +:+ password) with (user +:+ String ":" password). rewrite cut_app by done. by left.
    + destruct (String.eqb_spec password ""); [done|]. by left.
Qed.

Lemma masked_nothing m s : (forall prev c t, one_of "?&" c = false -> m prev (String c t) = None) -> m None "" = None ->
  (forall c, m (Some c) "" = None) -> free_of (one_of "?&") s = true -> masked m s = s.
Proof.
  intros Hm H0 H1 Hs. unfold masked, all_pieces. generalize (Nat.lt_succ_diag_r (String.length s)), (@None ascii) as prev.
  generalize (S (String.length s)) as n. induction s as [|c s IH]; intros [|n] Hn prev; try (simpl in Hn; lia); cbn [pieces].
  - assert (m prev "" = None) as -> by (destruct prev; auto). done.
  - unfold free_of in Hs. simpl in Hs, Hn. apply andb_true_iff in Hs as [Hc%negb_true_iff Hs]. rewrite Hm by done.
    specialize (IH Hs n ltac:(lia) (Some c)). cbn [map fst snd]. destruct (map _ (pieces m n (Some c) s)) as [|x l]; [by rewrite <- IH|].
    change (String.concat "" (String c "" :: x :: l)) with (String c (String.concat "" (x :: l))). by rewrite IH.
Qed.

(** A hash in the password defeats the masking.  The authority is taken to
    end at the first hash or question mark, also inside of a password: where
    there is no at-sign before it, the URL that is written to the log when the
    service starts is the original, credentials included. *)
Theorem hash_in_password_is_logged scheme user a b (Hs : forall_chars is_letter scheme = true) (Hne : scheme <> "")
    (Hat : no_char "@" (user +:+ ":" +:+ a) = true) (Hq : free_of (one_of "?&") (user +:+ ":" +:+ a +:+ "#" +:+ b) = true)
    (Hh : free_of (one_of "?#") (user +:+ ":" +:+ a) = true) :
  mask_database_url (scheme +:+ "://" +:+ user +:+ ":" +:+ a +:+ "#" +:+ b) = scheme +:+ "://" +:+ user +:+ ":" +:+ a +:+ "#" +:+ b.
Proof.
  unfold mask_database_url. rewrite cut_scheme by done. destruct scheme as [|c scheme]; [done|].
  assert (authority (user +:+ ":" +:+ a +:+ "#" +:+ b) = (user +:+ ":" +:+ a, "#" +:+ b)) as ->.
  { unfold authority. replace (user +:+ ":" +:+ a +:+ "#" +:+ b) with ((user +:+ ":" +:+ a) +:+ ("#" +:+ b))
      by by rewrite !app_assoc_str. by apply break_at_app. }
  assert (cut_last "@" (user +:+ ":" +:+ a) = None) as ->.
  { revert Hat. generalize (user +:+ ":" +:+ a). induction s as [|d s IH]; [done|]. rewrite no_char_cons.
    intros [Hd%negb_true_iff Hat]%andb_true_iff. cbn [cut_last]. by rewrite IH, Hd. }
  rewrite masked_nothing; try done. intros prev d t Hd. unfold query_password. by rewrite Hd.
Qed.

(** ** Witnesses *)

Lemma sample_url : plain_url "postgres" "mail" "p@ss/w" "db:5432/mail" "?sslmode=off&password=zz".
Proof. split; repeat split; reflexivity || discriminate. Qed.

Lemma credentials_stay_hidden_witness :
  mask_database_url "postgres://mail:p@ss/w@db:5432/mail?sslmode=off&password=zz" =
    "postgres://***:***@db:5432/mail?sslmode=off&password=***" /\
  contains (redact_dsn_error false "cannot reach mail:p@ss/w@db" "postgres://mail:p@ss/w@db:5432/mail?sslmode=off&password=zz")
    "p@ss/w" = false.
Proof.
  destruct (credentials_stay_hidden "postgres" "mail" "p@ss/w" "db:5432/mail" "?sslmode=off&password=zz" "cannot reach mail:p@ss/w@db"
    sample_url ltac:(discriminate) eq_refl) as [Hm Hr].
  split; [etransitivity; [exact Hm|vm_compute; reflexivity]|exact Hr].
Defined.

Lemma hash_in_password_is_logged_witness :
  mask_database_url "postgres://mail:s3cret#1@db/mail" = "postgres://mail:s3cret#1@db/mail".
Proof. apply (hash_in_password_is_logged "postgres" "mail" "s3cret" "1@db/mail"); [reflexivity|discriminate|reflexivity..]. Defined.

Example sample_key_value :
  mask_database_url "host=h password = 'a b\'c' Password=zz mypassword=q" = "host=h password = *** Password=*** mypassword=q" /\
  dsn_passwords "postgres://u:p%40w@h/db?pass=a+b" = ["p%40w"; "p@w"; "p@w"; "a+b"; "a b"].
Proof. split; vm_compute; reflexivity. Qed.
