(* ===== verification/CloistrMe.v ===== *)
(** * The cloistr-me client: internal/identity/cloistr_me_client.go

    The client asks cloistr-me whether a key owns an address; it is the
    verifier of [Identity].  [parse_url] is [url.Parse] with the query's values,
    and [ask] what the request is answered with: the status and the decoded
    body, or why there is none. *)

From stdpp Require Import sorting.
From S2P Require Import Prelude GoStrings GoUrl Identity.
#[local] Open Scope Z_scope.

Record verify_address_response := VerifyAddressResponse { va_valid : bool; va_username : string; va_pubkey : string; va_active : bool }.

Definition set_value (k v : string) (vs : list (string * string)) : list (string * string) :=
  (k, v) :: List.filter (fun kv => negb (String.eqb kv.1 k)) vs.
Definition key_before (x y : string * string) : Prop := String.leb x.1 y.1 = true.
#[export] Instance key_before_dec : RelDecision key_before.
Proof. intros x y. unfold key_before. apply _. Defined.
(** [Values.Encode]: sorted by key. *)
Definition encode_values (vs : list (string * string)) : string :=
  join "&" (map (fun kv => query_escape kv.1 +:+ "=" +:+ query_escape kv.2) (merge_sort key_before vs)).

Definition username_from_address (address : string) : string := match cut "@" address with Some (user, _) => user | None => address end.

Section client.
Context (parse_url : string -> res (string * list (string * string))) (ask : string -> string -> res (Z * res verify_address_response)).

Definition verify_url (base pubkey address : string) : res string :=
  let! (u, q) := wrap "invalid cloistr-me URL" (parse_url (base +:+ "/internal/v1/addresses/verify")) in
  Ok (u +:+ "?" +:+ encode_values (set_value "username" (username_from_address address) (set_value "pubkey" pubkey q))).

Definition verify_address_ownership (base secret pubkey address : string) : res bool :=
  if String.eqb base "" then Ok true
  else if String.eqb secret "" then Ok true
  else
    let! u := verify_url base pubkey address in
    let! (status, body) := wrap "cloistr-me request failed" (ask u ("Bearer " +:+ secret)) in
    if status =? 401 then Err (Sentinel "cloistr-me authentication failed: invalid secret")
    else if status =? 404 then Ok false
    else if negb (status =? 200) then Err (Sentinel ("cloistr-me returned status " +:+ pretty status))
    else let! r := wrap "failed to parse cloistr-me response" body in Ok (va_valid r).

(** * Properties *)

(** A sender that cloistr-me disowns is refused, for the domain or another.
    With a URL and a secret configured, an address that a send resolves to was
    not disowned: whatever cloistr-me answered, it was neither 404 nor a 200
    that says invalid.  The question names the user but not the domain, so that
    it is the same for the address of that name at any domain. *)
Theorem disowned_sender_is_refused {St} `{AddressStore St} base secret pk from (st : St) u
    (Hbase : base <> "") (Hsecret : secret <> "")
    (Hu : resolve_from_address (Some (verify_address_ownership base secret)) pk from st = Ok u) :
  forall url status body, verify_url base pk (email u) = Ok url -> ask url ("Bearer " +:+ secret) = Ok (status, body) ->
  status <> 404 /\ (forall r, status = 200 -> body = Ok r -> va_valid r = true) /\
  forall name domain domain', no_char "@" name = true -> email u = name +:+ "@" +:+ domain ->
    verify_url base pk (name +:+ "@" +:+ domain') = Ok url.
Proof.
  intros url status body Hurl Hask.
  assert (verify_address_ownership base secret pk (email u) <> Ok false) as Hv.
  { unfold resolve_from_address, validate_sender, cross_check in Hu. repeat (case_match; simplify_eq); congruence. }
  unfold verify_address_ownership in Hv. destruct (String.eqb_spec base ""), (String.eqb_spec secret ""); try done.
  rewrite Hurl in Hv. cbn [res_bind] in Hv. rewrite Hask in Hv. cbn [res_bind wrap] in Hv. split; [by intros ->|]. split.
  - intros r -> ->. simpl in Hv. by destruct (va_valid r).
  - intros name domain domain' Hname He. rewrite <- Hurl, He. unfold verify_url, username_from_address.
    change (name +:+ "@" +:+ domain') with (name +:+ String "@" domain'). change (name +:+ "@" +:+ domain) with (name +:+ String "@" domain).
    by rewrite !cut_app.
Qed.

End client.

Lemma disowned_sender_is_refused_witness :
  let url := "http://me/internal/v1/addresses/verify?pubkey=pk&username=alice" in
  verify_url (fun u => Ok (u, [])) "http://me" "pk" "alice@other.org" = Ok url.
Proof.
  destruct (disowned_sender_is_refused (fun u => Ok (u, [])) (fun _ _ => Ok (200, Ok (VerifyAddressResponse true "alice" "pk" true)))
    "http://me" "secret" "pk" "Alice@Cloistr.xyz" sample_addresses
    (to_unified_address (Address 1 "alice" Domain "pk" true true (Some false) None)) ltac:(discriminate) ltac:(discriminate)
    ltac:(vm_compute; reflexivity) "http://me/internal/v1/addresses/verify?pubkey=pk&username=alice" 200
    (Ok (VerifyAddressResponse true "alice" "pk" true)) ltac:(vm_compute; reflexivity) eq_refl) as (_ & _ & Hd).
  apply (Hd "alice" Domain "other.org"); reflexivity.
Defined.
