(* ===== verification/Settings.v ===== *)
(** * Keys and preferences: api/handler.go, storage/postgres.go, "Mailbox Preferences"

    The preferred mode is a column of the mailboxes row; handlers that read or
    write it are programs of [Prog] over that table, whose statements interleave
    with those of other requests and may fail.  Key discovery and the relay
    preferences are functions of what the services they ask would answer.  The
    bech32 encoding of a key and the relay client are parameters. *)

From S2P Require Import Prelude GoStrings GoUrl RateLimit Mailboxes Identity Encryption Http Prog.
#[local] Open Scope Z_scope.
#[local] Open Scope prog_scope.

Record discover_key_response := DiscoverKeyResponse {
  dk_email : string; dk_npub : string; dk_pubkey : string; dk_found : bool; dk_source : string }.
Record encryption_capability_response := EncryptionCapabilityResponse {
  ec_npub : string; ec_has_nip46 : bool; ec_preferred_mode : string; ec_can_server_encrypt : bool; ec_can_server_decrypt : bool }.
Record relay_config := RelayConfig { rc_url : string; rc_read : bool; rc_write : bool }.
Record relay_prefs := RelayPrefs { rp_pubkey : string; rp_source : string; rp_relays : list relay_config }.

Inductive settings_body :=
| MyKey (pubkey : string) (npub : option string)
| Discovered (r : discover_key_response)
| Mode (mode : string)
| Capabilities (r : encryption_capability_response)
| Relays (p : relay_prefs).

Abbreviation reply := (http_reply settings_body).

Definition signed_out : reply := unauthorized "AUTH_REQUIRED" "not authenticated".

Section keys.
Context (encode_npub : string -> option string).

(** ** Keys *)

Definition get_my_key (user : string) : reply := if String.eqb user "" then signed_out else Reply 200 (MyKey user (encode_npub user)).

(** [limiter]: the answer of the discovery limiter to one lookup; [resolve]: the identity service. *)
Definition discover_key (limiter : option (send -> res decision)) (resolve : option (string -> res external_recipient))
    (user email : string) : reply :=
  if String.eqb user "" then signed_out
  else if String.eqb email "" then bad_request "VALIDATION_FAILED" "email query parameter is required"
  else
    match validate_email_format email with
    | Some e => bad_request "INVALID_EMAIL" (error_text e)
    | None =>
        match match limiter with Some l => l (Send user 1 0 false) | None => Ok allow_it end with
        | Ok (Decision false why after) =>
            too_many_requests (reason_string why) "too many key lookups; try again shortly" (Z.max 1 (Z.quot after second))
        | _ =>
            Reply 200 (Discovered
              match match resolve with Some f => f email | None => Err (Sentinel "not configured") end with
              | Ok r =>
                  if String.eqb (r_npub r) "" then DiscoverKeyResponse email "" "" false ""
                  else let pk := to_lower (r_npub r) in
                       DiscoverKeyResponse email (default "" (encode_npub pk)) pk true (discovery_method r)
              | Err _ => DiscoverKeyResponse email "" "" false ""
              end)
        end
    end.

(** ** Relay preferences *)

Definition get_relay_prefs (client : option (string -> res relay_prefs)) (user : string) (q : list (string * string)) : reply :=
  match client with
  | None => service_unavailable "SERVICE_UNAVAILABLE" "relay preferences not configured" 30
  | Some client =>
      let asked := query_get "pubkey" q in
      if String.eqb asked "" && String.eqb user ""
      then bad_request "VALIDATION_FAILED" "pubkey query parameter required when not authenticated"
      else
        let pubkey := if String.eqb asked "" then user else asked in
        if negb (str_len pubkey =? 64) then bad_request "INVALID_PUBKEY" "invalid pubkey format: expected 64 hex characters"
        else match client pubkey with
             | Err _ => internal_error "failed to get relay preferences"
             | Ok p => Reply 200 (Relays p)
             end
  end.

(** ** The preferred mode *)

(** The mailboxes rows, and the preferred mode of those that have one. *)
Record preferences := Preferences { pf_mailboxes : mailbox_table; pf_modes : gmap string string }.

Inductive query : Type -> Type :=
| Database : query outcome
| HasBunkerConnection (user : string) : query bool.

Abbreviation P := (prog preferences query).

Definition valid_encryption_modes : list string := [ModeClientSide; ModeServerSide; ModeNone].
Definition canonical_encryption_mode (mode : string) : string := if String.eqb mode "e2e" then ModeClientSide else mode.

Definition select_mode (pk : string) (p : preferences) : preferences * string :=
  (p, match pf_mailboxes p !! pk with Some _ => default "" (pf_modes p !! pk) | None => "" end).
(** The number of rows. *)
Definition update_mode (now : Z) (pk mode : string) (p : preferences) : preferences * Z :=
  match pf_mailboxes p !! pk with
  | Some m => (Preferences (<[pk := touch_mailbox now m]> (pf_mailboxes p)) (<[pk := mode]> (pf_modes p)), 1)
  | None => (p, 0)
  end.
Definition ensure_owner (now : Z) (pk : string) (p : preferences) : preferences * res mailbox :=
  let '(t, r) := ensure_mailbox None now pk (pf_mailboxes p) in (Preferences t (pf_modes p), r).

Definition get_preferred_encryption_mode (pk : string) : P (res string) :=
  do r <- statement Database (select_mode pk); Ret (wrap "failed to read encryption preference" r).

Definition update_preference (pk mode : string) : P (res Z) :=
  do now <- call Now;
  do n <- statement Database (update_mode now pk mode);
  Ret (wrap "failed to save encryption preference" n).

Definition set_preferred_encryption_mode (pk mode : string) : P (res unit) :=
  try n <- update_preference pk mode;
  if n =? 0 then
    do now <- call Now;
    do m <- statement Database (ensure_owner now pk);
    match m with
    | Ok (Ok _) => try _ <- update_preference pk mode; Ret (Ok ())
    | Ok (Err e) | Err e => Ret (Err (Wrapped "failed to create mailbox for preference" (Wrapped "failed to ensure mailbox" e)))
    end
  else Ret (Ok ()).

Definition get_encryption_preference (user : string) : P reply :=
  if String.eqb user "" then Ret signed_out
  else
    do r <- get_preferred_encryption_mode user;
    Ret (match r with
         | Err _ => internal_error "failed to read encryption preference"
         | Ok mode => Reply 200 (Mode (canonical_encryption_mode mode))
         end).

Definition set_encryption_preference (user : string) (body : res string) : P reply :=
  if String.eqb user "" then Ret signed_out
  else
    match body with
    | Err _ => Ret (bad_request "INVALID_REQUEST" "invalid request body")
    | Ok mode =>
        let mode := canonical_encryption_mode mode in
        if negb (bool_decide (mode ∈ valid_encryption_modes))
        then Ret (bad_request "INVALID_MODE" "mode must be one of: client, server, none")
        else
          do r <- set_preferred_encryption_mode user mode;
          Ret (match r with
               | Err _ => internal_error "failed to save encryption preference"
               | Ok _ => Reply 200 (Mode mode)
               end)
    end.

Definition get_encryption_capabilities (user : string) : P reply :=
  if String.eqb user "" then Ret signed_out
  else
    do r <- get_preferred_encryption_mode user;
    match r with
    | Err _ => Ret (internal_error "failed to read encryption capabilities")
    | Ok mode =>
        let mode := canonical_encryption_mode mode in
        let mode := if String.eqb mode "" then ModeNone else mode in
        do live <- call (Outside (HasBunkerConnection user));
        Ret (Reply 200 (Capabilities (EncryptionCapabilityResponse (default user (encode_npub user)) live mode live live)))
    end.

Inductive settings_request := GetPreferenceR | SetPreferenceR (body : res string) | CapabilitiesR.

(** A request with the user of its session. *)
Definition serve_settings (r : string * settings_request) : P reply :=
  match r.2 with
  | GetPreferenceR => get_encryption_preference r.1
  | SetPreferenceR body => set_encryption_preference r.1 body
  | CapabilitiesR => get_encryption_capabilities r.1
  end.

(** * Properties *)

Definition mode_shown (r : reply) : option string :=
  match r with Reply _ (Mode m) => Some m | Reply _ (Capabilities c) => Some (ec_preferred_mode c) | _ => None end.

Section history.
Context {R : Type} `{Redis R} (h : history (M := preferences) (Q := query)) (users : list string) (start : preferences).

Record well (p : preferences) : Prop := Well {
  well_modes : map_Forall (fun _ m => m ∈ valid_encryption_modes) (pf_modes p);
  well_others : forall pk, pk ∉ users -> pf_modes p !! pk = pf_modes start !! pk }.

Section request.
Context (i : nat) (u : string) (Hu : u ∈ users).
Abbreviation keeps := (keeps (sees_good well h i) (keeps_good well)).

Definition mode_known (r : reply) : Prop := forall m, mode_shown r = Some m -> m = "" \/ m ∈ valid_encryption_modes.

Lemma no_mode r : mode_shown r = None -> mode_known r.
Proof. intros Hr m. by rewrite Hr. Qed.

Lemma canonical_valid m : m = "" \/ m ∈ valid_encryption_modes -> canonical_encryption_mode m = m.
Proof.
  unfold canonical_encryption_mode. intros Hm. destruct (String.eqb_spec m "e2e") as [->|]; [|done]. destruct Hm as [|Hm]; [done|].
  repeat (apply elem_of_cons in Hm as [?|Hm]; [done|]). by apply not_elem_of_nil in Hm.
Qed.

Lemma keeps_get_mode : keeps (fun r => forall m, r = Ok m -> m = "" \/ m ∈ valid_encryption_modes) (get_preferred_encryption_mode u).
Proof.
  eapply keeps_bind; [apply keeps_statement with (q := fun m => m = "" \/ m ∈ valid_encryption_modes)|].
  - intros p Hp. split; [done|]. simpl. destruct (pf_mailboxes p !! u) as [mb|]; [|by left].
    destruct (pf_modes p !! u) as [m|] eqn:E; [right|by left]. exact (well_modes _ Hp _ _ E).
  - intros [m|e] Hm; [|done]. intros m' [= <-]. by apply Hm.
Qed.

Lemma keeps_update_mode mode : mode ∈ valid_encryption_modes -> keeps (fun _ => True) (update_preference u mode).
Proof.
  intros Hm. split; [done|]. intros now _. cbn [bind]. eapply keeps_bind; [apply keeps_statement with (q := fun _ => True)|done].
  intros p Hp. split; [|done]. unfold update_mode. destruct (pf_mailboxes p !! u); [|done]. destruct Hp as [Hv Ho]. split; simpl.
  - by apply map_Forall_insert_2.
  - intros pk Hpk. rewrite lookup_insert_ne; [by apply Ho|]. by intros ->.
Qed.

Lemma keeps_set mode : mode ∈ valid_encryption_modes -> keeps (fun _ => True) (set_preferred_encryption_mode u mode).
Proof.
  intros Hm. eapply keeps_bind; [by apply keeps_update_mode|]. intros [n|e] _; [|done]. destruct (n =? 0); [|done].
  split; [done|]. intros now _. cbn [bind]. eapply keeps_bind; [apply keeps_statement with (q := fun _ => True)|].
  - intros p [Hv Ho]. split; [|done]. unfold ensure_owner. destruct (ensure_mailbox _ _ _ _). by split.
  - intros [[m|e]|e] _; [|done..]. eapply keeps_bind; [by apply keeps_update_mode|]. by intros [] _.
Qed.

Lemma keeps_serve_settings r : keeps mode_known (serve_settings (u, r)).
Proof.
  destruct r as [|body|]; cbn [serve_settings fst snd].
  - unfold get_encryption_preference. destruct (String.eqb _ _); [by apply no_mode|]. eapply keeps_bind; [apply keeps_get_mode|].
    intros [m|e] Hm; [|by apply no_mode]. intros x [= <-]. rewrite canonical_valid; by apply Hm.
  - unfold set_encryption_preference. destruct (String.eqb _ _); [by apply no_mode|]. destruct body as [m|]; [|by apply no_mode].
    cbv zeta. destruct (decide (canonical_encryption_mode m ∈ valid_encryption_modes)) as [Hm|Hm];
      [rewrite bool_decide_true by done|rewrite bool_decide_false by done; by apply no_mode]. cbn [negb].
    eapply keeps_bind; [by apply keeps_set|]. intros [[]|e] _; [|by apply no_mode]. intros x [= <-]. by right.
  - unfold get_encryption_capabilities. destruct (String.eqb _ _); [by apply no_mode|]. eapply keeps_bind; [apply keeps_get_mode|].
    intros [m|e] Hm; [|by apply no_mode]. split; [done|]. intros live _ x [= <-]. rewrite canonical_valid by by apply Hm.
    destruct (Hm m eq_refl) as [->|Hv]; [right; simpl; set_solver|]. destruct (String.eqb m ""); [right; set_solver|by right].
Qed.

End request.
End history.

(** Only known encryption modes are ever stored or shown.  Whatever requests
    of however many users are served together, in any interleaving and whatever
    statements fail: every stored preference is one of the three modes, every
    mode in a reply is one of them or empty, and the preference of a user who
    made no request is as it was. *)
Theorem stored_modes_are_known {R} `{Redis R} reqs h t (w w' : world preferences R) out
    (Hrun : concurrent (map serve_settings reqs) t w h w' out)
    (Hlen : Forall (fun e => (e.1.2 < length reqs)%nat) h)
    (Hstart : map_Forall (fun _ m => m ∈ valid_encryption_modes) (pf_modes (w_memory w))) :
  map_Forall (fun _ m => m ∈ valid_encryption_modes) (pf_modes (w_memory w')) /\
  (forall i r m, (i < length reqs)%nat -> out i = Some r -> mode_shown r = Some m -> m = "" \/ m ∈ valid_encryption_modes) /\
  forall pk, pk ∉ map fst reqs -> pf_modes (w_memory w') !! pk = pf_modes (w_memory w) !! pk.
Proof.
  destruct (good_throughout (well (map fst reqs) (w_memory w)) h (map serve_settings reqs) (fun _ => mode_known) t w w' out Hrun)
    as [[Hv Ho] Hq].
  - by rewrite length_map.
  - intros i p Hp. rewrite list_lookup_fmap in Hp. destruct (reqs !! i) as [[u r]|] eqn:Ei; [|done]. injection Hp as <-.
    apply keeps_serve_settings. apply list_elem_of_fmap. exists (u, r). split; [done|by eapply list_elem_of_lookup_2].
  - by split.
  - split; [done|]. split; [|done]. intros i r m Hi Hr Hm. apply (Hq i r); [|done|done]. rewrite list_lookup_fmap.
    apply lookup_lt_is_Some in Hi as [q ->]. by eexists.
Qed.

(** A saved preference applies.  By itself, a request that saves a mode the
    service knows, or its old name, is answered with the mode, also for a user
    who has no mailbox yet, and reading the preference then gives it back. *)
Theorem saved_mode_is_read_back {R} `{Redis R} os user mode (w : world preferences R)
    (Hdb : forall n, or_outside (os n) _ Database = Done) (Hu : user <> "")
    (Hmode : canonical_encryption_mode mode ∈ valid_encryption_modes) :
  exists n w', run os 0 (set_encryption_preference user (Ok mode)) w =
      (n, w', Some (Reply 200 (Mode (canonical_encryption_mode mode)))) /\
    forall k, (run os k (get_encryption_preference user) w').2 = Some (Reply 200 (Mode (canonical_encryption_mode mode))).
Proof.
  assert (forall (p : preferences) r k, select_mode user p = (p, canonical_encryption_mode mode) ->
    (run os k (get_encryption_preference user) (World r p)).2 = Some (Reply 200 (Mode (canonical_encryption_mode mode)))) as Hget.
  { intros p r k Hp. unfold get_encryption_preference. destruct (String.eqb_spec user ""); [done|].
    unfold get_preferred_encryption_mode, statement. cbn [bind call run perform]. rewrite Hdb. cbn [bind call run perform w_memory w_redis].
    rewrite Hp. cbn [bind run wrap snd]. by rewrite canonical_valid by by right. }
  unfold set_encryption_preference. destruct (String.eqb_spec user ""); [done|]. cbv zeta. rewrite bool_decide_true by done.
  cbn [negb]. unfold set_preferred_encryption_mode, update_preference, statement.
  cbn [bind call run perform bind_res]. rewrite Hdb. cbn [bind call run perform w_memory w_redis]. unfold update_mode at 1.
  destruct (pf_mailboxes (w_memory w) !! user) as [m|] eqn:Em.
  - cbn [bind run wrap bind_res Z.eqb]. eexists _, _. split; [reflexivity|]. intros k. apply Hget. unfold select_mode. simpl.
    by rewrite !lookup_insert_eq.
  - cbn [bind call run perform wrap bind_res Z.eqb w_memory w_redis]. rewrite Hdb.
    cbn [bind call run perform bind_res w_memory w_redis ensure_owner ensure_mailbox]. rewrite Em.
    cbn [bind call run perform bind_res w_memory w_redis]. rewrite Hdb. cbn [bind call run perform bind_res w_memory w_redis].
    unfold update_mode at 1. cbn [pf_mailboxes pf_modes]. rewrite lookup_insert_eq. cbn [bind run wrap bind_res].
    eexists _, _. split; [reflexivity|]. intros k. apply Hget. unfold select_mode. simpl. by rewrite !lookup_insert_eq.
Qed.

End keys.

(** ** Witnesses *)

Definition settings_world (X : Type) (q : query X) : X :=
  match q in query Y return Y with Database => Done | HasBunkerConnection _ => true end.
Definition settings_oracle (i : nat) : oracle query := Oracle (Z.of_nat i) Done (fun _ => Ok "") "" settings_world.
Definition no_npub (pubkey : string) : option string := None.
Definition no_preferences : world preferences kv := World ∅ (Preferences ∅ ∅).
(** Two saves of one user and a reading by another. *)
Definition settings_requests : list (string * settings_request) :=
  [("alice", SetPreferenceR (Ok "e2e")); ("alice", SetPreferenceR (Ok "server")); ("bob", CapabilitiesR)].
Definition settings_turns : list nat := repeat 0%nat 7 ++ repeat 1%nat 20 ++ repeat 0%nat 20 ++ repeat 2%nat 9.
Definition played_settings :=
  interleave settings_oracle 0 settings_turns (map (serve_settings no_npub) settings_requests) no_preferences.

Lemma played_settings_concurrent : concurrent (map (serve_settings no_npub) settings_requests) 0 no_preferences
  played_settings.1 played_settings.2.1 (results played_settings.2.2).
Proof.
  assert (forall i, or_now (settings_oracle i) <= or_now (settings_oracle (S i))) as Hclock by (intros i; simpl; lia).
  pose proof (interleave_concurrent settings_oracle Hclock settings_turns 0%nat (map (serve_settings no_npub) settings_requests)
    0 no_preferences) as Hi.
  unfold played_settings. destruct (interleave _ _ _ _ _) as [h [w' pool]]. apply Hi. simpl. done.
Qed.

Lemma stored_modes_are_known_witness :
  results played_settings.2.2 0%nat = Some (Reply 200 (Mode "client")) /\
  results played_settings.2.2 1%nat = Some (Reply 200 (Mode "server")) /\
  pf_modes (w_memory played_settings.2.1) !! "alice" = Some "client" /\
  map_Forall (fun _ m => m ∈ valid_encryption_modes) (pf_modes (w_memory played_settings.2.1)).
Proof.
  split; [vm_compute; reflexivity|]. split; [vm_compute; reflexivity|]. split; [vm_compute; reflexivity|].
  apply (stored_modes_are_known no_npub settings_requests _ 0 no_preferences _ _ played_settings_concurrent).
  - apply made_by_requests. vm_compute. reflexivity.
  - apply map_Forall_empty.
Defined.

Lemma saved_mode_is_read_back_witness :
  exists n w', run settings_oracle 0 (set_encryption_preference "alice" (Ok "e2e")) no_preferences =
      (n, w', Some (Reply 200 (Mode "client"))) /\
    forall k, (run settings_oracle k (get_encryption_preference "alice") w').2 = Some (Reply 200 (Mode "client")).
Proof.
  apply (saved_mode_is_read_back settings_oracle "alice" "e2e" no_preferences); [reflexivity|discriminate|].
  apply list_elem_of_here.
Defined.
