(* ===== verification/Routes.v ===== *)
(** * Request labels: cmd/email/main.go, loggingMiddleware

    The path of a request, as the metrics label it: segments that look like
    identifiers become a placeholder.  Paths are walked rune by rune. *)

From S2P Require Import Prelude GoStrings GoRunes Http Prog SessionStore Auth ClientAuth AuthHistory Domains.

Fixpoint path_runes (sep : ascii) (current : string) (rs : list string) : list string :=
  match rs with
  | [] => if String.eqb current "" then [] else [current]
  | r :: rs =>
      if is_rune sep r then (if String.eqb current "" then path_runes sep "" rs else current :: path_runes sep "" rs)
      else path_runes sep (current +:+ r) rs
  end.
Definition split_string (s : string) (sep : ascii) : list string := path_runes sep "" (runes s).

Definition split_path (path : string) : list string :=
  List.filter (fun seg => negb (String.eqb seg "")) (split_string path "/").

Definition join_path (segments : list string) : string := join "/" segments.

(** [seg[i] == c]. *)
Definition byte_is (seg : string) (i : nat) (c : ascii) : bool := bool_decide (String.get i seg = Some c).

Definition is_hex_digit (c : ascii) : bool := is_digit c || between "a" "f" c || between "A" "F" c.

Definition is_id_segment (seg : string) : bool :=
  let n := String.length seg in
  (Nat.eqb n 36 && byte_is seg 8 "-" && byte_is seg 13 "-" && byte_is seg 18 "-" && byte_is seg 23 "-")
  || (Nat.ltb 0 n && Nat.ltb n 20 && forall_chars is_digit seg)
  || (Nat.leb 16 n && Nat.leb n 64 && forall_chars is_hex_digit seg).

Definition normalize_path (path : string) : string :=
  match map (fun seg => if is_id_segment seg then ":id" else seg) (split_path path) with
  | [] => "/"
  | segments => "/" +:+ join_path segments
  end.

(** * Properties *)

(** A segment: not empty, of whole characters, without a slash. *)
Definition segment (s : string) : Prop := s <> "" /\ concat_str (runes s) = s /\ Forall (fun r => is_rune "/" r = false) (runes s).

Lemma segment_of rs : rs <> [] -> Forall whole rs -> Forall (fun r => is_rune "/" r = false) rs -> Forall (fun r => r <> "") rs ->
  segment (concat_str rs).
Proof.
  intros Hne Hw Hs Hr. assert (runes (concat_str rs) = rs) as E.
  { rewrite <- (app_nil_r_str (concat_str rs)), runes_concat by done. by rewrite app_nil_r. }
  split; [|by rewrite E]. destruct rs as [|r rs]; [done|]. apply Forall_inv in Hr. simpl. by destruct r.
Qed.

Lemma runes_nonempty s : Forall (fun r => r <> "") (runes s).
Proof.
  pose proof (runes_whole s) as Hw. eapply Forall_impl; [exact Hw|]. intros r Hr ->. specialize (Hr "").
  done.
Qed.

Lemma path_runes_segments rs : forall cur, Forall whole (cur ++ rs) -> Forall (fun r => r <> "") (cur ++ rs) ->
  Forall (fun r => is_rune "/" r = false) cur -> Forall segment (path_runes "/" (concat_str cur) rs).
Proof.
  assert (forall cur, concat_str cur <> "" -> cur <> []) as Hnil by (by intros [] ?).
  induction rs as [|r rs IH]; intros cur Hw Hn Hs; cbn [path_runes].
  - rewrite app_nil_r in *. destruct (String.eqb_spec (concat_str cur) ""); constructor; [|constructor]. apply segment_of; auto.
  - pose proof Hw as [Hw1 [_ Hw2]%Forall_cons]%Forall_app. pose proof Hn as [Hn1 [_ Hn2]%Forall_cons]%Forall_app.
    destruct (is_rune "/" r) eqn:E.
    + destruct (String.eqb_spec (concat_str cur) ""); [by apply (IH [])|]. constructor; [apply segment_of; auto|by apply (IH [])].
    + replace (concat_str cur +:+ r) with (concat_str (cur ++ [r])) by (rewrite concat_str_app; simpl; by rewrite app_nil_r_str).
      apply IH; [by rewrite <- app_assoc..|]. apply Forall_app. by repeat constructor.
Qed.

Lemma split_path_segments p : Forall segment (split_path p).
Proof.
  unfold split_path, split_string. pose proof (path_runes_segments (runes p) [] (runes_whole p) (runes_nonempty p) ltac:(constructor)) as Hf.
  revert Hf. cbn [concat_str foldr]. generalize (path_runes "/" "" (runes p)). intros l. induction 1 as [|x l Hx _ IH]; [constructor|].
  simpl. destruct (String.eqb x ""); [done|]. by constructor.
Qed.

Lemma path_runes_app sep rs rest : Forall (fun r => is_rune sep r = false) rs -> forall current,
  path_runes sep current (rs ++ rest) = path_runes sep (current +:+ concat_str rs) rest.
Proof.
  induction 1 as [|r rs Hr _ IH]; intros current; simpl; [by rewrite app_nil_r_str|]. by rewrite Hr, IH, app_assoc_str.
Qed.

Lemma segment_runes s t : segment s -> runes (s +:+ t) = runes s ++ runes t.
Proof. intros (_ & E & _). rewrite <- E at 1. apply runes_concat, runes_whole. Qed.

Lemma path_runes_join segs : Forall segment segs -> path_runes "/" "" (runes (join "/" segs)) = segs.
Proof.
  induction 1 as [|s segs Hs Hsegs IH]; [done|]. pose proof Hs as (Hne & E & Hno).
  destruct segs as [|s' segs].
  - cbn [join]. rewrite <- (app_nil_r (runes s)), path_runes_app, E by done. simpl. by destruct (String.eqb_spec s "").
  - rewrite join_cons, segment_runes, path_runes_app, E by done.
    change (runes ("/" +:+ join "/" (s' :: segs))) with ("/" :: runes (join "/" (s' :: segs))). cbn [path_runes String.append].
    change (is_rune "/" "/") with true. cbv iota. destruct (String.eqb_spec s ""); [done|]. by rewrite IH.
Qed.

Lemma filter_segments segs : Forall segment segs -> List.filter (fun seg => negb (String.eqb seg "")) segs = segs.
Proof.
  induction 1 as [|s segs (Hne & _) _ IH]; [done|]. simpl. destruct (String.eqb_spec s ""); [done|]. simpl. by rewrite IH.
Qed.

(** The segments of a path come back from it. *)
Lemma split_joined segs : Forall segment segs -> split_path ("/" +:+ join_path segs) = segs.
Proof.
  intros Hs. unfold split_path, split_string, join_path.
  change (runes ("/" +:+ join "/" segs)) with ("/" :: runes (join "/" segs)). cbn [path_runes].
  change (is_rune "/" "/") with true. change (String.eqb "" "") with true. cbv iota. by rewrite path_runes_join, filter_segments.
Qed.

Definition label (seg : string) : string := if is_id_segment seg then ":id" else seg.

Lemma label_segment s : segment s -> segment (label s).
Proof. unfold label. destruct (is_id_segment s); [|done]. intros _. split; [done|]. split; [reflexivity|]. by repeat constructor. Qed.
Lemma label_label s : label (label s) = label s.
Proof. unfold label. destruct (is_id_segment s) eqn:E; [reflexivity|]. by rewrite E. Qed.

Lemma normalized p : normalize_path p = "/" +:+ join_path (map label (split_path p)).
Proof. unfold normalize_path, label. by destruct (map _ (split_path p)). Qed.

Lemma labels_segments p : Forall segment (map label (split_path p)).
Proof. apply Forall_map. eapply Forall_impl; [apply split_path_segments|]. apply label_segment. Qed.

(** A label is the path with its identifiers forgotten.  Two paths have the same
    label exactly when their segments, bytes that are no text replaced and
    empty segments left out, agree one by one up to what looks like an
    identifier; and a label is its own label. *)
Theorem labels_forget_identifiers p q :
  (normalize_path p = normalize_path q <-> map label (split_path p) = map label (split_path q)) /\
  normalize_path (normalize_path p) = normalize_path p.
Proof.
  rewrite !normalized. split.
  - split; [|by intros ->]. intros E. rewrite <- (split_joined _ (labels_segments p)), E. by rewrite split_joined by apply labels_segments.
  - rewrite split_joined by apply labels_segments. rewrite map_map. do 2 f_equal. apply map_ext. apply label_label.
Qed.

(** The labels are not bounded, against what they are for.  Whatever a client
    puts into the last segment of a path, as long as it does not look like an
    identifier, is a label of its own: for every number there are that many
    paths of one route whose labels all differ. *)
Theorem labels_are_unbounded n : exists paths, length paths = n /\
  Forall (fun p => has_prefix p "/api/v2/email/z" = true) paths /\ NoDup (map normalize_path paths).
Proof.
  set (word := fix word k := match k with O => "" | S k => String "z" (word k) end).
  assert (forall k, concat_str (runes (word k)) = word k /\ Forall (fun r => is_rune "/" r = false) (runes (word k))) as Hword.
  { induction k as [|k [IH1 IH2]]; simpl; [done|]. rewrite IH1. split; [done|]. by constructor. }
  assert (forall k, segment (word (S k))) as Hseg by (intros k; split; [done|apply Hword]).
  assert (forall a b, word a = word b -> a = b) as Hinj.
  { induction a as [|a IH]; intros [|b] E; simplify_eq/=; auto. }
  assert (forall k, is_id_segment (word (S k)) = false) as Hid.
  { intros k. unfold is_id_segment. cbn [word forall_chars]. change (is_digit "z") with false. change (is_hex_digit "z") with false.
    rewrite !andb_false_r, !orb_false_r. assert (byte_is (String "z" (word k)) 8 "-" = false) as ->; [|by rewrite andb_false_r].
    unfold byte_is. apply bool_decide_eq_false. revert k. assert (forall i k, String.get i (word k) <> Some "-"%char) as Hget.
    { induction i as [|i IH]; intros [|k]; simpl; try done. }
    intros k. apply (Hget 8%nat (S k)). }
  set (segs := fun k => ["api"; "v2"; "email"; word (S k)]).
  assert (forall k, Forall segment (segs k)) as Hsegs.
  { intros k. repeat (constructor; [first [apply Hseg | by split; [|split; [|repeat constructor]]]|]). constructor. }
  exists (map (fun k => "/" +:+ join_path (segs k)) (seq 0 n)). split; [by rewrite length_map, length_seq|]. split.
  - apply Forall_map, Forall_true. intros k. apply has_prefix_spec. exists (word k). reflexivity.
  - rewrite map_map. apply NoDup_fmap_2_strong; [|apply NoDup_seq]. intros a b _ _ E.
    rewrite !normalized, !split_joined in E by apply Hsegs.
    assert (forall k, map label (segs k) = segs k) as Hlab.
    { intros k. unfold segs. cbn [map]. unfold label at 4. rewrite Hid. reflexivity. }
    rewrite !Hlab in E. apply (f_equal split_path) in E. rewrite !split_joined in E by apply Hsegs.
    injection E as E. by apply Hinj in E.
Qed.

(** ** The route table

    gorilla/mux picks the route: [route_of] is any choice of a route of the
    table for the method and path, and middleware runs for such a choice only,
    the router's own around that of the group: [ClientAuth.auth_middleware] or
    [Domains.internal_auth].  The handlers are any programs [run], given the
    session in the request's context. *)

Inductive guard := Public | Session | InternalSecret.

Inductive endpoint :=
| Health | Ready
| StartNIP46Auth | VerifyNIP46Auth | Logout | StartChallenge | VerifyChallenge | RefreshToken | TokenInfo
| DiscoverKey | GetMyKey
| ListContacts | AddContact | GetContact | UpdateContact | DeleteContact
| GetEncryptionPreference | SetEncryptionPreference | GetEncryptionCapabilities
| GetRelayPrefs
| SendEmailV2 | BulkActionV2 | CreateDraftV2 | UpdateDraftV2 | ListEmailsV2 | EmailStatsV2 | GetEmailV2 | DeleteEmailV2
| ArchiveEmailV2 | MarkReadV2 | MarkUnreadV2 | ToggleStarV2 | MoveEmailV2 | AddLabelV2 | RemoveLabelV2 | GetAttachmentV2
| InitNostrConnect | NIP46Status
| ListDomains | CreateDomain | DeleteDomain | VerifyDomain | ActivateDomain | DeactivateDomain | RotateDKIM.

#[export] Instance guard_eq_dec : EqDecision guard.
Proof. solve_decision. Defined.
#[export] Instance endpoint_eq_dec : EqDecision endpoint.
Proof. solve_decision. Defined.

Record route := Route { rt_method : string; rt_path : string; rt_guard : guard; rt_endpoint : endpoint }.

Definition group (prefix : string) (g : guard) (rs : list (string * string * endpoint)) : list route :=
  map (fun r => Route r.1.1 (prefix +:+ r.1.2) g r.2) rs.

Definition internal_routes : list route :=
  group "/internal/v1/domains" InternalSecret
    [("GET", "", ListDomains); ("POST", "", CreateDomain); ("DELETE", "/{domain}", DeleteDomain);
     ("POST", "/{domain}/verify", VerifyDomain); ("POST", "/{domain}/activate", ActivateDomain);
     ("POST", "/{domain}/deactivate", DeactivateDomain); ("POST", "/{domain}/rotate-dkim", RotateDKIM)].

Definition build_router (internal_api_secret : string) : list route :=
  group "" Public [("GET", "/health", Health); ("GET", "/ready", Ready)] ++
  group "/api/v1/auth" Public
    [("POST", "/nip46/challenge", StartNIP46Auth); ("POST", "/nip46/verify", VerifyNIP46Auth); ("POST", "/logout", Logout);
     ("GET", "/challenge", StartChallenge); ("POST", "/verify", VerifyChallenge); ("POST", "/refresh", RefreshToken);
     ("GET", "/token-info", TokenInfo)] ++
  group "/api/v1/keys" Session [("GET", "/discover", DiscoverKey); ("GET", "/mine", GetMyKey)] ++
  group "/api/v1/contacts" Session
    [("GET", "", ListContacts); ("POST", "", AddContact); ("GET", "/{id}", GetContact); ("PUT", "/{id}", UpdateContact);
     ("DELETE", "/{id}", DeleteContact)] ++
  group "/api/v1/encryption" Session
    [("GET", "/preferred-mode", GetEncryptionPreference); ("POST", "/preferred-mode", SetEncryptionPreference);
     ("GET", "/capabilities", GetEncryptionCapabilities)] ++
  group "/api/v1/relays" Public [("GET", "/prefs", GetRelayPrefs)] ++
  group "/api/v2/email" Session
    [("POST", "/send", SendEmailV2); ("POST", "/bulk", BulkActionV2); ("POST", "/drafts", CreateDraftV2);
     ("PUT", "/drafts/{id}", UpdateDraftV2); ("GET", "", ListEmailsV2); ("GET", "/stats", EmailStatsV2);
     ("GET", "/{id}", GetEmailV2); ("DELETE", "/{id}", DeleteEmailV2); ("PATCH", "/{id}/archive", ArchiveEmailV2);
     ("PATCH", "/{id}/read", MarkReadV2); ("PATCH", "/{id}/unread", MarkUnreadV2); ("PATCH", "/{id}/star", ToggleStarV2);
     ("PATCH", "/{id}/move", MoveEmailV2); ("POST", "/{id}/labels", AddLabelV2); ("DELETE", "/{id}/labels", RemoveLabelV2);
     ("GET", "/{id}/attachments/{attachmentId}", GetAttachmentV2)] ++
  group "/api/v2/auth" Session [("POST", "/nostrconnect/init", InitNostrConnect); ("GET", "/nip46/status", NIP46Status)] ++
  (if String.eqb internal_api_secret "" then [] else internal_routes).

Definition cors_methods : list string := ["GET"; "POST"; "PUT"; "DELETE"; "OPTIONS"].

Record http_request := HttpRequest {
  rq_method : string; rq_path : string; rq_authorization : string; rq_auth_token : option string }.

(** What happened to a request: its status, whether the CORS headers were set,
    what the metrics counted, and the handler that ran, with its session. *)
Record exchange := Exchange {
  ex_status : Z; ex_cors : bool; ex_counted : option (string * string * Z);
  ex_ran : option (endpoint * option auth_session) }.

Definition answer : Type := Z * option (endpoint * option auth_session).

(** [WriteResponse] in place of the handler. *)
Definition refused {B} (r : http_reply B) : answer := (status_of r, None).

#[local] Open Scope prog_scope.

Section serving.
Context `{SessionJSON}.
Context (sha256 : string -> string) (parse_me : string -> res string) (signer_url : string).
Context (route_of : list route -> string -> string -> option route).
Context (unmatched : Z) (run : endpoint -> option auth_session -> Auth.P Z).

Definition handler (e : endpoint) (s : option auth_session) : Auth.P answer := do status <- run e s; Ret (status, Some (e, s)).

Definition guarded (secret : string) (rq : http_request) (x : route) : Auth.P answer :=
  let e := rt_endpoint x in
  match rt_guard x with
  | Public => handler e None
  | Session => auth_middleware parse_me signer_url refused (rq_authorization rq) (rq_auth_token rq) (fun s => handler e (Some s))
  | InternalSecret => internal_auth sha256 refused secret (rq_authorization rq) (handler e None)
  end.

Definition cors_middleware (method : string) (next : Auth.P answer) : Auth.P answer :=
  if String.eqb method "OPTIONS" then Ret (200%Z, None) else next.

Definition logging_middleware (method path : string) (next : Auth.P answer) : Auth.P exchange :=
  do r <- next; Ret (Exchange r.1 true (Some (method, normalize_path path, r.1)) r.2).

Definition serve_http (internal_api_secret : string) (rq : http_request) : Auth.P exchange :=
  match route_of (build_router internal_api_secret) (rq_method rq) (rq_path rq) with
  | None => Ret (Exchange unmatched false None None)
  | Some x => logging_middleware (rq_method rq) (rq_path rq) (cors_middleware (rq_method rq) (guarded internal_api_secret rq x))
  end.

(** What needs no session: probes, logging in and out, and relay preferences. *)
Definition open_endpoint (e : endpoint) : bool :=
  bool_decide (e ∈ [Health; Ready; StartNIP46Auth; VerifyNIP46Auth; Logout; StartChallenge; VerifyChallenge; RefreshToken;
    TokenInfo; GetRelayPrefs]).
Definition administrative (e : endpoint) : bool :=
  bool_decide (e ∈ [ListDomains; CreateDomain; DeleteDomain; VerifyDomain; ActivateDomain; DeactivateDomain; RotateDKIM]).
(** Everything else: mail, contacts, keys, the encryption mode, the bunker. *)
Definition personal (e : endpoint) : bool := negb (open_endpoint e) && negb (administrative e).

Definition guard_of (e : endpoint) : guard :=
  if open_endpoint e then Public else if administrative e then InternalSecret else Session.

Definition well_guarded (x : route) : bool :=
  bool_decide (rt_guard x = guard_of (rt_endpoint x)) && negb (String.eqb (rt_method x) "OPTIONS").

Lemma table_guarded secret : forallb well_guarded (build_router secret) = true.
Proof. unfold build_router. rewrite !forallb_app. destruct (String.eqb secret ""); vm_compute; reflexivity. Qed.

Context (Hmux : forall table method path x, route_of table method path = Some x -> x ∈ table /\ rt_method x = method).

Lemma served_route secret method path x : route_of (build_router secret) method path = Some x ->
  rt_guard x = guard_of (rt_endpoint x) /\ method <> "OPTIONS".
Proof.
  intros [Hx Hm]%Hmux. pose proof (table_guarded secret) as Ht. rewrite forallb_forall in Ht.
  apply list_elem_of_In, Ht, andb_true_iff in Hx as [Hg Ho]. rewrite Hm in Ho. split; [by apply bool_decide_eq_true in Hg|].
  intros ->. done.
Qed.

(** The token a request carries: of the header or, without one, of the cookie. *)
Definition presented (rq : http_request) : option string :=
  if String.eqb (rq_authorization rq) "" then rq_auth_token rq else bearer_token (rq_authorization rq).

(** A handler runs as [s]: while it was served, the session of the token was
    validated, and this is it. *)
Definition in_session (rq : http_request) (tr : list (event (M := memory) (Q := outside))) (s : option auth_session) : Prop :=
  exists token v before after, presented rq = Some token /\ s = Some v /\ tr = before ++ after /\
    runs (validate_session parse_me signer_url token) before (Some (Ok v)).

Lemma handler_ran e s tr a e' s' : runs (handler e s) tr (Some a) -> a.2 = Some (e', s') -> e' = e /\ s' = s.
Proof. unfold handler. intros (status & t1 & t2 & _ & _ & [_ [[= ->]|?]])%runs_bind; [|done]. simpl. by intros [= -> ->]. Qed.

Lemma session_guard rq e tr a e' s' :
  runs (auth_middleware parse_me signer_url refused (rq_authorization rq) (rq_auth_token rq) (fun s => handler e (Some s))) tr (Some a) ->
  a.2 = Some (e', s') -> e' = e /\ in_session rq tr s'.
Proof.
  unfold auth_middleware. intros Hr Ha.
  assert (forall token, presented rq = Some token ->
    runs (do s <- validate_session parse_me signer_url token;
          match s with
          | Err _ => Ret (refused (unauthorized (B := auth_body) "AUTH_INVALID" "invalid or expired session"))
          | Ok s => handler e (Some s)
          end) tr (Some a) -> e' = e /\ in_session rq tr s') as Htoken.
  { intros token Hp (r & t1 & t2 & -> & Hv & Hh)%runs_bind. destruct r as [v|er]; [|by destruct Hh as [_ [[= ->]|?]]].
    destruct (handler_ran _ _ _ _ _ _ Hh Ha) as [-> ->]. split; [done|]. by exists token, v, t1, t2. }
  unfold presented in Htoken. destruct (String.eqb (rq_authorization rq) "").
  - destruct (rq_auth_token rq) as [[|c t]|]; [|by apply (Htoken _ eq_refl)|]; by destruct Hr as [_ [[= ->]|?]].
  - destruct (bearer_token (rq_authorization rq)) as [token|]; [by apply (Htoken _ eq_refl)|]. by destruct Hr as [_ [[= ->]|?]].
Qed.

Lemma secret_guard secret header e tr a e' s' :
  runs (internal_auth sha256 refused secret header (handler e None)) tr (Some a) -> a.2 = Some (e', s') ->
  e' = e /\ s' = None /\ secret <> "" /\ exists token, bearer_token header = Some token /\ sha256 token = sha256 secret.
Proof.
  unfold internal_auth, secrets_equal. intros Hr Ha.
  destruct (String.eqb_spec secret ""); [by destruct Hr as [_ [[= ->]|?]]|].
  destruct (bearer_token header) as [token|]; [|by destruct Hr as [_ [[= ->]|?]]].
  destruct (String.eqb_spec (sha256 token) (sha256 secret)); [|by destruct Hr as [_ [[= ->]|?]]].
  destruct (handler_ran _ _ _ _ _ _ Hr Ha) as [-> ->]. do 3 (split; [done|]). by exists token.
Qed.

(** C39. Nothing of a user's is served without a session, and nothing of the
    administration without the secret.  Whatever the request, whatever the
    handlers do and whichever of the matching routes mux picks: a handler that
    was run and answered is one of the listed open ones (probes, logging in and
    out, relay preferences), and then it had no session; or one of the internal
    API, and then a secret is configured and the bearer token of the request has
    its digest; or it ran with a session that [ValidateSession], asked while this
    request was served, returned for the token the request carries. *)
Theorem private_routes_are_guarded secret rq tr x e s
    (Hserved : runs (serve_http secret rq) tr (Some x)) (Hran : ex_ran x = Some (e, s)) :
  if open_endpoint e then s = None
  else if administrative e then
    s = None /\ secret <> "" /\ exists token, bearer_token (rq_authorization rq) = Some token /\ sha256 token = sha256 secret
  else in_session rq tr s.
Proof.
  unfold serve_http in Hserved. destruct (route_of _ _ _) as [y|] eqn:Ey; [|by destruct Hserved as [_ [[= ->]|?]]].
  apply served_route in Ey as [Hg Ho]. apply runs_bind in Hserved as (a & t1 & t2 & -> & Ha & [-> [[= ->]|?]]); [|done].
  rewrite app_nil_r. unfold cors_middleware in Ha. destruct (String.eqb_spec (rq_method rq) "OPTIONS"); [done|].
  unfold guarded, guard_of in *. rewrite Hg in Ha. simpl in Hran.
  destruct (open_endpoint (rt_endpoint y)) eqn:Eo; [|destruct (administrative (rt_endpoint y)) eqn:Ea].
  - destruct (handler_ran _ _ _ _ _ _ Ha Hran) as [-> ->]. by rewrite Eo.
  - destruct (secret_guard _ _ _ _ _ _ _ Ha Hran) as (-> & -> & ?). by rewrite Eo, Ea.
  - destruct (session_guard _ _ _ _ _ _ Ha Hran) as [-> ?]. by rewrite Eo, Ea.
Qed.

(** Browsers of other origins cannot use the service as the headers intend.  No
    preflight request is ever answered with them, whatever its path: no route
    has the method OPTIONS, so no middleware runs; and the methods the headers
    would allow leave out PATCH, by which five of the mail routes are called. *)
Theorem preflights_go_unanswered secret rq (Hpreflight : rq_method rq = "OPTIONS") :
  serve_http secret rq = Ret (Exchange unmatched false None None) /\
  map rt_endpoint (List.filter (fun x => negb (bool_decide (rt_method x ∈ cors_methods))) (build_router secret)) =
    [ArchiveEmailV2; MarkReadV2; MarkUnreadV2; ToggleStarV2; MoveEmailV2].
Proof.
  split.
  - unfold serve_http. destruct (route_of _ _ _) as [x|] eqn:Ex; [|done]. by apply served_route in Ex as [_ Ho].
  - unfold build_router. destruct (String.eqb secret ""); vm_compute; reflexivity.
Qed.

End serving.

(** ** Witnesses *)

(** The first route of the method whose path is literally the one asked for. *)
Definition literal (table : list route) (method path : string) : option route :=
  List.find (fun x => String.eqb (rt_method x) method && String.eqb (rt_path x) path) table.

Lemma literal_mux table method path x : literal table method path = Some x -> x ∈ table /\ rt_method x = method.
Proof. intros [Hx [Hm%String.eqb_eq _]%andb_true_iff]%find_some. split; [by apply list_elem_of_In|done]. Qed.

(** A server with a secret, whose signer service knows alice's token. *)
Abbreviation sample_server := (serve_http id (fun body => Ok body) "s" literal 404 (fun _ _ => Ret 200%Z) "hush").
Definition sample_stats : http_request := HttpRequest "GET" "/api/v2/email/stats" "Bearer A" None.
Definition sample_create : http_request := HttpRequest "POST" "/internal/v1/domains" "bearer hush" None.
Definition alone (rq : http_request) : option exchange := (Prog.run sample_oracle 0 (sample_server rq) (World (∅ : kv) sample_memory)).2.
Definition alice_now : option auth_session := Some (AuthSession "" "alice" "" "A" 63835597700003000000 63835596800003000000).

Lemma alone_runs rq : exists tr, runs (sample_server rq) tr (alone rq).
Proof.
  assert (0 <= of_unix 1700000000) as H0 by (by vm_compute).
  assert (forall i, 0 <= or_now (sample_oracle i)) as Hpos.
  { intros i. change (0 <= of_unix 1700000000 + Z.of_nat i * millisecond). unfold millisecond. lia. }
  destruct (run_happens sample_oracle (sample_server rq) 0 Hpos sample_clock 0%nat (World (∅ : kv) sample_memory) 0%nat)
    as (h & _ & Hr). by eexists.
Qed.

Lemma private_routes_are_guarded_witness :
  (exists tr, in_session (fun body => Ok body) "s" sample_stats tr alice_now) /\
  (exists token, bearer_token "bearer hush" = Some token /\ id token = id "hush").
Proof.
  split.
  - destruct (alone_runs sample_stats) as [tr Hr]. exists tr.
    apply (private_routes_are_guarded id (fun body => Ok body) "s" literal 404 (fun _ _ => Ret 200%Z) literal_mux "hush" sample_stats
      tr _ EmailStatsV2 alice_now Hr). vm_compute. reflexivity.
  - destruct (alone_runs sample_create) as [tr Hr].
    apply (private_routes_are_guarded id (fun body => Ok body) "s" literal 404 (fun _ _ => Ret 200%Z) literal_mux "hush" sample_create
      tr (Exchange 200 true (Some ("POST", "/internal/v1/domains", 200)) (Some (CreateDomain, None))) CreateDomain None).
    + revert Hr. vm_compute (alone sample_create). done.
    + reflexivity.
Defined.

Lemma preflights_go_unanswered_witness :
  sample_server (HttpRequest "OPTIONS" "/api/v2/email/send" "" None) = Ret (Exchange 404 false None None).
Proof.
  apply (preflights_go_unanswered id (fun body => Ok body) "s" literal 404 (fun _ _ => Ret 200%Z) literal_mux "hush"
    (HttpRequest "OPTIONS" "/api/v2/email/send" "" None)). reflexivity.
Defined.
